(* ===== verification/_CoqProject ===== *)
-Q . S2P
Prelude.v
GoStr.v
Json.v
RawJson.v
JsonDecode.v
Optional.v
FilePath.v
Base64.v
AppErr.v
Observability.v
Config.v
ConfigLoad.v
Port.v
Geo.v
Pagination.v
Database.v
TxContext.v
Validator.v
DecisionCache.v
Casbin.v
Watcher.v
CasbinSteps.v
Cache.v
Auth.v
Expiry.v
Middleware.v
AuthHttp.v
Role.v
RateLimit.v
Routes.v
Server.v
Seed.v
Sse.v
SseStreams.v
Storage.v
S3.v
Template.v
Scaffold.v
Generated.v
Worker.v
JobJson.v
NoOp.v
AuditStore.v
Email.v
Health.v
App.v
SeedMain.v
StreamShutdown.v
User.v
UserList.v
UserProps.v
Wiring.v
AuditedModules.v
Requests.v
RabbitMQ.v
Delivery.v
TestUtil.v
