(* ===== verification/Prelude.v ===== *)
(** * goscratch: a verification development

    goscratch is a Go HTTP service skeleton (Fiber, PostgreSQL, Redis, RabbitMQ, Casbin)
    in ports-and-adapters style.  This library models its own logic as executable
    definitions, one file per component, and proves the properties its callers rely on.

    ** The program and how its parts interact

    A request passes the middleware ([internal/platform/http/middleware]): request id,
    security headers, rate limiting, token authentication, permission checks.  A handler
    ([internal/module/*/handler]) binds and validates the body, calls a use case
    ([internal/module/*/usecase]), possibly through an audit decorator, and turns the
    result or the error into a response ([pkg/response], [pkg/apperr]).  Use cases talk to
    ports ([internal/port]): cache, authorizer, storage, queue, auditor, SSE broker.
    Adapters ([internal/adapter]) implement the ports.  A worker process
    ([internal/worker]) consumes jobs from the queue and retries failures.

    ** Files, and the code each of them models

    - [Prelude]: the [result] type for Go's [(T, error)], machine-integer wrap-around, the
      development's tactics, the hint database [go] and the rewrite database [go_str],
      generic list, map and string lemmas.
    - [GoStr], [FilePath], [Base64]: the functions of the Go packages [strings],
      [path/filepath] (Unix) and [encoding/base64] that the program calls.
    - [AppErr]: [pkg/apperr/error.go], [pkg/response/response.go] and the error handler of
      [middleware/error_handler.go].  Errors are chains, so [errors.As] is a function.
    - [Json], [JsonDecode]: the encoder and decoder of [encoding/json] on values, and decoding
      into typed fields.  [RawJson]: JSON kept as text ([json.RawMessage]): compaction, the
      members of an object with their texts.  [Optional]: [pkg/types].
    - [Observability]: [pkg/logger] and [internal/platform/observability] (loggers, the metric
      registry and its updates, spans).  [Geo]: [internal/shared/domain/geo].
    - [Config], [ConfigLoad]: [internal/platform/config/config.go]: derived settings,
      [Validate] and the reflection walk of [applyEnvOverrides]; the schema of every section
      and [Load].
    - [Port]: the interfaces of [internal/port] as classes over an explicit state, the
      audit entry builders, the request context; also the contracts [CacheSafety] (what is
      read was written and not deleted since) and [CacheRetention] (what was written is
      read back) against which sessions are proved.
    - [Pagination]: [internal/shared/domain/cursor.go].
    - [Database]: [pkg/pgutil] and [Transactor.WithTx] of [internal/platform/database].
      [TxContext]: the transaction in the context and the handle each statement gets from it.
    - [Validator]: [internal/platform/validator] and [sanitizer].
    - [DecisionCache], [Casbin], [Watcher]: [internal/adapter/casbin] (the cache, the adapter
      and the no-op adapter, the watchers with the callback).  [CasbinSteps]: the same methods
      one call of the enforcer or of the cache at a time, so that they overlap, at one
      instance and in a cluster of replicas over one table.
    - [Cache]: [internal/adapter/cache] (no-op and Redis adapters, the Lua script).
    - [Auth], [AuthHttp]: [internal/module/auth] (login, refresh, logout, revocation, audit
      decorator; the handlers).  [Expiry]: the lifetime of refresh tokens over a cache with
      times of expiry.
    - [Middleware], [RateLimit]: [auth.go], [authz.go], [request_id.go],
      [security_headers.go] and [rate_limit.go] of the HTTP middleware.
    - [Role]: [internal/module/role] (catalogue, use case, handlers).
    - [Routes], [Server]: the [RegisterRoutes] of every module and the walk of a request
      through groups, guards and routes; [internal/platform/http/server.go], [cors.go],
      [logger.go] and the global middleware chain of [app.go].
    - [Seed], [SeedMain]: [scripts/seed/main.go]: its loops with the policy they leave at the
      routes, and the command.
    - [Sse]: [internal/adapter/sse] and [internal/module/sse/handler].  [SseStreams]: broker
      and running body streams as one system.  [StreamShutdown]: that system under the
      shutdown phases of [App].
    - [Storage], [S3]: [internal/port/storage.go], [internal/adapter/storage] and
      [internal/module/storage]; both adapters are instances of [StorageSpec].
    - [Template], [Scaffold], [Generated]: [cmd/scaffold]: the fragment of [text/template] and
      the six templates, the generator, and the package it generates.
    - [Worker], [NoOp]: [internal/worker] and [internal/module/job]; the no-op queue and broker.
      [JobJson]: the JSON of a job and the binding of a dispatch request.
    - [Wiring]: the constructors of all modules, use cases and decorators, and the part of
      [app.go] that connects them, as a graph of objects.  [AuditedModules]: the storage and
      job modules behind their interfaces, with their decorators.
    - [AuditStore]: [internal/adapter/audit] and the clean-up job handler.
    - [Email]: [internal/adapter/email] and the e-mail job handler.
    - [Health]: [internal/module/health].
    - [App]: [internal/platform/app/app.go], the connection pool, [cmd/api] and [cmd/worker].
    - [User]: [internal/module/user] (SQL statements, repository, use case, audit decorator,
      handlers); [UserList] and [UserProps] hold its theorems.
      [Requests]: the request types of every module and their binding.
    - [RabbitMQ]: [internal/adapter/queue/rabbitmq.go]; redials run in the steps they take
      outside and under the lock.  [Delivery]: dispatch, the way to the broker, broker,
      consumer and worker composed into one system of steps, with publications that vanish
      (the adapter asks for no confirms), lost connections and shutdown.
    - [TestUtil]: [internal/platform/testutil] (containers, the test application, its tokens).

    ** Modelling conventions

    A method that changes state takes the state and returns the new one with its results; a Go
    [error] is the [error] type of [AppErr]; a nil pointer is [None]; a Go panic is [None]
    where the component can panic (SSE channels, page slicing) or an outcome (transactions).
    Integers are [Z]; wrap-around ([wrap64]) is written where a product or a conversion can
    exceed its width.  The clock, random bytes, fresh UUIDs and the moments at which timers
    fire are inputs of the calls.  Components whose methods run under a lock are modelled by
    interleavings of whole method calls.  Where methods take no lock and a theorem is about
    their interleaving ([CasbinSteps], the redials of [RabbitMQ], the publications and
    deliveries of [Delivery], [SseStreams]) the atomic calls inside them are the steps; the
    theorems on sessions, users and other requests take requests one after the other.

    ** Parameters

    Third-party code is a class, and what the code relies on is a second class of laws:
    [Crypto] (SHA-256, bcrypt, JWT signing) and [JwtVerifier] with [JwtLaws]; [Enforcer] with
    [EnforcerLaws] (Casbin); [Redis] with [RedisLaws]; [Uuid]; [FS] with [FSLaws] (the file
    system); [S3Client] with [S3Laws]; [JsonCodec] (JSON of a value type); [TimeText] (RFC 3339
    times); [CacheExpiry] (what is written with a lifetime is gone afterwards); [RuleEngine]
    with [RuleLaws] (the validation library); [Postgres] (ILIKE) and [AuditPg] (the audit table's SQL types); [PubSub] and
    [SharedTable] (what connects replicas); [Peer] (the answers of an SMTP server); [Router] with [RouterLaws],
    [FiberIP] and [CorsHandler] (Fiber).  Failures of SQL statements, the answers to
    transaction commands and the outcomes of constructors (the [World] records) are inputs.
    [Driver] answers the calls of transactions, with [FreshTx] as its law.
    [JobCodec] is the interface between the worker and the JSON of a job: the worker's theorems
    use its round-trip law on the jobs [job_ok] names, and [JobJson] proves it of the real
    encoding.  Every law class has a concrete instance
    in the development, used by the witnesses.

    ** What the theorems show

    - Sessions ([Auth]): a revoked session never refreshes again, whatever calls follow
      ([revocation_permanent]); rotation consumes the old token ([refresh_rotates]); logout
      ends the caller's own session only; the audit decorator is transparent and complete.
      They are proved against the cache contracts: both adapters satisfy [CacheSafety], and
      the Redis adapter over a server that loses nothing satisfies [CacheRetention].
    - Authorization: the LRU decision cache refines a recency list ([run_refines]) within
      its capacity; with calls overlapping, the cached decisions for a subject equal the current
      policy from the return of the operation that promises it to the next rule change that
      affects it, unless an outdated answer was still to be stored
      ([cached_decisions_exact]); the guards pass a request exactly when
      the policy grants it; a protected route is reached only with an accepted token and a
      granted permission ([guarded_route_sound]); the role API keeps the catalogue closed.
    - Users: following the cursors of the listing visits every selected user once and ends
      ([listing_complete]), and going back undoes going forward ([prev_undoes_next]); a
      password change ends every session of the user and, for an active account, stores the
      new hash ([change_password_revokes]); accounts are found again after their
      creation; status changes are audited exactly.
    - Requests end to end: whatever the configuration, an endpoint is reached only when its
      access policy holds of the request the client sent ([access_policy]); a session over
      HTTP works and ends under the fixed issuer and audience ([http_session]), and under no
      other ([access_token_accepted]); the client address is the socket's unless a
      configured proxy says otherwise ([client_ip_trusted]).
    - Replicas: after a back-stop reload that succeeded, with no older check under way at its
      flush, a replica decides by the shared table until the table or the replica's rules
      change, whatever messages were lost or misapplied before ([backstop_converges]).
    - Life cycle: nothing starts on an insecure configuration or without its authorizer
      ([boot_fail_closed]); shutdown closes everything once, in order and in time
      ([shutdown_releases_all], [shutdown_in_time]); readiness is exact whatever the order
      in which the checks end ([readiness_exact]); a file and the environment load to the
      configuration they spell out ([load_exact]); seeding is idempotent ([seed_idempotent]).
    - Audit and mail: the assembled query selects what its filter says
      ([audit_query_exact]), logged entries are read back, the clean-up ends and removes exactly
      what is older than its cutoff in calendar days ([cleanup_exact]), a sent mail went to every recipient and hides the Bcc ones
      ([smtp_send_exact]).
    - Rate limiting: the in-memory backend refines the complete request log and admits at
      most [Max] requests in any window; the middleware's policy on backend failures.
    - Storage: no key escapes the base directory; upload, download and delete round-trip on
      any adapter that keeps the contract, as both do; sanitized paths and header values are
      safe; S3 listings are complete over all pages.
    - Values: optional fields have exactly three states ([nopt_three_states]); comparisons of
      coordinates are exact, boxes sound, distances never negative ([compare_exact],
      [bounding_box_sound], [distances_nonneg]); metrics count exactly under every
      interleaving ([metrics_exact]).
    - SSE: no interleaving panics; a topic broadcast reaches exactly the right clients; the
      stream is read back by an event-stream parser.  With its body streams the broker refines
      one bounded queue per connection ([streams_refine]); a connected client gets its events
      in order, and all of them while it keeps up ([stream_delivery]); Close lets every stream
      drain and end ([streams_drain]).
    - Transactions: one that succeeds has done exactly what its function did ([WithTx_ok]);
      all that begin end, innermost first, and no statement runs on one that has ended
      ([transactions_nest]).
    - Wiring: every guard has the one secret and the one authorizer, a password change revokes
      through the use case behind the login, four modules are audited to one log ([wiring]).
    - Jobs, from the request to the handler: the payload of an accepted dispatch reaches the
      worker as the JSON value that was sent ([dispatch_payload_delivered]); in every
      interleaving an accepted job is on its way, has an end in the log, or lost a publication
      of which the program keeps no trace, and without such a loss ends as intended
      ([accepted_jobs_conserved]); executions are bounded by the retry limit and the number of
      redeliveries ([executions_bounded]); a running worker's moves end with every accepted
      job settled when no publication is lost ([accepted_jobs_settle]); shutdown stops retries and loses those that wait.
    - Tokens and requests: a refresh token is refused once its lifetime has passed
      ([refresh_token_expires]); binding hands on sanitized, valid values or answers 400
      ([request_binding]); the audit log of files and jobs says exactly what succeeded
      ([storage_module_audit], [job_module_audit]).
    - Tools: the generator writes only its six files ([scaffold_writes]), and the package they
      make declares no name twice but for two module names ([generated_module]); seeding
      twice is seeding once ([seed_command]).
    - Queue adapter: every open connection is the current one or that of a redial under way,
      and nothing stays open after them ([connections_owned]); a
      consumer's reconnect is bounded in attempts and delays ([reconnect_bounded]).
    - Cache, configuration, validation, errors: the prefix deletion loop ends and is
      complete; overrides reach every tagged leaf; handlers act on sanitized and validated
      requests only; responses never depend on wrapped causes.
    - Theorems about behaviour that departs from the intention of the code state the
      departure at a concrete input ([user_permission_on_role_name_stale],
      [redis_script_burst], [sse_data_injection], [dispatch_id_mismatch],
      [deactivation_keeps_sessions], [local_base_degenerate],
      [reconnect_after_close_leaks], [revocation_race_stale], [query_truncated_silently],
      [subject_header_injection], [hung_close_stalls], [logger_before_error_handler],
      [s3_outage_not_found], [noop_dispatch_accepted], [nan_accepted],
      [publisher_outage_permanent], [retry_lost_at_shutdown], [shutdown_leaves_handler],
      [test_token_refused], [bind_conflates], [use_case_declared_twice],
      [seed_default_path], [idle_stream_stays], [idle_stream_holds_shutdown],
      [late_subscriber_stays], [inner_survives_rollback], [vanished_after_201],
      [huge_retention_deletes_recent]).

    ** Bounds and fuel

    Loops that are not structural have fuel.  The fuel of the JSON decoder is twice the
    length of its input, which [parse_fuel] shows to be enough.  The fuel of the Redis SCAN
    loop is one more than the number of keys the server's cursor has left to visit
    ([redis_scan_left]), which [RedisLaws] makes decrease at every page, and
    [delete_by_prefix_complete] proves that this fuel is enough; the S3 listing is treated
    alike ([s3_list_exact]).  The clean-up loop runs one round per thousand expired rows plus
    one ([cleanup_exact]); [findRepoRoot] needs one step per path element
    ([repo_root_nearest]); [itoa] has twenty digits, as many as an int can need.  Casbin's
    maximal role hierarchy depth is a parameter of [EnforcerLaws]; the concrete enforcer of
    the witnesses uses Casbin's default of ten levels.  The budgets of the shutdown phases are
    float64 products; they are computed with the rounding to 53 bits, for totals from 21 ns to
    2^46 ns, and [Geo] uses the full IEEE 754 specification of the Standard Library.

    ** Not modelled

    Network and process I/O itself: connections, sockets, signals and files appear as the
    outcomes they have.  The output of logs, metrics and traces and the progress messages of
    the two tools; actions of [text/template] beyond a field; the validation library's rules,
    the HTML policy, multipart parsing and content sniffing, which are parameters; data races
    below the level of a lock-protected method or an atomic update; what happens inside
    overlapping calls of Casbin's enforcer, each of which is taken as atomic although the
    plain enforcer the adapter makes has no lock; strings that Fiber reuses after a handler
    has returned; generated documentation
    ([internal/module/docs] beyond its routes); Docker and the migration library behind the
    test helpers.  The cancellation of a request's context appears as the error of the call
    that was given it, among the failures the inputs allow, not as an event of its own.
    What has no definition of its own is interface declarations and structs that name
    third-party types, constructors and wrappers that only store or pass on their arguments
    ([defaultDialer], [stringsToIfaces]), constants that are texts for people, and response
    types that repeat a model's record. *)
From Stdlib Require Export ZArith Lia Ascii String.
From stdpp Require Export prelude gmap strings pretty.

#[global] Open Scope Z_scope.

(** ** Results: a Go [(T, error)] pair *)

Inductive result (E A : Type) : Type :=
| Ok (val : A)
| Err (err : E).
Arguments Ok {E A} val.
Arguments Err {E A} err.

#[export] Instance result_eq_dec `{EqDecision E, EqDecision A} : EqDecision (result E A).
Proof. solve_decision. Defined.

Definition res_bind {E A B} (r : result E A) (f : A → result E B) : result E B :=
  match r with Ok a => f a | Err e => Err e end.

Definition res_map {E A B} (f : A → B) (r : result E A) : result E B :=
  match r with Ok a => Ok (f a) | Err e => Err e end.

Definition is_ok {E A} (r : result E A) : bool :=
  match r with Ok _ => true | Err _ => false end.

Declare Scope go_scope.
Delimit Scope go_scope with go.
Notation "'let?' x ':=' r 'in' k" := (res_bind r (λ x, k))
  (at level 10, x pattern, r at level 100, k at level 200) : go_scope.

(** ** Tactics *)

(** Case analysis on the scrutinee of a [match] or an [if] of the goal. *)
Ltac go_case :=
  match goal with
  | |- context [match ?x with _ => _ end] =>
      lazymatch x with
      | context [match _ with _ => _ end] => fail
      | _ => destruct x eqn:?
      end
  end.

(** The same on a hypothesis. *)
Ltac go_case_in H :=
  match type of H with
  | context [match ?x with _ => _ end] =>
      lazymatch x with
      | context [match _ with _ => _ end] => fail
      | _ => destruct x eqn:?
      end
  end.

Ltac go_cases := repeat (go_case; simplify_eq/=).
Ltac go_cases_in H := repeat (go_case_in H; simplify_eq/=).

(** Turn boolean tests into propositions. *)
Ltac to_prop :=
  repeat match goal with
  | H : (_ && _) = true |- _ => apply andb_true_iff in H as [? ?]
  | H : (_ || _) = false |- _ => apply orb_false_iff in H as [? ?]
  | H : (_ || _) = true |- _ => apply orb_true_iff in H
  | H : (_ && _) = false |- _ => apply andb_false_iff in H
  | H : negb _ = true |- _ => apply negb_true_iff in H
  | H : negb _ = false |- _ => apply negb_false_iff in H
  | H : (_ =? _)%Z = true |- _ => apply Z.eqb_eq in H
  | H : (_ =? _)%Z = false |- _ => apply Z.eqb_neq in H
  | H : (_ <? _)%Z = true |- _ => apply Z.ltb_lt in H
  | H : (_ <? _)%Z = false |- _ => apply Z.ltb_ge in H
  | H : (_ <=? _)%Z = true |- _ => apply Z.leb_le in H
  | H : (_ <=? _)%Z = false |- _ => apply Z.leb_gt in H
  | H : (_ >=? _)%Z = _ |- _ => rewrite Z.geb_leb in H
  | H : (_ >? _)%Z = _ |- _ => rewrite Z.gtb_ltb in H
  | H : String.eqb _ _ = true |- _ => apply String.eqb_eq in H
  | H : String.eqb _ _ = false |- _ => apply String.eqb_neq in H
  | H : bool_decide _ = true |- _ => apply bool_decide_eq_true in H
  | H : bool_decide _ = false |- _ => apply bool_decide_eq_false in H
  end.

Create HintDb go.
Create Rewrite HintDb go_str.

(** ** Machine integers *)

Definition min_int64 : Z := - 2 ^ 63.
Definition max_int64 : Z := 2 ^ 63 - 1.
Definition in_int64 (z : Z) : Prop := min_int64 ≤ z ≤ max_int64.

(** Two's-complement wrap-around of an [int64] (and of [int] on 64-bit targets). *)
Definition wrap64 (z : Z) : Z := (z + 2 ^ 63) `mod` 2 ^ 64 - 2 ^ 63.

Lemma wrap64_range z : in_int64 (wrap64 z).
Proof.
  unfold in_int64, wrap64, min_int64, max_int64.
  pose proof (Z.mod_pos_bound (z + 2 ^ 63) (2 ^ 64) ltac:(lia)). lia.
Qed.

Lemma wrap64_id z : in_int64 z → wrap64 z = z.
Proof.
  unfold in_int64, wrap64, min_int64, max_int64. intros.
  rewrite Z.mod_small; lia.
Qed.

#[export] Hint Resolve wrap64_range : go.

(** ** Strings as byte sequences *)

#[global] Arguments String.append !s1 s2 : simpl nomatch.

Definition NUL : ascii := "000"%char.

Fixpoint contains_byte (b : ascii) (s : string) : bool :=
  match s with
  | EmptyString => false
  | String c s' => Ascii.eqb c b || contains_byte b s'
  end.

(** [strings.HasPrefix(s, p)] *)
Fixpoint has_prefix (p s : string) : bool :=
  match p, s with
  | EmptyString, _ => true
  | String a p', String b s' => Ascii.eqb a b && has_prefix p' s'
  | String _ _, EmptyString => false
  end.

Lemma append_nil_r s : s +:+ "" = s.
Proof. induction s as [|c s IH]; simpl; [done | by rewrite IH]. Qed.

Lemma append_assoc s1 s2 s3 : (s1 +:+ s2) +:+ s3 = s1 +:+ (s2 +:+ s3).
Proof. induction s1 as [|c s1 IH]; simpl; [done | by rewrite IH]. Qed.

Lemma append_cancel_l s s1 s2 : s +:+ s1 = s +:+ s2 → s1 = s2.
Proof. induction s as [|c s IH]; simpl; [done | intros [=]; auto]. Qed.

Lemma length_append s1 s2 : String.length (s1 +:+ s2) = (String.length s1 + String.length s2)%nat.
Proof. induction s1 as [|c s1 IH]; simpl; [done | by rewrite IH]. Qed.

Lemma contains_byte_append b s1 s2 :
  contains_byte b (s1 +:+ s2) = contains_byte b s1 || contains_byte b s2.
Proof. induction s1 as [|c s1 IH]; simpl; [done | by rewrite IH, orb_assoc]. Qed.

Lemma has_prefix_spec p s : has_prefix p s = true ↔ ∃ t, s = p +:+ t.
Proof.
  revert s. induction p as [|a p IH]; intros s; simpl.
  - split; [intros _; by exists s | done].
  - destruct s as [|b s].
    + split; [done | intros [t [=]]].
    + rewrite andb_true_iff, IH, Ascii.eqb_eq. split.
      * intros [-> [t ->]]. by exists t.
      * intros [t [= -> ->]]. eauto.
Qed.

Lemma has_prefix_app p t : has_prefix p (p +:+ t) = true.
Proof. apply has_prefix_spec. by exists t. Qed.

(** A separator byte that occurs in neither head splits a string uniquely. *)
Lemma append_sep_inj b s1 s2 t1 t2 :
  contains_byte b s1 = false → contains_byte b s2 = false →
  s1 +:+ String b t1 = s2 +:+ String b t2 → s1 = s2 ∧ t1 = t2.
Proof.
  revert s2. induction s1 as [|c s1 IH]; intros [|d s2]; simpl; intros H1 H2 Heq.
  - by injection Heq as ->.
  - injection Heq as -> _. by rewrite Ascii.eqb_refl in H2.
  - injection Heq as -> _. by rewrite Ascii.eqb_refl in H1.
  - injection Heq as -> Heq. to_prop.
    destruct (IH s2) as [-> ->]; auto.
Qed.

#[export] Hint Rewrite append_nil_r append_assoc contains_byte_append has_prefix_app : go_str.

(** [%q] of [fmt] (strconv.Quote) on ASCII bytes; bytes from 0x80 on are copied. *)
Definition hex_digit (n : nat) : ascii :=
  match String.get n "0123456789abcdef" with Some c => c | None => "0"%char end.

Definition quote_byte (c : ascii) : string :=
  let n := nat_of_ascii c in
  if (n =? 34)%nat then String "\" (String c "")
  else if (n =? 92)%nat then String "\" (String c "")
  else if (n =? 7)%nat then "\a"
  else if (n =? 8)%nat then "\b"
  else if (n =? 12)%nat then "\f"
  else if (n =? 10)%nat then "\n"
  else if (n =? 13)%nat then "\r"
  else if (n =? 9)%nat then "\t"
  else if (n =? 11)%nat then "\v"
  else if (n <? 32)%nat || (n =? 127)%nat
       then "\x" +:+ String (hex_digit (n / 16)) (String (hex_digit (n mod 16)) "")
  else String c "".

Definition dquote : string := String (ascii_of_nat 34) "".

Fixpoint quote_body (s : string) : string :=
  match s with
  | EmptyString => ""
  | String c s' => quote_byte c +:+ quote_body s'
  end.

Definition quote (s : string) : string := dquote +:+ quote_body s +:+ dquote.

(** ** Lists *)

Lemma filter_all {A} (P : A → Prop) `{!∀ x, Decision (P x)} (l : list A) :
  Forall P l → filter P l = l.
Proof.
  induction 1 as [|x l Hx _ IH]; [done|].
  rewrite filter_cons_True by done. by rewrite IH.
Qed.

Lemma filter_none {A} (P : A → Prop) `{!∀ x, Decision (P x)} (l : list A) :
  Forall (λ x, ¬ P x) l → filter P l = [].
Proof.
  induction 1 as [|x l Hx _ IH]; [done|].
  by rewrite filter_cons_False.
Qed.


Lemma Forall2_filter {A B} (R : A → B → Prop) (P : A → Prop) (Q : B → Prop)
    `{!∀ x, Decision (P x), !∀ y, Decision (Q y)} l k :
  (∀ x y, R x y → P x ↔ Q y) → Forall2 R l k → Forall2 R (filter P l) (filter Q k).
Proof.
  intros HPQ. induction 1 as [|x y l k Hxy _ IH]; [constructor|].
  destruct (decide (P x)) as [HP|HP].
  - rewrite !filter_cons_True by (rewrite <-?(HPQ _ _ Hxy); done). by constructor.
  - rewrite !filter_cons_False by (rewrite <-?(HPQ _ _ Hxy); done). done.
Qed.

Lemma Forall2_elem_of_r {A B} (R : A → B → Prop) l k y :
  Forall2 R l k → y ∈ k → ∃ x, x ∈ l ∧ R x y.
Proof.
  induction 1 as [|x' y' l k HR _ IH]; intros Hy; [by apply elem_of_nil in Hy|].
  apply elem_of_cons in Hy as [->|Hy].
  - exists x'. split; [by left | done].
  - destruct IH as (x & ? & ?); [done|]. exists x. split; [by right | done].
Qed.

Lemma Forall2_elem_of_l {A B} (R : A → B → Prop) l k x :
  Forall2 R l k → x ∈ l → ∃ y, y ∈ k ∧ R x y.
Proof.
  induction 1 as [|x' y' l k HR _ IH]; intros Hx; [by apply elem_of_nil in Hx|].
  apply elem_of_cons in Hx as [->|Hx].
  - exists y'. split; [by left | done].
  - destruct IH as (y & ? & ?); [done|]. exists y. split; [by right | done].
Qed.

Lemma Forall2_impl_in {A B} (R S : A → B → Prop) l k :
  Forall2 R l k → (∀ x y, x ∈ l → y ∈ k → R x y → S x y) → Forall2 S l k.
Proof.
  induction 1 as [|x y l k HR _ IH]; intros HRS; constructor.
  - apply HRS; [by left | by left | done].
  - apply IH. intros; apply HRS; [by right | by right | done].
Qed.

Lemma filter_iff_in {A} (P Q : A → Prop) `{!∀ x, Decision (P x), !∀ x, Decision (Q x)} (l : list A) :
  (∀ x, x ∈ l → P x ↔ Q x) → filter P l = filter Q l.
Proof.
  induction l as [|x l IH]; intros HPQ; [done|].
  rewrite !filter_cons, IH by (intros; apply HPQ; by right).
  assert (P x ↔ Q x) by (apply HPQ; by left).
  destruct (decide (P x)), (decide (Q x)); naive_solver.
Qed.

Lemma filter_fmap {A B} (f : A → B) (P : B → Prop) `{!∀ y, Decision (P y)} (l : list A) :
  filter P (f <$> l) = f <$> filter (λ x, P (f x)) l.
Proof.
  induction l as [|x l IH]; [done|]. rewrite fmap_cons, !filter_cons, IH.
  by destruct (decide (P (f x))).
Qed.

Lemma sublist_in {A} (l k : list A) x : sublist l k → x ∈ l → x ∈ k.
Proof. induction 1; rewrite ?elem_of_cons; naive_solver. Qed.
