(* ===== verification/GoStr.v ===== *)
(** * Go strings and file paths

    The functions of the Go packages [strings] and [path/filepath] (Unix) the
    program calls, on byte strings, with the lemmas the components share.
    Separators and cut sets are single bytes, as at every call site. *)
From S2P Require Import Prelude.

Module GoStr.

(** ** strings *)

(** The text before and after the first separator. *)
Fixpoint cut (sep : ascii) (s : string) : option (string * string) :=
  match s with
  | EmptyString => None
  | String c s' =>
      if Ascii.eqb c sep then Some ("", s')
      else match cut sep s' with
           | Some (x, y) => Some (String c x, y)
           | None => None
           end
  end.

(** [strings.SplitN(s, sep, 2)] *)
Definition SplitN2 (sep : ascii) (s : string) : list string :=
  match cut sep s with Some (x, y) => [x; y] | None => [s] end.

(** [strings.Split(s, sep)] *)
Fixpoint Split (sep : ascii) (s : string) : list string :=
  match s with
  | EmptyString => [""]
  | String c s' =>
      if Ascii.eqb c sep then "" :: Split sep s'
      else match Split sep s' with
           | x :: l => String c x :: l
           | [] => [String c ""]
           end
  end.

(** [strings.Join(l, sep)] *)
Fixpoint Join (sep : ascii) (l : list string) : string :=
  match l with
  | [] => ""
  | [x] => x
  | x :: l' => x +:+ String sep (Join sep l')
  end.

(** [strings.TrimLeft(s, cutset)] *)
Fixpoint TrimLeft (cutset : list ascii) (s : string) : string :=
  match s with
  | EmptyString => ""
  | String c s' => if existsb (Ascii.eqb c) cutset then TrimLeft cutset s' else s
  end.

(** [strings.ReplaceAll(s, b, "")] for a one-byte [b] *)
Fixpoint remove_byte (b : ascii) (s : string) : string :=
  match s with
  | EmptyString => ""
  | String c s' => if Ascii.eqb c b then remove_byte b s' else String c (remove_byte b s')
  end.

(** [strings.TrimPrefix(s, p)] *)
Definition TrimPrefix (s p : string) : string :=
  if has_prefix p s then String.substring (String.length p) (String.length s - String.length p) s else s.

Fixpoint rev_string (s acc : string) : string :=
  match s with EmptyString => acc | String c s' => rev_string s' (String c acc) end.

(** [strings.TrimSuffix(s, "/")] *)
Definition TrimSuffixByte (s : string) (b : ascii) : string :=
  match rev_string s "" with
  | String c r => if Ascii.eqb c b then rev_string r "" else s
  | EmptyString => s
  end.

Definition is_space (c : ascii) : bool :=
  let n := nat_of_ascii c in ((9 <=? n) && (n <=? 13) || (n =? 32))%nat.

Fixpoint trim_left_space (s : string) : string :=
  match s with
  | EmptyString => ""
  | String c s' => if is_space c then trim_left_space s' else s
  end.

(** [strings.TrimSpace] on ASCII white space *)
Definition TrimSpace (s : string) : string :=
  rev_string (trim_left_space (rev_string (trim_left_space s) "")) "".

(** [strings.ToLower] on ASCII letters *)
Definition lower (c : ascii) : ascii :=
  let n := nat_of_ascii c in
  if ((65 <=? n) && (n <=? 90))%nat then ascii_of_nat (n + 32) else c.
Fixpoint ToLower (s : string) : string :=
  match s with EmptyString => "" | String c s' => String (lower c) (ToLower s') end.

(** ** Lemmas on Split and Join *)

Lemma substring_all t : String.substring 0 (String.length t) t = t.
Proof. induction t as [|c t IH]; simpl; [done | by rewrite IH]. Qed.

Lemma substring_after p t n : String.substring (String.length p) n (p +:+ t) = String.substring 0 n t.
Proof. induction p as [|c p IH]; simpl; [done | by rewrite IH]. Qed.

Lemma TrimPrefix_app p t : TrimPrefix (p +:+ t) p = t.
Proof.
  unfold TrimPrefix. rewrite has_prefix_app, substring_after, length_append.
  replace (_ + _ - _)%nat with (String.length t) by lia. apply substring_all.
Qed.

Lemma cut_Some sep s x y :
  cut sep s = Some (x, y) ↔ s = x +:+ String sep y ∧ contains_byte sep x = false.
Proof.
  revert x. induction s as [|c s IH]; intros x; simpl.
  - split; [done|]. by destruct x; intros [? _].
  - destruct (Ascii.eqb_spec c sep) as [->|Hne].
    + split; [by intros [= <- <-]|]. intros [Heq Hx]. destruct x as [|d x]; simpl in *.
      * by injection Heq as ->.
      * injection Heq as -> _. by rewrite Ascii.eqb_refl in Hx.
    + destruct (cut sep s) as [[x' y']|].
      * split.
        -- intros [= <- <-]. destruct (proj1 (IH x') eq_refl) as [-> Hx]. split; [done|].
           simpl. by rewrite (proj2 (Ascii.eqb_neq c sep) Hne), Hx.
        -- intros [Heq Hx]. destruct x as [|d x]; simpl in *; [congruence|].
           injection Heq as -> Heq. to_prop.
           assert (Some (x', y') = Some (x, y)) as [= -> ->] by (by apply IH). done.
      * split; [done|]. intros [Heq Hx]. destruct x as [|d x]; simpl in *; [congruence|].
        injection Heq as -> Heq. to_prop.
        assert (None = Some (x, y)) by (by apply IH). done.
Qed.

Lemma cut_None sep s : cut sep s = None ↔ contains_byte sep s = false.
Proof.
  induction s as [|c s IH]; simpl; [done|]. destruct (Ascii.eqb c sep); [done|].
  simpl. rewrite <-IH. by destruct (cut sep s) as [[]|].
Qed.

Lemma Split_nonempty sep s : Split sep s ≠ [].
Proof. destruct s as [|c s]; simpl; [done|]. by repeat case_match. Qed.

Lemma Join_cons sep x l : l ≠ [] → Join sep (x :: l) = x +:+ String sep (Join sep l).
Proof. by destruct l. Qed.

Lemma Join_Split sep s : Join sep (Split sep s) = s.
Proof.
  induction s as [|c s IH]; simpl; [done|].
  destruct (Ascii.eqb_spec c sep) as [->|Hne].
  - rewrite Join_cons by apply Split_nonempty. simpl. by rewrite IH.
  - destruct (Split sep s) as [|x l] eqn:Hs; [by apply Split_nonempty in Hs|].
    destruct l as [|y l]; simpl in *; by rewrite IH.
Qed.

Lemma Split_no_sep sep s x : x ∈ Split sep s → contains_byte sep x = false.
Proof.
  revert x. induction s as [|c s IH]; intros x; simpl.
  - by intros ->%list_elem_of_singleton.
  - destruct (Ascii.eqb c sep) eqn:Hc.
    + intros [->|?]%elem_of_cons; auto.
    + destruct (Split sep s) as [|y l] eqn:Hs; [by apply Split_nonempty in Hs|].
      intros [->|Hin]%elem_of_cons; [simpl; rewrite Hc; simpl; apply IH; by left|].
      apply IH. by right.
Qed.

Lemma Split_append sep x t :
  contains_byte sep x = false → Split sep (x +:+ String sep t) = x :: Split sep t.
Proof.
  induction x as [|c x IH]; simpl; intros Hx.
  - by rewrite Ascii.eqb_refl.
  - to_prop. rewrite H, IH by done. done.
Qed.

Lemma Split_single sep x : contains_byte sep x = false → Split sep x = [x].
Proof. induction x as [|c x IH]; simpl; intros Hx; [done|]. to_prop. by rewrite H, IH. Qed.

Lemma Split_Join sep l :
  l ≠ [] → Forall (λ x, contains_byte sep x = false) l → Split sep (Join sep l) = l.
Proof.
  intros Hne Hl. induction Hl as [|x l Hx Hl IH]; [done|].
  destruct l as [|y l].
  - by apply Split_single.
  - rewrite Join_cons by done. rewrite Split_append by done. by rewrite IH.
Qed.

Lemma Split_app sep x t : Split sep (x +:+ String sep t) = Split sep x ++ Split sep t.
Proof.
  induction x as [|c x IH]; simpl; [by rewrite Ascii.eqb_refl|].
  rewrite IH. destruct (Ascii.eqb c sep); [done|].
  by destruct (Split sep x) as [|y l] eqn:Hx; [apply Split_nonempty in Hx|].
Qed.

Lemma contains_Split sep b s x : x ∈ Split sep s → contains_byte b x = true → contains_byte b s = true.
Proof.
  revert x. induction s as [|c s IH]; intros x; simpl; [by intros ->%list_elem_of_singleton|].
  destruct (Ascii.eqb c sep).
  - intros [->|Hx]%elem_of_cons Hb; [done|]. apply orb_true_iff. right. eauto.
  - destruct (Split sep s) as [|y l] eqn:Hs; [by apply Split_nonempty in Hs|].
    intros [->|Hx]%elem_of_cons Hb; [|apply orb_true_iff; right; eapply IH; [by right | done]].
    simpl in Hb. destruct (Ascii.eqb c b); [done|]. simpl in *. eapply IH; [by left | done].
Qed.

Lemma Join_app sep l x : l ≠ [] → Join sep (l ++ [x]) = Join sep l +:+ String sep x.
Proof.
  intros Hl. induction l as [|y l IH]; [done|]. destruct l as [|z l]; [reflexivity|].
  change ((y :: z :: l) ++ [x]) with (y :: ((z :: l) ++ [x])).
  rewrite Join_cons by done. rewrite IH by done. rewrite (Join_cons sep y (z :: l)) by done. by rewrite append_assoc.
Qed.

Lemma contains_rev_string b s acc : contains_byte b (rev_string s acc) = contains_byte b s || contains_byte b acc.
Proof.
  revert acc. induction s as [|c s IH]; intros acc; simpl; [done|]. rewrite IH. simpl.
  by destruct (Ascii.eqb c b), (contains_byte b s), (contains_byte b acc).
Qed.

Lemma TrimLeft_head cs s : 
  match TrimLeft cs s with String c _ => existsb (Ascii.eqb c) cs = false | EmptyString => True end.
Proof. induction s as [|c s IH]; simpl; [done|]. by destruct (existsb (Ascii.eqb c) cs) eqn:Hc. Qed.

Lemma TrimLeft_id cs s :
  match s with String c _ => existsb (Ascii.eqb c) cs = false | EmptyString => True end → TrimLeft cs s = s.
Proof. destruct s as [|c s]; simpl; [done|]. by intros ->. Qed.

Lemma contains_Join sep b l :
  b ≠ sep → contains_byte b (Join sep l) = existsb (contains_byte b) l.
Proof.
  intros Hb. induction l as [|x [|y l] IH]; simpl; [done|by rewrite orb_false_r|].
  rewrite contains_byte_append; simpl in *.
  rewrite (proj2 (Ascii.eqb_neq sep b)) by done. simpl. by rewrite IH.
Qed.

Lemma contains_remove_byte b s : contains_byte b (remove_byte b s) = false.
Proof.
  induction s as [|c s IH]; simpl; [done|]. destruct (Ascii.eqb c b) eqn:Hc; simpl; [done|].
  by rewrite Hc, IH.
Qed.

Lemma remove_byte_id b s : contains_byte b s = false → remove_byte b s = s.
Proof. induction s as [|c s IH]; simpl; intros Hs; [done|]. to_prop. by rewrite H, IH. Qed.

Lemma contains_TrimLeft b cs s : contains_byte b s = false → contains_byte b (TrimLeft cs s) = false.
Proof. induction s as [|c s IH]; simpl; intros Hs; [done|]. to_prop. case_match; [auto|]. simpl. by rewrite H, H0. Qed.

#[export] Hint Resolve Split_nonempty Split_no_sep contains_remove_byte contains_TrimLeft : go.

End GoStr.
