(* ===== verification/Json.v ===== *)
(** * encoding/json

    The part of the Go package [encoding/json] the program uses on values it decodes
    itself: the compact encoder with its HTML-safe string escaping, and the decoder's
    grammar with its string unquoting, nesting limit and number syntax, on byte strings.
    Numbers keep their literal, as the decoder does until it knows the target type. *)
From S2P Require Import Prelude.

Module Json.

Inductive json : Type :=
| JNull
| JBool (b : bool)
| JNum (lit : string)
| JStr (s : string)
| JArr (l : list json)
| JObj (m : list (string * json)).

(** ** UTF-8 *)

Definition bval (c : ascii) : Z := Z.of_N (N_of_ascii c).
Definition bchr (z : Z) : ascii := ascii_of_N (Z.to_N z).
Definition between (lo hi : Z) (c : ascii) : bool := (lo <=? bval c) && (bval c <=? hi).
Definition cont : ascii → bool := between 128 191.

(** Number of bytes of the rune at the head of the string ([utf8.DecodeRuneInString]),
    0 when the head is not a well-formed encoding. *)
Definition rune_size (s : string) : nat :=
  match s with
  | EmptyString => 0%nat
  | String a s1 =>
      if bval a <? 128 then 1%nat
      else match s1 with
           | EmptyString => 0%nat
           | String b s2 =>
               if between 194 223 a && cont b then 2%nat
               else match s2 with
                    | EmptyString => 0%nat
                    | String c s3 =>
                        if ((bval a =? 224) && between 160 191 b || between 225 236 a && cont b ||
                            (bval a =? 237) && between 128 159 b || between 238 239 a && cont b) && cont c
                        then 3%nat
                        else match s3 with
                             | EmptyString => 0%nat
                             | String d _ =>
                                 if ((bval a =? 240) && between 144 191 b || between 241 243 a && cont b ||
                                     (bval a =? 244) && between 128 143 b) && cont c && cont d
                                 then 4%nat else 0%nat
                             end
                    end
           end
  end.

(** [utf8.AppendRune] *)
Definition utf8_enc (r : Z) : string :=
  if r <? 128 then String (bchr r) ""
  else if r <? 2048 then String (bchr (192 + r / 64)) (String (bchr (128 + r `mod` 64)) "")
  else if r <? 65536 then
    String (bchr (224 + r / 4096)) (String (bchr (128 + (r / 64) `mod` 64)) (String (bchr (128 + r `mod` 64)) ""))
  else
    String (bchr (240 + r / 262144)) (String (bchr (128 + (r / 4096) `mod` 64))
      (String (bchr (128 + (r / 64) `mod` 64)) (String (bchr (128 + r `mod` 64)) ""))).

Definition RuneError : string := utf8_enc 65533.

(** [utf8.ValidString]; the counter is the number of bytes left in the current rune. *)
Fixpoint valid_from (k : nat) (s : string) : bool :=
  match s with
  | EmptyString => (k =? 0)%nat
  | String _ s' =>
      match k with
      | S k' => valid_from k' s'
      | O => match rune_size s with O => false | S n => valid_from n s' end
      end
  end.
Definition valid_utf8 (s : string) : bool := valid_from 0 s.

(** ** Encoding *)

Definition q : ascii := ascii_of_nat 34.
Definition bs : ascii := ascii_of_nat 92.

(** The escape of a byte below 0x80 ([htmlSafeSet]). *)
Definition enc_ascii (a : ascii) : string :=
  let n := nat_of_ascii a in
  if (n =? 34)%nat || (n =? 92)%nat then String bs (String a "")
  else if (n =? 8)%nat then String bs "b"
  else if (n =? 12)%nat then String bs "f"
  else if (n =? 10)%nat then String bs "n"
  else if (n =? 13)%nat then String bs "r"
  else if (n =? 9)%nat then String bs "t"
  else if (n <? 32)%nat || (n =? 60)%nat || (n =? 62)%nat || (n =? 38)%nat
       then String bs ("u00" +:+ String (hex_digit (n / 16)) (String (hex_digit (n mod 16)) ""))
  else String a "".

(** The byte loop of [appendString]: [k] bytes of the current rune are still to be copied
    (or dropped, when the rune was replaced by an escape). *)
Fixpoint enc_from (copy : bool) (k : nat) (s : string) : string :=
  match s with
  | EmptyString => ""
  | String a s' =>
      match k with
      | S k' => if copy then String a (enc_from copy k' s') else enc_from copy k' s'
      | O =>
          if bval a <? 128 then enc_ascii a +:+ enc_from true 0 s'
          else match rune_size s with
               | O => String bs "ufffd" +:+ enc_from true 0 s'
               | S n =>
                   if has_prefix (utf8_enc 8232) s then String bs "u2028" +:+ enc_from false n s'
                   else if has_prefix (utf8_enc 8233) s then String bs "u2029" +:+ enc_from false n s'
                   else String a (enc_from true n s')
               end
      end
  end.

Definition enc_string (s : string) : string := String q (enc_from true 0 s +:+ String q "").

(** [json.Marshal] of a value whose object members are in the order of the struct fields. *)
Fixpoint encode (v : json) : string :=
  match v with
  | JNull => "null"
  | JBool true => "true"
  | JBool false => "false"
  | JNum lit => lit
  | JStr s => enc_string s
  | JArr l =>
      "[" +:+ (match l with
               | [] => "]"
               | v0 :: l0 => encode v0 +:+ (fix go l := match l with
                                            | [] => "]"
                                            | v1 :: l1 => "," +:+ (encode v1 +:+ go l1)
                                            end) l0
               end)
  | JObj m =>
      "{" +:+ (match m with
               | [] => "}"
               | (k0, v0) :: m0 =>
                   enc_string k0 +:+ (":" +:+ (encode v0 +:+ (fix go m := match m with
                                            | [] => "}"
                                            | (k1, v1) :: m1 =>
                                                "," +:+ (enc_string k1 +:+ (":" +:+ (encode v1 +:+ go m1)))
                                            end) m0))
               end)
  end.

(** ** Decoding *)

Definition is_space (c : ascii) : bool :=
  let n := nat_of_ascii c in (n =? 32)%nat || (n =? 9)%nat || (n =? 10)%nat || (n =? 13)%nat.

Fixpoint skip_ws (s : string) : string :=
  match s with
  | String c s' => if is_space c then skip_ws s' else s
  | EmptyString => ""
  end.

Definition hex_val (c : ascii) : option Z :=
  let n := bval c in
  if between 48 57 c then Some (n - 48)
  else if between 97 102 c then Some (n - 87)
  else if between 65 70 c then Some (n - 55)
  else None.

Definition hex4 (a b c d : ascii) : option Z :=
  match hex_val a, hex_val b, hex_val c, hex_val d with
  | Some w, Some x, Some y, Some z => Some (w * 4096 + x * 256 + y * 16 + z)
  | _, _, _, _ => None
  end.

Definition unesc (e : ascii) : option ascii :=
  let n := nat_of_ascii e in
  if (n =? 34)%nat || (n =? 92)%nat || (n =? 47)%nat then Some e
  else if Ascii.eqb e "b" then Some (ascii_of_nat 8)
  else if Ascii.eqb e "f" then Some (ascii_of_nat 12)
  else if Ascii.eqb e "n" then Some (ascii_of_nat 10)
  else if Ascii.eqb e "r" then Some (ascii_of_nat 13)
  else if Ascii.eqb e "t" then Some (ascii_of_nat 9)
  else None.

Definition high_surrogate (r : Z) : bool := (55296 <=? r) && (r <? 56320).
Definition low_surrogate (r : Z) : bool := (56320 <=? r) && (r <? 57344).

Definition prepend (p : string) (r : option (string * string)) : option (string * string) :=
  match r with Some (t, rest) => Some (p +:+ t, rest) | None => None end.

(** The body of a string after its opening quote: the decoded string and what follows
    the closing quote ([scanner] and [unquoteBytes]). *)
Fixpoint dec_from (k : nat) (s : string) : option (string * string) :=
  match s with
  | EmptyString => None
  | String a s' =>
      match k with
      | S k' => prepend (String a "") (dec_from k' s')
      | O =>
          if Ascii.eqb a q then Some ("", s')
          else if Ascii.eqb a bs then
            match s' with
            | EmptyString => None
            | String e s2 =>
                if Ascii.eqb e "u" then
                  match s2 with
                  | String h1 (String h2 (String h3 (String h4 s3))) =>
                      match hex4 h1 h2 h3 h4 with
                      | None => None
                      | Some r =>
                          if high_surrogate r then
                            match s3 with
                            | String b1 (String u1 (String i1 (String i2 (String i3 (String i4 s4))))) =>
                                match (if Ascii.eqb b1 bs && Ascii.eqb u1 "u" then hex4 i1 i2 i3 i4 else None) with
                                | Some r1 =>
                                    if low_surrogate r1
                                    then prepend (utf8_enc ((r - 55296) * 1024 + (r1 - 56320) + 65536)) (dec_from 0 s4)
                                    else prepend RuneError (dec_from 0 s3)
                                | None => prepend RuneError (dec_from 0 s3)
                                end
                            | _ => prepend RuneError (dec_from 0 s3)
                            end
                          else if low_surrogate r then prepend RuneError (dec_from 0 s3)
                          else prepend (utf8_enc r) (dec_from 0 s3)
                      end
                  | _ => None
                  end
                else match unesc e with
                     | Some c => prepend (String c "") (dec_from 0 s2)
                     | None => None
                     end
            end
          else if bval a <? 32 then None
          else match rune_size s with
               | O => prepend RuneError (dec_from 0 s')
               | S n => prepend (String a "") (dec_from n s')
               end
      end
  end.

Definition is_digit (c : ascii) : bool := between 48 57 c.

Fixpoint digits (s : string) : string * string :=
  match s with
  | String c s' => if is_digit c then let '(d, r) := digits s' in (String c d, r) else ("", s)
  | EmptyString => ("", "")
  end.

Definition sign (p : ascii → bool) (s : string) : string * string :=
  match s with
  | String c s' => if p c then (String c "", s') else ("", s)
  | EmptyString => ("", "")
  end.

(** [0] or a digit sequence that does not start with [0] *)
Definition int_part (s : string) : option (string * string) :=
  match s with
  | String c s' =>
      if Ascii.eqb c "0" then Some ("0", s')
      else if is_digit c then let '(d, r) := digits s' in Some (String c d, r)
      else None
  | EmptyString => None
  end.

Definition digits1 (s : string) : option (string * string) :=
  match digits s with ("", _) => None | dr => Some dr end.

Definition frac_part (s : string) : option (string * string) :=
  match s with
  | String c s' =>
      if Ascii.eqb c "." then prepend "." (digits1 s') else Some ("", s)
  | EmptyString => Some ("", "")
  end.

Definition exp_part (s : string) : option (string * string) :=
  match s with
  | String c s' =>
      if Ascii.eqb c "e" || Ascii.eqb c "E"
      then let '(g, r) := sign (λ d, Ascii.eqb d "+" || Ascii.eqb d "-") s' in
           prepend (String c g) (digits1 r)
      else Some ("", s)
  | EmptyString => Some ("", "")
  end.

Definition number (s : string) : option (string * string) :=
  let '(m, s0) := sign (Ascii.eqb "-") s in
  match int_part s0 with
  | None => None
  | Some (i, s1) =>
      match frac_part s1 with
      | None => None
      | Some (f, s2) => prepend (m +:+ (i +:+ f)) (exp_part s2)
      end
  end.

Definition strip (p s : string) : option string :=
  if has_prefix p s then Some (String.substring (String.length p) (String.length s - String.length p) s) else None.

Definition maxNestingDepth : Z := 10000.

Fixpoint value (n : nat) (d : Z) (s : string) : option (json * string) :=
  match n with
  | O => None
  | S n' =>
      match s with
      | EmptyString => None
      | String c s' =>
          if Ascii.eqb c q then
            match dec_from 0 s' with Some (t, r) => Some (JStr t, r) | None => None end
          else if Ascii.eqb c "{" then
            if maxNestingDepth <=? d then None
            else match skip_ws s' with
                 | String c1 s1 =>
                     if Ascii.eqb c1 "}" then Some (JObj [], s1)
                     else match members n' (d + 1) (String c1 s1) with
                          | Some (m, r) => Some (JObj m, r) | None => None
                          end
                 | EmptyString => None
                 end
          else if Ascii.eqb c "[" then
            if maxNestingDepth <=? d then None
            else match skip_ws s' with
                 | String c1 s1 =>
                     if Ascii.eqb c1 "]" then Some (JArr [], s1)
                     else match elements n' (d + 1) (String c1 s1) with
                          | Some (l, r) => Some (JArr l, r) | None => None
                          end
                 | EmptyString => None
                 end
          else match strip "true" s with
               | Some r => Some (JBool true, r)
               | None =>
                   match strip "false" s with
                   | Some r => Some (JBool false, r)
                   | None =>
                       match strip "null" s with
                       | Some r => Some (JNull, r)
                       | None => match number s with Some (l, r) => Some (JNum l, r) | None => None end
                       end
                   end
               end
      end
  end
with elements (n : nat) (d : Z) (s : string) : option (list json * string) :=
  match n with
  | O => None
  | S n' =>
      match value n' d (skip_ws s) with
      | None => None
      | Some (v, r) =>
          match skip_ws r with
          | String c r' =>
              if Ascii.eqb c "]" then Some ([v], r')
              else if Ascii.eqb c "," then
                match elements n' d r' with Some (l, r2) => Some (v :: l, r2) | None => None end
              else None
          | EmptyString => None
          end
      end
  end
with members (n : nat) (d : Z) (s : string) : option (list (string * json) * string) :=
  match n with
  | O => None
  | S n' =>
      match skip_ws s with
      | String c0 s0 =>
          if negb (Ascii.eqb c0 q) then None
          else match dec_from 0 s0 with
          | None => None
          | Some (k, r0) =>
              match skip_ws r0 with
              | String c1 r1 =>
                  if negb (Ascii.eqb c1 ":") then None
                  else match value n' d (skip_ws r1) with
                  | None => None
                  | Some (v, r) =>
                      match skip_ws r with
                      | String c r' =>
                          if Ascii.eqb c "}" then Some ([(k, v)], r')
                          else if Ascii.eqb c "," then
                            match members n' d r' with Some (l, r2) => Some ((k, v) :: l, r2) | None => None end
                          else None
                      | EmptyString => None
                      end
                  end
              | EmptyString => None
              end
          end
      | EmptyString => None
      end
  end.

(** Every level of the recursive descent consumes a byte and an array level adds one
    call that does not, so twice the length is enough fuel. *)
Definition parse (s : string) : option json :=
  match value (2 * String.length s + 2) 0 (skip_ws s) with
  | Some (v, r) => if String.eqb (skip_ws r) "" then Some v else None
  | None => None
  end.

(** ** Strings round-trip *)

Lemma prepend_prepend a b r : prepend a (prepend b r) = prepend (a +:+ b) r.
Proof. destruct r as [[t r]|]; simpl; [|done]. by rewrite append_assoc. Qed.

(** An escaped ASCII byte is read back as that byte. *)
Lemma dec_enc_ascii a t :
  bval a <? 128 = true → dec_from 0 (enc_ascii a +:+ t) = prepend (String a "") (dec_from 0 t).
Proof. destruct a as [[] [] [] [] [] [] [] []]; intros Ha; try discriminate Ha; reflexivity. Qed.

(** A well-formed multi-byte rune is copied by the encoder (or written as an escape) and
    read back. *)
Lemma rune_ge_128 s n : rune_size s = S (S n) → ∃ a s', s = String a s' ∧ bval a <? 128 = false.
Proof.
  destruct s as [|a s]; [done|]. simpl. destruct (bval a <? 128) eqn:Ha; [done|]. eauto.
Qed.

(** The head byte of a multi-byte rune is neither a quote, nor a backslash, nor a control. *)
Lemma high_byte a : bval a <? 128 = false →
  Ascii.eqb a q = false ∧ Ascii.eqb a bs = false ∧ bval a <? 32 = false.
Proof. destruct a as [[] [] [] [] [] [] [] []]; intros Ha; try discriminate Ha; done. Qed.

(** [rune_size] reads no further than the rune. *)
Lemma rune_size_2 a b t u : rune_size (String a (String b t)) = 2%nat →
  rune_size (String a (String b u)) = 2%nat.
Proof. simpl. repeat case_match; done. Qed.
Lemma rune_size_3 a b c t u : rune_size (String a (String b (String c t))) = 3%nat →
  rune_size (String a (String b (String c u))) = 3%nat.
Proof. simpl. repeat case_match; done. Qed.
Lemma rune_size_4 a b c d t u : rune_size (String a (String b (String c (String d t)))) = 4%nat →
  rune_size (String a (String b (String c (String d u)))) = 4%nat.
Proof. simpl. repeat case_match; done. Qed.

Lemma rune_size_shape s n : rune_size s = S n →
  (n = 0%nat ∧ ∃ a s', s = String a s' ∧ bval a <? 128 = true) ∨
  (n = 1%nat ∧ ∃ a b s', s = String a (String b s') ∧ bval a <? 128 = false) ∨
  (n = 2%nat ∧ ∃ a b c s', s = String a (String b (String c s')) ∧ bval a <? 128 = false) ∨
  (n = 3%nat ∧ ∃ a b c d s', s = String a (String b (String c (String d s'))) ∧ bval a <? 128 = false).
Proof. unfold rune_size. repeat case_match; intros [= <-]; naive_solver. Qed.

Lemma dec_high a t n : bval a <? 128 = false → rune_size (String a t) = S n →
  dec_from 0 (String a t) = prepend (String a "") (dec_from n t).
Proof.
  intros Ha Hn. destruct (high_byte _ Ha) as (H1 & H2 & H3).
  cbn [dec_from]. by rewrite H1, H2, H3, Hn.
Qed.

(** The two line separators. *)
Lemma line_sep_split s n u :
  rune_size s = S n → has_prefix (utf8_enc u) s = true → u = 8232 ∨ u = 8233 →
  n = 2%nat ∧ ∃ t, s = utf8_enc u +:+ t.
Proof.
  intros Hn Hp Hu. apply has_prefix_spec in Hp as [t ->].
  destruct Hu as [->| ->]; vm_compute in Hn; injection Hn as <-; eauto.
Qed.

Lemma dec_2028 t : dec_from 0 (String bs "u2028" +:+ t) = prepend (utf8_enc 8232) (dec_from 0 t).
Proof. reflexivity. Qed.
Lemma dec_2029 t : dec_from 0 (String bs "u2029" +:+ t) = prepend (utf8_enc 8233) (dec_from 0 t).
Proof. reflexivity. Qed.

Lemma enc_from_copy c t : enc_from c 0 t = enc_from true 0 t.
Proof. by destruct t. Qed.

Lemma valid_ascii a s : bval a <? 128 = true → valid_from 0 (String a s) = valid_from 0 s.
Proof. intros Ha. cbn [valid_from]. unfold rune_size. by rewrite Ha. Qed.

Lemma dec_enc_string s rest :
  valid_utf8 s = true → dec_from 0 (enc_from true 0 s +:+ String q rest) = Some (s, rest).
Proof.
  unfold valid_utf8. remember (String.length s) as len eqn:Hlen.
  revert s Hlen. induction len as [len IH] using lt_wf_ind. intros s -> Hv.
  destruct s as [|a s]; [done|].
  destruct (bval a <? 128) eqn:Ha.
  { rewrite valid_ascii in Hv by done. cbn [enc_from]. rewrite Ha, append_assoc, dec_enc_ascii by done.
    rewrite (IH (String.length s)) by (simpl; auto with lia). done. }
  cbn [valid_from] in Hv. destruct (rune_size (String a s)) as [|n] eqn:Hn; [done|].
  cbn [enc_from]. rewrite Ha, Hn.
  destruct (has_prefix (utf8_enc 8232) (String a s)) eqn:H28;
    [|destruct (has_prefix (utf8_enc 8233) (String a s)) eqn:H29].
  1, 2: eapply line_sep_split in Hn as [-> [t Ht]]; [|done|tauto];
    vm_compute in Ht; injection Ht as -> ->; cbn [enc_from valid_from] in *;
    rewrite enc_from_copy, append_assoc;
    pose proof (IH (String.length t) ltac:(simpl; lia) t eq_refl Hv) as IHt;
    rewrite dec_2028 || rewrite dec_2029; by rewrite IHt.
  destruct (rune_size_shape _ _ Hn) as [(-> & a' & s' & [= -> ->] & ?)|
    [(-> & a' & b & t & [= -> ->] & _)|[(-> & a' & b & c & t & [= -> ->] & _)|
     (-> & a' & b & c & d & t & [= -> ->] & _)]]]; [congruence| | |];
    cbn [enc_from valid_from String.append] in *;
    (erewrite dec_high; [|done|first [exact (rune_size_2 _ _ _ _ Hn) | exact (rune_size_3 _ _ _ _ _ Hn) | exact (rune_size_4 _ _ _ _ _ _ Hn)]]);
    cbn [dec_from]; rewrite !prepend_prepend;
    rewrite (IH (String.length t) ltac:(simpl; lia) t eq_refl Hv); done.
Qed.

(** ** Numbers round-trip *)

(** A character that can follow a value inside an encoded document, and ends a number. *)
Definition delim (s : string) : bool :=
  match s with
  | EmptyString => true
  | String c _ => Ascii.eqb c "," || Ascii.eqb c "]" || Ascii.eqb c "}"
  end.

Definition number_lit (lit : string) : bool :=
  match number lit with Some (l, r) => String.eqb l lit && String.eqb r "" | None => false end.

Lemma delim_head c r (p : ascii → bool) :
  delim (String c r) = true → p ","%char = false → p "]"%char = false → p "}"%char = false → p c = false.
Proof. cbn [delim]. rewrite !orb_true_iff, !Ascii.eqb_eq. by intros [[->| ->]| ->]. Qed.

Section number_app.
Context (rest : string) (Hd : delim rest = true).

Lemma digits_app s : digits (s +:+ rest) = ((digits s).1, (digits s).2 +:+ rest).
Proof using Hd.
  induction s as [|c s IH]; simpl.
  - destruct rest as [|c r] eqn:Hr; [done|]. simpl.
    by rewrite (delim_head c r is_digit) by done.
  - destruct (is_digit c); [|done]. rewrite IH. by destruct (digits s).
Qed.

Lemma sign_app p s : p ","%char = false → p "]"%char = false → p "}"%char = false →
  sign p (s +:+ rest) = ((sign p s).1, (sign p s).2 +:+ rest).
Proof using Hd.
  intros. destruct s as [|c s]; simpl; [|by destruct (p c)].
  destruct rest as [|c r] eqn:Hr; [done|]. simpl. by rewrite (delim_head c r p) by done.
Qed.

Lemma digits1_app s d r : digits1 s = Some (d, r) → digits1 (s +:+ rest) = Some (d, r +:+ rest).
Proof using Hd.
  unfold digits1. rewrite digits_app. destruct (digits s) as [[|? ?] ?]; simpl; [done|].
  by intros [= <- <-].
Qed.

Lemma int_part_app s d r : int_part s = Some (d, r) → int_part (s +:+ rest) = Some (d, r +:+ rest).
Proof using Hd.
  destruct s as [|c s]; simpl; [done|]. destruct (Ascii.eqb c "0"); [by intros [= <- <-]|].
  destruct (is_digit c); [|done]. rewrite digits_app. destruct (digits s). by intros [= <- <-].
Qed.

Lemma frac_part_app s d r : frac_part s = Some (d, r) → frac_part (s +:+ rest) = Some (d, r +:+ rest).
Proof using Hd.
  destruct s as [|c s]; simpl.
  - intros [= <- <-]. destruct rest as [|c r'] eqn:Hr; [done|].
    simpl. by rewrite (delim_head c r' (λ c, Ascii.eqb c ".")) by done.
  - destruct (Ascii.eqb c "."); [|by intros [= <- <-]].
    destruct (digits1 s) as [[d' r']|] eqn:Hs; [|done]. intros [= <- <-].
    by rewrite (digits1_app _ _ _ Hs).
Qed.

Lemma exp_part_app s d r : exp_part s = Some (d, r) → exp_part (s +:+ rest) = Some (d, r +:+ rest).
Proof using Hd.
  destruct s as [|c s]; simpl.
  - intros [= <- <-]. destruct rest as [|c r'] eqn:Hr; [done|].
    simpl. by rewrite (delim_head c r' (λ c, Ascii.eqb c "e" || Ascii.eqb c "E")) by done.
  - destruct (Ascii.eqb c "e" || Ascii.eqb c "E"); [|by intros [= <- <-]].
    rewrite sign_app by done. destruct (sign _ s) as [g r0]; simpl.
    destruct (digits1 r0) as [[d' r']|] eqn:Hs; [|done]. intros [= <- <-].
    by rewrite (digits1_app _ _ _ Hs).
Qed.

Lemma number_app lit : number_lit lit = true → number (lit +:+ rest) = Some (lit, rest).
Proof using Hd.
  unfold number_lit, number. rewrite sign_app by done. destruct (sign _ lit) as [m s0]; simpl.
  destruct (int_part s0) as [[i s1]|] eqn:Hi; [|done]. rewrite (int_part_app _ _ _ Hi).
  destruct (frac_part s1) as [[f s2]|] eqn:Hf; [|done]. rewrite (frac_part_app _ _ _ Hf).
  destruct (exp_part s2) as [[x s3]|] eqn:Hx; [|done]. rewrite (exp_part_app _ _ _ Hx). simpl.
  rewrite andb_true_iff, !String.eqb_eq. by intros [-> ->].
Qed.
End number_app.

(** ** Values round-trip *)

Fixpoint enc_tail (l : list json) : string :=
  match l with [] => "]" | v :: l' => "," +:+ (encode v +:+ enc_tail l') end.
Fixpoint enc_mtail (m : list (string * json)) : string :=
  match m with
  | [] => "}"
  | (k, v) :: m' => "," +:+ (enc_string k +:+ (":" +:+ (encode v +:+ enc_mtail m')))
  end.

Lemma encode_arr v l : encode (JArr (v :: l)) = "[" +:+ (encode v +:+ enc_tail l).
Proof. done. Qed.
Lemma encode_obj k v m :
  encode (JObj ((k, v) :: m)) = "{" +:+ (enc_string k +:+ (":" +:+ (encode v +:+ enc_mtail m))).
Proof. done. Qed.

(** What can be encoded and read back: UTF-8 strings, number literals, nesting within the
    decoder's limit when the value stands at depth [d]. *)
Fixpoint wf (d : Z) (v : json) : bool :=
  match v with
  | JNull | JBool _ => true
  | JNum lit => number_lit lit
  | JStr s => valid_utf8 s
  | JArr l => (d <? maxNestingDepth) && forallb (wf (d + 1)) l
  | JObj m => (d <? maxNestingDepth) && forallb (λ kv, valid_utf8 kv.1 && wf (d + 1) kv.2) m
  end.

Fixpoint json_ind' (P : json → Prop) (Hnull : P JNull) (Hbool : ∀ b, P (JBool b)) (Hnum : ∀ l, P (JNum l))
    (Hstr : ∀ s, P (JStr s)) (Harr : ∀ l, Forall P l → P (JArr l))
    (Hobj : ∀ m, Forall (λ kv, P kv.2) m → P (JObj m)) (v : json) : P v :=
  match v with
  | JNull => Hnull
  | JBool b => Hbool b
  | JNum l => Hnum l
  | JStr s => Hstr s
  | JArr l => Harr l ((fix go l : Forall P l :=
      match l with
      | [] => List.Forall_nil _
      | v :: l' => List.Forall_cons _ _ _ (json_ind' P Hnull Hbool Hnum Hstr Harr Hobj v) (go l')
      end) l)
  | JObj m => Hobj m ((fix go m : Forall (λ kv, P kv.2) m :=
      match m with
      | [] => List.Forall_nil _
      | kv :: m' => List.Forall_cons _ _ _ (json_ind' P Hnull Hbool Hnum Hstr Harr Hobj kv.2) (go m')
      end) m)
  end.

(** The head of an encoded value is not white space and closes nothing. *)
Definition opens (c : ascii) : bool :=
  negb (is_space c) && negb (Ascii.eqb c "]") && negb (Ascii.eqb c "}").

Lemma number_head lit : number_lit lit = true → ∃ c t, lit = String c t ∧ (c = "-"%char ∨ is_digit c = true).
Proof.
  unfold number_lit, number. destruct lit as [|c t]; [done|]. intros Hn. exists c, t. split; [done|].
  cbn [sign] in Hn. destruct (Ascii.eqb "-" c) eqn:Hc; [left; symmetry; by apply Ascii.eqb_eq|right].
  simpl in Hn. destruct (Ascii.eqb c "0") eqn:H0; [apply Ascii.eqb_eq in H0 as ->; done|].
  by destruct (is_digit c).
Qed.

Lemma number_char c : c = "-"%char ∨ is_digit c = true →
  opens c = true ∧ Ascii.eqb c q = false ∧ Ascii.eqb c "{" = false ∧ Ascii.eqb c "[" = false ∧
  Ascii.eqb "t" c = false ∧ Ascii.eqb "f" c = false ∧ Ascii.eqb "n" c = false.
Proof.
  intros [->|Hc]; [done|]. destruct c as [[] [] [] [] [] [] [] []]; try discriminate Hc; done.
Qed.

Lemma encode_head d v : wf d v = true → ∃ c t, encode v = String c t ∧ opens c = true.
Proof.
  destruct v as [|[]|lit|s|[|v l]|[|[k v] m]]; cbn [wf]; intros Hw; try by eexists _, _.
  destruct (number_head _ Hw) as (c & t & -> & Hc). exists c, t. split; [done|].
  apply (number_char c Hc).
Qed.

Lemma skip_ws_opens c t : opens c = true → skip_ws (String c t) = String c t.
Proof. unfold opens. intros. to_prop. cbn [skip_ws]. by case_match; [congruence|]. Qed.

Lemma skip_ws_encode d v t : wf d v = true → skip_ws (encode v +:+ t) = encode v +:+ t.
Proof. intros (c & t' & -> & Hc)%encode_head. by apply skip_ws_opens. Qed.

Lemma strip_no c t p d : Ascii.eqb d c = false → strip (String d p) (String c t) = None.
Proof. intros Hc. unfold strip. cbn [has_prefix]. by rewrite Hc. Qed.

Lemma substring_drop p t : String.substring (String.length p) (String.length (p +:+ t) - String.length p) (p +:+ t) = t.
Proof.
  rewrite length_append, Nat.add_comm, Nat.add_sub.
  induction p as [|c p IH]; simpl; [|done].
  induction t as [|c t IH]; simpl; [done|]. by rewrite IH.
Qed.

Lemma strip_app p t : strip p (p +:+ t) = Some t.
Proof. unfold strip. by rewrite has_prefix_app, substring_drop. Qed.

Definition reads (v : json) : Prop := ∀ d n rest,
  wf d v = true → (2 * String.length (encode v) ≤ n)%nat → delim rest = true →
  value n d (encode v +:+ rest) = Some (v, rest).

Lemma elements_step n d v s r : skip_ws s = s → value n d s = Some (v, r) →
  elements (S n) d s =
    match skip_ws r with
    | String c r' =>
        if Ascii.eqb c "]" then Some ([v], r')
        else if Ascii.eqb c "," then
          match elements n d r' with Some (l, r2) => Some (v :: l, r2) | None => None end
        else None
    | EmptyString => None
    end.
Proof. intros Hs Hv. cbn [elements]. by rewrite Hs, Hv. Qed.

Lemma reads_elements l v d n rest :
  reads v → Forall reads l → wf d v = true → forallb (wf d) l = true →
  (2 * String.length (encode v +:+ enc_tail l) ≤ n)%nat →
  elements n d ((encode v +:+ enc_tail l) +:+ rest) = Some (v :: l, rest).
Proof.
  intros Hv Hl. revert v n Hv. induction Hl as [|v1 l Hv1 _ IH]; intros v n Hv Hw Hwl Hn;
    rewrite length_append in Hn; cbn [enc_tail] in *; rewrite ?length_append in Hn; simpl in Hn;
    (destruct n as [|n]; [lia|]); rewrite append_assoc.
  - erewrite elements_step; [|by eapply skip_ws_encode|apply Hv; [done|lia|done]]. done.
  - cbn [forallb] in Hwl. to_prop.
    erewrite elements_step; [|by eapply skip_ws_encode|apply Hv; [done|lia|done]].
    rewrite append_assoc. change (skip_ws ("," +:+ ?x)) with ("," +:+ x). cbn [String.append].
    cbn [Ascii.eqb]. rewrite IH; [done..|]. rewrite length_append. lia.
Qed.

Lemma members_step n d k v s r :
  valid_utf8 k = true → skip_ws s = s → value n d s = Some (v, r) →
  members (S n) d (enc_string k +:+ (":" +:+ s)) =
    match skip_ws r with
    | String c r' =>
        if Ascii.eqb c "}" then Some ([(k, v)], r')
        else if Ascii.eqb c "," then
          match members n d r' with Some (l, r2) => Some ((k, v) :: l, r2) | None => None end
        else None
    | EmptyString => None
    end.
Proof.
  intros Hk Hs Hv. unfold enc_string. cbn [String.append members skip_ws]. change (is_space q) with false.
  cbv iota. rewrite Ascii.eqb_refl. cbn [negb]. rewrite append_assoc. cbn [String.append].
  rewrite dec_enc_string by done. cbn [skip_ws]. change (is_space ":") with false. cbv iota.
  rewrite Ascii.eqb_refl. cbn [negb]. by rewrite Hs, Hv.
Qed.

Lemma reads_members m k v d n rest :
  reads v → Forall (λ kv, reads kv.2) m → valid_utf8 k = true → wf d v = true →
  forallb (λ kv, valid_utf8 kv.1 && wf d kv.2) m = true →
  (2 * String.length (encode v +:+ enc_mtail m) + 2 ≤ n)%nat →
  members n d ((enc_string k +:+ (":" +:+ (encode v +:+ enc_mtail m))) +:+ rest) = Some ((k, v) :: m, rest).
Proof.
  intros Hv Hm. revert k v n Hv. induction Hm as [|[k1 v1] m Hv1 _ IH]; intros k v n Hv Hk Hw Hwm Hn;
    rewrite length_append in Hn; cbn [enc_mtail] in *; rewrite ?length_append in Hn; simpl in Hn;
    (destruct n as [|n]; [lia|]); rewrite !append_assoc.
  - erewrite members_step; [|done|by eapply skip_ws_encode|apply Hv; [done|lia|done]]. done.
  - cbn [forallb fst snd] in *. to_prop.
    erewrite members_step; [|done|by eapply skip_ws_encode|apply Hv; [done|lia|done]].
    change (skip_ws ("," +:+ ?x)) with ("," +:+ x). cbn [String.append]. cbn [Ascii.eqb].
    specialize (IH k1 v1 n). rewrite !append_assoc in IH. cbn [String.append] in IH.
    rewrite IH; [done..|]. rewrite !length_append in *. simpl in *. rewrite ?length_append in *. lia.
Qed.

Lemma value_obj n d k t : valid_utf8 k = true → d <? maxNestingDepth = true →
  value (S n) d ("{" +:+ (enc_string k +:+ t)) =
    match members n (d + 1) (enc_string k +:+ t) with Some (m, r) => Some (JObj m, r) | None => None end.
Proof.
  intros Hk Hd. cbn [String.append value]. change (Ascii.eqb "{" q) with false. cbv iota.
  rewrite Ascii.eqb_refl. rewrite (proj2 (Z.leb_gt _ _)) by (by apply Z.ltb_lt). reflexivity.
Qed.

Lemma value_arr n d v t : wf (d + 1) v = true → d <? maxNestingDepth = true →
  value (S n) d ("[" +:+ (encode v +:+ t)) =
    match elements n (d + 1) (encode v +:+ t) with Some (m, r) => Some (JArr m, r) | None => None end.
Proof.
  intros Hv Hd. cbn [String.append value]. change (Ascii.eqb "[" q) with false.
  change (Ascii.eqb "[" "{") with false. cbv iota.
  rewrite Ascii.eqb_refl, (proj2 (Z.leb_gt _ _)) by (by apply Z.ltb_lt).
  rewrite (skip_ws_encode (d + 1)) by done.
  destruct (encode_head _ _ Hv) as (c & u & -> & Hc). cbn [String.append]. unfold opens in Hc. to_prop.
  by case_match; [congruence|].
Qed.

Lemma value_empty_arr n d rest : d < maxNestingDepth →
  value (S n) d (encode (JArr []) +:+ rest) = Some (JArr [], rest).
Proof. intros Hd. cbn -[maxNestingDepth]. by rewrite (proj2 (Z.leb_gt _ _)) by done. Qed.
Lemma value_empty_obj n d rest : d < maxNestingDepth →
  value (S n) d (encode (JObj []) +:+ rest) = Some (JObj [], rest).
Proof. intros Hd. cbn -[maxNestingDepth]. by rewrite (proj2 (Z.leb_gt _ _)) by done. Qed.

Lemma reads_all v : reads v.
Proof.
  induction v as [|b|lit|s|l IH|m IH] using json_ind'; intros d [|n] rest Hw Hn Hr;
    try (exfalso; destruct (encode_head _ _ Hw) as (? & ? & He & _); rewrite He in Hn; simpl in Hn; lia).
  - cbn [encode]. cbn [value String.append]. rewrite !strip_no by done.
    change (strip "null" _) with (strip "null" ("null" +:+ rest)). by rewrite strip_app.
  - destruct b; cbn [encode value String.append].
    + change (strip "true" _) with (strip "true" ("true" +:+ rest)). by rewrite strip_app.
    + rewrite strip_no by done. change (strip "false" _) with (strip "false" ("false" +:+ rest)). by rewrite strip_app.
  - cbn [wf] in Hw. cbn [encode]. pose proof (number_app rest Hr lit Hw) as Hnum.
    destruct (number_head _ Hw) as (c & t & -> & Hc).
    destruct (number_char _ Hc) as (_ & H1 & H2 & H3 & H4 & H5 & H6).
    cbn [String.append] in *. cbn [value]. rewrite H1, H2, H3, !strip_no by done. by rewrite Hnum.
  - cbn [encode enc_string String.append value]. rewrite Ascii.eqb_refl, append_assoc.
    cbn [String.append]. by rewrite dec_enc_string.
  - cbn [wf] in Hw. to_prop. destruct IH as [|v l Hv Hl]; [by apply value_empty_arr|].
    cbn [forallb] in *. to_prop. rewrite encode_arr in *. cbn [String.append String.length] in Hn.
    rewrite !append_assoc, value_arr by (done || by apply Z.ltb_lt).
    rewrite <-(append_assoc (encode v)), reads_elements; [done..|]. lia.
  - cbn [wf] in Hw. to_prop. destruct IH as [|[k v] m Hv Hm]; [by apply value_empty_obj|].
    cbn [forallb fst snd] in *. to_prop. rewrite encode_obj in *. cbn [String.append String.length] in Hn.
    pose proof (reads_members m k v (d + 1) n rest Hv Hm) as Hread. rewrite !append_assoc in Hread |- *.
    rewrite value_obj by (done || by apply Z.ltb_lt). rewrite !append_assoc, Hread; [done..|].
    rewrite !length_append in *. simpl in *. rewrite !length_append in *. lia.
Qed.

(** Every value the encoder can write (strings in UTF-8, numbers as literals, nesting
    within the decoder's limit) is read back by the decoder as the same value: escaping and
    unescaping of quotes, control characters, HTML characters and line separators cancel. *)
Lemma json_roundtrip (v : json) : wf 0 v = true → parse (encode v) = Some v.
Proof.
  intros Hw. unfold parse. rewrite <-(append_nil_r (encode v)) at 2.
  rewrite (skip_ws_encode 0), reads_all by (done || lia). done.
Qed.

Example parse_sample :
  let v := JObj [("a", JArr [JNum "1"; JNum "-2.5e3"; JStr (String q "x<" +:+ utf8_enc 8232 +:+ utf8_enc 233); JNull]);
                 ("b", JBool true)] in
  parse (encode v) = Some v.
Proof. vm_compute. reflexivity. Qed.

(** ** The decoder's fuel is enough *)

Definition shorter (r s : string) : Prop := (String.length r < String.length s)%nat.
Definition no_longer (r s : string) : Prop := (String.length r <= String.length s)%nat.

Lemma skip_ws_len s : no_longer (skip_ws s) s.
Proof. unfold no_longer. induction s as [|c s IH]; simpl; [lia|]. case_match; simpl; lia. Qed.

Lemma prepend_Some p x t r : prepend p x = Some (t, r) → ∃ t', x = Some (t', r).
Proof. destruct x as [[t' r']|]; [|done]. simpl. intros [= _ <-]. eauto. Qed.

Lemma dec_from_len k s t r : dec_from k s = Some (t, r) → shorter r s.
Proof.
  unfold shorter. remember (String.length s) as len eqn:Hlen. revert k s t Hlen.
  induction len as [len IH'] using lt_wf_ind. intros k s t -> Hs.
  assert (∀ k s' t', (String.length s' < String.length s)%nat → dec_from k s' = Some (t', r) →
    (String.length r < String.length s')%nat) as IH by (intros; by eapply IH').
  clear IH'. destruct s as [|a s]; [done|]. cbn [dec_from] in Hs.
  repeat (case_match; simplify_eq); try done; try (apply prepend_Some in Hs as [t' Hs]; apply IH in Hs);
    cbn [String.length] in *; lia.
Qed.

Lemma digits_len s : no_longer (digits s).2 s.
Proof.
  unfold no_longer. induction s as [|c s IH]; simpl; [lia|]. destruct (is_digit c); simpl; [|lia].
  destruct (digits s); simpl in *; lia.
Qed.

Lemma digits1_len s d r : digits1 s = Some (d, r) → no_longer r s.
Proof.
  unfold digits1. intros Hd. pose proof (digits_len s) as Hl. repeat case_match; simplify_eq/=. done.
Qed.

Lemma number_len s l r : number s = Some (l, r) → shorter r s.
Proof.
  unfold number. destruct (sign _ s) as [m s0] eqn:Hm. intros Hn.
  assert (no_longer s0 s) by (destruct s as [|c s]; cbn [sign] in Hm; repeat case_match; simplify_eq; unfold no_longer; simpl; lia).
  destruct (int_part s0) as [[i s1]|] eqn:Hi; [|done].
  assert (shorter s1 s0).
  { destruct s0 as [|c s0]; [done|]. cbn [int_part] in Hi. pose proof (digits_len s0).
    unfold shorter, no_longer in *. repeat case_match; simplify_eq/=; lia. }
  destruct (frac_part s1) as [[f s2]|] eqn:Hf; [|done].
  assert (no_longer s2 s1).
  { destruct s1 as [|c s1]; simpl in Hf; unfold no_longer; [simplify_eq; lia|].
    case_match; [|simplify_eq; lia]. apply prepend_Some in Hf as [t Ht]. apply digits1_len in Ht.
    unfold no_longer in Ht. simpl. lia. }
  apply prepend_Some in Hn as [t Hx].
  assert (no_longer r s2); [|unfold shorter, no_longer in *; lia].
  destruct s2 as [|c s2]; simpl in Hx; unfold no_longer; [simplify_eq; lia|].
  case_match; [|simplify_eq; lia]. destruct (sign _ s2) as [g s3] eqn:Hg.
  apply prepend_Some in Hx as [t' Ht]. apply digits1_len in Ht. unfold no_longer in Ht.
  destruct s2 as [|c2 s2]; cbn [sign] in Hg; repeat case_match; simplify_eq/=; lia.
Qed.

Lemma strip_len c p s r : strip (String c p) s = Some r → shorter r s.
Proof.
  unfold strip. destruct (has_prefix (String c p) s) eqn:Hp; [|done]. apply has_prefix_spec in Hp as [t ->].
  rewrite substring_drop. intros [= <-]. unfold shorter. rewrite length_append. simpl. lia.
Qed.

(** Use the length facts on every intermediate remainder. *)
Ltac lens :=
  repeat match goal with
  | H : dec_from _ _ = Some (_, _) |- _ => apply dec_from_len in H
  | H : number _ = Some (_, _) |- _ => apply number_len in H
  | H : strip (String _ _) _ = Some _ |- _ => apply strip_len in H
  | H : skip_ws ?s = _ |- _ =>
      let L := fresh in pose proof (skip_ws_len s) as L; rewrite H in L; clear H
  | H : context [skip_ws ?s] |- _ =>
      lazymatch goal with
      | _ : no_longer (skip_ws s) s |- _ => fail
      | _ => pose proof (skip_ws_len s)
      end
  end; unfold shorter, no_longer in *; cbn [String.length] in *.

Lemma consumes n : ∀ d s,
  (∀ v r, value n d s = Some (v, r) → shorter r s) ∧
  (∀ l r, elements n d s = Some (l, r) → shorter r s) ∧
  (∀ m r, members n d s = Some (m, r) → shorter r s).
Proof.
  induction n as [|n IH]; intros d s; [done|].
  assert (∀ d s v r, value n d s = Some (v, r) → shorter r s) as IHv
    by (intros d0 s0 ? ? Hx; destruct (IH d0 s0) as (?&?&?); eauto).
  assert (∀ d s v r, elements n d s = Some (v, r) → shorter r s) as IHe
    by (intros d0 s0 ? ? Hx; destruct (IH d0 s0) as (?&?&?); eauto).
  assert (∀ d s v r, members n d s = Some (v, r) → shorter r s) as IHm
    by (intros d0 s0 ? ? Hx; destruct (IH d0 s0) as (?&?&?); eauto).
  clear IH. split_and!; intros v r; cbn [value elements members].
  all: intros Hs; repeat (case_match; simplify_eq); try done;
    repeat match goal with
    | H : value _ _ _ = Some _ |- _ => apply IHv in H
    | H : elements _ _ _ = Some _ |- _ => apply IHe in H
    | H : members _ _ _ = Some _ |- _ => apply IHm in H
    end; lens; lia.
Qed.

Lemma fuel_irrelevant n : ∀ m d s,
  (2 * String.length s + 2 ≤ n → 2 * String.length s + 2 ≤ m → value n d s = value m d s)%nat ∧
  (2 * String.length s + 3 ≤ n → 2 * String.length s + 3 ≤ m → elements n d s = elements m d s)%nat ∧
  (2 * String.length s + 3 ≤ n → 2 * String.length s + 3 ≤ m → members n d s = members m d s)%nat.
Proof.
  induction n as [|n IH]; intros [|m] d s; [split_and!; lia..|].
  split_and!; intros Hn Hm; cbn [value elements members].
  - destruct s as [|c s]; [done|]. cbn [String.length] in *.
    destruct (Ascii.eqb c q); [done|].
    destruct (Ascii.eqb c "{"); [|destruct (Ascii.eqb c "["); [|done]];
      (destruct (maxNestingDepth <=? d); [done|]);
      (destruct (skip_ws s) as [|c1 s1] eqn:Hw; [done|]);
      (case_match; [done|]); lens;
      destruct (IH m (d + 1) (String c1 s1)) as (_ & He & Hb); cbn [String.length] in He, Hb.
    + by rewrite Hb by lia.
    + by rewrite He by lia.
  - pose proof (skip_ws_len s) as L. unfold no_longer in L.
    destruct (IH m d (skip_ws s)) as (Hval & _ & _). rewrite Hval by lia. clear Hval.
    destruct (value m d (skip_ws s)) as [[v r]|] eqn:Hv; [|done]. apply consumes in Hv.
    destruct (skip_ws r) as [|c r'] eqn:Hr; [done|]. case_match; [done|]. case_match; [|done].
    lens. destruct (IH m d r') as (_ & He & _). by rewrite He by lia.
  - destruct (skip_ws s) as [|c0 s0] eqn:Hs; [done|]. case_match; [done|].
    destruct (dec_from 0 s0) as [[k r0]|] eqn:Hk; [|done].
    destruct (skip_ws r0) as [|c1 r1] eqn:Hr0; [done|]. case_match; [done|].
    pose proof (skip_ws_len r1) as L1. lens.
    destruct (IH m d (skip_ws r1)) as (Hval & _ & _). rewrite Hval by lia. clear Hval.
    destruct (value m d (skip_ws r1)) as [[v r]|] eqn:Hv; [|done]. apply consumes in Hv.
    destruct (skip_ws r) as [|c r'] eqn:Hr; [done|]. case_match; [done|]. case_match; [|done].
    lens. destruct (IH m d r') as (_ & _ & Hb). by rewrite Hb by lia.
Qed.

(** More fuel than [parse] uses never changes the outcome: a rejection is a syntax error. *)
Lemma parse_fuel n s : (2 * String.length s + 2 ≤ n)%nat →
  value n 0 (skip_ws s) = value (2 * String.length s + 2) 0 (skip_ws s).
Proof.
  intros Hn. pose proof (skip_ws_len s). unfold no_longer in *.
  apply fuel_irrelevant; lia.
Qed.

End Json.
