(* ===== verification/RawJson.v ===== *)
(** * json.RawMessage

    The part of [encoding/json] that keeps the text of a value: marshalling a [RawMessage]
    checks it and writes it compacted, with the HTML characters and line separators of its
    strings escaped; unmarshalling captures the text of a member as it is.  Compacting changes
    neither the value a document stands for nor its validity. *)
From S2P Require Import Prelude Json.
Import Json.

Module RawJson.

(** ** appendCompact *)

Definition html_char (c : ascii) : bool :=
  let n := nat_of_ascii c in (n =? 60)%nat || (n =? 62)%nat || (n =? 38)%nat.

(** Outside strings, inside a string, and after a backslash in one. *)
Inductive mode := Out | In | Esc.

Fixpoint compact (m : mode) (s : string) : string :=
  match s with
  | EmptyString => ""
  | String a s' =>
      match m with
      | Out => if is_space a then compact Out s' else String a (compact (if Ascii.eqb a q then In else Out) s')
      | Esc => String a (compact In s')
      | In =>
          if Ascii.eqb a q then String a (compact Out s')
          else if Ascii.eqb a bs then String a (compact Esc s')
          else if html_char a then enc_ascii a +:+ compact In s'
          else match s' with
               | String b (String c s3) =>
                   if (bval a =? 226) && (bval b =? 128) && (bval c =? 168) then String bs "u2028" +:+ compact In s3
                   else if (bval a =? 226) && (bval b =? 128) && (bval c =? 169) then String bs "u2029" +:+ compact In s3
                   else String a (compact In s')
               | _ => String a (compact In s')
               end
      end
  end.

(** [json.Marshal] of a raw value. *)
Definition marshal_raw (s : string) : option string :=
  match parse s with Some _ => Some (compact Out s) | None => None end.

(** ** Strings *)

(** The continuation bytes at the head of a string: all that [rune_size] looks at. *)
Fixpoint conts (s : string) : string :=
  match s with String a s' => if cont a then String a (conts s') else "" | EmptyString => "" end.

Lemma between_cont lo hi b : 128 ≤ lo → hi ≤ 191 → cont b = false → between lo hi b = false.
Proof. unfold cont, between. rewrite !andb_false_iff, !Z.leb_gt. lia. Qed.

Lemma rune_size_conts a s : rune_size (String a s) = rune_size (String a (conts s)).
Proof.
  unfold rune_size. destruct (bval a <? 128); [done|]. destruct s as [|b s]; [done|]. cbn [conts].
  destruct (cont b) eqn:Hb; rewrite ?Hb.
  - destruct (between 194 223 a); [done|]. cbn [andb]. destruct s as [|c s]; [done|]. cbn [conts].
    destruct (cont c) eqn:Hc; rewrite ?Hc, ?andb_false_r, ?andb_true_r; [|by repeat case_match].
    destruct s as [|d s]; [done|]. cbn [conts]. destruct (cont d) eqn:Hd; rewrite ?Hd, ?andb_false_r; [done|].
    by repeat case_match.
  - rewrite !(between_cont _ _ b) by (done || lia). rewrite !andb_false_r. cbn [orb andb]. by repeat case_match.
Qed.

Lemma conts_quote b x y : conts (b +:+ String q x) = conts (b +:+ String q y).
Proof. induction b as [|c b IH]; simpl; [done|]. destruct (cont c); [by rewrite IH|done]. Qed.

Lemma cont_plain a : cont a = true →
  Ascii.eqb a q = false ∧ Ascii.eqb a bs = false ∧ html_char a = false ∧ bval a =? 226 = false ∧ bval a <? 128 = false.
Proof. destruct a as [[] [] [] [] [] [] [] []]; intros Ha; try discriminate Ha; done. Qed.

(** A byte that compacting copies. *)
Lemma compact_copy a s :
  Ascii.eqb a q = false → Ascii.eqb a bs = false → html_char a = false → bval a =? 226 = false →
  compact In (String a s) = String a (compact In s).
Proof. intros H1 H2 H3 H4. cbn [compact]. rewrite H1, H2, H3, H4. by destruct s as [|? [|? ?]]. Qed.

Lemma compact_cont a s : cont a = true → compact In (String a s) = String a (compact In s).
Proof. intros (H1 & H2 & H3 & H4 & _)%cont_plain. by apply compact_copy. Qed.

(** Compacting keeps the continuation bytes at the head. *)
Lemma conts_compact s : conts (compact In s) = conts s.
Proof.
  induction s as [|a s IH]; [done|]. destruct (cont a) eqn:Ha; [rewrite compact_cont by done; cbn [conts]; by rewrite Ha, IH|].
  cbn [conts]. rewrite Ha. cbn [compact]. destruct (Ascii.eqb a q); [cbn [conts]; by rewrite Ha|].
  destruct (Ascii.eqb a bs); [cbn [conts]; by rewrite Ha|].
  destruct (html_char a) eqn:Hh; [destruct a as [[] [] [] [] [] [] [] []]; by try discriminate Hh|].
  repeat case_match; cbn [conts]; by rewrite ?Ha.
Qed.

(** What compacting a string body with its closing quote means. *)
Definition compacts (s t r : string) : Prop := ∃ b cb,
  s = b +:+ String q r ∧
  (∀ x, compact In (b +:+ String q x) = cb +:+ String q (compact Out x)) ∧
  (∀ rest, dec_from 0 (cb +:+ String q rest) = Some (t, rest)).

Lemma compacts_nil r : compacts (String q r) "" r.
Proof. exists "", "". split_and!; [done| |done]. by intros x. Qed.

(** The written body starts with the same continuation bytes. *)
Lemma compacts_conts b cb r rest :
  (∀ x, compact In (b +:+ String q x) = cb +:+ String q (compact Out x)) →
  conts (cb +:+ String q rest) = conts (b +:+ String q r).
Proof.
  intros Hc. rewrite (conts_quote cb rest (compact Out r)), <-Hc. apply conts_compact.
Qed.

(** Putting a piece in front: [p] is written as [cp] and decodes to [u]. *)
Lemma compacts_prepend p cp u s t r :
  (∀ b x, s = b +:+ String q r → compact In (p +:+ (b +:+ String q x)) = cp +:+ compact In (b +:+ String q x)) →
  (∀ b cb rest, s = b +:+ String q r → (∀ x, compact In (b +:+ String q x) = cb +:+ String q (compact Out x)) →
     dec_from 0 (cp +:+ (cb +:+ String q rest)) = prepend u (dec_from 0 (cb +:+ String q rest))) →
  compacts s t r → compacts (p +:+ s) (u +:+ t) r.
Proof.
  intros Hp Hd (b & cb & Hs & Hc & Hdec). exists (p +:+ b), (cp +:+ cb). split_and!.
  - by rewrite append_assoc, Hs.
  - intros x. by rewrite append_assoc, (Hp b x Hs), Hc, append_assoc.
  - intros rest. rewrite append_assoc, (Hd b cb rest Hs Hc), Hdec. done.
Qed.

(** A copied piece after which decoding does not depend on what follows. *)
Lemma compacts_copy p u s t r :
  (∀ x, compact In (p +:+ x) = p +:+ compact In x) → (∀ x, dec_from 0 (p +:+ x) = prepend u (dec_from 0 x)) →
  compacts s t r → compacts (p +:+ s) (u +:+ t) r.
Proof. intros Hp Hd. apply (compacts_prepend p p); intros; [apply Hp|apply Hd]. Qed.

Lemma hex_plain c z : hex_val c = Some z →
  Ascii.eqb c q = false ∧ Ascii.eqb c bs = false ∧ html_char c = false ∧ bval c =? 226 = false.
Proof. destruct c as [[] [] [] [] [] [] [] []]; intros Hc; try discriminate Hc; done. Qed.

Lemma compact_hex a b c d z x : hex4 a b c d = Some z →
  compact In (String a (String b (String c (String d x)))) = String a (String b (String c (String d (compact In x)))).
Proof.
  unfold hex4. intros H. repeat (case_match; [|done]).
  rewrite !compact_copy; first [done | by eapply hex_plain].
Qed.

Lemma rune_cont_1 a b s n : rune_size (String a (String b s)) = S (S n) → cont b = true.
Proof.
  rewrite rune_size_conts. cbn [conts]. destruct (cont b); [done|]. simpl. by destruct (bval a <? 128).
Qed.
Lemma rune_cont_2 a b c s n : rune_size (String a (String b (String c s))) = S (S (S n)) → cont c = true.
Proof.
  intros H. pose proof (rune_cont_1 _ _ _ _ H) as Hb. revert H. rewrite rune_size_conts. cbn [conts]. rewrite Hb.
  destruct (cont c); [done|]. simpl. by repeat case_match.
Qed.
Lemma rune_cont_3 a b c d s : rune_size (String a (String b (String c (String d s)))) = 4%nat → cont d = true.
Proof.
  intros H. pose proof (rune_cont_1 _ _ _ _ H) as Hb. pose proof (rune_cont_2 _ _ _ _ _ H) as Hc. revert H.
  rewrite rune_size_conts. cbn [conts]. rewrite Hb, Hc. destruct (cont d); [done|]. simpl. by repeat case_match.
Qed.

Lemma high_plain a : bval a <? 128 = false → Ascii.eqb a q = false ∧ Ascii.eqb a bs = false ∧ html_char a = false.
Proof. destruct a as [[] [] [] [] [] [] [] []]; intros Ha; try discriminate Ha; done. Qed.

(** The lead byte of a rune that is no line separator is copied. *)
Lemma compact_lead a s : bval a <? 128 = false → rune_size (String a s) = 0%nat ∨ bval a =? 226 = false →
  compact In (String a s) = String a (compact In s).
Proof.
  intros Ha H. destruct (high_plain a Ha) as (H1 & H2 & H3). destruct H as [H|H]; [|by apply compact_copy].
  cbn [compact]. rewrite H1, H2, H3. destruct s as [|b [|c s]]; [done|done|].
  destruct (bval a =? 226) eqn:Ea; [|done]. destruct (bval b =? 128) eqn:Eb; [|done].
  destruct (bval c =? 168) eqn:Ec; [|destruct (bval c =? 169) eqn:Ed; [|done]]; exfalso; revert H; simpl;
    rewrite Ha; unfold cont, between; repeat case_match; try done; to_prop; lia.
Qed.

(** *** Surrogate escapes *)

(** The code of a unicode escape at the head. *)
Definition escape_ahead (s : string) : option Z :=
  match s with
  | String b1 (String u1 (String i1 (String i2 (String i3 (String i4 _))))) =>
      if Ascii.eqb b1 bs && Ascii.eqb u1 "u" then hex4 i1 i2 i3 i4 else None
  | _ => None
  end.
Definition no_low (s : string) : Prop := ∀ r1, escape_ahead s = Some r1 → low_surrogate r1 = false.

Notation escape h1 h2 h3 h4 s := (String bs (String "u" (String h1 (String h2 (String h3 (String h4 s)))))).

(** Decoding a unicode escape. *)
Lemma dec_escape_eq h1 h2 h3 h4 s :
  dec_from 0 (escape h1 h2 h3 h4 s) =
    match hex4 h1 h2 h3 h4 with
    | None => None
    | Some r =>
        if high_surrogate r then
          match s with
          | String b1 (String u1 (String i1 (String i2 (String i3 (String i4 s4))))) =>
              match (if Ascii.eqb b1 bs && Ascii.eqb u1 "u" then hex4 i1 i2 i3 i4 else None) with
              | Some r1 =>
                  if low_surrogate r1
                  then prepend (utf8_enc ((r - 55296) * 1024 + (r1 - 56320) + 65536)) (dec_from 0 s4)
                  else prepend RuneError (dec_from 0 s)
              | None => prepend RuneError (dec_from 0 s)
              end
          | _ => prepend RuneError (dec_from 0 s)
          end
        else if low_surrogate r then prepend RuneError (dec_from 0 s)
        else prepend (utf8_enc r) (dec_from 0 s)
    end.
Proof. reflexivity. Qed.

Lemma dec_lone_surrogate h1 h2 h3 h4 r s :
  hex4 h1 h2 h3 h4 = Some r → high_surrogate r = true → no_low s →
  dec_from 0 (String bs (String "u" (String h1 (String h2 (String h3 (String h4 s)))))) = prepend RuneError (dec_from 0 s).
Proof.
  intros Hr Hh Hs. rewrite dec_escape_eq, Hr, Hh.
  destruct s as [|b1 [|u1 [|i1 [|i2 [|i3 [|i4 s]]]]]]; try done. unfold no_low, escape_ahead in Hs.
  destruct (Ascii.eqb b1 bs && Ascii.eqb u1 "u"); [|done]. destruct (hex4 i1 i2 i3 i4) as [r1|]; [|done].
  by rewrite (Hs r1 eq_refl).
Qed.

(** It is read before the closing quote. *)
Lemma escape_quote b x y : escape_ahead (b +:+ String q x) = escape_ahead (b +:+ String q y).
Proof.
  assert (Hq : ∀ a c d, hex4 q a c d = None ∧ hex4 a q c d = None ∧ hex4 a c q d = None ∧ hex4 a c d q = None).
  { intros. unfold hex4. change (hex_val q) with (@None Z). split_and!; by repeat case_match. }
  destruct b as [|b1 [|u1 [|i1 [|i2 [|i3 [|i4 b]]]]]]; simpl; try done;
    repeat match goal with |- context [match ?z with EmptyString => _ | String _ _ => _ end] => destruct z end;
    rewrite ?(proj1 (Hq _ _ _)), ?(proj1 (proj2 (Hq _ _ _))), ?(proj1 (proj2 (proj2 (Hq _ _ _)))), ?(proj2 (proj2 (proj2 (Hq _ _ _))));
    rewrite ?andb_false_r; try done; by repeat case_match.
Qed.

Lemma no_low_compact s t r : dec_from 0 s = Some (t, r) → no_low s → no_low (compact In s).
Proof.
  intros Hd Hs. destruct s as [|a s]; [done|]. destruct (Ascii.eqb_spec a bs) as [->|Ha].
  - destruct s as [|e s]; [done|]. cbn [compact]. change (Ascii.eqb bs q) with false. change (Ascii.eqb bs bs) with true. cbv iota.
    destruct (Ascii.eqb_spec e "u") as [->|He].
    + cbn [dec_from] in Hd. change (Ascii.eqb bs q) with false in Hd. change (Ascii.eqb bs bs) with true in Hd.
      change (Ascii.eqb "u" "u") with true in Hd. cbv iota in Hd.
      destruct s as [|i1 [|i2 [|i3 [|i4 s]]]]; try done. destruct (hex4 i1 i2 i3 i4) as [r1|] eqn:Hx; [|done].
      rewrite (compact_hex _ _ _ _ _ _ Hx). exact Hs.
    + intros r1. unfold escape_ahead. rewrite (proj2 (Ascii.eqb_neq _ _) He), andb_false_r. by repeat case_match.
  - assert (Hhead : ∀ y, escape_ahead (String a y) = None).
    { intros y. unfold escape_ahead. rewrite (proj2 (Ascii.eqb_neq _ _) Ha). simpl. by repeat case_match. }
    cbn [compact]. rewrite (proj2 (Ascii.eqb_neq _ _) Ha). destruct (Ascii.eqb a q); [intros r1; by rewrite Hhead|].
    destruct (html_char a) eqn:Hh.
    { destruct a as [[] [] [] [] [] [] [] []]; try discriminate Hh; intros r1 [= <-]; done. }
    repeat case_match; try (intros r1; by rewrite Hhead); intros r1 [= <-]; done.
Qed.

Lemma compact_escape h1 h2 h3 h4 z x : hex4 h1 h2 h3 h4 = Some z →
  compact In (escape h1 h2 h3 h4 x) = escape h1 h2 h3 h4 (compact In x).
Proof.
  intros Hz. cbn [compact]. change (Ascii.eqb bs q) with false. change (Ascii.eqb bs bs) with true. cbv iota.
  do 2 f_equal. by eapply compact_hex.
Qed.

Lemma dec_escape h1 h2 h3 h4 z x : hex4 h1 h2 h3 h4 = Some z → high_surrogate z = false →
  dec_from 0 (escape h1 h2 h3 h4 x) = prepend (if low_surrogate z then RuneError else utf8_enc z) (dec_from 0 x).
Proof.
  intros Hz Hh. rewrite dec_escape_eq, Hz, Hh. by destruct (low_surrogate z).
Qed.

Lemma dec_pair h1 h2 h3 h4 z i1 i2 i3 i4 y x :
  hex4 h1 h2 h3 h4 = Some z → high_surrogate z = true → hex4 i1 i2 i3 i4 = Some y → low_surrogate y = true →
  dec_from 0 (escape h1 h2 h3 h4 (escape i1 i2 i3 i4 x)) =
    prepend (utf8_enc ((z - 55296) * 1024 + (y - 56320) + 65536)) (dec_from 0 x).
Proof.
  intros Hz Hh Hy Hl. rewrite dec_escape_eq, Hz, Hh. change (Ascii.eqb bs bs && Ascii.eqb "u" "u") with true.
  cbv iota. by rewrite Hy, Hl.
Qed.

(** The escape that follows, if it is a low surrogate. *)
Lemma low_cases s : (∃ i1 i2 i3 i4 y x, s = escape i1 i2 i3 i4 x ∧ hex4 i1 i2 i3 i4 = Some y ∧ low_surrogate y = true) ∨ no_low s.
Proof.
  destruct (escape_ahead s) as [y|] eqn:He; [|by right; intros r1; rewrite He].
  destruct (low_surrogate y) eqn:Hl; [|by right; intros r1; rewrite He; intros [= <-]].
  left. destruct s as [|b1 [|u1 [|i1 [|i2 [|i3 [|i4 x]]]]]]; try done. cbn [escape_ahead] in He.
  destruct (Ascii.eqb_spec b1 bs) as [->|]; [|done]. destruct (Ascii.eqb_spec u1 "u") as [->|]; [|done].
  cbn [andb] in He. exists i1, i2, i3, i4, y, x. done.
Qed.

Lemma prepend_inv u x t r : prepend u x = Some (t, r) → ∃ t', t = u +:+ t' ∧ x = Some (t', r).
Proof. destruct x as [[t' r']|]; [|done]. intros [= <- <-]. eauto. Qed.

(** The induction hypothesis of the walk: shorter bodies compact. *)
Definition compacts_below (n : nat) : Prop :=
  ∀ s t r, (String.length s < n)%nat → dec_from 0 s = Some (t, r) → compacts s t r.

(** A piece in front of a shorter body. *)
Lemma piece_case n p u s t r :
  compacts_below n → (String.length s < n)%nat →
  (∀ x, compact In (p +:+ x) = p +:+ compact In x) → (∀ x, dec_from 0 (p +:+ x) = prepend u (dec_from 0 x)) →
  dec_from 0 (p +:+ s) = Some (t, r) → compacts (p +:+ s) t r.
Proof.
  intros IH Hl Hp Hd. rewrite Hd. intros (t' & -> & Hs)%prepend_inv. apply compacts_copy; auto.
Qed.

Lemma escape_case n s t r :
  compacts_below n → (String.length s < n)%nat → dec_from 0 (String bs s) = Some (t, r) → compacts (String bs s) t r.
Proof.
  intros IH Hl Hd. destruct s as [|e s]; [done|]. destruct (Ascii.eqb_spec e "u") as [->|He].
  - assert (∃ h1 h2 h3 h4 z x, s = String h1 (String h2 (String h3 (String h4 x))) ∧ hex4 h1 h2 h3 h4 = Some z)
      as (h1 & h2 & h3 & h4 & z & x & -> & Hz).
    { cbn [dec_from] in Hd. change (Ascii.eqb bs q) with false in Hd. change (Ascii.eqb bs bs) with true in Hd.
      change (Ascii.eqb "u" "u") with true in Hd. cbv iota in Hd.
      destruct s as [|h1 [|h2 [|h3 [|h4 s]]]]; try done. destruct (hex4 h1 h2 h3 h4) as [z|] eqn:Hz; [|done]. eauto 10. }
    simpl in Hl. destruct (high_surrogate z) eqn:Hh.
    + destruct (low_cases x) as [(i1 & i2 & i3 & i4 & y & x' & -> & Hy & Hlow)|Hno].
      * change (escape h1 h2 h3 h4 (escape i1 i2 i3 i4 x')) with (escape h1 h2 h3 h4 (escape i1 i2 i3 i4 "") +:+ x') in *.
        simpl in Hl. eapply (piece_case n); [done|lia| | |exact Hd].
        -- intros w. simpl String.append. by rewrite (compact_escape _ _ _ _ z), (compact_escape _ _ _ _ y).
        -- intros w. simpl String.append. by apply dec_pair.
      * rewrite (dec_lone_surrogate _ _ _ _ z) in Hd by done.
        apply prepend_inv in Hd as (t' & -> & Hx).
        change (escape h1 h2 h3 h4 x) with (escape h1 h2 h3 h4 "" +:+ x).
        apply (compacts_prepend _ (escape h1 h2 h3 h4 "")); [| |apply IH; [lia|done]].
        -- intros b w _. by apply (compact_escape _ _ _ _ z).
        -- intros b cb rest Hb Hc. apply (dec_lone_surrogate _ _ _ _ z); [done|done|].
           intros r1. rewrite (escape_quote cb rest (compact Out r)), <-Hc, <-Hb. by eapply no_low_compact.
    + change (escape h1 h2 h3 h4 x) with (escape h1 h2 h3 h4 "" +:+ x) in *.
      eapply (piece_case n); [done|lia| | |exact Hd].
      * intros w. by apply (compact_escape _ _ _ _ z).
      * intros w. by apply dec_escape.
  - assert (∃ c, unesc e = Some c) as [c Hu].
    { cbn [dec_from] in Hd. change (Ascii.eqb bs q) with false in Hd. change (Ascii.eqb bs bs) with true in Hd.
      rewrite (proj2 (Ascii.eqb_neq _ _) He) in Hd. cbv iota in Hd. destruct (unesc e); [eauto|done]. }
    simpl in Hl. change (String bs (String e s)) with (String bs (String e "") +:+ s) in *.
    apply (piece_case n _ (String c "")); [done|lia|done| |done].
    intros x. cbn [String.append dec_from]. change (Ascii.eqb bs q) with false. change (Ascii.eqb bs bs) with true.
    by rewrite (proj2 (Ascii.eqb_neq _ _) He), Hu.
Qed.

(** *** The whole body *)

(** A byte that starts no well-formed rune. *)
Lemma bad_rune_case n a s t r :
  compacts_below n → (String.length s < n)%nat → bval a <? 128 = false → rune_size (String a s) = 0%nat →
  prepend RuneError (dec_from 0 s) = Some (t, r) → compacts (String a s) t r.
Proof.
  intros IH Hl Ha Hn (t' & -> & Hs)%prepend_inv. change (String a s) with (String a "" +:+ s).
  destruct (high_byte _ Ha) as (H1 & H2 & H3).
  apply (compacts_prepend _ (String a "")); [| |by apply IH].
  - intros b x Hb. apply compact_lead; [done|]. left. cbn [String.append].
    rewrite rune_size_conts, (conts_quote b x r), <-Hb, <-rune_size_conts. done.
  - intros b cb rest Hb Hc. cbn [String.append dec_from]. rewrite H1, H2, H3.
    rewrite rune_size_conts, (compacts_conts b cb r rest Hc), <-Hb, <-rune_size_conts, Hn. done.
Qed.

Lemma ascii_case n a s t r :
  compacts_below n → (String.length s < n)%nat → Ascii.eqb a q = false → Ascii.eqb a bs = false →
  bval a <? 32 = false → bval a <? 128 = true → dec_from 0 (String a s) = Some (t, r) → compacts (String a s) t r.
Proof.
  intros IH Hl H1 H2 H3 Ha. change (String a s) with (String a "" +:+ s).
  assert (Hdec : ∀ x, dec_from 0 (String a "" +:+ x) = prepend (String a "") (dec_from 0 x)).
  { intros x. cbn [String.append dec_from]. rewrite H1, H2, H3. unfold rune_size. by rewrite Ha. }
  destruct (html_char a) eqn:Hh.
  - rewrite Hdec. intros (t' & -> & Hs)%prepend_inv.
    apply (compacts_prepend _ (enc_ascii a)); [| |by apply IH].
    + intros b x _. cbn [String.append compact]. by rewrite H1, H2, Hh.
    + intros b cb rest _ _. by apply dec_enc_ascii.
  - apply (piece_case n _ (String a "")); [done|done| |done].
    intros x. apply compact_copy; try done. destruct a as [[] [] [] [] [] [] [] []]; by try discriminate Ha.
Qed.

Lemma dec_rune_2 a b x : bval a <? 128 = false → rune_size (String a (String b x)) = 2%nat →
  dec_from 0 (String a (String b x)) = prepend (String a (String b "")) (dec_from 0 x).
Proof. intros Ha Hn. rewrite (dec_high _ _ 1) by done. cbn [dec_from]. by rewrite prepend_prepend. Qed.
Lemma dec_rune_3 a b c x : bval a <? 128 = false → rune_size (String a (String b (String c x))) = 3%nat →
  dec_from 0 (String a (String b (String c x))) = prepend (String a (String b (String c ""))) (dec_from 0 x).
Proof. intros Ha Hn. rewrite (dec_high _ _ 2) by done. cbn [dec_from]. by rewrite !prepend_prepend. Qed.
Lemma dec_rune_4 a b c d x : bval a <? 128 = false → rune_size (String a (String b (String c (String d x)))) = 4%nat →
  dec_from 0 (String a (String b (String c (String d x)))) = prepend (String a (String b (String c (String d "")))) (dec_from 0 x).
Proof. intros Ha Hn. rewrite (dec_high _ _ 3) by done. cbn [dec_from]. by rewrite !prepend_prepend. Qed.

(** The two line separators, which are written as escapes. *)
Lemma separator_case n u s t r :
  compacts_below n → (String.length s < n)%nat → u = 8232 ∨ u = 8233 →
  dec_from 0 (utf8_enc u +:+ s) = Some (t, r) → compacts (utf8_enc u +:+ s) t r.
Proof.
  intros IH Hl Hu. assert (dec_from 0 (utf8_enc u +:+ s) = prepend (utf8_enc u) (dec_from 0 s)) as ->.
  { destruct Hu as [->| ->]; by apply dec_rune_3. }
  intros (t' & -> & Hs)%prepend_inv.
  destruct Hu as [->| ->]; [apply (compacts_prepend _ (String bs "u2028"))|apply (compacts_prepend _ (String bs "u2029"))];
    try (by apply IH); intros; try done.
Qed.

Lemma lead_2 a b x : rune_size (String a (String b x)) = 2%nat → bval a =? 226 = false.
Proof. simpl. unfold between. repeat case_match; try done. to_prop. intros _. apply Z.eqb_neq. lia. Qed.
Lemma lead_4 a b c d x : rune_size (String a (String b (String c (String d x)))) = 4%nat → bval a =? 226 = false.
Proof.
  simpl. unfold between. repeat case_match; try done. intros _. apply Z.eqb_neq. intros Ha. rewrite Ha in *. done.
Qed.

(** A lead byte with its next two bytes. *)
Lemma compact_lead_3 a b c x : bval a <? 128 = false →
  (∀ u, u = 8232 ∨ u = 8233 → has_prefix (utf8_enc u) (String a (String b (String c x))) = false) →
  compact In (String a (String b (String c x))) = String a (compact In (String b (String c x))).
Proof.
  intros Ha Hno. destruct (high_plain a Ha) as (H1 & H2 & H3).
  assert (∀ u z, u = 8232 ∧ z = 168 ∨ u = 8233 ∧ z = 169 → (bval a =? 226) && (bval b =? 128) && (bval c =? z) = false) as Hz.
  { intros u z Hu. apply not_true_iff_false. intros H. to_prop.
    assert (∀ e f, bval e = bval f → e = f) as Hinj.
    { intros e f He. unfold bval in He. apply N2Z.inj in He. apply (f_equal ascii_of_N) in He. by rewrite !ascii_N_embedding in He. }
    specialize (Hno u ltac:(naive_solver)). apply not_true_iff_false in Hno. apply Hno.
    apply has_prefix_spec. exists x.
    destruct Hu as [[-> ->]|[-> ->]];
      [change (utf8_enc 8232 +:+ x) with (String (bchr 226) (String (bchr 128) (String (bchr 168) x)))
      |change (utf8_enc 8233 +:+ x) with (String (bchr 226) (String (bchr 128) (String (bchr 169) x)))];
      do 3 (apply (f_equal2 String); [apply Hinj; by match goal with H : bval ?e = _ |- bval ?e = _ => rewrite H end|]); done. }
  change (compact In (String a (String b (String c x)))) with
    (if Ascii.eqb a q then String a (compact Out (String b (String c x)))
     else if Ascii.eqb a bs then String a (compact Esc (String b (String c x)))
     else if html_char a then enc_ascii a +:+ compact In (String b (String c x))
     else if (bval a =? 226) && (bval b =? 128) && (bval c =? 168) then String bs "u2028" +:+ compact In x
     else if (bval a =? 226) && (bval b =? 128) && (bval c =? 169) then String bs "u2029" +:+ compact In x
     else String a (compact In (String b (String c x)))).
  by rewrite H1, H2, H3, (Hz 8232 168), (Hz 8233 169) by auto.
Qed.

(** A rune of two to four bytes that is no line separator. *)
Lemma rune_case n k a s t r :
  compacts_below n → (String.length s < n)%nat → bval a <? 128 = false → rune_size (String a s) = S k →
  (∀ u, u = 8232 ∨ u = 8233 → has_prefix (utf8_enc u) (String a s) = false) →
  prepend (String a "") (dec_from k s) = Some (t, r) → compacts (String a s) t r.
Proof.
  intros IH Hl Ha Hk Hno Hd. rewrite <-(dec_high a s k Ha Hk) in Hd.
  destruct (rune_size_shape _ _ Hk) as [(-> & a' & s' & [= -> ->] & ?)|[(-> & a' & b & x & [= <- ->] & _)|
    [(-> & a' & b & c & x & [= <- ->] & _)|(-> & a' & b & c & d & x & [= <- ->] & _)]]]; [congruence| | |].
  - pose proof (rune_cont_1 _ _ _ _ Hk) as Hb. change (String a (String b x)) with (String a (String b "") +:+ x) in *.
    eapply (piece_case n); [done|simpl in Hl; lia| | |exact Hd].
    + intros y. cbn [String.append]. rewrite compact_lead; [by rewrite compact_cont|done|]. right. exact (lead_2 _ _ _ Hk).
    + intros y. cbn [String.append]. apply dec_rune_2; [done|]. exact (rune_size_2 _ _ _ _ Hk).
  - pose proof (rune_cont_1 _ _ _ _ Hk) as Hb. pose proof (rune_cont_2 _ _ _ _ _ Hk) as Hc.
    change (String a (String b (String c x))) with (String a (String b (String c "")) +:+ x) in *.
    eapply (piece_case n); [done|simpl in Hl; lia| | |exact Hd].
    + intros y. cbn [String.append]. rewrite compact_lead_3; [by rewrite !compact_cont|done|]. intros u Hu. rewrite <-(Hno u Hu). by destruct Hu as [->| ->].
    + intros y. cbn [String.append]. apply dec_rune_3; [done|]. exact (rune_size_3 _ _ _ _ _ Hk).
  - pose proof (rune_cont_1 _ _ _ _ Hk) as Hb. pose proof (rune_cont_2 _ _ _ _ _ Hk) as Hc. pose proof (rune_cont_3 _ _ _ _ _ Hk) as Hd'.
    change (String a (String b (String c (String d x)))) with (String a (String b (String c (String d ""))) +:+ x) in *.
    eapply (piece_case n); [done|simpl in Hl; lia| | |exact Hd].
    + intros y. cbn [String.append]. rewrite compact_lead; [by rewrite !compact_cont|done|]. right. exact (lead_4 _ _ _ _ _ Hk).
    + intros y. cbn [String.append]. apply dec_rune_4; [done|]. exact (rune_size_4 _ _ _ _ _ _ Hk).
Qed.

Lemma dec_compacts s t r : dec_from 0 s = Some (t, r) → compacts s t r.
Proof.
  remember (String.length s) as len eqn:Hlen. revert s t r Hlen. induction len as [len IH] using lt_wf_ind.
  intros s t r -> Hd. destruct s as [|a s]; [done|].
  assert (compacts_below (String.length (String a s))) as Hbelow by (intros s' t' r' Hl; by eapply IH).
  assert (String.length s < String.length (String a s))%nat as Hl by (simpl; lia).
  destruct (Ascii.eqb a q) eqn:Hq.
  { apply Ascii.eqb_eq in Hq as ->. injection Hd as <- <-. apply compacts_nil. }
  destruct (Ascii.eqb a bs) eqn:Hb; [apply Ascii.eqb_eq in Hb as ->; by eapply escape_case|].
  pose proof Hd as Hd0. cbn [dec_from] in Hd. rewrite Hq, Hb in Hd.
  destruct (bval a <? 32) eqn:Hctl; [done|]. destruct (bval a <? 128) eqn:Ha; [by eapply ascii_case|].
  destruct (rune_size (String a s)) as [|n] eqn:Hn; [by eapply bad_rune_case|].
  destruct (has_prefix (utf8_enc 8232) (String a s)) eqn:H28; [|destruct (has_prefix (utf8_enc 8233) (String a s)) eqn:H29].
  1, 2: eapply line_sep_split in Hn as [_ [x Hx]]; [|done|tauto]; rewrite Hx in *;
    eapply separator_case; [exact Hbelow| |tauto|done]; rewrite length_append; simpl; lia.
  eapply rune_case; try done. by intros u [->| ->].
Qed.

(** ** Values *)

Lemma skip_ws_split s : ∃ w, s = w +:+ skip_ws s ∧ ∀ x, compact Out (w +:+ x) = compact Out x.
Proof.
  induction s as [|a s (w & Hs & Hw)]; [by exists ""|]. simpl. destruct (is_space a) eqn:Ha; [|by exists ""].
  exists (String a w). split; [simpl; by rewrite <-Hs|]. intros x. simpl. by rewrite Ha.
Qed.

(** What numbers and literals are made of. *)
Fixpoint plain (s : string) : bool :=
  match s with EmptyString => true | String a s' => negb (is_space a) && negb (Ascii.eqb a q) && plain s' end.

Lemma plain_app a b : plain (a +:+ b) = plain a && plain b.
Proof. induction a as [|c a IH]; simpl; [done|]. by rewrite IH, !andb_assoc. Qed.

Lemma compact_plain p x : plain p = true → compact Out (p +:+ x) = p +:+ compact Out x.
Proof.
  induction p as [|a p IH]; simpl; [done|]. intros Hp. to_prop.
  destruct (is_space a); [done|]. destruct (Ascii.eqb a q); [done|]. by rewrite IH.
Qed.

Lemma digit_plain c : is_digit c = true → negb (is_space c) && negb (Ascii.eqb c q) = true.
Proof. destruct c as [[] [] [] [] [] [] [] []]; intros Hc; try discriminate Hc; done. Qed.

(** The same next character, or none. *)
Definition hd (r' r : string) : Prop := r' = "" ∨ ∃ c y' y, r' = String c y' ∧ r = String c y.

Lemma hd_app f r' r : hd r' r → hd (f +:+ r') (f +:+ r).
Proof. destruct f as [|c f]; [done|]. intros _. right. simpl. eauto. Qed.

(** The stages of a number split their input, and look at no more than the next character. *)
Definition stage (f : string → option (string * string)) : Prop := ∀ s l r,
  f s = Some (l, r) → s = l +:+ r ∧ plain l = true ∧ ∀ r', hd r' r → f (l +:+ r') = Some (l, r').

Lemma digits_stage s d r : digits s = (d, r) → s = d +:+ r ∧ plain d = true ∧ ∀ r', hd r' r → digits (d +:+ r') = (d, r').
Proof.
  revert d r. induction s as [|c s IH]; intros d r; simpl.
  { intros [= <- <-]. split_and!; [done|done|]. intros r' [->|(e & y' & y & -> & ?)]; done. }
  destruct (is_digit c) eqn:Hc.
  - destruct (digits s) as [d0 r0]. intros [= <- <-]. destruct (IH _ _ eq_refl) as (-> & E2 & E3). split_and!; [done| |].
    + simpl. by rewrite E2, (digit_plain c Hc).
    + intros r' Hr. simpl. by rewrite Hc, E3.
  - intros [= <- <-]. split_and!; [done|done|]. intros r' [->|(e & y' & y & -> & [= <- <-])]; [done|]. simpl. by rewrite Hc.
Qed.

Lemma digits1_stage : stage digits1.
Proof.
  intros s l r. unfold digits1. destruct (digits s) as [d0 r0] eqn:Hd. destruct (digits_stage _ _ _ Hd) as (E1 & E2 & E3).
  destruct d0 as [|c d]; [done|]. intros [= <- <-]. split_and!; [done|done|]. intros r' Hr. by rewrite E3.
Qed.

Lemma int_part_stage : stage int_part.
Proof.
  intros [|c s] l r; simpl; [done|]. destruct (Ascii.eqb_spec c "0") as [->|Hc]; [by intros [= <- <-]|].
  destruct (is_digit c) eqn:Hd; [|done]. destruct (digits s) as [d0 r0] eqn:Hds.
  destruct (digits_stage _ _ _ Hds) as (-> & E2 & E3). intros [= <- <-]. split_and!; [done| |].
  - simpl. by rewrite E2, (digit_plain c Hd).
  - intros r' Hr. simpl. by rewrite (proj2 (Ascii.eqb_neq _ _) Hc), Hd, E3.
Qed.

Lemma optional_stage (g : ascii → bool) (f : ascii → string → option (string * string)) :
  (∀ c s l r, g c = true → f c s = Some (l, r) → ∃ l0, l = String c l0 ∧ s = l0 +:+ r ∧ plain l = true ∧
     ∀ r', hd r' r → f c (l0 +:+ r') = Some (l, r')) →
  stage (λ s, match s with String c s' => if g c then f c s' else Some ("", s) | EmptyString => Some ("", "") end).
Proof.
  intros Hf [|c s] l r; simpl.
  { intros [= <- <-]. split_and!; [done|done|]. intros r' [->|(e & y' & y & -> & ?)]; done. }
  destruct (g c) eqn:Hg.
  - intros Hs. destruct (Hf _ _ _ _ Hg Hs) as (l0 & -> & -> & Hp & Hr). split_and!; [done|done|].
    intros r' Hh. simpl. by rewrite Hg, Hr.
  - intros [= <- <-]. split_and!; [done|done|]. intros r' [->|(e & y' & y & -> & [= <- <-])]; [done|]. simpl. by rewrite Hg.
Qed.

Lemma frac_part_stage : stage frac_part.
Proof.
  apply (optional_stage (λ c, Ascii.eqb c ".") (λ _ s, prepend "." (digits1 s))).
  intros c s l r ->%Ascii.eqb_eq (d & -> & Hs)%prepend_inv. destruct (digits1_stage _ _ _ Hs) as (-> & E2 & E3).
  exists d. split_and!; [done|done| |]; [by simpl; rewrite E2|]. intros r' Hr. by rewrite E3.
Qed.

Lemma sign_stage p s g d r : d ≠ "" → sign p s = (g, d +:+ r) →
  s = g +:+ (d +:+ r) ∧ (∀ r', sign p (g +:+ (d +:+ r')) = (g, d +:+ r')) ∧ (g = "" ∨ ∃ e, g = String e "" ∧ p e = true).
Proof.
  intros Hd. destruct s as [|e y]; simpl; [intros [= <- Hy]; by destruct d|].
  destruct (p e) eqn:He; intros [= <- Hy].
  - subst y. simpl. rewrite He. split_and!; [done|done|]. right. by exists e.
  - destruct d as [|d0 d]; [done|]. simpl in Hy. injection Hy as <- ->. simpl. rewrite He. auto.
Qed.

Lemma digits1_nonempty s l r : digits1 s = Some (l, r) → l ≠ "".
Proof. unfold digits1. destruct (digits s) as [[|]]; [done|]. by intros [= <- _]. Qed.
Lemma int_part_nonempty s l r : int_part s = Some (l, r) → l ≠ "".
Proof. destruct s as [|c s]; simpl; [done|]. repeat case_match; by intros [= <- _]. Qed.

Lemma exp_part_stage : stage exp_part.
Proof.
  apply (optional_stage (λ c, Ascii.eqb c "e" || Ascii.eqb c "E")
    (λ c s, let '(g, r) := sign (λ d, Ascii.eqb d "+" || Ascii.eqb d "-") s in prepend (String c g) (digits1 r))).
  intros c s l r Hc. destruct (sign _ s) as [g s0] eqn:Hg. intros (d & -> & Hs)%prepend_inv.
  pose proof (digits1_nonempty _ _ _ Hs) as Hd. destruct (digits1_stage _ _ _ Hs) as (-> & E2 & E3).
  destruct (sign_stage _ _ _ _ _ Hd Hg) as (-> & E4 & E5). exists (g +:+ d). split_and!; [done|by rewrite append_assoc| |].
  - simpl. rewrite plain_app, E2. destruct E5 as [->|(e & -> & [->%Ascii.eqb_eq| ->%Ascii.eqb_eq]%orb_true_iff)];
      by apply orb_true_iff in Hc as [->%Ascii.eqb_eq| ->%Ascii.eqb_eq].
  - intros r' Hr. by rewrite append_assoc, E4, E3.
Qed.

Lemma number_stage : stage number.
Proof.
  intros s l r. unfold number at 1. destruct (sign (Ascii.eqb "-") s) as [m s0] eqn:Hm.
  destruct (int_part s0) as [[i s1]|] eqn:Hi; [|done]. destruct (frac_part s1) as [[f s2]|] eqn:Hf; [|done].
  intros (x & -> & Hx)%prepend_inv. pose proof (int_part_nonempty _ _ _ Hi) as Hne.
  destruct (int_part_stage _ _ _ Hi) as (-> & I2 & I3). destruct (frac_part_stage _ _ _ Hf) as (-> & F2 & F3).
  destruct (exp_part_stage _ _ _ Hx) as (-> & X2 & X3). destruct (sign_stage _ _ _ _ _ Hne Hm) as (-> & M2 & M3).
  split_and!.
  - by rewrite !append_assoc.
  - rewrite !plain_app, I2, F2, X2. by destruct M3 as [->|(e & -> & <-%Ascii.eqb_eq)].
  - intros r' Hr. unfold number. rewrite !append_assoc, M2, I3 by (do 2 apply hd_app; done).
    rewrite F3 by (by apply hd_app). rewrite X3 by done. cbn [prepend]. by rewrite !append_assoc.
Qed.

(** A text taken by the decoder: [cp] is what it is written as, and is read alike. *)
Definition piece {A} (read : string → option (A * string)) (follows : string → bool) (s : string) (v : A) (r : string) : Prop :=
  ∃ p cp, s = p +:+ r ∧ (∀ x, compact Out (p +:+ x) = cp +:+ compact Out x) ∧
    (∃ c t, cp = String c t ∧ opens c = true) ∧
    ∀ rest, follows rest = true → read (cp +:+ rest) = Some (v, rest).

Definition any_rest (s : string) : bool := true.

Definition compacts_at (n : nat) : Prop := ∀ d s,
  (∀ v r, value n d s = Some (v, r) → piece (value n d) delim s v r) ∧
  (∀ l r, elements n d s = Some (l, r) → ∃ w s', s = w +:+ s' ∧ (∀ x, compact Out (w +:+ x) = compact Out x) ∧
     piece (elements n d) any_rest s' l r) ∧
  (∀ m r, members n d s = Some (m, r) → ∃ w s', s = w +:+ s' ∧ (∀ x, compact Out (w +:+ x) = compact Out x) ∧
     piece (members n d) any_rest s' m r).

Lemma skip_ws_nonspace c t : is_space c = false → skip_ws (String c t) = String c t.
Proof. intros Hc. simpl. by rewrite Hc. Qed.

Lemma strip_spec p s r : strip p s = Some r → s = p +:+ r.
Proof.
  unfold strip. destruct (has_prefix p s) eqn:Hp; [|done]. apply has_prefix_spec in Hp as [t ->].
  intros [= <-]. by rewrite substring_drop.
Qed.

(** The punctuation after a value. *)
Definition punct (c : ascii) : Prop := is_space c = false ∧ Ascii.eqb c q = false ∧ delim (String c "") = true.

Lemma compact_punct c x : is_space c = false → Ascii.eqb c q = false → compact Out (String c x) = String c (compact Out x).
Proof. intros H1 H2. cbn [compact]. by rewrite H1, H2. Qed.

(** A piece, spaces and a character. *)
Lemma piece_punct {A} (read : string → option (A * string)) s v r c r' :
  piece read delim s v r → skip_ws r = String c r' → punct c → ∃ p cp,
    s = p +:+ r' ∧ (∀ x, compact Out (p +:+ x) = cp +:+ String c (compact Out x)) ∧
    (∃ d t, cp = String d t ∧ opens d = true) ∧
    ∀ rest, read (cp +:+ String c rest) = Some (v, String c rest).
Proof.
  intros (p & cp & Hs & Hc & Hh & Hr) Hw (P1 & P2 & P3). destruct (skip_ws_split r) as (w & Hrw & Hcw).
  exists (p +:+ (w +:+ String c "")), cp. split_and!.
  - rewrite !append_assoc. simpl. by rewrite <-Hw, <-Hrw.
  - intros x. rewrite !append_assoc, Hc, Hcw. change (String c "" +:+ x) with (String c x). by rewrite compact_punct.
  - done.
  - intros rest. by apply Hr.
Qed.

Lemma string_piece n d s t r : dec_from 0 s = Some (t, r) → piece (value (S n) d) delim (String q s) (JStr t) r.
Proof.
  intros (b & cb & -> & Hc & Hd)%dec_compacts. exists (String q (b +:+ String q "")), (String q (cb +:+ String q "")). split_and!.
  - simpl. by rewrite append_assoc.
  - intros x. cbn [String.append compact]. change (is_space q) with false. change (Ascii.eqb q q) with true. cbv iota.
    rewrite !append_assoc. cbn [String.append]. by rewrite Hc.
  - by eexists _, _.
  - intros rest _. cbn [String.append value]. change (Ascii.eqb q q) with true. cbv iota. rewrite append_assoc. cbn [String.append]. by rewrite Hd.
Qed.

Lemma literal_piece n d p v r : plain p = true →
  (∃ c t, p = String c t ∧ opens c = true) →
  (∀ rest, delim rest = true → value (S n) d (p +:+ rest) = Some (v, rest)) → piece (value (S n) d) delim (p +:+ r) v r.
Proof. intros Hp Hh Hr. exists p, p. split_and!; [done| |done|done]. intros x. by apply compact_plain. Qed.

Lemma number_piece n d s l r :
  number s = Some (l, r) → piece (value (S n) d) delim s (JNum l) r.
Proof.
  intros Hn. destruct (number_stage _ _ _ Hn) as (-> & Hp & Hr).
  assert (number_lit l = true) as Hl.
  { unfold number_lit. specialize (Hr "" (or_introl eq_refl)). rewrite append_nil_r in Hr. by rewrite Hr, !String.eqb_refl. }
  destruct (number_head _ Hl) as (c & t & -> & Hc). destruct (number_char _ Hc) as (H0 & H1 & H2 & H3 & H4 & H5 & H6).
  apply literal_piece; [done| |].
  - by exists c, t.
  - intros rest Hd. pose proof (number_app rest Hd _ Hl) as Hnum.
    cbn [String.append] in *. cbn [value]. rewrite H1, H2, H3, !strip_no by done. by rewrite Hnum.
Qed.

Lemma opens_spec c : opens c = true → is_space c = false ∧ Ascii.eqb c "]" = false ∧ Ascii.eqb c "}" = false.
Proof. unfold opens. rewrite !andb_true_iff, !negb_true_iff. tauto. Qed.

Lemma punct_cases c : punct c ↔ c = ","%char ∨ c = "]"%char ∨ c = "}"%char.
Proof.
  unfold punct. cbn [delim]. rewrite !orb_true_iff, !Ascii.eqb_eq. split; [tauto|].
  intros [->|[->| ->]]; auto.
Qed.

(** An opening bracket, spaces, and what the loop of the bracket takes. *)
Lemma bracket_piece {A} (read : string → option (A * string)) (readv : string → option (json * string)) (o : ascii)
    (mk : A → json) s s1 v r :
  is_space o = false → Ascii.eqb o q = false → opens o = true →
  (∃ w, s = w +:+ s1 ∧ ∀ x, compact Out (w +:+ x) = compact Out x) →
  (∃ w s', s1 = w +:+ s' ∧ (∀ x, compact Out (w +:+ x) = compact Out x) ∧ piece read any_rest s' v r) →
  (∀ c t rest x, opens c = true → read (String c t +:+ rest) = Some (x, rest) →
     readv (String o (String c t +:+ rest)) = Some (mk x, rest)) →
  piece readv delim (String o s) (mk v) r.
Proof.
  intros Ho1 Ho2 Ho3 (w0 & -> & Hw0) (w & s' & -> & Hw & p & cp & -> & Hc & (c & t & -> & Hop) & Hr) Hv.
  exists (String o (w0 +:+ (w +:+ p))), (String o (String c t)). split_and!.
  - simpl. by rewrite !append_assoc.
  - intros x. cbn [String.append]. rewrite compact_punct by done. f_equal. by rewrite !append_assoc, Hw0, Hw, Hc.
  - by eexists _, _.
  - intros rest _. by apply Hv, Hr.
Qed.

Lemma empty_bracket_piece (readv : string → option (json * string)) (o c : ascii) s s1 v :
  is_space o = false → Ascii.eqb o q = false → opens o = true → is_space c = false → Ascii.eqb c q = false →
  skip_ws s = String c s1 → (∀ rest, readv (String o (String c rest)) = Some (v, rest)) →
  piece readv delim (String o s) v s1.
Proof.
  intros Ho1 Ho2 Ho3 Hc1 Hc2 Hs Hv. destruct (skip_ws_split s) as (w & Hsw & Hw). rewrite Hs in Hsw.
  exists (String o (w +:+ String c "")), (String o (String c "")). split_and!.
  - rewrite Hsw. simpl. by rewrite append_assoc.
  - intros x. cbn [String.append]. rewrite compact_punct by done. f_equal.
    rewrite append_assoc, Hw. cbn [String.append]. by rewrite compact_punct.
  - by eexists _, _.
  - intros rest _. apply Hv.
Qed.

Lemma skip_ws_split' s s1 : skip_ws s = s1 → ∃ w, s = w +:+ s1 ∧ ∀ x, compact Out (w +:+ x) = compact Out x.
Proof. intros <-. apply skip_ws_split. Qed.

Lemma value_case n d s v r : compacts_at n → value (S n) d s = Some (v, r) → piece (value (S n) d) delim s v r.
Proof.
  intros IH Hx. destruct s as [|c s]; [done|]. cbn [value] in Hx. revert Hx. destruct (Ascii.eqb_spec c q) as [->|Hq].
  { destruct (dec_from 0 s) as [[t r']|] eqn:Hd; [|done]. intros [= <- <-]. by apply string_piece. }
  destruct (Ascii.eqb_spec c "{") as [->|Ho].
  { destruct (maxNestingDepth <=? d) eqn:Hd; [done|]. destruct (skip_ws s) as [|c1 s1] eqn:Hs; [done|].
    destruct (Ascii.eqb_spec c1 "}") as [->|Hc1].
    - intros [= <- <-]. eapply (empty_bracket_piece _ "{" "}"); try done. intros rest. cbn [value]. by rewrite Hd.
    - destruct (members n (d + 1) (String c1 s1)) as [[m r']|] eqn:Hm; [|done]. intros [= <- <-].
      apply (bracket_piece (members n (d + 1)) _ "{" JObj s (String c1 s1)); try done.
      + by apply skip_ws_split'.
      + by apply IH.
      + intros c t rest x Hop Hr. cbn [String.append] in *. cbn [value]. change (Ascii.eqb "{" q) with false. change (Ascii.eqb "{" "{") with true.
        cbv iota. destruct (opens_spec c Hop) as (_ & _ & H3). by rewrite Hd, skip_ws_opens, H3, Hr by done. }
  destruct (Ascii.eqb_spec c "[") as [->|Ho'].
  { destruct (maxNestingDepth <=? d) eqn:Hd; [done|]. destruct (skip_ws s) as [|c1 s1] eqn:Hs; [done|].
    destruct (Ascii.eqb_spec c1 "]") as [->|Hc1].
    - intros [= <- <-]. eapply (empty_bracket_piece _ "[" "]"); try done. intros rest. cbn [value]. by rewrite Hd.
    - destruct (elements n (d + 1) (String c1 s1)) as [[m r']|] eqn:Hm; [|done]. intros [= <- <-].
      apply (bracket_piece (elements n (d + 1)) _ "[" JArr s (String c1 s1)); try done.
      + by apply skip_ws_split'.
      + by apply IH.
      + intros c t rest x Hop Hr. cbn [String.append] in *. cbn [value]. change (Ascii.eqb "[" q) with false. change (Ascii.eqb "[" "{") with false.
        change (Ascii.eqb "[" "[") with true. cbv iota. destruct (opens_spec c Hop) as (_ & H3 & _). by rewrite Hd, skip_ws_opens, H3, Hr by done. }
  destruct (strip "true" (String c s)) as [r'|] eqn:Ht.
  { intros [= <- <-]. rewrite (strip_spec _ _ _ Ht). apply literal_piece; [done|by eexists _, _|]. intros rest _. cbn [String.append value].
    change (strip "true" _) with (strip "true" ("true" +:+ rest)). by rewrite strip_app. }
  destruct (strip "false" (String c s)) as [r'|] eqn:Hf.
  { intros [= <- <-]. rewrite (strip_spec _ _ _ Hf). apply literal_piece; [done|by eexists _, _|]. intros rest _. cbn [String.append value].
    rewrite strip_no by done. change (strip "false" _) with (strip "false" ("false" +:+ rest)). by rewrite strip_app. }
  destruct (strip "null" (String c s)) as [r'|] eqn:Hn.
  { intros [= <- <-]. rewrite (strip_spec _ _ _ Hn). apply literal_piece; [done|by eexists _, _|]. intros rest _. cbn [String.append value].
    rewrite !strip_no by done. change (strip "null" _) with (strip "null" ("null" +:+ rest)). by rewrite strip_app. }
  destruct (number (String c s)) as [[l r']|] eqn:Hnum; [|done]. intros [= <- <-]. by apply number_piece.
Qed.

Lemma elements_case n d s l r : compacts_at n → elements (S n) d s = Some (l, r) →
  ∃ w s', s = w +:+ s' ∧ (∀ x, compact Out (w +:+ x) = compact Out x) ∧ piece (elements (S n) d) any_rest s' l r.
Proof.
  intros IH Hx. cbn [elements] in Hx. revert Hx. destruct (value n d (skip_ws s)) as [[v r0]|] eqn:Hv; [|done].
  destruct (skip_ws r0) as [|c r'] eqn:Hr; [done|]. apply IH in Hv.
  destruct (skip_ws_split s) as (w & Hs & Hw). intros Hl. exists w, (skip_ws s). split; [done|]. split; [done|].
  destruct (Ascii.eqb_spec c "]") as [->|Hc].
  - injection Hl as <- <-. destruct (piece_punct _ _ _ _ _ _ Hv Hr) as (p & cp & -> & Hcp & (e & t & -> & Hop) & Hread); [by apply punct_cases; auto|].
    exists p, (String e t +:+ "]"). split_and!; [done| |by eexists _, _|].
    + intros x. by rewrite Hcp, append_assoc.
    + intros rest _. cbn [elements]. rewrite append_assoc. cbn [String.append] in *. by rewrite skip_ws_opens, Hread by done.
  - destruct (Ascii.eqb_spec c ",") as [->|]; [|done]. destruct (elements n d r') as [[l' r2]|] eqn:He; [|done].
    injection Hl as <- <-. apply IH in He as (w2 & s2 & -> & Hw2 & p2 & cp2 & -> & Hc2 & _ & Hr2).
    destruct (piece_punct _ _ _ _ _ _ Hv Hr) as (p & cp & -> & Hcp & (e & t & -> & Hop) & Hread); [by apply punct_cases; auto|].
    exists (p +:+ (w2 +:+ p2)), (String e t +:+ String "," cp2). split_and!; [by rewrite !append_assoc| |by eexists _, _|].
    + intros x. by rewrite !append_assoc, Hcp, Hw2, Hc2.
    + intros rest _. cbn [elements]. rewrite append_assoc. cbn [String.append] in *. rewrite skip_ws_opens, Hread by done.
      cbn [skip_ws]. change (is_space ",") with false. cbv iota. change (Ascii.eqb "," "]") with false. change (Ascii.eqb "," ",") with true.
      cbv iota. by rewrite Hr2.
Qed.

(** One step of the loop over the members, and of compacting a string's quote. *)
Lemma members_eq n d s :
  members (S n) d s =
    match skip_ws s with
    | String c0 s0 =>
        if negb (Ascii.eqb c0 q) then None
        else match dec_from 0 s0 with
        | None => None
        | Some (k, r0) =>
            match skip_ws r0 with
            | String c1 r1 =>
                if negb (Ascii.eqb c1 ":") then None
                else match value n d (skip_ws r1) with
                | None => None
                | Some (v, r) =>
                    match skip_ws r with
                    | String c r' =>
                        if Ascii.eqb c "}" then Some ([(k, v)], r')
                        else if Ascii.eqb c "," then
                          match members n d r' with Some (l, r2) => Some ((k, v) :: l, r2) | None => None end
                        else None
                    | EmptyString => None
                    end
                end
            | EmptyString => None
            end
        end
    | EmptyString => None
    end.
Proof. reflexivity. Qed.

Lemma compact_quote x : compact Out (String q x) = String q (compact In x).
Proof. reflexivity. Qed.

Lemma append_cons c x y : String c x +:+ y = String c (x +:+ y).
Proof. reflexivity. Qed.

Lemma members_case n d s m r : compacts_at n → members (S n) d s = Some (m, r) →
  ∃ w s', s = w +:+ s' ∧ (∀ x, compact Out (w +:+ x) = compact Out x) ∧ piece (members (S n) d) any_rest s' m r.
Proof.
  intros IH Hx. cbn [members] in Hx. revert Hx. destruct (skip_ws s) as [|c0 s0] eqn:Hs0; [done|]. destruct (skip_ws_split' s _ Hs0) as (w & Hs & Hw).
  destruct (Ascii.eqb_spec c0 q) as [->|]; [|done]. cbn [negb]. destruct (dec_from 0 s0) as [[k r0]|] eqn:Hk; [|done].
  destruct (skip_ws r0) as [|c1 r1] eqn:Hr0; [done|]. destruct (Ascii.eqb_spec c1 ":") as [->|]; [|done]. cbn [negb].
  destruct (value n d (skip_ws r1)) as [[v r2]|] eqn:Hv; [|done]. destruct (skip_ws r2) as [|c r'] eqn:Hr; [done|].
  apply IH in Hv. intros Hm. exists w, (String q s0). split; [done|]. split; [done|].
  destruct (dec_compacts _ _ _ Hk) as (b & cb & -> & Hcb & Hdb).
  destruct (skip_ws_split' r0 _ Hr0) as (w1 & -> & Hw1). destruct (skip_ws_split r1) as (w2 & Hr1 & Hw2).
  assert (punct c) as Hpc.
  { apply punct_cases. destruct (Ascii.eqb_spec c "}"); [auto|]. destruct (Ascii.eqb_spec c ","); [auto|done]. }
  destruct (piece_punct _ _ _ _ _ _ Hv Hr Hpc) as (p & cp & Hp & Hcp & (e & t & -> & Hop) & Hread).
  set (cp0 := String q (cb +:+ String q (String ":" (String e t +:+ String c "")))).
  set (p0 := String q (b +:+ String q (w1 +:+ String ":" (w2 +:+ p)))).
  assert (Hsplit : String q (b +:+ String q (w1 +:+ String ":" r1)) =
                   p0 +:+ r').
  { unfold p0. repeat rewrite ?append_cons, ?append_assoc. by rewrite <-Hp, <-Hr1. }
  assert (Hcomp : ∀ x, compact Out (p0 +:+ x) = cp0 +:+ compact Out x).
  { intros x. unfold p0, cp0. repeat rewrite ?append_cons, ?append_assoc. rewrite compact_quote, Hcb, Hw1.
    by rewrite compact_punct, Hw2, Hcp by done. }
  assert (Hrd : ∀ y, members (S n) d (cp0 +:+ y) =
    if Ascii.eqb c "}" then Some ([(k, v)], y)
    else if Ascii.eqb c "," then match members n d y with Some (l, r2) => Some ((k, v) :: l, r2) | None => None end else None).
  { intros y. unfold cp0. repeat rewrite ?append_cons, ?append_assoc. rewrite members_eq, (skip_ws_opens q) by done.
    change (negb (Ascii.eqb q q)) with false. cbv iota. rewrite Hdb, (skip_ws_opens ":") by done.
    change (negb (Ascii.eqb ":" ":")) with false. cbv iota. rewrite skip_ws_opens by done.
    pose proof (Hread y) as Hy. rewrite append_cons in Hy. change ("" +:+ y) with y. rewrite Hy, skip_ws_nonspace by apply Hpc. done. }
  destruct (Ascii.eqb_spec c "}") as [->|Hc].
  - injection Hm as <- <-. exists p0, cp0. split_and!; [exact Hsplit|exact Hcomp|by eexists _, _|]. intros rest _. by rewrite Hrd.
  - destruct (Ascii.eqb_spec c ",") as [->|]; [|done]. destruct (members n d r') as [[m' r3]|] eqn:Hm'; [|done].
    injection Hm as <- <-. apply IH in Hm' as (w3 & s2 & -> & Hw3 & p2 & cp2 & -> & Hc2 & _ & Hr2).
    exists (p0 +:+ (w3 +:+ p2)), (cp0 +:+ cp2). split; [by rewrite Hsplit, (append_assoc p0), (append_assoc w3)|].
    split; [|split].
    + intros x. rewrite append_assoc, Hcomp, append_assoc, Hw3, Hc2. by rewrite append_assoc.
    + exists q. eexists. split; [exact (append_cons q _ cp2)|reflexivity].
    + intros rest _. rewrite append_assoc, Hrd. by rewrite Hr2.
Qed.

Lemma all_compacts n : compacts_at n.
Proof.
  induction n as [|n IH]; intros d s; [done|].
  split_and!; intros v r; [by apply value_case|by apply elements_case|by apply members_case].
Qed.

(** ** Documents inside documents *)

(** A text that stands for a value at nesting depth [d]; [parse] is the case of depth 0. *)
Definition parse_at (d : Z) (s : string) : option json :=
  match value (2 * String.length s + 2) d (skip_ws s) with
  | Some (v, r) => if String.eqb (skip_ws r) "" then Some v else None
  | None => None
  end.

Lemma parse_parse_at s : parse s = parse_at 0 s.
Proof. reflexivity. Qed.

Lemma fuel_at n d s : (2 * String.length s + 2 ≤ n)%nat →
  value n d (skip_ws s) = value (2 * String.length s + 2) d (skip_ws s).
Proof. intros Hn. pose proof (skip_ws_len s). unfold no_longer in *. apply fuel_irrelevant; lia. Qed.

(** Compacting a document keeps the value it stands for. *)
Lemma compact_value d (s : string) (v : json) : parse_at d s = Some v → parse_at d (compact Out s) = Some v.
Proof.
  unfold parse_at. set (M := Nat.max (2 * String.length s + 2) (2 * String.length (compact Out s) + 2)).
  rewrite <-(fuel_at M d s), <-(fuel_at M d (compact Out s)) by lia.
  destruct (value M d (skip_ws s)) as [[v' r]|] eqn:Hv; [|done].
  destruct (String.eqb_spec (skip_ws r) "") as [Hr|]; [|done]. intros [= ->].
  destruct (skip_ws_split s) as (w & Hs & Hw). destruct (skip_ws_split r) as (w2 & Hr2 & Hw2). rewrite Hr in Hr2.
  apply all_compacts in Hv as (p & cp & Hp & Hc & (c & t & -> & Hop) & Hread).
  assert (compact Out s = String c t) as ->.
  { rewrite Hs, Hw, Hp, Hc, Hr2, Hw2. simpl. by rewrite append_nil_r. }
  specialize (Hread "" eq_refl). rewrite append_nil_r in Hread. rewrite skip_ws_opens by done.
  by rewrite Hread.
Qed.

(** More fuel, and a place nearer to the top, change no result. *)
Lemma value_mono n : ∀ m d e s, (n ≤ m)%nat → 0 ≤ e →
  (∀ x, value n (d + e) s = Some x → value m d s = Some x) ∧
  (∀ x, elements n (d + e) s = Some x → elements m d s = Some x) ∧
  (∀ x, members n (d + e) s = Some x → members m d s = Some x).
Proof.
  induction n as [|n IH]; intros m d e s Hle Hpos; [done|]. destruct m as [|m]; [lia|].
  assert (∀ d s x, value n (d + e) s = Some x → value m d s = Some x) as Hv by (intros; eapply IH; eauto; lia).
  assert (∀ d s x, elements n (d + e) s = Some x → elements m d s = Some x) as He by (intros; eapply IH; eauto; lia).
  assert (∀ d s x, members n (d + e) s = Some x → members m d s = Some x) as Hm by (intros; eapply IH; eauto; lia).
  clear IH. replace (d + e + 1) with (d + 1 + e) in * by lia. split_and!; intros x.
  - cbn [value]. replace (d + e + 1) with (d + 1 + e) by lia. destruct s as [|c s]; [done|]. destruct (Ascii.eqb c q); [done|].
    destruct (Ascii.eqb c "{"); [|destruct (Ascii.eqb c "["); [|done]].
    all: destruct (Z.leb_spec maxNestingDepth (d + e)); [done|]; destruct (Z.leb_spec maxNestingDepth d); [lia|];
      destruct (skip_ws s) as [|c1 s1]; [done|]; destruct (Ascii.eqb c1 _); [done|].
    + destruct (members n (d + 1 + e) _) as [[l r]|] eqn:Hx; [|done]. by rewrite (Hm _ _ _ Hx).
    + destruct (elements n (d + 1 + e) _) as [[l r]|] eqn:Hx; [|done]. by rewrite (He _ _ _ Hx).
  - cbn [elements]. destruct (value n (d + e) _) as [[v r]|] eqn:Hx; [|done]. rewrite (Hv _ _ _ Hx).
    destruct (skip_ws r) as [|c r']; [done|]. destruct (Ascii.eqb c "]"); [done|]. destruct (Ascii.eqb c ","); [|done].
    destruct (elements n (d + e) r') as [[l r2]|] eqn:Hy; [|done]. by rewrite (He _ _ _ Hy).
  - rewrite !members_eq. destruct (skip_ws s) as [|c0 s0]; [done|]. destruct (negb _); [done|].
    destruct (dec_from 0 s0) as [[k r0]|]; [|done]. destruct (skip_ws r0) as [|c1 r1]; [done|]. destruct (negb _); [done|].
    destruct (value n (d + e) _) as [[v r]|] eqn:Hx; [|done]. rewrite (Hv _ _ _ Hx).
    destruct (skip_ws r) as [|c r']; [done|]. destruct (Ascii.eqb c "}"); [done|]. destruct (Ascii.eqb c ","); [|done].
    destruct (members n (d + e) r') as [[l r2]|] eqn:Hy; [|done]. by rewrite (Hm _ _ _ Hy).
Qed.

Lemma value_fuel n m d s x : (n ≤ m)%nat → value n d s = Some x → value m d s = Some x.
Proof. intros Hle Hx. eapply (value_mono n m d 0); [done|done|by rewrite Z.add_0_r]. Qed.

Lemma parse_shallower d s v : parse_at (d + 1) s = Some v → parse_at d s = Some v.
Proof.
  unfold parse_at. destruct (value _ (d + 1) _) as [[v' r]|] eqn:Hv; [|done].
  rewrite (proj1 (value_mono _ _ d 1 _ (le_n _) ltac:(lia)) _ Hv). done.
Qed.

(** ** Capturing the text of a member *)

(** The text a value was read from: what precedes the rest. *)
Definition taken (s r : string) : string := String.substring 0 (String.length s - String.length r) s.

(** The loop over the members, keeping each value's text. *)
Fixpoint raw_members (n : nat) (d : Z) (s : string) : option (list (string * (string * json)) * string) :=
  match n with
  | O => None
  | S n' =>
      match skip_ws s with
      | String c0 s0 =>
          if negb (Ascii.eqb c0 q) then None
          else match dec_from 0 s0 with
          | None => None
          | Some (k, r0) =>
              match skip_ws r0 with
              | String c1 r1 =>
                  if negb (Ascii.eqb c1 ":") then None
                  else match value n' d (skip_ws r1) with
                  | None => None
                  | Some (v, r) =>
                      let m := (k, (taken (skip_ws r1) r, v)) in
                      match skip_ws r with
                      | String c r' =>
                          if Ascii.eqb c "}" then Some ([m], r')
                          else if Ascii.eqb c "," then
                            match raw_members n' d r' with Some (l, r2) => Some (m :: l, r2) | None => None end
                          else None
                      | EmptyString => None
                      end
                  end
              | EmptyString => None
              end
          end
      | EmptyString => None
      end
  end.

(** The members of a document that is an object. *)
Definition raw_object (s : string) : option (list (string * (string * json))) :=
  match skip_ws s with
  | String c s1 =>
      if negb (Ascii.eqb c "{") then None
      else match skip_ws s1 with
           | String c1 s2 =>
               if Ascii.eqb c1 "}" then (if String.eqb (skip_ws s2) "" then Some [] else None)
               else match raw_members (2 * String.length s + 1) 1 (String c1 s2) with
                    | Some (m, r) => if String.eqb (skip_ws r) "" then Some m else None
                    | None => None
                    end
           | EmptyString => None
           end
  | EmptyString => None
  end.

Definition erase (m : list (string * (string * json))) : list (string * json) := map (λ x, (x.1, x.2.2)) m.

(** Keeping the texts changes nothing else. *)
Lemma raw_members_erase n : ∀ d s,
  members n d s = match raw_members n d s with Some (m, r) => Some (erase m, r) | None => None end.
Proof.
  induction n as [|n IH]; intros d s; [done|]. rewrite members_eq. cbn [raw_members].
  destruct (skip_ws s) as [|c0 s0]; [done|]. destruct (negb _); [done|].
  destruct (dec_from 0 s0) as [[k r0]|]; [|done]. destruct (skip_ws r0) as [|c1 r1]; [done|]. destruct (negb _); [done|].
  destruct (value n d _) as [[v r]|]; [|done]. destruct (skip_ws r) as [|c r']; [done|].
  destruct (Ascii.eqb c "}"); [done|]. destruct (Ascii.eqb c ","); [|done]. rewrite IH.
  by destruct (raw_members n d r') as [[l r2]|].
Qed.

Lemma raw_object_parse s :
  match raw_object s with
  | Some m => parse s = Some (JObj (erase m))
  | None => ∀ m, parse s ≠ Some (JObj m)
  end.
Proof.
  unfold raw_object, parse. replace (2 * String.length s + 2)%nat with (S (2 * String.length s + 1)) by lia.
  destruct (skip_ws s) as [|c s1]; [done|]. cbn [value]. destruct (Ascii.eqb_spec c "{") as [->|Hc]; cbn [negb].
  - change (Ascii.eqb "{" q) with false. change (maxNestingDepth <=? 0) with false. cbv iota.
    destruct (skip_ws s1) as [|c1 s2]; [done|]. destruct (Ascii.eqb c1 "}"); [by destruct (String.eqb (skip_ws s2) "")|].
    change (0 + 1) with 1. rewrite raw_members_erase. destruct (raw_members _ _ _) as [[m r]|]; [|done]. by destruct (String.eqb (skip_ws r) "").
  - intros m. repeat case_match; congruence.
Qed.

Lemma taken_app p r : taken (p +:+ r) r = p.
Proof.
  unfold taken. rewrite length_append, Nat.add_sub. induction p as [|c p IH]; simpl; [|by rewrite IH].
  by destruct r.
Qed.

(** A text that reads as a value at depth 1, whatever closes it. *)
Definition text (v : json) (t : string) : Prop :=
  (∃ c t', t = String c t' ∧ opens c = true) ∧
  ∀ n rest, (2 * String.length (t +:+ rest) + 2 ≤ n)%nat → delim rest = true → value n 1 (t +:+ rest) = Some (v, rest).

Lemma text_encode v : wf 1 v = true → text v (encode v).
Proof.
  intros Hw. split; [by eapply encode_head|]. intros n rest Hn Hd. apply reads_all; [done| |done].
  rewrite length_append in Hn. lia.
Qed.

(** What was captured of a member, compacted, and its value. *)
Lemma text_piece n s v r : value n 1 s = Some (v, r) → text v (compact Out (taken s r)).
Proof.
  intros Hx. destruct (proj1 (all_compacts n 1 s) v r Hx) as (p & cp & -> & Hc & Hop & _).
  assert (compact Out p = cp) as Hcp.
  { specialize (Hc ""). rewrite !append_nil_r in Hc. exact Hc. }
  rewrite taken_app, Hcp. split; [exact Hop|]. intros m rest Hm Hd.
  destruct (proj1 (all_compacts (max n m) 1 (p +:+ r)) v r) as (p' & cp' & Hp' & Hc' & _ & Hread).
  { eapply value_fuel; [|exact Hx]. lia. }
  assert (p' = p) as ->.
  { rewrite <-(taken_app p' r), <-Hp'. apply taken_app. }
  assert (cp' = cp) as ->.
  { specialize (Hc' ""). rewrite !append_nil_r in Hc'. congruence. }
  rewrite <-(Hread rest Hd). apply fuel_irrelevant; lia.
Qed.

(** A document compacted stands as a text in a member. *)
Lemma text_document v s : parse_at 1 s = Some v → text v (compact Out s).
Proof.
  unfold parse_at. destruct (value _ 1 _) as [[v' r]|] eqn:Hv; [|done].
  destruct (String.eqb_spec (skip_ws r) "") as [Hr|]; [|done]. intros [= ->].
  pose proof (text_piece _ _ _ _ Hv) as Ht.
  destruct (proj1 (all_compacts _ 1 _) _ _ Hv) as (p & cp & Hp & Hc & _).
  destruct (skip_ws_split s) as (w & Hs & Hw). destruct (skip_ws_split r) as (w2 & Hr2 & Hw2). rewrite Hr in Hr2.
  rewrite append_nil_r in Hr2. specialize (Hw2 ""). rewrite append_nil_r in Hw2.
  rewrite Hp, taken_app in Ht. rewrite Hs, Hw, Hp, Hc, Hr2, Hw2, append_nil_r.
  specialize (Hc ""). rewrite !append_nil_r in Hc. by rewrite <-Hc.
Qed.

(** The encoder's loop over the fields of a struct, on written values. *)
Fixpoint write_members (ms : list (string * string)) : string :=
  match ms with
  | [] => "}"
  | (k, t) :: ms' =>
      enc_string k +:+ (":" +:+ (t +:+ match ms' with [] => "}" | _ => "," +:+ write_members ms' end))
  end.
Definition write_object (ms : list (string * string)) : string := "{" +:+ write_members ms.

Lemma append_nil_l x : "" +:+ x = x.
Proof. reflexivity. Qed.

Lemma raw_member_step n k v t s :
  valid_utf8 k = true → text v t → delim s = true → (2 * String.length (t +:+ s) + 2 ≤ n)%nat →
  raw_members (S n) 1 (enc_string k +:+ (":" +:+ (t +:+ s))) =
    match skip_ws s with
    | String c r' =>
        if Ascii.eqb c "}" then Some ([(k, (t, v))], r')
        else if Ascii.eqb c "," then
          match raw_members n 1 r' with Some (l, r2) => Some ((k, (t, v)) :: l, r2) | None => None end
        else None
    | EmptyString => None
    end.
Proof.
  intros Hk [(c & t' & -> & Hop) Ht] Hd Hn. unfold enc_string. cbn [raw_members].
  repeat rewrite ?append_cons, ?append_assoc, ?append_nil_l. rewrite (skip_ws_opens q) by done.
  change (negb (Ascii.eqb q q)) with false. cbv iota. rewrite dec_enc_string by done.
  rewrite (skip_ws_opens ":") by done. change (negb (Ascii.eqb ":" ":")) with false. cbv iota.
  rewrite skip_ws_opens by done. specialize (Ht n s Hn Hd). rewrite append_cons in Ht. rewrite Ht. change (String c (t' +:+ s)) with (String c t' +:+ s). by rewrite taken_app.
Qed.

Lemma raw_members_write ms : ∀ n rest, ms ≠ [] →
  Forall (λ m, valid_utf8 m.1 = true ∧ text m.2.2 m.2.1) ms →
  (2 * String.length (write_members (map (λ m, (m.1, m.2.1)) ms) +:+ rest) + 2 ≤ n)%nat →
  raw_members n 1 (write_members (map (λ m, (m.1, m.2.1)) ms) +:+ rest) = Some (ms, rest).
Proof.
  induction ms as [|[k [t v]] ms IH]; intros n rest Hne Hms Hn; [done|]. apply Forall_cons in Hms as [[Hk Ht] Hms].
  destruct n as [|n]; [lia|]. cbn [map fst snd write_members] in *. rewrite !append_assoc in *.
  destruct ms as [|m ms].
  - cbn [map] in *. rewrite (raw_member_step _ _ v); [done|done|done|done|]. rewrite !length_append in *. simpl in *. lia.
  - set (ms1 := m :: ms) in *. assert (∃ a l, map (λ m, (m.1, m.2.1)) ms1 = a :: l) as (a & l & Hl) by (by eexists _, _).
    rewrite Hl in *. rewrite append_assoc in *. rewrite (raw_member_step _ _ v); [|done|done|done|].
    + change ("," +:+ ?x) with (String "," x). rewrite skip_ws_nonspace by done. change (Ascii.eqb "," "}") with false.
      change (Ascii.eqb "," ",") with true. cbv iota. rewrite IH; [done|done|done|].
      rewrite !length_append in *. simpl in *. lia.
    + rewrite !length_append in *. simpl in *. lia.
Qed.

Lemma raw_object_write ms : ms ≠ [] → Forall (λ m, valid_utf8 m.1 = true ∧ text m.2.2 m.2.1) ms →
  raw_object (write_object (map (λ m, (m.1, m.2.1)) ms)) = Some ms.
Proof.
  intros Hne Hms. pose proof (raw_members_write ms) as Hw. unfold raw_object, write_object.
  set (body := write_members _) in *. change ("{" +:+ body) with (String "{" body). rewrite skip_ws_nonspace by done.
  change (negb (Ascii.eqb "{" "{")) with false. cbv iota.
  assert (∃ t, body = String q t) as [t Hb].
  { unfold body. destruct ms as [|[k [t v]] ms]; [done|]. by eexists. }
  rewrite Hb, skip_ws_nonspace by done. change (Ascii.eqb q "}") with false. cbv iota. rewrite <-Hb.
  specialize (Hw (2 * String.length (String "{" body) + 1)%nat ""). rewrite append_nil_r in Hw.
  rewrite Hw; [done..|]. simpl. lia.
Qed.

(** Every captured text, compacted, stands for the value of its member. *)
Lemma raw_members_text n : ∀ s m r, raw_members n 1 s = Some (m, r) → Forall (λ x, text x.2.2 (compact Out x.2.1)) m.
Proof.
  induction n as [|n IH]; intros s m r; [done|]. cbn [raw_members].
  destruct (skip_ws s) as [|c0 s0]; [done|]. destruct (negb _); [done|].
  destruct (dec_from 0 s0) as [[k r0]|]; [|done]. destruct (skip_ws r0) as [|c1 r1]; [done|]. destruct (negb _); [done|].
  destruct (value n 1 _) as [[v r2]|] eqn:Hv; [|done]. apply text_piece in Hv. destruct (skip_ws r2) as [|c r']; [done|].
  destruct (Ascii.eqb c "}"); [intros [= <- <-]; by apply Forall_singleton|]. destruct (Ascii.eqb c ","); [|done].
  destruct (raw_members n 1 r') as [[l r3]|] eqn:Hl; [|done]. intros [= <- <-]. apply Forall_cons. split; [done|]. by eapply IH.
Qed.

Lemma raw_object_text s m : raw_object s = Some m → Forall (λ x, text x.2.2 (compact Out x.2.1)) m.
Proof.
  unfold raw_object. destruct (skip_ws s) as [|c s1]; [done|]. destruct (negb _); [done|].
  destruct (skip_ws s1) as [|c1 s2]; [done|]. destruct (Ascii.eqb c1 "}"); [case_match; [by intros [= <-]|done]|].
  destruct (raw_members _ 1 _) as [[l r]|] eqn:Hl; [|done]. case_match; [|done]. intros [= <-]. by eapply raw_members_text.
Qed.

Lemma text_parse v t : text v t → parse t = Some v.
Proof.
  intros [(c & t' & -> & Hop) Ht]. rewrite parse_parse_at. apply (parse_shallower 0). change (0 + 1) with 1. unfold parse_at.
  rewrite skip_ws_opens by done. specialize (Ht (2 * String.length (String c t') + 2)%nat "").
  rewrite append_nil_r in Ht. rewrite Ht by (done || lia). done.
Qed.

End RawJson.
