(* ===== verification/JsonDecode.v ===== *)
(** * json.Unmarshal into structs

    How [encoding/json] stores a decoded value in a Go struct: members are matched to fields by
    name up to case, a member of the wrong kind saves an error and the decoding goes on, [null]
    leaves the target as it is, and the call fails when an error was saved.  Each struct the
    program decodes lists its fields with their setters. *)
From S2P Require Import Prelude Json.
Import Json.

Module JsonDecode.

(** ** Field names and numbers *)

(** [foldName], up to what matters for ASCII field names: the letters, and the two
    non-ASCII runes whose simple folding is an ASCII letter. *)
Fixpoint fold_name (s : string) : string :=
  match s with
  | EmptyString => ""
  | String a s1 =>
      if between 97 122 a then String (bchr (bval a - 32)) (fold_name s1)
      else match s1 with
           | String b s2 =>
               if (bval a =? 197) && (bval b =? 191) then String "S" (fold_name s2)
               else match s2 with
                    | String c s3 =>
                        if (bval a =? 226) && (bval b =? 132) && (bval c =? 170) then String "K" (fold_name s3)
                        else String a (fold_name s1)
                    | EmptyString => String a (fold_name s1)
                    end
           | EmptyString => String a ""
           end
  end.

Definition field_is (name key : string) : bool := String.eqb (fold_name key) (fold_name name).

(** Digits of a number literal up to its exponent: mantissa, number of significant
    digits, number of fraction digits, rest. *)
Fixpoint mantissa (s : string) (m nd fl : Z) (dot : bool) : Z * Z * Z * string :=
  match s with
  | EmptyString => (m, nd, fl, "")
  | String c s' =>
      if Ascii.eqb c "." then mantissa s' m nd fl true
      else if is_digit c then
        let m' := 10 * m + (bval c - 48) in
        mantissa s' m' (if m' =? 0 then 0 else nd + 1) (if dot then fl + 1 else fl) dot
      else (m, nd, fl, s)
  end.

Fixpoint decimal (s : string) (acc : Z) : Z :=
  match s with
  | EmptyString => acc
  | String c s' => decimal s' (10 * acc + (bval c - 48))
  end.

Definition exponent (s : string) : Z :=
  match s with
  | String _ (String "-" s') => - decimal s' 0
  | String _ (String "+" s') => decimal s' 0
  | String _ s' => decimal s' 0
  | EmptyString => 0
  end.

(** [strconv.ParseFloat(lit, 64)] reports no range error: the magnitude is below the
    midpoint between the largest [float64] and the next power of two. *)
Definition float64_in_range (lit : string) : bool :=
  let '(m, nd, fl, e) := mantissa (sign (Ascii.eqb "-") lit).2 0 0 0 false in
  let x := exponent e - fl in
  if m =? 0 then true
  else if 310 <? nd + x then false
  else if nd + x <? 308 then true
  else m * 10 ^ Z.max 0 x <? (2 ^ 1024 - 2 ^ 970) * 10 ^ Z.max 0 (- x).

(** A value decodes into an [any] without a range error. *)
Fixpoint any_ok (v : json) : bool :=
  match v with
  | JNum lit => float64_in_range lit
  | JArr l => (fix go l := match l with [] => true | v :: l' => any_ok v && go l' end) l
  | JObj m => (fix go m := match m with [] => true | (_, v) :: m' => any_ok v && go m' end) m
  | _ => true
  end.


(** [strconv.ParseInt(lit, 10, 64)] on a number literal: no fraction, no exponent, in range. *)
Definition int_literal (lit : string) : option Z :=
  match sign (Ascii.eqb "-") lit with
  | (neg, ds) =>
      match digits ds with
      | (d, EmptyString) =>
          let n := decimal d 0 in
          let n := if String.eqb neg "" then n else - n in
          if String.eqb d "" then None
          else if (min_int64 <=? n) && (n <=? max_int64) then Some n else None
      | _ => None
      end
  end.

(** [strconv.Atoi]: an optional sign, then decimal digits, within the range of int. *)
Definition Atoi (s : string) : option Z :=
  let '(sg, ds) := sign (λ c, Ascii.eqb "-" c || Ascii.eqb "+" c) s in
  match digits ds with
  | (d, EmptyString) =>
      let n := decimal d 0 in
      let n := if String.eqb sg "-" then - n else n in
      if String.eqb d "" then None
      else if (min_int64 <=? n) && (n <=? max_int64) then Some n else None
  | _ => None
  end.

(** *** Printed integers are read back *)

Fixpoint all_digits (s : string) : bool :=
  match s with EmptyString => true | String c s' => is_digit c && all_digits s' end.

Lemma digits_all s : all_digits s = true → digits s = (s, "").
Proof. induction s as [|c s IH]; simpl; intros Hs; [done|]. to_prop. by rewrite H, IH. Qed.

Lemma pretty_char_digit x : (x < 10)%N →
  bval (pretty_N_char x) = 48 + Z.of_N x ∧ is_digit (pretty_N_char x) = true.
Proof.
  intros Hx. assert (Hin : List.In x (N.of_nat <$> seq 0 10)).
  { apply list_elem_of_In, list_elem_of_fmap. exists (N.to_nat x). split; [lia|]. apply elem_of_seq. lia. }
  simpl in Hin. repeat destruct Hin as [<-|Hin]; try done.
Qed.

(** A digit string whose first digit is not zero. *)
Definition no_leading_zero (s : string) : bool :=
  match s with String c s' => is_digit c && negb (Ascii.eqb c "0") && all_digits s' | EmptyString => false end.

Lemma pretty_go_facts x : ∀ s,
  decimal (pretty_N_go x s) 0 = decimal s (Z.of_N x) ∧
  (all_digits s = true → (0 < x)%N → no_leading_zero (pretty_N_go x s) = true).
Proof.
  induction x as [x IH] using (well_founded_induction N.lt_wf_0). intros s.
  destruct (decide (0 < x)%N) as [Hx|Hx].
  - rewrite pretty_N_go_step by done.
    destruct (IH (x `div` 10)%N (N.div_lt x 10 Hx ltac:(lia)) (String (pretty_N_char (x `mod` 10)) s)) as [Hd Ha].
    destruct (pretty_char_digit (x `mod` 10)%N) as [Hb Hg]; [apply N.mod_lt; lia|].
    pose proof (N.div_mod x 10 ltac:(lia)) as Hdm. split.
    + rewrite Hd. simpl. rewrite Hb. f_equal. lia.
    + intros Hs _. destruct (decide (0 < x `div` 10)%N) as [Hq|Hq]; [apply Ha; [simpl; by rewrite Hg, Hs|done]|].
      assert (x `div` 10 = 0)%N as Hq0 by (by apply N.le_0_r, N.nlt_ge). rewrite Hq0, pretty_N_go_0. simpl. rewrite Hg, Hs, andb_true_r. simpl.
      destruct (Ascii.eqb_spec (pretty_N_char (x `mod` 10)) "0") as [Hc|]; [|done].
      rewrite Hc in Hb. change (bval "0") with 48 in Hb. lia.
  - assert (x = 0%N) as -> by lia. rewrite pretty_N_go_0. split; [done | intros _ ?; lia].
Qed.

Lemma pretty_pos p : decimal (pretty (N.pos p)) 0 = Z.pos p ∧ no_leading_zero (pretty (N.pos p)) = true.
Proof.
  destruct (pretty_go_facts (N.pos p) "") as [Hd Hn]. unfold pretty, pretty_N.
  destruct (decide (N.pos p = 0%N)); [done|]. split; [done|]. by apply Hn.
Qed.

Lemma no_leading_zero_shape s : no_leading_zero s = true →
  ∃ c t, s = String c t ∧ is_digit c = true ∧ Ascii.eqb c "0" = false ∧ all_digits t = true ∧ all_digits s = true.
Proof.
  destruct s as [|c t]; [done|]. simpl. intros Hs. to_prop. exists c, t.
  split_and!; [done|done|by apply Ascii.eqb_neq; apply Ascii.eqb_neq|done|]. by apply andb_true_iff.
Qed.

Lemma digit_not_sign c : is_digit c = true → Ascii.eqb "-" c = false ∧ Ascii.eqb "+" c = false.
Proof.
  intros Hc. split; apply Ascii.eqb_neq; intros <-; by vm_compute in Hc.
Qed.

(** The shape of a printed integer. *)
Lemma pretty_Z_cases (z : Z) :
  z = 0 ∧ pretty z = "0" ∨
  ∃ c t, is_digit c = true ∧ Ascii.eqb c "0" = false ∧ all_digits t = true ∧
    decimal (String c t) 0 = Z.abs z ∧
    (0 < z ∧ pretty z = String c t ∨ z < 0 ∧ pretty z = String "-" (String c t)).
Proof.
  destruct z as [|p|p]; [by left| |]; right;
    destruct (pretty_pos p) as [Hd (c & t & Hs & Hc & Hz & Ht & _)%no_leading_zero_shape]; exists c, t; rewrite Hs in Hd;
    (split_and!; [done..|]).
  - left. split; [lia|]. exact Hs.
  - right. split; [lia|]. change (pretty (Z.neg p)) with ("-" +:+ pretty (N.pos p)). by rewrite Hs.
Qed.

Lemma digits_cons c t : is_digit c = true → all_digits t = true → digits (String c t) = (String c t, "").
Proof. intros Hc Ht. apply digits_all. simpl. by rewrite Hc, Ht. Qed.

Lemma in_range z : in_int64 z → (min_int64 <=? z) && (z <=? max_int64) = true.
Proof. unfold in_int64. intros. apply andb_true_iff. rewrite !Z.leb_le. lia. Qed.

Lemma Atoi_pretty z : in_int64 z → Atoi (pretty z) = Some z.
Proof.
  intros Hz. destruct (pretty_Z_cases z) as [[-> ->]|(c & t & Hc & _ & Ht & Hd & [[Hp ->]|[Hn ->]])]; [done| |];
    destruct (digit_not_sign c Hc) as [Hm Hpl].
  - unfold Atoi, sign. rewrite Hm, Hpl. simpl orb. cbv iota. rewrite digits_cons by done. rewrite Hd.
    change (String.eqb (String c t) "") with false. change (String.eqb "" "-") with false. cbv iota.
    rewrite Z.abs_eq by lia. by rewrite in_range.
  - unfold Atoi, sign. change (Ascii.eqb "-" "-") with true. cbv [orb]. rewrite digits_cons by done. rewrite Hd.
    change (String.eqb (String c t) "") with false. change (String.eqb (String "-" "") "-") with true. cbv iota.
    rewrite Z.abs_neq, Z.opp_involutive by lia. by rewrite in_range.
Qed.

Lemma int_literal_pretty z : in_int64 z → int_literal (pretty z) = Some z.
Proof.
  intros Hz. destruct (pretty_Z_cases z) as [[-> ->]|(c & t & Hc & _ & Ht & Hd & [[Hp ->]|[Hn ->]])]; [done| |];
    destruct (digit_not_sign c Hc) as [Hm _].
  - unfold int_literal, sign. rewrite Hm. rewrite digits_cons by done. rewrite Hd.
    change (String.eqb (String c t) "") with false. change (String.eqb "" "") with true. cbv iota.
    rewrite Z.abs_eq by lia. by rewrite in_range.
  - unfold int_literal, sign. change (Ascii.eqb "-" "-") with true. cbv iota. rewrite digits_cons by done. rewrite Hd.
    change (String.eqb (String c t) "") with false. change (String.eqb (String "-" "") "") with false. cbv iota.
    rewrite Z.abs_neq, Z.opp_involutive by lia. by rewrite in_range.
Qed.

(** It is a number literal of JSON. *)
Lemma int_part_pos c t : is_digit c = true → Ascii.eqb c "0" = false → all_digits t = true →
  int_part (String c t) = Some (String c t, "").
Proof. intros Hc Hz Ht. unfold int_part. by rewrite Hz, Hc, digits_all. Qed.

Lemma number_pretty (z : Z) : number_lit (pretty z) = true.
Proof.
  destruct (pretty_Z_cases z) as [[-> ->]|(c & t & Hc & Hz & Ht & _ & [[_ ->]|[_ ->]])]; [done| |];
    destruct (digit_not_sign c Hc) as [Hm _]; unfold number_lit, number, sign.
  - rewrite Hm, int_part_pos by done. simpl. rewrite !append_nil_r. by rewrite Ascii.eqb_refl, String.eqb_refl.
  - change (Ascii.eqb "-" "-") with true. cbv iota. rewrite int_part_pos by done.
    simpl. rewrite !append_nil_r. by rewrite Ascii.eqb_refl, String.eqb_refl.
Qed.

(** ** Structs *)

(** A setter returns the new struct, or [None] when the member's kind does not fit. *)
Definition setter (S : Type) : Type := S → json → option S.

Section struct.
Context {S : Type}.

Definition string_field (set : S → string → S) : setter S := λ x v,
  match v with JStr t => Some (set x t) | JNull => Some x | _ => None end.
Definition bool_field (set : S → bool → S) : setter S := λ x v,
  match v with JBool b => Some (set x b) | JNull => Some x | _ => None end.
Definition int_field (set : S → Z → S) : setter S := λ x v,
  match v with JNum lit => set x <$> int_literal lit | JNull => Some x | _ => None end.

(** The elements of an array of strings.  A [null] element keeps what the slice held at its
    index, or is the empty string. *)
Fixpoint string_elems (old : list string) (l : list json) : option (list string) :=
  match l with
  | [] => Some []
  | v :: l' =>
      let keep := match old with x :: _ => x | [] => "" end in
      match (match v with JStr t => Some t | JNull => Some keep | _ => None end), string_elems (tail old) l' with
      | Some t, Some ts => Some (t :: ts)
      | _, _ => None
      end
  end.

(** A [[]string] field; [null] makes it nil. *)
Definition strings_field (get : S → list string) (set : S → list string → S) : setter S := λ x v,
  match v with JArr l => set x <$> string_elems (get x) l | JNull => Some (set x []) | _ => None end.

(** One member: the struct so far and whether an error was saved.  Unknown members are
    ignored. *)
Definition set_member (fields : list (string * setter S)) (st : S * bool) (kv : string * json) : S * bool :=
  match List.find (λ f, field_is f.1 kv.1) fields with
  | None => st
  | Some f => match f.2 st.1 kv.2 with Some x => (x, st.2) | None => (st.1, true) end
  end.

(** The target is a zero value, as at every call of the program. *)
Definition decode_struct (fields : list (string * setter S)) (zero : S) (v : json) : option S :=
  match v with
  | JNull => Some zero
  | JObj m => let '(x, bad) := fold_left (set_member fields) m (zero, false) in if bad then None else Some x
  | _ => None
  end.

Definition Unmarshal (fields : list (string * setter S)) (zero : S) (data : string) : option S :=
  match parse data with None => None | Some v => decode_struct fields zero v end.

Lemma Unmarshal_encode fields zero v :
  wf 0 v = true → Unmarshal fields zero (encode v) = decode_struct fields zero v.
Proof. intros Hw. unfold Unmarshal. by rewrite json_roundtrip. Qed.
End struct.

Lemma string_elems_map old l : string_elems old (map JStr l) = Some l.
Proof. revert old. induction l as [|x l IH]; intros old; simpl; [done | by rewrite IH]. Qed.

Lemma wf_strings d l : forallb (wf d) (map JStr l) = forallb valid_utf8 l.
Proof. induction l as [|x l IH]; simpl; [done | by rewrite IH]. Qed.

End JsonDecode.
