(* ===== verification/Optional.v ===== *)
(** * Optional values

    Models [pkg/types]: [Opt] (was the field given?) and [NOpt] (absent, null or a value) with
    their JSON methods, and the converters of [fiber_decoder.go] for query parameters.  The
    value type is any type with its JSON conversions; strings, integers and booleans are the
    ones the converters are registered for. *)
From S2P Require Import Prelude Json JsonDecode.
Import Json JsonDecode.

Module Optional.

(** [json.Unmarshal] into a zero value, and [json.Marshal], of the value type. *)
Class JsonCodec (T : Type) := {
  go_zero : T;
  go_unmarshal : string → option T;
  go_marshal : T → option string
}.

(** ** Opt *)

Record Opt (T : Type) := mkOpt { Set_ : bool; Val : T }.
Arguments mkOpt {T}.
Arguments Set_ {T}.
Arguments Val {T}.

(** ** NOpt *)

Record NOpt (T : Type) := mkNOpt { Present : bool; Valid : bool; NVal : T }.
Arguments mkNOpt {T}.
Arguments Present {T}.
Arguments Valid {T}.
Arguments NVal {T}.

Section optional.
Context {T : Type} `{JsonCodec T}.

(** The methods return the receiver as they leave it, and whether they fail. *)
Definition Opt_UnmarshalJSON (o : Opt T) (b : string) : Opt T * bool :=
  match go_unmarshal b with
  | None => (o, false)
  | Some v => (mkOpt true v, true)
  end.

Definition Opt_MarshalJSON (o : Opt T) : option string :=
  if negb (Set_ o) then Some "null" else go_marshal (Val o).

Definition opt_Some (v : T) : Opt T := mkOpt true v.
Definition opt_None : Opt T := mkOpt false go_zero.
Definition Opt_Get (o : Opt T) : T * bool := (Val o, Set_ o).
Definition Opt_GetOr (o : Opt T) (def : T) : T := if Set_ o then Val o else def.

Definition NOpt_UnmarshalJSON (o : NOpt T) (b : string) : NOpt T * bool :=
  if String.eqb b "null" then (mkNOpt true false go_zero, true)
  else match go_unmarshal b with
       | None => (mkNOpt true (Valid o) (NVal o), false)
       | Some v => (mkNOpt true true v, true)
       end.

Definition NOpt_MarshalJSON (o : NOpt T) : option string :=
  if negb (Present o) || negb (Valid o) then Some "null" else go_marshal (NVal o).

Definition Null : NOpt T := mkNOpt true false go_zero.
Definition NSome (v : T) : NOpt T := mkNOpt true true v.
Definition NNone : NOpt T := mkNOpt false false go_zero.
Definition NOpt_Get (o : NOpt T) : T * bool := (NVal o, Present o && Valid o).
Definition NOpt_GetOr (o : NOpt T) (def : T) : T := if Present o && Valid o then NVal o else def.
End optional.

(** ** Strings, integers and booleans *)

#[export] Instance string_codec : JsonCodec string := {
  go_zero := "";
  go_unmarshal b := match parse b with Some (JStr s) => Some s | Some JNull => Some "" | _ => None end;
  go_marshal s := Some (encode (JStr s))
}.
#[export] Instance int_codec : JsonCodec Z := {
  go_zero := 0;
  go_unmarshal b := match parse b with Some (JNum l) => int_literal l | Some JNull => Some 0 | _ => None end;
  go_marshal z := Some (encode (JNum (pretty z)))
}.
#[export] Instance bool_codec : JsonCodec bool := {
  go_zero := false;
  go_unmarshal b := match parse b with Some (JBool x) => Some x | Some JNull => Some false | _ => None end;
  go_marshal x := Some (encode (JBool x))
}.

(** ** Query parameters *)

Definition optStringConverter (value : string) : Opt string :=
  if String.eqb value "" then opt_None else opt_Some value.

Definition optIntConverter (value : string) : Opt Z :=
  if String.eqb value "" then opt_None
  else match Atoi value with None => opt_None | Some i => opt_Some i end.

(** The spellings both boolean converters accept. *)
Definition bool_word (value : string) : option bool :=
  if existsb (String.eqb value) ["true"; "1"; "yes"; "on"] then Some true
  else if existsb (String.eqb value) ["false"; "0"; "no"; "off"] then Some false
  else None.

Definition optBoolConverter (value : string) : Opt bool :=
  if String.eqb value "" then opt_None
  else match bool_word value with Some b => opt_Some b | None => opt_None end.

Definition noptStringConverter (value : string) : NOpt string :=
  if String.eqb value "" then NNone
  else if String.eqb value "null" then Null
  else NSome value.

Definition noptIntConverter (value : string) : NOpt Z :=
  if String.eqb value "" then NNone
  else if String.eqb value "null" then Null
  else match Atoi value with None => NNone | Some i => NSome i end.

Definition noptBoolConverter (value : string) : NOpt bool :=
  if String.eqb value "" then NNone
  else if String.eqb value "null" then Null
  else match bool_word value with Some b => NSome b | None => NNone end.

(** ** The three states of an NOpt *)

(** Values the package's functions produce, decoding into the same variable included, whether
    it succeeds or fails. *)
Inductive produced {T} `{JsonCodec T} : NOpt T → Prop :=
| produced_none : produced NNone
| produced_null : produced Null
| produced_some v : produced (NSome v)
| produced_unmarshal o b : produced o → produced (NOpt_UnmarshalJSON o b).1.

(** C40: an [NOpt] is always absent, null or a value: no function of the package builds a value that
    is valid without being present, or one that keeps a stale payload beside null, and [Get]
    and [GetOr] tell the three apart from the default only when there is a value.  The query
    converters stay within the same three states. *)
Theorem nopt_three_states {T} `{JsonCodec T} (o : NOpt T) (def : T) :
  produced o →
  (o = NNone ∧ (NOpt_Get o).2 = false ∧ NOpt_GetOr o def = def) ∨
  (o = Null ∧ (NOpt_Get o).2 = false ∧ NOpt_GetOr o def = def) ∨
  ∃ v, o = NSome v ∧ NOpt_Get o = (v, true) ∧ NOpt_GetOr o def = v.
Proof.
  intros Hp. assert (o = NNone ∨ o = Null ∨ ∃ v, o = NSome v) as Hs.
  { induction Hp as [| |v|o b _ IH]; [auto..|eauto|]. unfold NOpt_UnmarshalJSON.
    destruct (String.eqb b "null"); [by auto|]. destruct (go_unmarshal b) as [v|]; [by eauto|].
    destruct IH as [->|[->|[v ->]]]; simpl; [by auto..|by eauto]. }
  destruct Hs as [->|[->|[v ->]]]; [by left | by right; left | right; right; by exists v].
Qed.

Lemma nopt_three_states_witness :
  let o := (NOpt_UnmarshalJSON (NSome "old") "null").1 in
  (o = NNone ∧ (NOpt_Get o).2 = false ∧ NOpt_GetOr o "d" = "d") ∨
  (o = Null ∧ (NOpt_Get o).2 = false ∧ NOpt_GetOr o "d" = "d") ∨
  ∃ v, o = NSome v ∧ NOpt_Get o = (v, true) ∧ NOpt_GetOr o "d" = v.
Proof. apply nopt_three_states. apply produced_unmarshal, produced_some. Defined.

(** A field that fails to decode is left present and null, not absent. *)
Lemma nopt_failed_decode {T} `{JsonCodec T} b :
  b ≠ "null" → go_unmarshal b = None → NOpt_UnmarshalJSON NNone b = (Null, false).
Proof. intros Hb Hu. unfold NOpt_UnmarshalJSON. apply String.eqb_neq in Hb. by rewrite Hb, Hu. Qed.

(** ** Round trips *)

(** What the value type promises: its values of interest print to something other than null
    and are read back; null reads as the zero value. *)
Class CodecLaws (T : Type) `{JsonCodec T} := {
  codec_ok : T → bool;
  codec_roundtrip v : codec_ok v = true → ∃ b, go_marshal v = Some b ∧ b ≠ "null" ∧ go_unmarshal b = Some v;
  codec_null : go_unmarshal "null" = Some go_zero
}.

#[export] Program Instance string_laws : CodecLaws string := { codec_ok := valid_utf8 }.
Next Obligation.
  intros v Hv. exists (encode (JStr v)). split; [done|]. split; [done|].
  cbn [go_unmarshal string_codec]. by rewrite json_roundtrip.
Qed.
Next Obligation. done. Qed.

#[export] Program Instance int_laws : CodecLaws Z := { codec_ok z := (min_int64 <=? z) && (z <=? max_int64) }.
Next Obligation.
  intros z Hz. apply andb_true_iff in Hz as [?%Z.leb_le ?%Z.leb_le]. exists (pretty z). split; [done|]. split.
  - destruct (pretty_Z_cases z) as [[-> ->]|(c & t & Hc & _ & _ & _ & [[_ ->]|[_ ->]])]; [done| |done].
    intros [= -> _]. by vm_compute in Hc.
  - cbn [go_unmarshal int_codec]. change (pretty z) with (encode (JNum (pretty z))) at 1.
    rewrite json_roundtrip by apply number_pretty. by apply int_literal_pretty.
Qed.
Next Obligation. done. Qed.

#[export] Program Instance bool_laws : CodecLaws bool := { codec_ok _ := true }.
Next Obligation. intros [] _; by eexists. Qed.
Next Obligation. done. Qed.

(** JSON round trips of optional values.  A set [Opt] and an [NOpt] with a value are read back
    as they were, and an explicit null stays null.  Being unset is not preserved: both kinds
    print an unset value as null, an [NOpt] then reads back as explicit null and an [Opt] as
    set to the zero value. *)
Theorem optional_json_roundtrip {T} `{CodecLaws T} (v : T) (o : Opt T) (n : NOpt T) :
  codec_ok v = true →
  (∃ b, Opt_MarshalJSON (opt_Some v) = Some b ∧ Opt_UnmarshalJSON o b = (opt_Some v, true)) ∧
  (∃ b, NOpt_MarshalJSON (NSome v) = Some b ∧ NOpt_UnmarshalJSON n b = (NSome v, true)) ∧
  (∃ b, NOpt_MarshalJSON (Null (T := T)) = Some b ∧ NOpt_UnmarshalJSON n b = (Null, true)) ∧
  (∃ b, NOpt_MarshalJSON (NNone (T := T)) = Some b ∧ NOpt_UnmarshalJSON n b = (Null, true)) ∧
  (∃ b, Opt_MarshalJSON (opt_None (T := T)) = Some b ∧ Opt_UnmarshalJSON o b = (opt_Some go_zero, true)).
Proof.
  intros Hv. destruct (codec_roundtrip v Hv) as (b & Hm & Hn & Hu). split_and!.
  - exists b. unfold Opt_UnmarshalJSON. by rewrite Hu.
  - exists b. unfold NOpt_UnmarshalJSON. apply String.eqb_neq in Hn. by rewrite Hn, Hu.
  - by exists "null".
  - by exists "null".
  - exists "null". unfold Opt_UnmarshalJSON. by rewrite codec_null.
Qed.

Lemma optional_json_roundtrip_witness :
  Opt_UnmarshalJSON (opt_None : Opt Z) "-42" = (opt_Some (-42), true) ∧
  Opt_UnmarshalJSON (opt_None : Opt Z) (default "" (Opt_MarshalJSON (opt_None : Opt Z))) = (opt_Some 0, true).
Proof.
  destruct (optional_json_roundtrip (-42) opt_None NNone) as ((b & Hb & Hu) & _ & _ & _ & (b' & Hb' & Hu'));
    [reflexivity|].
  rewrite Hb'. split; [|exact Hu']. vm_compute in Hb. injection Hb as <-. exact Hu.
Defined.

(** Query parameters: an integer written in decimal is read as itself, and a boolean word as
    its meaning; everything else counts as not given. *)
Lemma optIntConverter_pretty z : in_int64 z → optIntConverter (pretty z) = opt_Some z.
Proof.
  intros Hz. unfold optIntConverter. rewrite Atoi_pretty by done.
  destruct (pretty_Z_cases z) as [[-> ->]|(c & t & _ & _ & _ & _ & [[_ ->]|[_ ->]])]; done.
Qed.

Lemma converters_never_fail value :
  (Set_ (optIntConverter value) = true ↔ is_Some (Atoi value)) ∧
  (Set_ (optBoolConverter value) = true ↔ is_Some (bool_word value)) ∧
  (Present (noptIntConverter value) = true ↔ value = "null" ∨ is_Some (Atoi value)).
Proof.
  unfold optIntConverter, optBoolConverter, noptIntConverter.
  destruct (String.eqb_spec value "") as [->|Hv]; [|destruct (String.eqb_spec value "null") as [->|Hn]].
  3: destruct (Atoi value); destruct (bool_word value); simpl.
  all: split_and!; split; intros Hx; try done; try (by left); try (by right); eauto;
    try (by destruct Hx); by destruct Hx as [|[? [=]]].
Qed.

(** ** Registration

    The types the form parser is taught to read, and what each is read with. *)

Inductive CustomType := TOptString | TOptInt | TOptBool | TNOptString | TNOptInt | TNOptBool.

Definition denote (t : CustomType) : Type :=
  match t with
  | TOptString => Opt string | TOptInt => Opt Z | TOptBool => Opt bool
  | TNOptString => NOpt string | TNOptInt => NOpt Z | TNOptBool => NOpt bool
  end.

Definition decoder : Type := { t : CustomType & string → denote t }.

Definition RegisterFiberDecoders : list decoder :=
  [ existT TOptString optStringConverter; existT TOptInt optIntConverter; existT TOptBool optBoolConverter;
    existT TNOptString noptStringConverter; existT TNOptInt noptIntConverter; existT TNOptBool noptBoolConverter ].

(** The zero value of each type, which a parameter that is not sent leaves. *)
Definition zero (t : CustomType) : denote t :=
  match t with
  | TOptString => opt_None | TOptInt => opt_None | TOptBool => opt_None
  | TNOptString => NNone | TNOptInt => NNone | TNOptBool => NNone
  end.

(** Every optional type is registered once, and an empty parameter reads like one that was
    not sent. *)
Lemma registered_decoders :
  NoDup (map (λ r : decoder, projT1 r) RegisterFiberDecoders) ∧ (∀ t, t ∈ map (λ r : decoder, projT1 r) RegisterFiberDecoders) ∧
  Forall (λ r : decoder, projT2 r "" = zero (projT1 r)) RegisterFiberDecoders.
Proof.
  split_and!.
  - unfold RegisterFiberDecoders. simpl. repeat (apply NoDup_cons_2; [rewrite ?elem_of_cons, elem_of_nil; naive_solver|]). apply NoDup_nil_2.
  - intros []; simpl; rewrite !elem_of_cons; tauto.
  - repeat constructor.
Qed.

End Optional.
