(* ===== verification/FilePath.v ===== *)
(** * path/filepath on Unix

    [Clean], [Join], [Ext], [Base] and [Dir] as the storage code uses them, at the
    level of path elements, with the facts about cleaned paths that the storage
    proofs need. *)
From S2P Require Import Prelude GoStr.
Import GoStr.

Module FilePath.

Definition slash : ascii := "/"%char.

Definition rooted (p : string) : bool := has_prefix "/" p.

(** The scan of [filepath.Clean]; [stack] holds the output elements, last first.
    A [..] removes the last element unless that element is itself a [..]. *)
Fixpoint clean_elems (root : bool) (stack l : list string) : list string :=
  match l with
  | [] => rev stack
  | x :: l' =>
      if String.eqb x "" || String.eqb x "." then clean_elems root stack l'
      else if String.eqb x ".." then
        match stack with
        | y :: st => if String.eqb y ".." then clean_elems root (".." :: stack) l'
                     else clean_elems root st l'
        | [] => clean_elems root (if root then [] else [".."]) l'
        end
      else clean_elems root (x :: stack) l'
  end.

Definition elems (p : string) : list string := clean_elems (rooted p) [] (Split slash p).

Definition render (root : bool) (l : list string) : string :=
  (if root then "/" else "") +:+ Join slash l.

Definition Clean (p : string) : string :=
  if String.eqb p "" then "."
  else let out := render (rooted p) (elems p) in
       if String.eqb out "" then "." else out.

(** [filepath.Join(a, b)] *)
Definition Join2 (a b : string) : string :=
  if String.eqb a "" then (if String.eqb b "" then "" else Clean b)
  else Clean (a +:+ String slash b).

(** [filepath.Ext]: from the last dot of the last element. *)
Fixpoint ext_scan (rev_path acc : string) : string :=
  match rev_path with
  | EmptyString => ""
  | String c r =>
      if Ascii.eqb c slash then ""
      else if Ascii.eqb c "." then String c acc
      else ext_scan r (String c acc)
  end.
Definition Ext (p : string) : string := ext_scan (rev_string p "") "".

Fixpoint strip_slashes (rev_path : string) : string :=
  match rev_path with
  | String c r => if Ascii.eqb c slash then strip_slashes r else rev_path
  | EmptyString => ""
  end.

(** [filepath.Base] *)
Definition Base (p : string) : string :=
  if String.eqb p "" then "."
  else let q := rev_string (strip_slashes (rev_string p "")) "" in
       match last (Split slash q) with
       | Some x => if String.eqb x "" then "/" else x
       | None => "/"
       end.

(** ** Elements of cleaned paths *)

Definition normal (x : string) : Prop :=
  x ≠ "" ∧ x ≠ "." ∧ x ≠ ".." ∧ contains_byte slash x = false.

Definition is_normal (x : string) : bool :=
  negb (String.eqb x "") && negb (String.eqb x ".") && negb (String.eqb x "..") &&
  negb (contains_byte slash x).

Lemma is_normal_spec x : is_normal x = true ↔ normal x.
Proof.
  unfold is_normal, normal. rewrite !andb_true_iff, !negb_true_iff, !String.eqb_neq. tauto.
Qed.

#[export] Instance normal_dec x : Decision (normal x).
Proof. refine (cast_if (decide (is_normal x = true))); by rewrite <-is_normal_spec. Defined.

(** A cleaned element list: leading [..] elements (none under a root), then names. *)
Definition cleaned (root : bool) (l : list string) : Prop :=
  ∃ k names, l = replicate k ".." ++ names ∧ Forall normal names ∧ (root = true → k = 0%nat).

Lemma cleaned_no_slash root l : cleaned root l → Forall (λ x, contains_byte slash x = false) l.
Proof.
  intros (k & names & -> & Hn & _). apply Forall_app. split.
  - by apply Forall_replicate.
  - eapply Forall_impl; [exact Hn|]. by intros x (_ & _ & _ & ?).
Qed.

Lemma clean_elems_cleaned root stack l :
  Forall (λ x, contains_byte slash x = false) l →
  cleaned root (rev stack) → cleaned root (clean_elems root stack l).
Proof.
  intros Hl. revert stack. induction Hl as [|x l Hx _ IH]; intros stack Hst; simpl; [done|].
  destruct (String.eqb x "" || String.eqb x ".") eqn:He; [auto|]. to_prop.
  destruct (String.eqb x "..") eqn:Hdd; to_prop.
  - subst x. destruct stack as [|y st].
    + apply IH. destruct root; simpl; [by exists 0%nat, []|]. by exists 1%nat, [].
    + destruct Hst as (k & names & Heq & Hn & Hk). simpl in Heq.
      destruct names as [|z names _] using rev_ind.
      * rewrite app_nil_r in Heq. destruct k as [|k]; [by destruct (rev st)|].
        rewrite replicate_S_end in Heq. apply app_inj_tail in Heq as [Hst ->].
        simpl. apply IH. simpl. exists (S (S k)), []. rewrite Hst, app_nil_r.
        rewrite <-!replicate_S_end. split; [done|]. split; [done|]. intros Hr. by apply Hk in Hr.
      * rewrite app_assoc in Heq. apply app_inj_tail in Heq as [Hst ->].
        apply Forall_app in Hn as [Hn Hz]. apply Forall_singleton in Hz as (_ & _ & Hz & _).
        rewrite (proj2 (String.eqb_neq z "..") Hz). apply IH. rewrite Hst.
        by exists k, names.
  - apply IH. destruct Hst as (k & names & Heq & Hn & Hk). simpl. rewrite Heq, <-app_assoc.
    exists k, (names ++ [x]). split; [done|]. split; [|done]. apply Forall_app. split; [done|].
    by apply Forall_singleton.
Qed.

Lemma elems_cleaned p : cleaned (rooted p) (elems p).
Proof.
  apply clean_elems_cleaned; [|by exists 0%nat, []].
  apply Forall_forall. intros x Hx. by eapply Split_no_sep.
Qed.

Lemma clean_elems_app root stack l1 l2 :
  clean_elems root stack (l1 ++ l2) = clean_elems root (rev (clean_elems root stack l1)) l2.
Proof.
  revert stack. induction l1 as [|x l1 IH]; intros stack; simpl; [by rewrite rev_involutive|].
  by repeat case_match.
Qed.

Lemma clean_elems_normal root stack l :
  Forall normal l → clean_elems root stack l = rev stack ++ l.
Proof.
  intros Hl. revert stack. induction Hl as [|x l (H1 & H2 & H3 & _) _ IH]; intros stack; simpl.
  - by rewrite app_nil_r.
  - rewrite (proj2 (String.eqb_neq _ _) H1), (proj2 (String.eqb_neq _ _) H2),
      (proj2 (String.eqb_neq _ _) H3). simpl. rewrite IH. simpl. by rewrite <-app_assoc.
Qed.

(** Cleaning leaves a cleaned list alone. *)
Lemma clean_elems_id root l : cleaned root l → clean_elems root [] l = l.
Proof.
  intros (k & names & -> & Hn & Hk). rewrite clean_elems_app.
  assert (clean_elems root [] (replicate k "..") = replicate k "..") as ->.
  { destruct k as [|k]; [done|]. destruct root; [by specialize (Hk eq_refl)|].
    simpl. change (String.eqb ".." ".." ) with true. clear.
    enough (∀ j, clean_elems false (replicate (S j) "..") (replicate k "..") = replicate (S (j + k)) "..")
      as Hj by exact (Hj 0%nat).
    induction k as [|k IH]; intros j; cbn [replicate clean_elems].
    - rewrite Nat.add_0_r. change (".." :: replicate j "..") with (replicate (S j) "..").
      by rewrite List.rev_alt; apply reverse_replicate.
    - change (".." :: replicate j "..") with (replicate (S j) "..").
      specialize (IH (S j)). simpl in *. rewrite IH. f_equal. f_equal. by rewrite Nat.add_succ_r. }
  rewrite clean_elems_normal by done. by rewrite rev_involutive.
Qed.

(** ** Rendering and reading back *)

Lemma rooted_app p q : p ≠ "" → rooted (p +:+ q) = rooted p.
Proof. destruct p as [|c p]; [done|]. intros _. unfold rooted. simpl. by rewrite !andb_true_r. Qed.

Lemma Join_nonempty root l : cleaned root l → l ≠ [] → Join slash l ≠ "" ∧ rooted (Join slash l) = false.
Proof.
  intros (k & names & -> & Hn & _) Hne.
  assert (∃ x r, replicate k ".." ++ names = x :: r ∧ x ≠ "" ∧ rooted x = false) as (x & r & -> & Hx & Hr).
  { destruct k as [|k]; simpl.
    - destruct Hn as [|x r (H1 & _ & _ & H4) _]; [done|]. exists x, r. split; [done|]. split; [done|].
      destruct x as [|c x]; [done|]. change (rooted (String c x)) with (Ascii.eqb slash c && true).
      destruct (Ascii.eqb_spec slash c) as [<-|]; [|done]. by cbn [contains_byte] in H4.
    - eauto. }
  destruct r as [|y r]; [done|]. rewrite Join_cons by done. split; [by destruct x|]. by rewrite rooted_app.
Qed.

Lemma elems_render root l :
  cleaned root l → root = true ∨ l ≠ [] →
  rooted (render root l) = root ∧ elems (render root l) = l ∧ render root l ≠ "".
Proof.
  intros Hc Hne. unfold elems, render. destruct root; simpl.
  - split; [done|]. split; [|done].
    destruct l as [|x l]; [done|]. rewrite Split_Join by (done || by eapply cleaned_no_slash).
    by apply (clean_elems_id true).
  - destruct Hne as [?|Hne]; [done|]. destruct (Join_nonempty _ _ Hc Hne) as [Hj Hr].
    rewrite Hr, Split_Join by (done || by eapply cleaned_no_slash).
    split; [done|]. split; [by apply (clean_elems_id false) | done].
Qed.

(** [Clean] keeps the elements of a path. *)
Lemma Clean_elems p : rooted (Clean p) = rooted p ∧ elems (Clean p) = elems p ∧ Clean p ≠ "".
Proof.
  unfold Clean. destruct (String.eqb_spec p "") as [->|Hp]; [done|].
  destruct (String.eqb_spec (render (rooted p) (elems p)) "") as [He|Hne].
  - unfold render in He. destruct (rooted p) eqn:Hr; [done|].
    destruct (elems p) as [|x l] eqn:Hel; [done|]. exfalso.
    pose proof (elems_cleaned p) as Hc. rewrite Hel in Hc.
    destruct (Join_nonempty _ _ Hc ltac:(done)) as [Hj _]. done.
  - destruct (rooted p) eqn:Hr.
    + apply (elems_render true); [|by left]. rewrite <-Hr. apply elems_cleaned.
    + destruct (elems p) as [|x l] eqn:Hel; [done|]. rewrite <-Hel.
      apply (elems_render false); [rewrite <-Hr; apply elems_cleaned | right; by rewrite Hel].
Qed.

(** A cleaned path is determined by its root and its elements. *)
Lemma Clean_ext p q : p ≠ "" → q ≠ "" → rooted p = rooted q → elems p = elems q → Clean p = Clean q.
Proof.
  intros Hp Hq Hr He. unfold Clean. rewrite Hr, He.
  by rewrite (proj2 (String.eqb_neq _ _) Hp), (proj2 (String.eqb_neq _ _) Hq).
Qed.

Lemma Clean_idem p : Clean (Clean p) = Clean p.
Proof.
  destruct (Clean_elems p) as (Hr & He & Hne).
  destruct (decide (p = "")) as [->|Hp]; [done|]. by apply Clean_ext.
Qed.

(** When something is left, [Clean] is its rendering. *)
Lemma Clean_render p : p ≠ "" → rooted p = true ∨ elems p ≠ [] → Clean p = render (rooted p) (elems p).
Proof.
  intros Hp Hne. unfold Clean. rewrite (proj2 (String.eqb_neq _ _) Hp).
  destruct (elems_render (rooted p) (elems p) (elems_cleaned p) Hne) as (_ & _ & Hr).
  by rewrite (proj2 (String.eqb_neq _ _) Hr).
Qed.

Lemma elems_join p q :
  p ≠ "" → elems (p +:+ String slash q) = clean_elems (rooted p) (rev (elems p)) (Split slash q).
Proof. intros Hp. unfold elems. by rewrite rooted_app, Split_app, clean_elems_app. Qed.

Lemma clean_elems_contains b root stack l :
  contains_byte b ".." = false →
  Forall (λ x, contains_byte b x = false) stack → Forall (λ x, contains_byte b x = false) l →
  Forall (λ x, contains_byte b x = false) (clean_elems root stack l).
Proof.
  intros Hb Hs Hl. revert stack Hs. induction Hl as [|x l Hx _ IH]; intros stack Hs; simpl.
  - rewrite List.rev_alt. by apply Forall_reverse.
  - repeat case_match; apply IH; try done; repeat constructor; try done; by inversion Hs.
Qed.

Lemma contains_Clean b p :
  b ≠ slash → b ≠ "."%char → contains_byte b p = false → contains_byte b (Clean p) = false.
Proof.
  intros Hs Hd Hp.
  assert (contains_byte b ".." = false ∧ contains_byte b "." = false ∧ contains_byte b "/" = false) as (H1 & H2 & H3).
  { cbn [contains_byte]. rewrite (proj2 (Ascii.eqb_neq "." b)), (proj2 (Ascii.eqb_neq "/" b)) by (unfold slash in *; congruence). done. }
  unfold Clean. repeat case_match; [done|done|]. unfold render. rewrite contains_byte_append, contains_Join by done.
  assert (Forall (λ x, contains_byte b x = false) (elems p)) as Hf.
  { apply clean_elems_contains; [done|done|]. apply Forall_forall. intros x Hx.
    destruct (contains_byte b x) eqn:Hbx; [|done]. by rewrite (contains_Split _ _ _ _ Hx Hbx) in Hp. }
  assert (existsb (contains_byte b) (elems p) = false) as ->.
  { clear -Hf. induction Hf as [|x l Hx _ IH]; cbn [existsb]; [done|]. by rewrite Hx, IH. }
  rewrite orb_false_r. by destruct (rooted p).
Qed.

(** ** Extensions *)

Lemma contains_Ext b p : contains_byte b p = false → contains_byte b (Ext p) = false.
Proof.
  intros Hp. unfold Ext.
  assert (∀ r acc, contains_byte b r = false → contains_byte b acc = false → contains_byte b (ext_scan r acc) = false) as Hs.
  { induction r as [|c r IH]; intros acc Hr Ha; simpl in *; [done|]. to_prop.
    destruct (Ascii.eqb c slash); [done|]. destruct (Ascii.eqb c "."); simpl; [by rewrite H, Ha|].
    apply IH; [done|]. simpl. by rewrite H, Ha. }
  apply Hs; [|done]. by rewrite contains_rev_string, Hp.
Qed.

Lemma Ext_no_slash p : contains_byte slash (Ext p) = false.
Proof.
  unfold Ext. generalize (rev_string p ""). intros r.
  assert (∀ acc, contains_byte slash acc = false → contains_byte slash (ext_scan r acc) = false) as Hs; [|by apply Hs].
  induction r as [|c r IH]; intros acc Ha; cbn [ext_scan]; [done|].
  destruct (Ascii.eqb c slash) eqn:Hc; [done|]. destruct (Ascii.eqb c "."); simpl; [by rewrite Hc, Ha|].
  apply IH. simpl. by rewrite Hc, Ha.
Qed.

End FilePath.
