(* ===== verification/Base64.v ===== *)
(** * encoding/base64 (URL alphabet, padded)

    [base64.URLEncoding], used for refresh tokens and pagination cursors.  Bytes are
    [ascii] characters; six-bit values are computed on [Z].  As in Go, the decoder
    ignores carriage returns and line feeds and does not check trailing bits. *)
From S2P Require Import Prelude.

Module Base64.

Definition alphabet : string := "ABCDEFGHIJKLMNOPQRSTUVWXYZabcdefghijklmnopqrstuvwxyz0123456789-_".
Definition pad : ascii := "="%char.

Definition byte_val (c : ascii) : Z := Z.of_N (N_of_ascii c).
Definition byte_of (z : Z) : ascii := ascii_of_N (Z.to_N z).

Definition enc_char (z : Z) : ascii :=
  match String.get (Z.to_nat z) alphabet with Some c => c | None => pad end.

Fixpoint index_of (c : ascii) (s : string) (i : Z) : option Z :=
  match s with
  | EmptyString => None
  | String d s' => if Ascii.eqb c d then Some i else index_of c s' (i + 1)
  end.
Definition dec_char (c : ascii) : option Z := index_of c alphabet 0.

(** [EncodeToString] *)
Fixpoint encode (s : string) : string :=
  match s with
  | EmptyString => ""
  | String a EmptyString =>
      let x := byte_val a in
      String (enc_char (x / 4)) (String (enc_char (x `mod` 4 * 16)) (String pad (String pad "")))
  | String a (String b EmptyString) =>
      let x := byte_val a in let y := byte_val b in
      String (enc_char (x / 4)) (String (enc_char (x `mod` 4 * 16 + y / 16))
        (String (enc_char (y `mod` 16 * 4)) (String pad "")))
  | String a (String b (String c s')) =>
      let x := byte_val a in let y := byte_val b in let z := byte_val c in
      String (enc_char (x / 4)) (String (enc_char (x `mod` 4 * 16 + y / 16))
        (String (enc_char (y `mod` 16 * 4 + z / 64)) (String (enc_char (z `mod` 64)) (encode s'))))
  end.

Definition is_newline (c : ascii) : bool := Ascii.eqb c "010" || Ascii.eqb c "013".

Fixpoint strip_newlines (s : string) : string :=
  match s with
  | EmptyString => ""
  | String c s' => if is_newline c then strip_newlines s' else String c (strip_newlines s')
  end.

(** The decoding loop on input without newlines: full quanta, then at most one padded
    quantum at the very end. *)
Fixpoint decode_quanta (s : string) : option string :=
  match s with
  | EmptyString => Some ""
  | String a (String b (String c (String d s'))) =>
      match dec_char a, dec_char b with
      | Some p, Some q =>
          let x := byte_of (p * 4 + q / 16) in
          match dec_char c with
          | Some r =>
              let y := byte_of (q `mod` 16 * 16 + r / 4) in
              match dec_char d with
              | Some t =>
                  match decode_quanta s' with
                  | Some rest => Some (String x (String y (String (byte_of (r `mod` 4 * 64 + t)) rest)))
                  | None => None
                  end
              | None => if Ascii.eqb d pad && String.eqb s' "" then Some (String x (String y "")) else None
              end
          | None => if Ascii.eqb c pad && Ascii.eqb d pad && String.eqb s' "" then Some (String x "") else None
          end
      | _, _ => None
      end
  | _ => None
  end.

(** [DecodeString] *)
Definition decode (s : string) : option string := decode_quanta (strip_newlines s).

(** ** Round trip *)

Lemma byte_val_range c : 0 ≤ byte_val c < 256.
Proof. unfold byte_val. pose proof (N_ascii_bounded c). lia. Qed.

Lemma byte_of_val c z : z = byte_val c → byte_of z = c.
Proof. intros ->. unfold byte_of, byte_val. rewrite N2Z.id. apply ascii_N_embedding. Qed.

Definition sextets : list Z := Z.of_nat <$> seq 0 64.

Lemma sextet_check :
  forallb (λ z, bool_decide (dec_char (enc_char z) = Some z) && negb (is_newline (enc_char z))) sextets = true.
Proof. vm_compute. reflexivity. Qed.

Lemma sextet_ok z : 0 ≤ z < 64 → dec_char (enc_char z) = Some z ∧ is_newline (enc_char z) = false.
Proof.
  intros Hz. assert (Hin : z ∈ sextets).
  { unfold sextets. apply list_elem_of_fmap. exists (Z.to_nat z).
    split; [lia|]. apply elem_of_seq. lia. }
  pose proof sextet_check as Hc. rewrite forallb_forall in Hc.
  specialize (Hc z (proj1 (list_elem_of_In _ _) Hin)). to_prop. done.
Qed.

Lemma dec_enc z : 0 ≤ z < 64 → dec_char (enc_char z) = Some z.
Proof. intros. by apply sextet_ok. Qed.

Lemma newline_enc z : 0 ≤ z < 64 → is_newline (enc_char z) = false.
Proof. intros. by apply sextet_ok. Qed.

Ltac byte_ranges :=
  repeat match goal with
  | |- context [byte_val ?c] =>
      lazymatch goal with
      | H : 0 ≤ byte_val c < 256 |- _ => fail
      | _ => pose proof (byte_val_range c)
      end
  end.
Ltac byte_lia := byte_ranges; Z.to_euclidean_division_equations; lia.

Lemma strip_encode s : strip_newlines (encode s) = encode s.
Proof.
  remember (String.length s) as n eqn:Hn. revert s Hn.
  induction (lt_wf n) as [n _ IH]. intros s ->.
  destruct s as [|a [|b [|c s]]]; cbn [encode strip_newlines]; [done|..];
    rewrite !newline_enc by byte_lia; try done.
  do 4 f_equal. eapply IH; [|done]. simpl. lia.
Qed.

Lemma decode_encode s : decode (encode s) = Some s.
Proof.
  unfold decode. rewrite strip_encode.
  remember (String.length s) as n eqn:Hn. revert s Hn.
  induction (lt_wf n) as [n _ IH]. intros s ->.
  destruct s as [|a [|b [|c s]]]; cbn [encode decode_quanta]; [done|..];
    rewrite !dec_enc by byte_lia; cbn [dec_char].
  - change (dec_char pad) with (@None Z). cbn. f_equal. f_equal. apply byte_of_val. byte_lia.
  - change (dec_char pad) with (@None Z). cbn.
    do 2 f_equal; [|f_equal]; apply byte_of_val; byte_lia.
  - rewrite (IH (String.length s)); [|simpl; lia|done].
    f_equal. f_equal; [|f_equal; [|f_equal]]; apply byte_of_val; byte_lia.
Qed.

Lemma encode_inj s t : encode s = encode t → s = t.
Proof. intros Heq. pose proof (decode_encode s). rewrite Heq, decode_encode in H. congruence. Qed.

(** The encoding uses only the alphabet and the padding character. *)
Lemma encode_nonempty s : s ≠ "" → encode s ≠ "".
Proof. by destruct s as [|a [|b [|c s]]]. Qed.

End Base64.
