(* ===== verification/AppErr.v ===== *)
(** * Application errors and HTTP responses

    Models [pkg/apperr/error.go], [pkg/response/response.go] and the central
    error handler of [internal/platform/http/middleware/error_handler.go].  A Go
    [error] is a chain: an application error may wrap another error, and
    [fmt.Errorf] with [%w] adds text around one.  [errors.As] walks the chain. *)
From S2P Require Import Prelude.

(** ** The Go [error] values the program builds *)

Inductive error : Type :=
| AppError (Code Message : string) (HTTPStatus : Z) (Wrapped : option error)
| FmtError (before : string) (inner : error) (after : string)  (* fmt.Errorf with %w *)
| PlainError (text : string)                                   (* errors.New, fmt.Errorf without %w *)
| FiberError (Code : Z) (Message : string)                     (* *fiber.Error *)
| ValidationError (Errors : list (string * string))            (* *validator.ValidationError *)
| CacheMissError
| CacheUnavailableError
| ContextError (text : string)                                 (* ctx.Err() *)
| PgError (Code Message : string).                             (* *pgconn.PgError *)

Module AppErr.

(** [Error.Error], and the text of the other errors. *)
Fixpoint ErrorText (e : error) : string :=
  match e with
  | AppError c m _ (Some w) => c +:+ ": " +:+ m +:+ ": " +:+ ErrorText w
  | AppError c m _ None => c +:+ ": " +:+ m
  | FmtError b i a => b +:+ ErrorText i +:+ a
  | PlainError t => t
  | FiberError _ m => m
  | ValidationError _ => "validation failed"
  | CacheMissError => "cache: key not found"
  | CacheUnavailableError => "cache: backend unavailable"
  | ContextError t => t
  | PgError c m => "ERROR: " +:+ m +:+ " (SQLSTATE " +:+ c +:+ ")"
  end.

Definition Unwrap (e : error) : option error :=
  match e with
  | AppError _ _ _ w => w
  | FmtError _ i _ => Some i
  | _ => None
  end.

Definition New (code message : string) (httpStatus : Z) : error := AppError code message httpStatus None.
Definition Wrap (err : error) (code message : string) (httpStatus : Z) : error :=
  AppError code message httpStatus (Some err).

(** [errors.As(err, &appErr)]: the first application error of the chain. *)
Fixpoint AsAppError (e : error) : option (string * string * Z * option error) :=
  match e with
  | AppError c m s w => Some (c, m, s, w)
  | FmtError _ i _ => AsAppError i
  | _ => None
  end.

(** The methods below have a *Error receiver; on another error they are not callable. *)
Definition WithMessage (e : error) (message : string) : error :=
  match e with AppError c _ s w => AppError c message s w | _ => e end.
Definition WithError (e : error) (err : error) : error :=
  match e with AppError c m s _ => AppError c m s (Some err) | _ => e end.

(** [Error.Is]: same code as the first application error of the target's chain. *)
Definition Is (e target : error) : bool :=
  match e, AsAppError target with
  | AppError c _ _ _, Some (c', _, _, _) => String.eqb c c'
  | _, _ => false
  end.

Definition CodeBadRequest := "BAD_REQUEST".
Definition CodeUnauthorized := "UNAUTHORIZED".
Definition CodeForbidden := "FORBIDDEN".
Definition CodeNotFound := "NOT_FOUND".
Definition CodeConflict := "CONFLICT".
Definition CodeUnprocessableEntity := "UNPROCESSABLE_ENTITY".
Definition CodeUnsupportedMedia := "UNSUPPORTED_MEDIA_TYPE".
Definition CodeInternalError := "INTERNAL_ERROR".
Definition CodeServiceUnavailable := "SERVICE_UNAVAILABLE".
Definition CodeValidation := "VALIDATION_ERROR".

Definition ErrBadRequest := New CodeBadRequest "The request was invalid or malformed" 400.
Definition ErrUnauthorized := New CodeUnauthorized "Authentication is required" 401.
Definition ErrForbidden := New CodeForbidden "You don't have permission to access this resource" 403.
Definition ErrNotFound := New CodeNotFound "The requested resource was not found" 404.
Definition ErrConflict := New CodeConflict "The request conflicts with the current state" 409.
Definition ErrUnprocessableEntity :=
  New CodeUnprocessableEntity "The request was well-formed but contains invalid data" 422.
Definition ErrUnsupportedMediaType := New CodeUnsupportedMedia "The uploaded media type is not supported" 415.
Definition ErrInternal := New CodeInternalError "An internal error occurred" 500.
Definition ErrServiceUnavailable := New CodeServiceUnavailable "The service is temporarily unavailable" 503.

(** The [...f] constructors take the already formatted message. *)
Definition Validation (message : string) := New CodeValidation message 400.
Definition NotFoundf (message : string) := New CodeNotFound message 404.
Definition BadRequestf (message : string) := New CodeBadRequest message 400.
Definition Conflictf (message : string) := New CodeConflict message 409.
Definition Internalf (message : string) := New CodeInternalError message 500.
Definition UnsupportedMediaTypef (message : string) := New CodeUnsupportedMedia message 415.

End AppErr.
Import AppErr.

(** ** Responses *)

Record ErrorBody := mkErrorBody {
  eb_code : string;
  eb_message : string;
  eb_details : option (list (string * string))
}.

(** What a handler sends: the status line and the JSON envelope.  [A] is the type
    of the [data] member. *)
Record Response (A : Type) := mkResponse {
  status : Z;
  success : bool;
  message : string;
  data : option A;
  resp_error : option ErrorBody
}.
Arguments mkResponse {A}.
Arguments status {A}.
Arguments success {A}.
Arguments message {A}.
Arguments data {A}.
Arguments resp_error {A}.

Module Resp.
Section Resp.
Context {A : Type}.

Definition Success (d : A) : Response A := mkResponse 200 true "" (Some d) None.
Definition Created (d : A) : Response A := mkResponse 201 true "" (Some d) None.
(** 204: only the status is sent. *)
Definition NoContent : Response A := mkResponse 204 true "" None None.
Definition Message (m : string) : Response A := mkResponse 200 true m None None.

Definition errorResponse (st : Z) (code msg : string) (details : option (list (string * string))) : Response A :=
  mkResponse st false "" None (Some (mkErrorBody code msg details)).

Definition Fail (err : error) : Response A :=
  match AsAppError err with
  | Some (c, m, s, _) => errorResponse s c m None
  | None => errorResponse 500 CodeInternalError "An unexpected error occurred" None
  end.

Definition FailWithDetails (err : error) (details : list (string * string)) : Response A :=
  match AsAppError err with
  | Some (c, m, s, _) => errorResponse s c m (Some details)
  | None => errorResponse 500 CodeInternalError "An unexpected error occurred" (Some details)
  end.

Definition ValidationFailed (errors : list (string * string)) : Response A :=
  errorResponse 400 CodeValidation "Validation failed" (Some errors).

Definition Unauthorized (m : string) : Response A :=
  errorResponse 401 CodeUnauthorized (if String.eqb m "" then "Authentication required" else m) None.
Definition Forbidden (m : string) : Response A :=
  errorResponse 403 CodeForbidden (if String.eqb m "" then "Access denied" else m) None.
Definition NotFound (m : string) : Response A :=
  errorResponse 404 CodeNotFound (if String.eqb m "" then "Resource not found" else m) None.

(** ** The central error handler *)

Definition fiberStatusToCode (st : Z) : string :=
  if st =? 400 then CodeBadRequest
  else if st =? 401 then CodeUnauthorized
  else if st =? 403 then CodeForbidden
  else if st =? 404 then CodeNotFound
  else if st =? 409 then CodeConflict
  else if st =? 422 then CodeUnprocessableEntity
  else CodeInternalError.

(** The response, and the line written to the log when there is one. *)
Definition ErrorHandler (err : error) : Response A * option string :=
  match AsAppError err with
  | Some (c, m, s, w) =>
      (Fail (AppError c m s w), if s >=? 500 then Some "Server error occurred" else None)
  | None =>
      match err with
      | FiberError code m => (errorResponse code (fiberStatusToCode code) m None, None)
      | _ => (Fail ErrInternal, Some "Unexpected error occurred")
      end
  end.

End Resp.
End Resp.

(** ** Properties *)

(** Two errors look the same to a client when their first application errors agree
    on code, message and status, or when neither chain has one. *)
Definition public_part (e : error) : option (string * string * Z) :=
  match AsAppError e with Some (c, m, s, _) => Some (c, m, s) | None => None end.

(** What a failing handler sends depends only on the code, message and status of
    the first application error of the chain: two errors with the same public part
    get the same response from [Fail] and, whatever is wrapped below or printed
    around it, from the central error handler.  In particular an internal cause
    attached with [WithError] or [%w] never reaches the client. *)
Theorem fail_noninterference (A : Type) (e cause : error) (before after : string) :
  @Resp.Fail A (WithError e cause) = Resp.Fail e ∧
  @Resp.Fail A (FmtError before e after) = Resp.Fail e ∧
  (is_Some (public_part e) → (@Resp.ErrorHandler A (FmtError before e after)).1 = Resp.Fail e) ∧
  (∀ e', public_part e' = public_part e → @Resp.Fail A e' = Resp.Fail e).
Proof.
  split; [by destruct e|]. split; [done|]. split.
  - unfold public_part, Resp.ErrorHandler, Resp.Fail; simpl.
    destruct (AsAppError e) as [[[[c m] s] w]|]; [done|by intros []].
  - intros e'. unfold public_part, Resp.Fail.
    destruct (AsAppError e) as [[[[c m] s] w]|], (AsAppError e') as [[[[c' m'] s'] w']|];
      by intros; simplify_eq.
Qed.

Lemma fail_noninterference_witness :
  (@Resp.ErrorHandler nat (FmtError "tx error: " ErrInternal ", rollback error: x")).1
    = Resp.Fail ErrInternal ∧
  @Resp.Fail nat (WithError ErrInternal (PlainError "pq: password authentication failed"))
    = Resp.Fail ErrInternal.
Proof.
  destruct (fail_noninterference nat ErrInternal
              (PlainError "pq: password authentication failed") "tx error: " ", rollback error: x")
    as (H1 & _ & H3 & _).
  split; [apply H3; vm_compute; eauto | exact H1].
Defined.
