(* ===== verification/Observability.v ===== *)
(** * Logging, metrics and tracing

    Models [pkg/logger] and [internal/platform/observability]: which records pass a logger and
    with which attributes, the metric registry with the updates a request makes, and the span
    around a request.  Writing log lines, scraping and exporting are the libraries'. *)
From stdpp Require Import gmultiset.
From S2P Require Import Prelude GoStr Json AppErr.
Import Json.

Module Observability.

(** ** Integers as text *)

(** The conversion of an int to a rune (int32). *)
Definition wrap32 (z : Z) : Z := (z + 2 ^ 31) `mod` 2 ^ 32 - 2 ^ 31.

(** [string(rune(i))]: what is not a code point becomes U+FFFD. *)
Definition string_of_rune (i : Z) : string :=
  let r := wrap32 i in
  if (0 <=? r) && (r <=? 1114111) && negb ((55296 <=? r) && (r <=? 57343)) then utf8_enc r else RuneError.

(** The recursion divides by ten; [itoa] gives it more steps than an int has digits. *)
Fixpoint itoa_go (fuel : nat) (i : Z) : string :=
  if i <? 10 then string_of_rune (48 + i)
  else match fuel with
       | O => ""
       | S fuel' => itoa_go fuel' (Z.quot i 10) +:+ string_of_rune (48 + Z.rem i 10)
       end.
Definition itoa : Z → string := itoa_go 19.

(** ** Loggers *)

Inductive slog_level := LevelDebug | LevelInfo | LevelWarn | LevelError.
#[export] Instance slog_level_eq_dec : EqDecision slog_level.
Proof. solve_decision. Defined.

Definition level_num (l : slog_level) : Z :=
  match l with LevelDebug => -4 | LevelInfo => 0 | LevelWarn => 4 | LevelError => 8 end.

(** The switch both constructors start with. *)
Definition parse_level (s : string) : slog_level :=
  if String.eqb s "debug" then LevelDebug
  else if String.eqb s "warn" then LevelWarn
  else if String.eqb s "error" then LevelError
  else LevelInfo.

Inductive slog_handler := TextHandler | JSONHandler.

(** A slog logger: its handler, threshold, how it shows the source line, and its attributes. *)
Record Logger := mkLogger {
  lg_handler : slog_handler;
  lg_level : slog_level;
  lg_source : string → Z → string;
  lg_attrs : list (string * string)
}.

Definition With (attrs : list (string * string)) (l : Logger) : Logger :=
  mkLogger (lg_handler l) (lg_level l) (lg_source l) (lg_attrs l ++ attrs).

Definition enabled (l : Logger) (lv : slog_level) : bool := level_num (lg_level l) <=? level_num lv.

(** pkg/logger *)

Definition source_pkg (file : string) (line : Z) : string := file +:+ ":" +:+ itoa line.

Definition New (level format : string) : Logger :=
  mkLogger (if String.eqb format "text" then TextHandler else JSONHandler) (parse_level level) source_pkg [].
Definition Default : Logger := New "info" "json".

(** A string attribute of the context, if it is there and not empty. *)
Definition context_attr (value : string → option string) (key : string) : list (string * string) :=
  match value key with Some v => if String.eqb v "" then [] else [(key, v)] | None => [] end.

Definition WithContext (value : string → option string) (l : Logger) : Logger :=
  let attrs := context_attr value "request_id" ++ context_attr value "user_id" ++ context_attr value "trace_id" ++
               context_attr value "ip_address" ++ context_attr value "user_agent" in
  match attrs with [] => l | _ => With attrs l end.

Definition WithField (key value : string) (l : Logger) : Logger := With [(key, value)] l.
(** [fields] in the order the map is ranged over. *)
Definition WithFields (fields : list (string * string)) (l : Logger) : Logger := With fields l.
Definition WithError (err : error) (l : Logger) : Logger := With [("error", AppErr.ErrorText err)] l.
(** [caller] is what the runtime knows of the calling line. *)
Definition WithCaller (caller : option (string * Z)) (l : Logger) : Logger :=
  match caller with None => l | Some (file, line) => With [("caller", file +:+ ":" +:+ itoa line)] l end.

(** observability/logger.go *)

Definition source_obs (file : string) (line : Z) : string := file +:+ ":" +:+ string_of_rune line.

Definition NewLogger (level format serviceName environment : string) : Logger :=
  With [("service", serviceName); ("environment", environment)]
    (mkLogger (if String.eqb format "text" then TextHandler else JSONHandler) (parse_level level) source_obs []).

(** [span] is the valid span of the context, by trace and span id. *)
Definition obs_WithContext (span : option (string * string)) (l : Logger) : Logger :=
  match span with
  | None => l
  | Some (traceID, spanID) => With [("trace_id", traceID); ("span_id", spanID)] l
  end.

(** What a call at a level writes: nothing below the threshold. *)
Definition log_context (lv : slog_level) (span : option (string * string)) (msg : string) (args : list (string * string))
    (l : Logger) : option (slog_level * string * list (string * string)) :=
  let l' := obs_WithContext span l in
  if enabled l' lv then Some (lv, msg, lg_attrs l' ++ args) else None.
Definition InfoContext := log_context LevelInfo.
Definition ErrorContext := log_context LevelError.
Definition WarnContext := log_context LevelWarn.
Definition DebugContext := log_context LevelDebug.

(** ** [itoa] is the decimal notation *)

Lemma pretty_go_app x s : pretty_N_go x s = pretty_N_go x "" +:+ s.
Proof.
  revert s. induction (N.lt_wf_0 x) as [x _ IH]; intros s.
  destruct (decide (x = 0)%N) as [->|Hx]; [done|].
  rewrite !(pretty_N_go_step x) by lia. assert (Hd : (x `div` 10 < x)%N) by (apply N.div_lt; lia).
  rewrite (IH _ Hd), (IH _ Hd (String _ "")), append_assoc. done.
Qed.

Lemma pretty_N_step x : (10 <= x)%N → pretty x = pretty (x / 10)%N +:+ String (pretty_N_char (x mod 10)) "".
Proof.
  intros Hx. unfold pretty, pretty_N. assert ((x / 10)%N ≠ 0%N) by (intros ?%N.div_small_iff; lia).
  rewrite !decide_False by lia. rewrite pretty_N_go_step by lia. apply pretty_go_app.
Qed.

Lemma digit_rune d : 0 ≤ d < 10 → string_of_rune (48 + d) = String (pretty_N_char (Z.to_N d)) "".
Proof.
  intros Hd. assert (d = 0 ∨ d = 1 ∨ d = 2 ∨ d = 3 ∨ d = 4 ∨ d = 5 ∨ d = 6 ∨ d = 7 ∨ d = 8 ∨ d = 9) as Hc by lia.
  by destruct_or? Hc; subst.
Qed.

Lemma one_digit n : (n < 10)%N → string_of_rune (48 + Z.of_N n) = pretty n.
Proof.
  intros Hn. rewrite digit_rune by lia. rewrite N2Z.id.
  assert (n = 0 ∨ n = 1 ∨ n = 2 ∨ n = 3 ∨ n = 4 ∨ n = 5 ∨ n = 6 ∨ n = 7 ∨ n = 8 ∨ n = 9)%N as Hc by lia.
  by destruct_or? Hc; subst.
Qed.

Lemma itoa_go_pretty fuel n : Z.of_N n < 10 ^ (Z.of_nat fuel + 1) → itoa_go fuel (Z.of_N n) = pretty n.
Proof.
  revert n. induction fuel as [|fuel IH]; intros n Hn; cbn [itoa_go]; destruct (Z.of_N n <? 10) eqn:Hlt.
  - apply Z.ltb_lt in Hlt. apply one_digit. lia.
  - apply Z.ltb_ge in Hlt. simpl in Hn. lia.
  - apply Z.ltb_lt in Hlt. apply one_digit. lia.
  - apply Z.ltb_ge in Hlt. rewrite Z.quot_div_nonneg, Z.rem_mod_nonneg by lia.
    change 10 with (Z.of_N 10). rewrite <-N2Z.inj_div, <-N2Z.inj_mod. rewrite (pretty_N_step n) by lia.
    rewrite digit_rune by (split; [apply N2Z.is_nonneg|apply (proj1 (N2Z.inj_lt _ 10)), N.mod_lt; done]). rewrite N2Z.id. f_equal. apply IH.
    rewrite N2Z.inj_div. apply Z.div_lt_upper_bound; [lia|]. rewrite Nat2Z.inj_succ, <-Z.add_1_l in Hn.
    rewrite <-Z.add_assoc, Z.pow_add_r in Hn by lia. exact Hn.
Qed.

(** On the numbers of an int that are not negative, the hand-written conversion is the
    decimal notation; negative numbers it does not convert. *)
Theorem itoa_decimal (i : Z) : 0 ≤ i < 2 ^ 63 → itoa i = pretty i.
Proof.
  intros Hi. unfold itoa. rewrite <-(Z2N.id i) at 1 by lia. rewrite itoa_go_pretty.
  - destruct i; [done|done|lia].
  - rewrite Z2N.id by lia. eapply Z.lt_trans; [apply Hi|]. done.
Qed.

Example itoa_negative : itoa (-1) = "/" ∧ itoa (-49) = RuneError.
Proof. done. Qed.

(** The other logger prints the line number as a code point. *)
Example source_lines :
  source_pkg "app.go" 71 = "app.go:71" ∧ source_obs "app.go" 71 = "app.go:G".
Proof. done. Qed.

(** ** Metrics *)

(** A time series: the metric's name and its label values. *)
Definition series : Type := string * list string.

(** The registered metrics that have labels, with the names of the labels. *)
Definition declared : list (string * list string) :=
  [ ("http_requests_total", ["method"; "path"; "status"]);
    ("http_request_duration_seconds", ["method"; "path"; "status"]);
    ("http_request_size_bytes", ["method"; "path"]);
    ("http_response_size_bytes", ["method"; "path"]);
    ("db_queries_total", ["operation"; "table"]);
    ("db_query_duration_seconds", ["operation"; "table"]);
    ("cache_hits_total", ["cache"]);
    ("cache_misses_total", ["cache"]) ].
Definition declared_business : list (string * list string) :=
  [ ("users_registered_total", []); ("login_attempts_total", ["status"]) ].

(** Counters, the values each histogram has observed (sizes in bytes, durations in
    nanoseconds), and the gauge of active connections. *)
Record registry := mkRegistry { counters : gmap series Z; observed : gmap series (gmultiset Z); activeConnections : Z }.

Inductive update :=
| UInc (s : series)
| UObserve (s : series) (v : Z)
| UGauge (d : Z).

(** Each update is atomic. *)
Definition apply_update (r : registry) (u : update) : registry :=
  match u with
  | UInc s => mkRegistry (<[s := default 0 (counters r !! s) + 1]> (counters r)) (observed r) (activeConnections r)
  | UObserve s v => mkRegistry (counters r) (<[s := default ∅ (observed r !! s) ⊎ {[+ v +]}]> (observed r)) (activeConnections r)
  | UGauge d => mkRegistry (counters r) (observed r) (activeConnections r + d)
  end.
Definition apply_updates (r : registry) (us : list update) : registry := fold_left apply_update us r.

(** How the rest of the chain ends: with the response's status and size, the matched
    route's path, the time taken and the error returned, or in a panic. *)
Inductive finish :=
| Finished (status : Z) (route : string) (respSize duration : Z) (err : option error)
| Panicked.

(** The updates of one request, in order, and what it returns ([None]: the panic goes on). *)
Definition PrometheusMiddleware (method cpath : string) (reqSize : Z) (f : finish) : list update * option (option error) :=
  match f with
  | Finished st route respSize duration err =>
      let status := pretty st in
      let path := if String.eqb route "" then cpath else route in
      ([UGauge 1; UInc ("http_requests_total", [method; path; status]);
        UObserve ("http_request_duration_seconds", [method; path; status]) duration;
        UObserve ("http_request_size_bytes", [method; path]) reqSize;
        UObserve ("http_response_size_bytes", [method; path]) respSize; UGauge (-1)], Some err)
  | Panicked => ([UGauge 1; UGauge (-1)], None)
  end.

Definition RecordDBQuery (operation table : string) (duration : Z) : list update :=
  [UInc ("db_queries_total", [operation; table]); UObserve ("db_query_duration_seconds", [operation; table]) duration].
Definition RecordCacheHit (cache : string) : list update := [UInc ("cache_hits_total", [cache])].
Definition RecordCacheMiss (cache : string) : list update := [UInc ("cache_misses_total", [cache])].
Definition RecordUserRegistration : list update := [UInc ("users_registered_total", [])].
Definition RecordLoginAttempt (success : bool) : list update :=
  [UInc ("login_attempts_total", [if success then "success" else "failed"])].

(** *** The updates of concurrent requests commute *)

Lemma apply_update_comm r u v : apply_update (apply_update r u) v = apply_update (apply_update r v) u.
Proof.
  destruct u as [s|s a|d], v as [s'|s' b|d']; simpl; f_equal; try done; try lia.
  - destruct (decide (s = s')) as [->|Hne]; [by rewrite !lookup_insert_eq|].
    rewrite !lookup_insert_ne by done. by apply insert_insert_ne.
  - destruct (decide (s = s')) as [->|Hne].
    + rewrite !lookup_insert_eq, !insert_insert_eq. simpl. f_equal. multiset_solver.
    + rewrite !lookup_insert_ne by done. by apply insert_insert_ne.
Qed.

Lemma apply_updates_perm us vs r : us ≡ₚ vs → apply_updates r us = apply_updates r vs.
Proof.
  intros Hp. revert r. induction Hp as [|u us vs _ IH|u v us|us vs ws _ IH1 _ IH2]; intros r; simpl.
  - done.
  - apply IH.
  - by rewrite apply_update_comm.
  - by rewrite IH1.
Qed.

Definition gauge_of (us : list update) : Z := foldr (λ u n, match u with UGauge d => d + n | _ => n end) 0 us.
Definition incs (s : series) (us : list update) : Z :=
  foldr (λ u n, match u with UInc s' => (if decide (s' = s) then 1 else 0) + n | _ => n end) 0 us.

Lemma gauge_of_app us vs : gauge_of (us ++ vs) = gauge_of us + gauge_of vs.
Proof. unfold gauge_of. induction us as [|[] us IH]; simpl in *; lia. Qed.
Lemma incs_app s us vs : incs s (us ++ vs) = incs s us + incs s vs.
Proof. unfold incs. induction us as [|[] us IH]; simpl in *; lia. Qed.

Lemma apply_updates_gauge us r : activeConnections (apply_updates r us) = activeConnections r + gauge_of us.
Proof. revert r. induction us as [|[] us IH]; intros r; simpl; rewrite ?IH; simpl; lia. Qed.

Lemma apply_updates_counter s us r :
  default 0 (counters (apply_updates r us) !! s) = default 0 (counters r !! s) + incs s us.
Proof.
  revert r. induction us as [|[s'| |] us IH]; intros r; simpl; rewrite ?IH; simpl; try lia.
  destruct (decide (s' = s)) as [->|Hne]; [rewrite lookup_insert_eq; simpl; lia|by rewrite lookup_insert_ne].
Qed.

(** A request and how many of its updates have been made. *)
Record progress := mkProgress { pg_method : string; pg_path : string; pg_size : Z; pg_finish : finish; pg_done : nat }.
Definition pg_updates (p : progress) : list update := (PrometheusMiddleware (pg_method p) (pg_path p) (pg_size p) (pg_finish p)).1.
Definition made_updates (p : progress) : list update := take (pg_done p) (pg_updates p).
Definition in_flight (p : progress) : bool := (0 <? pg_done p)%nat && (pg_done p <? length (pg_updates p))%nat.
Definition over (p : progress) : bool := (length (pg_updates p) <=? pg_done p)%nat.

(** The series a finished request is counted under. *)
Definition counted_under (p : progress) : option series :=
  match pg_finish p with
  | Finished st route _ _ _ =>
      Some ("http_requests_total", [pg_method p; if String.eqb route "" then pg_path p else route; pretty st])
  | Panicked => None
  end.

Lemma made_gauge p : gauge_of (made_updates p) = if in_flight p then 1 else 0.
Proof.
  unfold made_updates, in_flight, pg_updates. destruct p as [m c n f k]. simpl.
  destruct f; simpl; do 7 (destruct k as [|k]; [done|]); simpl; by rewrite ?take_nil.
Qed.

Lemma made_incs p s : over p = true → incs s (made_updates p) = if decide (counted_under p = Some s) then 1 else 0.
Proof.
  unfold over, made_updates. intros Ho%Nat.leb_le. rewrite take_ge by done. unfold counted_under, pg_updates.
  destruct p as [m c n f k]. simpl. destruct f as [st route rs d e|]; simpl; [|done].
  repeat case_decide; simplify_eq; done.
Qed.

Lemma gauge_concat ps : gauge_of (concat (map made_updates ps)) = Z.of_nat (length (List.filter in_flight ps)).
Proof.
  induction ps as [|p ps IH]; simpl; [done|]. rewrite gauge_of_app, made_gauge, IH. destruct (in_flight p); simpl length; lia.
Qed.

Lemma incs_concat s ps :
  forallb over ps = true →
  incs s (concat (map made_updates ps)) = Z.of_nat (length (filter (λ p, counted_under p = Some s) ps)).
Proof.
  induction ps as [|p ps IH]; simpl; [done|]. intros [Hp Hps]%andb_true_iff.
  rewrite incs_app, made_incs, IH by done. rewrite filter_cons. repeat case_decide; simpl length; try lia; done.
Qed.

(** However the updates of concurrent requests interleave, the gauge shows exactly the
    requests in flight, panicking ones included, and once all are over every series of
    http_requests_total has grown by the number of finished requests with its labels. *)
Theorem metrics_exact (r : registry) (ps : list progress) (us : list update) :
  us ≡ₚ concat (map made_updates ps) →
  activeConnections (apply_updates r us) = activeConnections r + Z.of_nat (length (List.filter in_flight ps)) ∧
  (forallb over ps = true → ∀ s,
     default 0 (counters (apply_updates r us) !! s) =
     default 0 (counters r !! s) + Z.of_nat (length (filter (λ p, counted_under p = Some s) ps))).
Proof.
  intros Hp. rewrite (apply_updates_perm _ _ r Hp). split.
  - by rewrite apply_updates_gauge, gauge_concat.
  - intros Ho s. by rewrite apply_updates_counter, incs_concat.
Qed.

(** No update names an unregistered metric or has the wrong number of label values, for
    which the client library panics. *)
Definition well_labelled (u : update) : bool :=
  match u with
  | UInc (n, vs) | UObserve (n, vs) _ =>
      existsb (λ d, String.eqb d.1 n && (length d.2 =? length vs)%nat) (declared ++ declared_business)
  | UGauge _ => true
  end.

Theorem updates_well_labelled (method cpath operation table cache : string) (reqSize d : Z) (f : finish) (b : bool) :
  forallb well_labelled
    ((PrometheusMiddleware method cpath reqSize f).1 ++ RecordDBQuery operation table d ++ RecordCacheHit cache ++
     RecordCacheMiss cache ++ RecordUserRegistration ++ RecordLoginAttempt b) = true.
Proof. by destruct f. Qed.

(** ** Tracing *)

Inductive span_kind := KindInternal | KindServer | KindClient.

Record Span := mkSpan {
  sp_name : string; sp_kind : span_kind; sp_attrs : list (string * string); sp_errors : list string; sp_ended : bool
}.
Definition end_span (s : Span) : Span := mkSpan (sp_name s) (sp_kind s) (sp_attrs s) (sp_errors s) true.

Definition StartSpan (name : string) (kind : span_kind) (attrs : list (string * string)) : Span := mkSpan name kind attrs [] false.
Definition AddSpanAttributes (attrs : list (string * string)) (s : Span) : Span :=
  mkSpan (sp_name s) (sp_kind s) (sp_attrs s ++ attrs) (sp_errors s) (sp_ended s).
Definition RecordSpanError (err : error) (s : Span) : Span :=
  mkSpan (sp_name s) (sp_kind s) (sp_attrs s) (sp_errors s ++ [AppErr.ErrorText err]) (sp_ended s).

Definition WrapDBOperation (operation table : string) : Span :=
  StartSpan ("db." +:+ operation) KindClient [("db.operation", operation); ("db.table", table); ("db.system", "postgresql")].
Definition WrapCacheOperation (operation key : string) : Span :=
  StartSpan ("cache." +:+ operation) KindClient [("cache.operation", operation); ("cache.key", key); ("cache.system", "redis")].

Record TracerConfig := mkTracerConfig {
  tc_ServiceName : string; tc_ServiceVersion : string; tc_Environment : string; tc_Endpoint : string; tc_Enabled : bool
}.
Inductive shutdown_func := NoOpShutdown | ProviderShutdown (endpoint : string).

(** The global tracer afterwards, by the name it was obtained under (a disabled tracer comes
    from the default provider), and the result; [exporter] and [merge] are the errors of the
    exporter's constructor and of merging the resources. *)
Definition InitTracer (exporter merge : option error) (cfg : TracerConfig) (tracer : option string)
    : option string * result error shutdown_func :=
  if negb (tc_Enabled cfg) then (Some (tc_ServiceName cfg), Ok NoOpShutdown)
  else match exporter with
       | Some err => (tracer, Err (FmtError "failed to create OTLP exporter: " err ""))
       | None =>
           match merge with
           | Some err => (tracer, Err (FmtError "failed to create resource: " err ""))
           | None => (Some (tc_ServiceName cfg), Ok (ProviderShutdown (tc_Endpoint cfg)))
           end
       end.

Definition GetTracer (tracer : option string) : string := default "goscratch" tracer.

(** The span of a request once the handler is left, and the X-Trace-ID header; [route] is
    the path of the current route when the middleware runs. *)
Definition TracingMiddleware (traceID method route url userAgent host : string) (f : finish) : Span * (string * string) :=
  let span := StartSpan (method +:+ " " +:+ route) KindServer
                [("http.method", method); ("http.route", route); ("http.url", url);
                 ("http.user_agent", userAgent); ("net.host.name", host)] in
  let span := match f with
              | Finished st _ _ _ err =>
                  let span := AddSpanAttributes [("http.status_code", pretty st)] span in
                  match err with Some e => RecordSpanError e span | None => span end
              | Panicked => span
              end in
  (end_span span, ("X-Trace-ID", traceID)).

(** Metrics and traces read the status before the central error handler has answered: an
    error returned up the chain is counted under the initial status 200. *)
Example error_counted_as_200 err :
  let f := Finished 200 "" 0 5 (Some err) in
  UInc ("http_requests_total", ["GET"; "/nowhere"; "200"]) ∈ (PrometheusMiddleware "GET" "/nowhere" 0 f).1 ∧
  ("http.status_code", "200") ∈ sp_attrs (TracingMiddleware "t" "GET" "/" "/nowhere" "" "" f).1.
Proof. set_solver. Qed.

End Observability.
