(* ===== verification/Config.v ===== *)
(** * Configuration

    Models [internal/platform/config/config.go]: derived settings, the recursive
    environment override (the reflection walk over the configuration struct, on an
    explicit tree of fields) and the startup validation. *)
From S2P Require Import Prelude GoStr AppErr.
Import GoStr.

Module Config.

(** ** Typed sections and derived values *)

Record DatabaseConfig := mkDatabaseConfig {
  db_Host : string; db_Port : Z; db_User : string; db_Password : string;
  db_Name : string; db_SSLMode : string
}.

Definition DSN (c : DatabaseConfig) : string :=
  "postgres://" +:+ db_User c +:+ ":" +:+ db_Password c +:+ "@" +:+ db_Host c +:+ ":" +:+
  pretty (db_Port c) +:+ "/" +:+ db_Name c +:+ "?sslmode=" +:+ db_SSLMode c.

Record JWTConfig := mkJWTConfig {
  Secret : string;
  AccessTokenTTL : Z;
  RefreshTokenTTL : Z;
  Issuer : string;
  Audience : string
}.

Definition Second : Z := 1000000000.
Definition Minute : Z := 60 * Second.

(** [time.Duration(c.AccessTokenTTL) * time.Minute], an int64 product *)
Definition AccessTokenDuration (c : JWTConfig) : Z := wrap64 (AccessTokenTTL c * Minute).
Definition RefreshTokenDuration (c : JWTConfig) : Z := wrap64 (RefreshTokenTTL c * Minute).

Record RedisConfig := mkRedisConfig { redis_Host : string; redis_Port : Z }.
Definition Addr (c : RedisConfig) : string := redis_Host c +:+ ":" +:+ pretty (redis_Port c).

(** [HealthConfig.ReadinessTimeout] on [ReadinessTimeoutSec] *)
Definition ReadinessTimeout (sec : Z) : Z :=
  if sec <=? 0 then 2 * Second else wrap64 (sec * Second).

Record AppConfig := mkAppConfig { app_Name : string; app_Env : string }.
Definition IsDevelopment (c : AppConfig) : bool := String.eqb (app_Env c) "development".
Definition IsProduction (c : AppConfig) : bool := String.eqb (app_Env c) "production".

(** ** Startup validation *)

Definition PlaceholderJWTSecret := "your-super-secret-key-change-in-production".
Definition MinJWTSecretLen : Z := 32.

Definition Validate (c : JWTConfig) : option error :=
  let len := Z.of_nat (String.length (Secret c)) in
  if String.eqb (Secret c) "" then
    Some (PlainError ("jwt.secret is required: set the JWT_SECRET env override to a value of at least "
                      +:+ pretty MinJWTSecretLen +:+ " bytes"))
  else if String.eqb (Secret c) PlaceholderJWTSecret then
    Some (PlainError ("jwt.secret is the committed placeholder " +:+ quote PlaceholderJWTSecret
                      +:+ ": set the JWT_SECRET env override to a real value of at least "
                      +:+ pretty MinJWTSecretLen +:+ " bytes"))
  else if len <? MinJWTSecretLen then
    Some (PlainError ("jwt.secret is " +:+ pretty len +:+ " bytes; minimum is " +:+ pretty MinJWTSecretLen
                      +:+ ": set the JWT_SECRET env override to a longer value"))
  else if String.eqb (Issuer c) "" then
    Some (PlainError ("jwt.issuer is required: set JWT_ISSUER to the service identifier (e.g. "
                      +:+ quote "goscratch" +:+ ")"))
  else if String.eqb (Audience c) "" then
    Some (PlainError ("jwt.audience is required: set JWT_AUDIENCE to the expected audience (e.g. "
                      +:+ quote "goscratch-api" +:+ ")"))
  else None.

(** ** [strconv.ParseInt(s, 10, 64)] *)

Definition digit_val (c : ascii) : option Z :=
  let n := Z.of_nat (nat_of_ascii c) in
  if (48 <=? n) && (n <=? 57) then Some (n - 48) else None.

Fixpoint parse_digits (s : string) (acc : Z) : option Z :=
  match s with
  | EmptyString => Some acc
  | String c s' =>
      match digit_val c with Some d => parse_digits s' (acc * 10 + d) | None => None end
  end.

Definition parse_nat_text (s : string) : option Z :=
  match s with EmptyString => None | _ => parse_digits s 0 end.

Definition ParseInt (s : string) : option Z :=
  match s with
  | EmptyString => None
  | String c s' =>
      let '(neg, body) :=
        if Ascii.eqb c "-" then (true, s') else if Ascii.eqb c "+" then (false, s') else (false, s) in
      match parse_nat_text body with
      | Some n =>
          let v := if neg : bool then - n else n in
          if (min_int64 <=? v) && (v <=? max_int64) then Some v else None
      | None => None
      end
  end.

(** ** Environment overrides *)

(** A struct as [reflect] presents it: fields, named by their [json] tag, with their [env] tag. *)
Inductive value :=
| VString (s : string)
| VInt (z : Z)
| VBool (b : bool)
| VStrings (l : list string)
| VStruct (fields : list field)
with field := mkField (name env : string) (val : value).

Definition split_list (s : string) : list string :=
  filter (λ x, x ≠ "") (TrimSpace <$> Split "," s).

(** The switch on the kind of a leaf. *)
Definition set_leaf (v : value) (envValue : string) : value :=
  match v with
  | VString _ => VString envValue
  | VInt z => match ParseInt envValue with Some i => VInt i | None => VInt z end
  | VBool _ => VBool (String.eqb (ToLower envValue) "true" || String.eqb envValue "1")
  | VStrings _ => VStrings (split_list envValue)
  | VStruct fs => VStruct fs
  end.

Section env.
Variable getenv : string → string.   (* os.Getenv: "" when unset *)

Fixpoint override_value (v : value) (env : string) : value :=
  match v with
  | VStruct fs =>
      VStruct ((fix go (fs : list field) : list field :=
                  match fs with
                  | [] => []
                  | mkField n e w :: fs' => mkField n e (override_value w e) :: go fs'
                  end) fs)
  | _ => if String.eqb env "" then v
         else if String.eqb (getenv env) "" then v
         else set_leaf v (getenv env)
  end.

Fixpoint applyEnvOverrides (fs : list field) : list field :=
  match fs with
  | [] => []
  | mkField n e w :: fs' => mkField n e (override_value w e) :: applyEnvOverrides fs'
  end.

End env.

(** *** Reading a leaf by its path of field names *)

Fixpoint lookup_field (n : string) (fs : list field) : option (string * value) :=
  match fs with
  | [] => None
  | mkField m e v :: fs' => if String.eqb m n then Some (e, v) else lookup_field n fs'
  end.

Fixpoint leaf (path : list string) (fs : list field) : option (string * value) :=
  match path with
  | [] => None
  | [n] => match lookup_field n fs with
           | Some (_, VStruct _) | None => None
           | Some l => Some l
           end
  | n :: path' => match lookup_field n fs with Some (_, VStruct gs) => leaf path' gs | _ => None end
  end.

Lemma override_struct getenv fs e :
  override_value getenv (VStruct fs) e = VStruct (applyEnvOverrides getenv fs).
Proof. simpl. by f_equal. Qed.

Lemma lookup_override getenv n fs :
  lookup_field n (applyEnvOverrides getenv fs) =
  (λ ev, (ev.1, override_value getenv ev.2 ev.1)) <$> lookup_field n fs.
Proof.
  induction fs as [|[m e v] fs IH]; simpl; [done|]. by destruct (String.eqb m n).
Qed.

Lemma leaf_override getenv path fs :
  leaf path (applyEnvOverrides getenv fs) =
  (λ ev, (ev.1, override_value getenv ev.2 ev.1)) <$> leaf path fs.
Proof.
  revert fs. induction path as [|n path IH]; intros fs; [done|].
  destruct path as [|m path].
  - simpl. rewrite lookup_override. destruct (lookup_field n fs) as [[e v]|]; simpl; [|done].
    destruct v as [s|z|b|l|gs]; [..|by rewrite override_struct]; simpl;
      repeat case_match; simplify_eq/=; done.
  - cbn [leaf]. rewrite lookup_override. destruct (lookup_field n fs) as [[e v]|]; simpl; [|done].
    destruct v as [s|z|b|l|gs]; [..|exact (IH gs)]; simpl;
      repeat case_match; simplify_eq/=; done.
Qed.

(** Every leaf, however deep, keeps its place and tag; it takes the environment value
    exactly when its tag is non-empty and the variable is set to a non-empty string. *)
Lemma leaf_env (getenv : string → string) (path : list string) (fs : list field) (env : string) (v : value) :
  leaf path fs = Some (env, v) →
  leaf path (applyEnvOverrides getenv fs) =
  Some (env, if String.eqb env "" || String.eqb (getenv env) "" then v else set_leaf v (getenv env)).
Proof.
  intros Hl. rewrite leaf_override, Hl. simpl. do 2 f_equal.
  destruct v as [s|z|b|l|gs]; simpl; try (by destruct (String.eqb env ""), (String.eqb (getenv env) "")).
  exfalso. clear getenv. revert fs Hl. induction path as [|n path IH]; intros fs Hl; [done|].
  destruct path as [|m path]; cbn [leaf] in Hl.
  - by repeat case_match; simplify_eq.
  - destruct (lookup_field n fs) as [[e [| | | |hs]]|]; try done. by eapply IH.
Qed.

End Config.
