(* ===== verification/ConfigLoad.v ===== *)
(** * Loading the configuration

    Models [Load] of [internal/platform/config/config.go] with the schema of the [Config]
    struct: every field with its JSON name and its environment variable.  The file is
    decoded into the zero configuration as [encoding/json] decodes into a struct tree, then
    the environment overrides apply; [typed] reads the sections the program uses. *)
From S2P Require Import Prelude GoStr Json JsonDecode AppErr Config.
Import GoStr Json JsonDecode Config.

Module ConfigLoad.

(** ** The schema: the zero [Config], fields named by their [json] tag *)

Definition leaf_string (n e : string) : field := mkField n e (VString "").
Definition leaf_int (n e : string) : field := mkField n e (VInt 0).
Definition leaf_bool (n e : string) : field := mkField n e (VBool false).
Definition section (n : string) (fs : list field) : field := mkField n "" (VStruct fs).

Definition AppConfig_fields := [leaf_string "name" "APP_NAME"; leaf_string "env" "APP_ENV"].
Definition ServerConfig_fields :=
  [leaf_string "host" "SERVER_HOST"; leaf_int "port" "SERVER_PORT"; leaf_int "read_timeout" "SERVER_READ_TIMEOUT";
   leaf_int "write_timeout" "SERVER_WRITE_TIMEOUT"; leaf_int "idle_timeout" "SERVER_IDLE_TIMEOUT";
   mkField "trusted_proxies" "SERVER_TRUSTED_PROXIES" (VStrings []); leaf_string "proxy_header" "SERVER_PROXY_HEADER"].
Definition DatabaseConfig_fields :=
  [leaf_string "host" "DB_HOST"; leaf_int "port" "DB_PORT"; leaf_string "user" "DB_USER";
   leaf_string "password" "DB_PASSWORD"; leaf_string "name" "DB_NAME"; leaf_string "ssl_mode" "DB_SSL_MODE";
   leaf_int "max_open_conns" "DB_MAX_OPEN_CONNS"; leaf_int "max_idle_conns" "DB_MAX_IDLE_CONNS";
   leaf_int "conn_max_lifetime" "DB_CONN_MAX_LIFETIME"].
Definition JWTConfig_fields :=
  [leaf_string "secret" "JWT_SECRET"; leaf_int "access_token_ttl" "JWT_ACCESS_TOKEN_TTL";
   leaf_int "refresh_token_ttl" "JWT_REFRESH_TOKEN_TTL"; leaf_string "issuer" "JWT_ISSUER";
   leaf_string "audience" "JWT_AUDIENCE"].
Definition CORSConfig_fields :=
  [leaf_string "allow_origins" "CORS_ALLOW_ORIGINS"; leaf_string "allow_methods" "CORS_ALLOW_METHODS";
   leaf_string "allow_headers" "CORS_ALLOW_HEADERS"; leaf_bool "allow_credentials" "CORS_ALLOW_CREDENTIALS"].
Definition RedisConfig_fields :=
  [leaf_bool "enabled" "REDIS_ENABLED"; leaf_string "host" "REDIS_HOST"; leaf_int "port" "REDIS_PORT";
   leaf_string "password" "REDIS_PASSWORD"; leaf_int "db" "REDIS_DB"].
Definition RabbitMQConfig_fields :=
  [leaf_bool "enabled" "RABBITMQ_ENABLED"; leaf_string "url" "RABBITMQ_URL";
   leaf_int "prefetch_count" "RABBITMQ_PREFETCH_COUNT"].
Definition StorageConfig_fields :=
  [leaf_string "mode" "STORAGE_MODE";
   section "local" [leaf_string "base_path" "STORAGE_LOCAL_PATH"];
   section "s3" [leaf_string "endpoint" "S3_ENDPOINT"; leaf_string "bucket" "S3_BUCKET"; leaf_string "region" "S3_REGION";
                 leaf_string "access_key" "S3_ACCESS_KEY"; leaf_string "secret_key" "S3_SECRET_KEY"]].
Definition SSEConfig_fields := [leaf_bool "enabled" "SSE_ENABLED"].
Definition AuditConfig_fields := [leaf_bool "enabled" "AUDIT_ENABLED"].
Definition AuthorizationConfig_fields := [leaf_bool "enabled" "AUTHORIZATION_ENABLED"].
Definition WorkerConfig_fields :=
  [leaf_bool "enabled" "WORKER_ENABLED"; leaf_int "concurrency" "WORKER_CONCURRENCY";
   leaf_string "queue_name" "WORKER_QUEUE_NAME"; leaf_string "exchange" "WORKER_EXCHANGE"].
Definition ObservabilityConfig_fields :=
  [section "metrics" [leaf_bool "enabled" "METRICS_ENABLED"; leaf_int "port" "METRICS_PORT"];
   section "tracing" [leaf_bool "enabled" "TRACING_ENABLED"; leaf_string "endpoint" "TRACING_ENDPOINT"]].
Definition EmailConfig_fields :=
  [leaf_bool "enabled" "EMAIL_ENABLED"; leaf_string "host" "EMAIL_HOST"; leaf_int "port" "EMAIL_PORT";
   leaf_string "username" "EMAIL_USERNAME"; leaf_string "password" "EMAIL_PASSWORD"; leaf_string "from" "EMAIL_FROM"].
Definition RateLimitConfig_fields :=
  [leaf_bool "enabled" "RATE_LIMIT_ENABLED"; leaf_int "max" "RATE_LIMIT_MAX"; leaf_int "window_sec" "RATE_LIMIT_WINDOW_SEC"].
Definition HealthConfig_fields := [leaf_int "readiness_timeout_sec" "HEALTH_READINESS_TIMEOUT_SEC"].

Definition Config_fields : list field :=
  [ section "app" AppConfig_fields; section "server" ServerConfig_fields; section "database" DatabaseConfig_fields;
    section "jwt" JWTConfig_fields; section "cors" CORSConfig_fields; section "redis" RedisConfig_fields;
    section "rabbitmq" RabbitMQConfig_fields; section "storage" StorageConfig_fields; section "sse" SSEConfig_fields;
    section "audit" AuditConfig_fields; section "authorization" AuthorizationConfig_fields;
    section "worker" WorkerConfig_fields; section "observability" ObservabilityConfig_fields;
    section "email" EmailConfig_fields; section "rate_limit" RateLimitConfig_fields;
    section "health" HealthConfig_fields ].

(** ** [json.Unmarshal] into the tree *)

(** The member goes to the field it names; an unknown member is skipped. *)
Fixpoint set_field (k : string) (f : value → option value) (fs : list field) : option (list field) :=
  match fs with
  | [] => Some []
  | mkField n e v :: fs' =>
      if field_is n k then (λ w, mkField n e w :: fs') <$> f v else cons (mkField n e v) <$> set_field k f fs'
  end.

(** [None] when some member does not fit its field: the call reports an error. *)
Fixpoint set_value (j : json) (v : value) {struct j} : option value :=
  match j with
  | JNull => Some (match v with VStrings _ => VStrings [] | _ => v end)
  | JStr s => match v with VString _ => Some (VString s) | _ => None end
  | JNum l => match v with VInt _ => VInt <$> int_literal l | _ => None end
  | JBool b => match v with VBool _ => Some (VBool b) | _ => None end
  | JArr l => match v with VStrings old => VStrings <$> string_elems old l | _ => None end
  | JObj ms =>
      match v with
      | VStruct fs =>
          VStruct <$> (fix go (ms : list (string * json)) (fs : list field) : option (list field) :=
             match ms with
             | [] => Some fs
             | (k, j') :: ms' => match set_field k (set_value j') fs with Some fs' => go ms' fs' | None => None end
             end) ms fs
      | _ => None
      end
  end.

Fixpoint set_members (ms : list (string * json)) (fs : list field) : option (list field) :=
  match ms with
  | [] => Some fs
  | (k, j) :: ms' => match set_field k (set_value j) fs with Some fs' => set_members ms' fs' | None => None end
  end.

Lemma set_value_obj ms fs : set_value (JObj ms) (VStruct fs) = VStruct <$> set_members ms fs.
Proof.
  cbn [set_value]. f_equal.
Qed.

(** ** Load *)

(** [ReadFile] is [os.ReadFile]; [getenv] the environment after [godotenv.Load]; [json_err]
    the error of [json.Unmarshal] on a file it rejects. *)
Definition Load (json_err : string → error) (ReadFile : string → result error string) (getenv : string → string) (path : string)
    : result error (list field) :=
  match ReadFile path with
  | Err err => Err (FmtError "failed to read config file: " err "")
  | Ok data =>
      match (match parse data with Some v => set_value v (VStruct Config_fields) | None => None end) with
      | Some (VStruct fs) => Ok (applyEnvOverrides getenv fs)
      | _ => Err (FmtError "failed to parse config file: " (json_err data) "")
      end
  end.

(** ** Typed sections *)

Definition get_string (path : list string) (fs : list field) : string :=
  match leaf path fs with Some (_, VString s) => s | _ => "" end.
Definition get_int (path : list string) (fs : list field) : Z :=
  match leaf path fs with Some (_, VInt z) => z | _ => 0 end.
Definition get_bool (path : list string) (fs : list field) : bool :=
  match leaf path fs with Some (_, VBool b) => b | _ => false end.
Definition get_strings (path : list string) (fs : list field) : list string :=
  match leaf path fs with Some (_, VStrings l) => l | _ => [] end.

Definition get_jwt (fs : list field) : JWTConfig :=
  mkJWTConfig (get_string ["jwt"; "secret"] fs) (get_int ["jwt"; "access_token_ttl"] fs)
    (get_int ["jwt"; "refresh_token_ttl"] fs) (get_string ["jwt"; "issuer"] fs) (get_string ["jwt"; "audience"] fs).
Definition get_database (fs : list field) : DatabaseConfig :=
  mkDatabaseConfig (get_string ["database"; "host"] fs) (get_int ["database"; "port"] fs)
    (get_string ["database"; "user"] fs) (get_string ["database"; "password"] fs)
    (get_string ["database"; "name"] fs) (get_string ["database"; "ssl_mode"] fs).
Definition get_app (fs : list field) : AppConfig :=
  mkAppConfig (get_string ["app"; "name"] fs) (get_string ["app"; "env"] fs).

(** ** The shape of a configuration *)

Fixpoint same_shape (a b : value) : bool :=
  match a, b with
  | VString _, VString _ | VInt _, VInt _ | VBool _, VBool _ | VStrings _, VStrings _ => true
  | VStruct fs, VStruct gs =>
      (fix go (fs gs : list field) : bool :=
         match fs, gs with
         | [], [] => true
         | mkField n e x :: fs', mkField m e' y :: gs' =>
             String.eqb n m && String.eqb e e' && same_shape x y && go fs' gs'
         | _, _ => false
         end) fs gs
  | _, _ => false
  end.

Definition fname (f : field) : string := match f with mkField n _ _ => n end.

(** Within a struct, no name is taken for another one. *)
Fixpoint distinct_names (v : value) : bool :=
  match v with
  | VStruct fs =>
      (fix go (fs : list field) : bool :=
         match fs with
         | [] => true
         | mkField n e x :: fs' =>
             forallb (λ g, negb (field_is n (fname g))) fs' && distinct_names x && go fs'
         end) fs
  | _ => true
  end.

(** The file that gives every field its value. *)
Fixpoint to_json (v : value) : json :=
  match v with
  | VString s => JStr s
  | VInt z => JNum (pretty z)
  | VBool b => JBool b
  | VStrings l => JArr (map JStr l)
  | VStruct fs =>
      JObj ((fix go (fs : list field) : list (string * json) :=
               match fs with [] => [] | mkField n _ x :: fs' => (n, to_json x) :: go fs' end) fs)
  end.

Fixpoint ints_in_range (v : value) : bool :=
  match v with
  | VInt z => (min_int64 <=? z) && (z <=? max_int64)
  | VStruct fs =>
      (fix go (fs : list field) : bool :=
         match fs with [] => true | mkField _ _ x :: fs' => ints_in_range x && go fs' end) fs
  | _ => true
  end.

Section induction.
Variable P : value → Prop.
Hypotheses (Hs : ∀ s, P (VString s)) (Hi : ∀ z, P (VInt z)) (Hb : ∀ b, P (VBool b)) (Hl : ∀ l, P (VStrings l)).
Hypothesis Hstruct : ∀ fs, Forall (λ f, match f with mkField _ _ v => P v end) fs → P (VStruct fs).

Fixpoint value_ind' (v : value) : P v :=
  match v with
  | VString s => Hs s
  | VInt z => Hi z
  | VBool b => Hb b
  | VStrings l => Hl l
  | VStruct fs => Hstruct fs
      ((fix go (fs : list field) : Forall (λ f, match f with mkField _ _ v => P v end) fs :=
          match fs with
          | [] => Forall_nil_2 _
          | mkField n e v :: fs' => Forall_cons_2 _ (mkField n e v) fs' (value_ind' v) (go fs')
          end) fs)
  end.
End induction.

(** A member reaches its own field past the fields already set. *)
Lemma set_field_past k f pre n e v fs :
  forallb (λ g, negb (field_is (fname g) k)) pre = true → field_is n k = true →
  set_field k f (pre ++ mkField n e v :: fs) = (λ w, pre ++ mkField n e w :: fs) <$> f v.
Proof.
  intros Hd Hk. induction pre as [|[m e' x] pre IH]; simpl in *; [by rewrite Hk|].
  apply andb_true_iff in Hd as [Hm%negb_true_iff Hd]. rewrite Hm, IH by done. by destruct (f v).
Qed.

Lemma field_is_refl n : field_is n n = true.
Proof. apply String.eqb_refl. Qed.

(** Decoding the file of a configuration into anything of its shape gives the
    configuration. *)
Lemma set_value_to_json v v0 :
  same_shape v0 v = true → distinct_names v0 = true → ints_in_range v = true → set_value (to_json v) v0 = Some v.
Proof.
  revert v0. induction v as [s|z|b|l|gs IH] using value_ind'; intros v0 Hsh Hd Hr; destruct v0 as [| | | |fs]; try done.
  - simpl in *. rewrite int_literal_pretty; [done|]. unfold in_int64. to_prop. lia.
  - simpl. by rewrite string_elems_map.
  - cbn [to_json]. rewrite set_value_obj. enough (Hgo : ∀ pre,
      forallb (λ g, forallb (λ h, negb (field_is (fname g) (fname h))) fs) pre = true →
      set_members ((fix go (fs : list field) := match fs with [] => [] | mkField n _ x :: fs' => (n, to_json x) :: go fs' end) gs)
        (pre ++ fs) = Some (pre ++ gs)).
    { specialize (Hgo [] eq_refl). simpl in Hgo. by rewrite Hgo. }
    revert fs Hsh Hd Hr. induction IH as [|[n e y] gs Hy Hgs IHgs]; intros [|[m e' x] fs] Hsh Hd Hr pre Hdone;
      simpl in Hsh; try discriminate; [reflexivity|].
    apply andb_true_iff in Hsh as [[[Hn He]%andb_true_iff Hxy]%andb_true_iff Hsh].
    apply String.eqb_eq in Hn as ->. apply String.eqb_eq in He as ->.
    simpl in Hd, Hr. apply andb_true_iff in Hd as [[Hm Hdx]%andb_true_iff Hd]. apply andb_true_iff in Hr as [Hry Hr].
    cbn [set_members]. rewrite set_field_past; [|  |apply field_is_refl].
    + rewrite (Hy x Hxy Hdx Hry). simpl. rewrite (cons_middle (mkField n e y)), app_assoc.
      rewrite (IHgs fs Hsh Hd Hr); [by rewrite <-app_assoc|].
      rewrite forallb_app. simpl. rewrite Hm. rewrite !andb_true_r.
      apply forallb_forall. intros g Hg. rewrite forallb_forall in Hdone. specialize (Hdone g Hg).
      simpl in Hdone. by apply andb_true_iff in Hdone as [_ ?].
    + apply forallb_forall. intros g Hg. rewrite forallb_forall in Hdone. specialize (Hdone g Hg).
      simpl in Hdone. by apply andb_true_iff in Hdone as [? _].
Qed.

Lemma schema_distinct : distinct_names (VStruct Config_fields) = true.
Proof. vm_compute. reflexivity. Qed.

(** C31: loading is exact and the environment wins.  For every configuration of the
    schema's shape, the file that spells it out (every section and field under its JSON
    name) loads to that configuration with the environment applied on top: a set variable
    replaces the leaf its tag names, whatever the file says, and every other leaf is the
    file's.  No field's member is mistaken for another's. *)
Theorem load_exact (json_err : string → error) (ReadFile : string → result error string)
    (getenv : string → string) (path : string) (cfg : list field) :
  same_shape (VStruct Config_fields) (VStruct cfg) = true → ints_in_range (VStruct cfg) = true →
  wf 0 (to_json (VStruct cfg)) = true →
  ReadFile path = Ok (encode (to_json (VStruct cfg))) →
  Load json_err ReadFile getenv path = Ok (applyEnvOverrides getenv cfg) ∧
  ∀ p env v, leaf p cfg = Some (env, v) →
    leaf p (applyEnvOverrides getenv cfg) =
      Some (env, if String.eqb env "" || String.eqb (getenv env) "" then v else set_leaf v (getenv env)).
Proof.
  intros Hsh Hr Hw Hf. split.
  - unfold Load. rewrite Hf, json_roundtrip by done.
    by rewrite (set_value_to_json (VStruct cfg) (VStruct Config_fields) Hsh schema_distinct Hr).
  - intros p env v Hp. by apply leaf_env.
Qed.

(** ** A concrete load *)

Definition file_values (k : string) : string :=
  if String.eqb k "APP_ENV" then "production" else if String.eqb k "SERVER_PORT" then "3000"
  else if String.eqb k "STORAGE_LOCAL_PATH" then "./data" else if String.eqb k "REDIS_ENABLED" then "true"
  else if String.eqb k "SERVER_TRUSTED_PROXIES" then "10.0.0.1, ,::1" else "".
Definition sample_file : list field := applyEnvOverrides file_values Config_fields.
Definition sample_env (k : string) : string :=
  if String.eqb k "SERVER_PORT" then "80x" else if String.eqb k "S3_BUCKET" then "b" else
  if String.eqb k "REDIS_ENABLED" then "0" else "".

Lemma load_exact_witness :
  ∃ fs, Load (λ _, PlainError "bad") (λ _, Ok (encode (to_json (VStruct sample_file)))) sample_env "config.json" = Ok fs ∧
    get_int ["server"; "port"] fs = 3000 ∧ get_bool ["redis"; "enabled"] fs = false ∧
    get_string ["storage"; "s3"; "bucket"] fs = "b" ∧ get_string ["app"; "env"] fs = "production".
Proof.
  destruct (load_exact (λ _, PlainError "bad") (λ _, Ok (encode (to_json (VStruct sample_file)))) sample_env
    "config.json" sample_file) as [Hl He]; [vm_compute; reflexivity..|].
  exists (applyEnvOverrides sample_env sample_file). split; [exact Hl|].
  unfold get_int, get_bool, get_string.
  rewrite (He ["server"; "port"] "SERVER_PORT" (VInt 3000)) by (vm_compute; reflexivity).
  rewrite (He ["redis"; "enabled"] "REDIS_ENABLED" (VBool true)) by (vm_compute; reflexivity).
  rewrite (He ["storage"; "s3"; "bucket"] "S3_BUCKET" (VString "")) by (vm_compute; reflexivity).
  rewrite (He ["app"; "env"] "APP_ENV" (VString "production")) by (vm_compute; reflexivity).
  vm_compute. auto.
Defined.

End ConfigLoad.
