(* ===== verification/Port.v ===== *)
(** * Ports

    The Go interfaces of [internal/port], as type classes over an explicit state:
    a method of an adapter takes the adapter's state and returns the new one with
    its results.  Adapters are instances; use cases are proved against the class. *)
From S2P Require Import Prelude AppErr.

(** ** [context.Context]: cancellation and the values the program stores in it *)

Record Context := mkContext {
  ctx_err : option error;         (* ctx.Err(): Some once the context is done *)
  ctx_user_id : option string;    (* logger.UserIDKey *)
  ctx_ip : option string;         (* logger.IPAddressKey *)
  ctx_user_agent : option string; (* logger.UserAgentKey *)
  ctx_request_id : option string  (* logger.RequestIDKey *)
}.

Definition Background : Context := mkContext None None None None None.

(** ** [port.Authorizer] *)

Definition RoleSuperAdmin := "superadmin".
Definition RoleAdmin := "admin".
Definition RoleEditor := "editor".
Definition RoleViewer := "viewer".

Class Authorizer (S : Type) := {
  Enforce : S → string → string → string → S * result error bool;
  EnforceWithContext : Context → S → string → string → string → S * result error bool;
  AddRoleForUser : S → string → string → S * option error;
  RemoveRoleForUser : S → string → string → S * option error;
  GetRolesForUser : S → string → result error (list string);
  GetUsersForRole : S → string → result error (list string);
  HasRoleForUser : S → string → string → result error bool;
  AddPermissionForRole : S → string → string → string → S * option error;
  RemovePermissionForRole : S → string → string → string → S * option error;
  GetPermissionsForRole : S → string → result error (list (list string));
  AddPermissionForUser : S → string → string → string → S * option error;
  RemovePermissionForUser : S → string → string → string → S * option error;
  GetPermissionsForUser : S → string → result error (list (list string));
  GetImplicitPermissionsForUser : S → string → result error (list (list string));
  LoadPolicy : S → S * option error;
  SavePolicy : S → option error
}.

(** ** [port.Cache] *)

Class Cache (C : Type) := {
  cache_Get : C → string → result error string;
  cache_Set : C → string → string → Z → C * option error;
  cache_Delete : C → string → C * option error;
  cache_DeleteByPrefix : C → string → C * option error;
  cache_Exists : C → string → result error bool;
  cache_Increment : C → string → C * result error Z;
  cache_Decrement : C → string → C * result error Z;
  cache_Expire : C → string → Z → C * option error;
  (* (allowed, remaining, retryAfterSeconds) *)
  (* now, key, maxReqs, window *)
  cache_SlidingWindowAllow : C → Z → string → Z → Z → C * result error (bool * Z * Z)
}.

(** A prefix without the metacharacters of a Redis glob pattern. *)
Fixpoint plain_prefix (p : string) : bool :=
  match p with
  | EmptyString => true
  | String c p' => negb (existsb (Ascii.eqb c) ["*"; "?"; "["; "]"; "\"]%char) && plain_prefix p'
  end.

(** What no implementation does: invent keys.  [live] is the set of keys a read can
    still return, with their values; a value may disappear at any time (TTL). *)
Class CacheSafety (C : Type) `{Cache C} := {
  live : C → gmap string string;
  Get_sound c k v : cache_Get c k = Ok v → live c !! k = Some v;
  Set_upper c k v ttl : live (cache_Set c k v ttl).1 ⊆ <[k := v]> (live c);
  Delete_upper c k : live (cache_Delete c k).1 ⊆ live c;
  Delete_ok c k : (cache_Delete c k).2 = None → live (cache_Delete c k).1 !! k = None;
  DeleteByPrefix_upper c p : live (cache_DeleteByPrefix c p).1 ⊆ live c;
  DeleteByPrefix_ok c p k :
    plain_prefix p = true → (cache_DeleteByPrefix c p).2 = None → has_prefix p k = true →
    live (cache_DeleteByPrefix c p).1 !! k = None
}.

(** What a working backend adds: writes succeed and are stored, reads see the live keys,
    and deletions remove exactly what they name. *)
Class CacheRetention (C : Type) `{CacheSafety C} := {
  Get_complete c k v : live c !! k = Some v → cache_Get c k = Ok v;
  Set_works c k v ttl :
    (cache_Set c k v ttl).2 = None ∧ live (cache_Set c k v ttl).1 = <[k := v]> (live c);
  Delete_works c k : live (cache_Delete c k).1 = delete k (live c);
  DeleteByPrefix_works c p :
    plain_prefix p = true → (cache_DeleteByPrefix c p).2 = None ∧
    live (cache_DeleteByPrefix c p).1 = filter (λ kv, has_prefix p kv.1 = false) (live c)
}.

(** ** google/uuid *)

(** Third party: a UUID prints as 36 hexadecimal digits and dashes, parses back, and is
    ordered by its bytes. *)
Class Uuid (U : Type) := {
  uuid_eq_dec :: EqDecision U;
  uuid_countable :: Countable U;
  uuid_String : U → string;
  uuid_Parse : string → option U;
  uuid_Nil : U;
  uuid_lt : U → U → Prop;
  uuid_lt_dec a b :: Decision (uuid_lt a b);
  uuid_lt_strict :: StrictOrder uuid_lt;
  uuid_lt_total a b : uuid_lt a b ∨ a = b ∨ uuid_lt b a;
  uuid_parse_string u : uuid_Parse (uuid_String u) = Some u;
  uuid_length u : String.length (uuid_String u) = 36%nat;
  uuid_chars u c : contains_byte c (uuid_String u) = true →
    existsb (Ascii.eqb c) (list_ascii_of_string "0123456789abcdef-") = true
}.

Section uuid_facts.
Context {U : Type} `{Uuid U}.

Lemma uuid_String_inj (a b : U) : uuid_String a = uuid_String b → a = b.
Proof.
  intros Heq. pose proof (uuid_parse_string a) as Ha. rewrite Heq, uuid_parse_string in Ha. congruence.
Qed.

Lemma uuid_no_byte (u : U) c :
  existsb (Ascii.eqb c) (list_ascii_of_string "0123456789abcdef-") = false →
  contains_byte c (uuid_String u) = false.
Proof.
  intros Hc. destruct (contains_byte c (uuid_String u)) eqn:Hu; [|done].
  apply uuid_chars in Hu. congruence.
Qed.

Lemma uuid_nonempty (u : U) : uuid_String u ≠ "".
Proof. intros Heq. pose proof (uuid_length u) as Hl. by rewrite Heq in Hl. Qed.

End uuid_facts.

(** Two UUIDs, for concrete runs. *)
Definition two_uuid_String (b : bool) : string :=
  if b then "00000000-0000-0000-0000-000000000001" else "00000000-0000-0000-0000-000000000000".
Definition two_uuid_Parse (s : string) : option bool :=
  if String.eqb s (two_uuid_String true) then Some true
  else if String.eqb s (two_uuid_String false) then Some false else None.

Definition BoolUuid : Uuid bool.
Proof.
  refine (Build_Uuid bool _ _ two_uuid_String two_uuid_Parse false (λ a b, a = false ∧ b = true) _ _ _ _ _ _).
  - split; [intros [] [? ?]; done | intros [] [] []; naive_solver].
  - intros [] []; naive_solver.
  - by intros [].
  - by intros [].
  - intros [] c; unfold two_uuid_String; cbn [contains_byte]; rewrite ?orb_true_iff, ?Ascii.eqb_eq;
      intros Hc; repeat (destruct Hc as [Hc|Hc]); subst; done.
Defined.

(** ** [port.Auditor] *)

Inductive AuditAction := ActionCreate | ActionRead | ActionUpdate | ActionDelete | ActionLogin | ActionLogout.

(** Values stored in an entry: [any] restricted to what the program puts there. *)
Inductive any :=
| AnyString (s : string)
| AnyInt (z : Z)
| AnyBool (b : bool)
| AnyMap (m : list (string * any)).

Record AuditEntry := mkAuditEntry {
  ae_UserID : string;
  ae_Action : AuditAction;
  ae_Resource : string;
  ae_ResourceID : string;
  ae_OldValue : option any;
  ae_NewValue : option any;
  ae_Metadata : option (list (string * any));
  ae_IPAddress : string;
  ae_UserAgent : string;
  ae_Timestamp : Z
}.

Record AuditContext := mkAuditContext { ac_UserID : string; ac_IPAddress : string; ac_UserAgent : string }.

Definition ExtractAuditContext (ctx : Context) : AuditContext :=
  mkAuditContext (default "" (ctx_user_id ctx)) (default "" (ctx_ip ctx)) (default "" (ctx_user_agent ctx)).

Definition NewAuditEntry (ctx : Context) (now : Z) (action : AuditAction) (resource resourceID : string) : AuditEntry :=
  let ac := ExtractAuditContext ctx in
  mkAuditEntry (ac_UserID ac) action resource resourceID None None None (ac_IPAddress ac) (ac_UserAgent ac) now.

Class Auditor (L : Type) := { auditor_Log : L → AuditEntry → L * option error }.

(** ** The user entity ([internal/module/user/domain]) *)

Record User (U : Type) := mkUser {
  user_ID : U;
  user_Email : string;
  user_PasswordHash : string;
  user_Name : string;
  user_IsActive : bool;
  user_CreatedAt : Z;
  user_UpdatedAt : Z
}.
Arguments mkUser {U}.
Arguments user_ID {U}.
Arguments user_Email {U}.
Arguments user_PasswordHash {U}.
Arguments user_Name {U}.
Arguments user_IsActive {U}.
Arguments user_CreatedAt {U}.
Arguments user_UpdatedAt {U}.
