(* ===== verification/Geo.v ===== *)
(** * Geospatial value objects

    Models [internal/shared/domain/geo]: points, bounding boxes, polygons and distances.
    Coordinates are IEEE 754 binary64 numbers with the operations of the Standard Library's
    executable specification, so NaN, infinities, signed zeros and rounding are part of the
    model.  Exact statements read a finite number as an integral number of units of 2^-1074,
    the smallest positive value. *)
From Stdlib Require Import SpecFloat.
From S2P Require Import Prelude AppErr.

Module Geo.

(** ** float64 *)

Definition float64 := spec_float.
Definition prec64 : Z := 53.
Definition emax64 : Z := 1024.
Definition of_Z (n : Z) : float64 := binary_normalize prec64 emax64 n 0 false.
Definition f_lt (x y : float64) : bool := SFltb x y.
Definition f_gt (x y : float64) : bool := SFltb y x.
Definition f_le (x y : float64) : bool := SFleb x y.
Definition f_ge (x y : float64) : bool := SFleb y x.
Definition f_ne (x y : float64) : bool := negb (SFeqb x y).
Definition f_add : float64 → float64 → float64 := SFadd prec64 emax64.
Definition f_sub : float64 → float64 → float64 := SFsub prec64 emax64.
Definition f_div : float64 → float64 → float64 := SFdiv prec64 emax64.
Definition valid64 (x : float64) : bool := valid_binary prec64 emax64 x.

(** ** errors.go *)

Definition ErrInvalidLongitude := PlainError "geo: longitude must be in the range [-180, 180]".
Definition ErrInvalidLatitude := PlainError "geo: latitude must be in the range [-90, 90]".
Definition ErrBoundingBoxOrder := PlainError "geo: bounding box min must be <= max on both axes".
Definition ErrAntimeridian :=
  PlainError "geo: antimeridian-crossing bounding boxes are not supported (min.Lon > max.Lon)".
Definition ErrPolygonNotClosed := PlainError "geo: polygon ring is not closed (first point must equal last point)".
Definition ErrPolygonTooFewPoints := PlainError "geo: polygon ring must have at least 4 points".
Definition ErrNegativeDistance := PlainError "geo: distance must be non-negative".

(** ** point.go *)

Record Point := mkPoint { Lon : float64; Lat : float64 }.

Definition NewPoint (lon lat : float64) : result error Point :=
  if f_lt lon (of_Z (-180)) || f_gt lon (of_Z 180) then Err ErrInvalidLongitude
  else if f_lt lat (of_Z (-90)) || f_gt lat (of_Z 90) then Err ErrInvalidLatitude
  else Ok (mkPoint lon lat).

(** [Err] is the message of the panic. *)
Definition MustPoint (lon lat : float64) : result string Point :=
  match NewPoint lon lat with
  | Err err => Err ("geo.MustPoint: " +:+ AppErr.ErrorText err)
  | Ok p => Ok p
  end.

Definition Validate (p : Point) : option error :=
  if f_lt (Lon p) (of_Z (-180)) || f_gt (Lon p) (of_Z 180) then Some ErrInvalidLongitude
  else if f_lt (Lat p) (of_Z (-90)) || f_gt (Lat p) (of_Z 90) then Some ErrInvalidLatitude
  else None.

(** ** bbox.go *)

Record BoundingBox := mkBoundingBox { Min : Point; Max : Point }.

Definition NewBoundingBox (sw ne : Point) : result error BoundingBox :=
  if f_gt (Lon sw) (Lon ne) then Err ErrAntimeridian
  else if f_gt (Lat sw) (Lat ne) then Err ErrBoundingBoxOrder
  else Ok (mkBoundingBox sw ne).

Definition Contains (b : BoundingBox) (p : Point) : bool :=
  f_ge (Lon p) (Lon (Min b)) && f_le (Lon p) (Lon (Max b)) &&
  f_ge (Lat p) (Lat (Min b)) && f_le (Lat p) (Lat (Max b)).

(** ** polygon.go *)

Record Polygon := mkPolygon { Exterior : list Point; Holes : list (list Point) }.

Definition validateRing (ring : list Point) : option error :=
  if (length ring <? 4)%nat then Some ErrPolygonTooFewPoints
  else match ring !! 0%nat, ring !! (length ring - 1)%nat with
       | Some first, Some last =>
           if f_ne (Lon first) (Lon last) || f_ne (Lat first) (Lat last) then Some ErrPolygonNotClosed else None
       | _, _ => None
       end.

Fixpoint validate_holes (holes : list (list Point)) : option error :=
  match holes with
  | [] => None
  | hole :: holes' => match validateRing hole with Some err => Some err | None => validate_holes holes' end
  end.

Definition NewPolygon (exterior : list Point) (holes : list (list Point)) : result error Polygon :=
  match validateRing exterior with
  | Some err => Err err
  | None => match validate_holes holes with Some err => Err err | None => Ok (mkPolygon exterior holes) end
  end.

(** ** distance.go *)

Record Distance := mkDistance { Meters : float64 }.

(** The constant 1609.344 is the float64 nearest to the fraction. *)
Definition f_mile : float64 := f_div (of_Z 1609344) (of_Z 1000).

Definition Meter := mkDistance (of_Z 1).
Definition Kilometer := mkDistance (of_Z 1000).
Definition Mile := mkDistance f_mile.
Definition NauticalMile := mkDistance (of_Z 1852).

Definition NewDistance (meters : float64) : result error Distance :=
  if f_lt meters (of_Z 0) then Err ErrNegativeDistance else Ok (mkDistance meters).
Definition Kilometers (d : Distance) : float64 := f_div (Meters d) (of_Z 1000).
Definition Miles (d : Distance) : float64 := f_div (Meters d) f_mile.
Definition NauticalMiles (d : Distance) : float64 := f_div (Meters d) (of_Z 1852).
Definition Add (d other : Distance) : Distance := mkDistance (f_add (Meters d) (Meters other)).
Definition Sub (d other : Distance) : Distance :=
  let result := f_sub (Meters d) (Meters other) in
  let result := if f_lt result (of_Z 0) then of_Z 0 else result in
  mkDistance result.

(** ** Comparison is exact *)

(** The value in units of 2^-1074; infinities and NaN have none. *)
Definition units (x : float64) : option Z :=
  match x with
  | S754_zero _ => Some 0
  | S754_finite s m e => Some (cond_Zopp s (Z.pos m * 2 ^ (e + 1074)))
  | _ => None
  end.

Lemma digits2_bounds m : 2 ^ (Z.pos (digits2_pos m) - 1) ≤ Z.pos m < 2 ^ Z.pos (digits2_pos m).
Proof.
  induction m as [m IH|m IH|]; simpl digits2_pos; [| |done];
    rewrite Pos2Z.inj_succ, Z.sub_1_r, Z.pred_succ, Z.pow_succ_r by lia;
    replace (2 ^ Z.pos (digits2_pos m)) with (2 * 2 ^ (Z.pos (digits2_pos m) - 1)) in *
      by (rewrite <-Z.pow_succ_r by lia; f_equal; lia); lia.
Qed.

(** A canonical mantissa has at most 53 bits, and exactly 53 above the smallest exponent. *)
Lemma valid_mantissa s m e :
  valid64 (S754_finite s m e) = true →
  -1074 ≤ e ∧ Z.pos m < 2 ^ 53 ∧ (-1074 < e → 2 ^ 52 ≤ Z.pos m).
Proof.
  unfold valid64. simpl. unfold bounded, canonical_mantissa, fexp, emin, prec64, emax64. intros Hv. to_prop.
  pose proof (digits2_bounds m) as [Hlo Hhi]. split; [lia|]. split.
  - eapply Z.lt_le_trans; [exact Hhi|]. apply Z.pow_le_mono_r; lia.
  - intros He. etrans; [|exact Hlo]. apply Z.pow_le_mono_r; lia.
Qed.

Lemma finite_lt m1 e1 m2 e2 :
  valid64 (S754_finite false m1 e1) = true → valid64 (S754_finite false m2 e2) = true → e1 < e2 →
  Z.pos m1 * 2 ^ (e1 + 1074) < Z.pos m2 * 2 ^ (e2 + 1074).
Proof.
  intros (H1 & H2 & _)%valid_mantissa (H3 & _ & H4)%valid_mantissa He. specialize (H4 ltac:(lia)).
  assert (0 < 2 ^ (e1 + 1074)) by (apply Z.pow_pos_nonneg; lia).
  apply Z.lt_le_trans with (2 ^ 53 * 2 ^ (e1 + 1074)); [nia|].
  apply Z.le_trans with (2 ^ 52 * 2 ^ (e2 + 1074)); [|nia].
  rewrite <-!Z.pow_add_r by lia. apply Z.pow_le_mono_r; lia.
Qed.

Lemma finite_compare m1 e1 m2 e2 :
  valid64 (S754_finite false m1 e1) = true → valid64 (S754_finite false m2 e2) = true →
  match e1 ?= e2 with Lt => Lt | Gt => Gt | Eq => Pos.compare_cont Eq m1 m2 end =
  (Z.pos m1 * 2 ^ (e1 + 1074) ?= Z.pos m2 * 2 ^ (e2 + 1074)).
Proof.
  intros V1 V2. destruct (Z.compare_spec e1 e2) as [->|He|He].
  - pose proof (valid_mantissa _ _ _ V2) as [He _]. rewrite <-(Zmult_compare_compat_r _ _ (2 ^ (e2 + 1074))); [done|].
    apply Z.lt_gt. apply Z.pow_pos_nonneg; lia.
  - symmetry. by apply finite_lt.
  - symmetry. apply Z.lt_gt. by apply finite_lt.
Qed.

Lemma units_pos m e : valid64 (S754_finite false m e) = true → 0 < Z.pos m * 2 ^ (e + 1074).
Proof.
  intros (He & _)%valid_mantissa. apply Z.mul_pos_pos; [lia|]. apply Z.pow_pos_nonneg; lia.
Qed.

(** On finite numbers the comparison of floats is the comparison of their values. *)
Lemma compare_exact x y a b :
  valid64 x = true → valid64 y = true → units x = Some a → units y = Some b → SFcompare x y = Some (a ?= b).
Proof.
  intros Vx Vy. destruct x as [s1|s1| |s1 m1 e1], y as [s2|s2| |s2 m2 e2];
    cbn [SFcompare units]; try done; intros [= <-] [= <-]; f_equal.
  - pose proof (units_pos m2 e2 Vy). destruct s2; cbn [cond_Zopp]; symmetry; [apply Z.lt_gt|apply Z.compare_lt_iff]; lia.
  - pose proof (units_pos m1 e1 Vx). destruct s1; cbn [cond_Zopp]; symmetry; [apply Z.compare_lt_iff|apply Z.lt_gt]; lia.
  - pose proof (units_pos m1 e1 Vx). pose proof (units_pos m2 e2 Vy).
    pose proof (finite_compare m1 e1 m2 e2 Vx Vy) as Hc. destruct s1, s2; cbn [cond_Zopp].
    + rewrite Z.compare_opp, (Z.compare_antisym (Z.pos m1 * _)), <-Hc. by destruct (e1 ?= e2).
    + symmetry. apply Z.compare_lt_iff. lia.
    + symmetry. apply Z.lt_gt. lia.
    + done.
Qed.

(** ** Points and boxes *)

Definition is_nan (x : float64) : bool := match x with S754_nan => true | _ => false end.
Definition proper (p : Point) : Prop := is_nan (Lon p) = false ∧ is_nan (Lat p) = false.
Definition valid_point (p : Point) : Prop := valid64 (Lon p) = true ∧ valid64 (Lat p) = true.

(** [n] degrees in units. *)
Definition degrees (n : Z) : Z := n * 2 ^ 1074.

(** The value is a number of the closed interval. *)
Definition within (k : Z) (x : float64) : Prop := ∃ a, units x = Some a ∧ degrees (- k) ≤ a ≤ degrees k.

Lemma bound_units :
  units (of_Z (-180)) = Some (degrees (-180)) ∧ units (of_Z 180) = Some (degrees 180) ∧
  units (of_Z (-90)) = Some (degrees (-90)) ∧ units (of_Z 90) = Some (degrees 90).
Proof. vm_compute. auto. Qed.

Lemma lt_exact x y a b :
  valid64 x = true → valid64 y = true → units x = Some a → units y = Some b → f_lt x y = (a <? b).
Proof. intros Vx Vy Ux Uy. unfold f_lt, SFltb, Z.ltb. rewrite (compare_exact x y a b); done. Qed.

Lemma le_exact x y a b :
  valid64 x = true → valid64 y = true → units x = Some a → units y = Some b → f_le x y = (a <=? b).
Proof. intros Vx Vy Ux Uy. unfold f_le, SFleb, Z.leb. by rewrite (compare_exact x y a b). Qed.

Lemma range_check k lo hi x :
  valid64 lo = true → valid64 hi = true → units lo = Some (degrees (- k)) → units hi = Some (degrees k) →
  valid64 x = true → (f_lt x lo || f_gt x hi = false ↔ is_nan x = true ∨ within k x).
Proof.
  intros Vl Vh Ul Uh Vx. unfold within. destruct (units x) as [a|] eqn:Ux.
  - unfold f_gt. change (SFltb hi x) with (f_lt hi x).
    rewrite (lt_exact x lo a _ Vx Vl Ux Ul), (lt_exact hi x _ a Vh Vx Uh Ux), orb_false_iff, !Z.ltb_ge. split.
    + intros. right. eauto.
    + intros [Hn|(b & [= <-] & Hb)]; [by destruct x|]. lia.
  - destruct x as [|s| |], lo, hi; try discriminate; try (destruct s; naive_solver); naive_solver.
Qed.

(** Validation accepts the points of the closed ranges, and also every point with a NaN
    coordinate in place of a number; constructor and method agree. *)
Theorem new_point_exact (lon lat : float64) :
  valid64 lon = true → valid64 lat = true →
  (NewPoint lon lat = Ok (mkPoint lon lat) ↔
     (is_nan lon = true ∨ within 180 lon) ∧ (is_nan lat = true ∨ within 90 lat)) ∧
  (∀ p, NewPoint lon lat = Ok p → p = mkPoint lon lat) ∧
  match NewPoint lon lat with
  | Ok p => Validate p = None ∧ MustPoint lon lat = Ok p
  | Err err => Validate (mkPoint lon lat) = Some err ∧ ∃ msg, MustPoint lon lat = Err msg
  end.
Proof.
  intros V1 V2. destruct bound_units as (B1 & B2 & B3 & B4).
  pose proof (range_check 180 (of_Z (-180)) (of_Z 180) lon eq_refl eq_refl B1 B2 V1) as R1.
  pose proof (range_check 90 (of_Z (-90)) (of_Z 90) lat eq_refl eq_refl B3 B4 V2) as R2.
  unfold MustPoint, Validate, NewPoint. cbn [Lon Lat].
  destruct (_ || f_gt lon _) eqn:E1.
  { split_and!; [|done|done|by eexists]. split; [done|]. intros [H _]. apply R1 in H. by rewrite H in E1. }
  destruct (_ || f_gt lat _) eqn:E2.
  { split_and!; [|done|done|by eexists]. split; [done|]. intros [_ H]. apply R2 in H. by rewrite H in E2. }
  cbn [Lon Lat]. rewrite E1, E2. split_and!; [|by intros p [= <-]|done|done].
  split; [|done]. intros _. split; [by apply R1|by apply R2].
Qed.

Lemma validated_range p :
  valid_point p → proper p → Validate p = None → within 180 (Lon p) ∧ within 90 (Lat p).
Proof.
  intros [V1 V2] [N1 N2] Hv. destruct p as [lon lat]. simpl in *.
  destruct (new_point_exact lon lat V1 V2) as (Hiff & _ & Hm).
  destruct (new_point_exact lon lat V1 V2) as (_ & Hp & _).
  destruct (NewPoint lon lat) as [q|] eqn:Hq; [|by destruct Hm as [Hm _]; rewrite Hm in Hv].
  rewrite (Hp q eq_refl) in Hiff. destruct (proj1 Hiff eq_refl) as [[H1|H1] [H2|H2]]; [congruence..|]. by split.
Qed.

Lemma le_within k lo hi x :
  valid64 lo = true → valid64 hi = true → valid64 x = true → within k lo → within k hi →
  f_le lo x && f_le x hi = true →
  ∃ a b c, units lo = Some a ∧ units x = Some b ∧ units hi = Some c ∧ a ≤ b ≤ c ∧ within k x.
Proof.
  intros Vl Vh Vx (a & Ua & Ha) (c & Uc & Hc) Hle. apply andb_true_iff in Hle as [H1 H2].
  destruct (units x) as [b|] eqn:Ux.
  - rewrite (le_exact lo x a b) in H1 by done. rewrite (le_exact x hi b c) in H2 by done. to_prop.
    exists a, b, c. split_and!; try done; try lia. exists b. split; [done|]. lia.
  - destruct lo, hi, x as [|[]| |]; discriminate.
Qed.

(** A box built from validated, NaN-free corners holds both of them; a point it contains lies
    between the corners on both axes, is a number and validates.  Antimeridian-crossing and
    inverted corners are refused. *)
Theorem bounding_box_sound (sw ne p : Point) (b : BoundingBox) :
  valid_point sw → valid_point ne → valid_point p → proper sw → proper ne →
  Validate sw = None → Validate ne = None → NewBoundingBox sw ne = Ok b →
  Contains b sw = true ∧ Contains b ne = true ∧
  (Contains b p = true → proper p ∧ Validate p = None) ∧
  (Contains b p = true ↔
     ∃ w x e s y n, units (Lon sw) = Some w ∧ units (Lon p) = Some x ∧ units (Lon ne) = Some e ∧
       units (Lat sw) = Some s ∧ units (Lat p) = Some y ∧ units (Lat ne) = Some n ∧ w ≤ x ≤ e ∧ s ≤ y ≤ n).
Proof.
  intros Vs Vn Vp Ps Pn Hs Hn. unfold NewBoundingBox.
  destruct (f_gt (Lon sw) _) eqn:G1; [done|]. destruct (f_gt (Lat sw) _) eqn:G2; [done|]. intros [= <-].
  destruct (validated_range sw Vs Ps Hs) as [W1 W2], (validated_range ne Vn Pn Hn) as [W3 W4].
  destruct Vs as [Vs1 Vs2], Vn as [Vn1 Vn2], Vp as [Vp1 Vp2].
  destruct W1 as (w & Uw & Hw), W2 as (s & Us & Hs'), W3 as (e & Ue & He), W4 as (n & Un & Hn').
  unfold f_gt in *. change SFltb with f_lt in *.
  rewrite (lt_exact _ _ e w) in G1 by done. rewrite (lt_exact _ _ n s) in G2 by done. to_prop.
  assert (Hiff : Contains (mkBoundingBox sw ne) p = true ↔
    f_le (Lon sw) (Lon p) && f_le (Lon p) (Lon ne) = true ∧ f_le (Lat sw) (Lat p) && f_le (Lat p) (Lat ne) = true).
  { unfold Contains, f_ge. change SFleb with f_le. simpl. rewrite !andb_true_iff. tauto. }
  assert (Hcorner : ∀ q, valid_point q → ∀ x y, units (Lon q) = Some x → units (Lat q) = Some y → w ≤ x ≤ e → s ≤ y ≤ n →
    Contains (mkBoundingBox sw ne) q = true).
  { intros q [Vq1 Vq2] x y Ux Uy Hx Hy. unfold Contains, f_ge. change SFleb with f_le. simpl.
    rewrite (le_exact _ _ w x), (le_exact _ _ x e), (le_exact _ _ s y), (le_exact _ _ y n) by done.
    rewrite !andb_true_iff, !Z.leb_le. lia. }
  split_and!; [apply (Hcorner sw (conj Vs1 Vs2) w s Uw Us); lia|apply (Hcorner ne (conj Vn1 Vn2) e n Ue Un); lia| |].
  - intros [H1 H2]%Hiff.
    destruct (le_within 180 (Lon sw) (Lon ne) (Lon p)) as (? & ? & ? & _ & Ux & _ & _ & I1); try done; [by exists w|by exists e|].
    destruct (le_within 90 (Lat sw) (Lat ne) (Lat p)) as (? & ? & ? & _ & Uy & _ & _ & I2); try done; [by exists s|by exists n|].
    split; [split; [by destruct (Lon p)|by destruct (Lat p)]|].
    destruct p as [lon lat]. simpl in *. destruct (new_point_exact lon lat Vp1 Vp2) as (Hi & _ & Hm).
    rewrite (proj2 Hi) in Hm by auto. apply Hm.
  - split.
    + intros [H1 H2]%Hiff.
      destruct (le_within 180 (Lon sw) (Lon ne) (Lon p)) as (w' & x & e' & U1 & U2 & U3 & ? & _); try done; [by exists w|by exists e|].
      destruct (le_within 90 (Lat sw) (Lat ne) (Lat p)) as (s' & y & n' & U4 & U5 & U6 & ? & _); try done; [by exists s|by exists n|].
      exists w', x, e', s', y, n'. done.
    + intros (w' & x & e' & s' & y & n' & U1 & U2 & U3 & U4 & U5 & U6 & Hx & Hy). simplify_eq. by apply (Hcorner p (conj Vp1 Vp2) x y).
Qed.

(** ** Polygons *)

Definition same_point (p q : Point) : bool := SFeqb (Lon p) (Lon q) && SFeqb (Lat p) (Lat q).
Definition ring_ok (ring : list Point) : Prop :=
  (4 ≤ length ring)%nat ∧ ∃ p q, head ring = Some p ∧ last ring = Some q ∧ same_point p q = true.

Lemma validateRing_spec ring : validateRing ring = None ↔ ring_ok ring.
Proof.
  unfold validateRing, ring_ok. destruct (length ring <? 4)%nat eqn:Hl.
  { apply Nat.ltb_lt in Hl. split; [done|]. intros [? _]. lia. }
  apply Nat.ltb_ge in Hl. rewrite <-head_lookup, last_lookup.
  replace (length ring - 1)%nat with (pred (length ring)) by lia.
  destruct (head ring) as [p|] eqn:Hh; [|destruct ring; [simpl in *; lia|done]].
  destruct (ring !! pred (length ring)) as [q|] eqn:Hq; [|apply lookup_ge_None in Hq; lia].
  unfold f_ne, same_point. rewrite <-negb_andb. destruct (SFeqb (Lon p) (Lon q) && _) eqn:Hs; simpl.
  - split; [|done]. intros _. split; [done|]. by exists p, q.
  - split; [done|]. intros (_ & p' & q' & [= <-] & [= <-] & Hpq). congruence.
Qed.

Lemma validate_holes_spec holes : validate_holes holes = None ↔ Forall ring_ok holes.
Proof.
  induction holes as [|h holes IH]; simpl; [done|]. rewrite Forall_cons, <-validateRing_spec, <-IH.
  by destruct (validateRing h); naive_solver.
Qed.

(** A polygon is built exactly from rings of at least four points, each closed up to the
    equality of floats: a zero closes on a zero of the other sign, and a ring that starts at
    a NaN is never closed. *)
Theorem new_polygon_exact (exterior : list Point) (holes : list (list Point)) :
  (NewPolygon exterior holes = Ok (mkPolygon exterior holes) ↔ ring_ok exterior ∧ Forall ring_ok holes) ∧
  (∀ q, NewPolygon exterior holes = Ok q → q = mkPolygon exterior holes) ∧
  (∀ p, head exterior = Some p → ¬ proper p → ∃ err, NewPolygon exterior holes = Err err).
Proof.
  unfold NewPolygon. rewrite <-validateRing_spec, <-validate_holes_spec.
  destruct (validateRing exterior) as [e|] eqn:He; [split_and!; naive_solver|].
  split; [destruct (validate_holes holes); naive_solver|]. split; [destruct (validate_holes holes); naive_solver|].
  intros p Hp Hn. exfalso. apply Hn. apply validateRing_spec in He as (_ & p' & q & Hp' & _ & Hs).
  rewrite Hp in Hp'. injection Hp' as <-. apply andb_true_iff in Hs as [H1 H2].
  split; [by destruct (Lon p)|by destruct (Lat p)].
Qed.

(** ** Distances *)

(** Zero of either sign, positive, or positive infinity. *)
Definition nonneg (x : float64) : bool :=
  match x with S754_zero _ | S754_infinity false | S754_finite false _ _ => true | _ => false end.

(** What rounding can return for a sign. *)
Definition signed (s : bool) (x : float64) : Prop :=
  x = S754_zero s ∨ x = S754_infinity s ∨ ∃ m e, x = S754_finite s m e.

Lemma signed_nonneg x : signed false x → nonneg x = true.
Proof. by intros [->|[->|(m & e & ->)]]. Qed.

Lemma shr_1_nonneg r : 0 ≤ shr_m r → 0 ≤ shr_m (shr_1 r).
Proof. destruct r as [[|[]|[]] ? ?]; simpl; lia. Qed.

Lemma iter_shr_nonneg n r : 0 ≤ shr_m r → 0 ≤ shr_m (SpecFloat.iter_pos shr_1 n r).
Proof. revert r. induction n as [n IH|n IH|]; intros r Hr; simpl; auto using shr_1_nonneg. Qed.

Lemma shr_fexp_nonneg m e l : 0 ≤ m → 0 ≤ shr_m (shr_fexp prec64 emax64 m e l).1.
Proof.
  intros Hm. unfold shr_fexp, shr. assert (0 ≤ shr_m (shr_record_of_loc m l)) by (by destruct l as [|[]]).
  destruct (_ - e); simpl; auto using iter_shr_nonneg.
Qed.

Lemma round_aux_signed s m e l : 0 ≤ m → signed s (binary_round_aux prec64 emax64 s m e l).
Proof.
  intros Hm. unfold binary_round_aux. pose proof (shr_fexp_nonneg m e l Hm) as H1.
  destruct (shr_fexp prec64 emax64 m e l) as [r1 e1]. simpl in H1.
  assert (H2 : 0 ≤ round_nearest_even (shr_m r1) (loc_of_shr_record r1)).
  { destruct (loc_of_shr_record r1) as [|[]]; simpl; try lia. destruct (Z.even _); lia. }
  pose proof (shr_fexp_nonneg _ e1 loc_Exact H2) as H3.
  destruct (shr_fexp prec64 emax64 (round_nearest_even _ _) e1 loc_Exact) as [r2 e2]. simpl in H3.
  unfold signed. destruct (shr_m r2); [by left| |lia]. destruct (e2 <=? _); eauto.
Qed.

Lemma round_signed s m e : signed s (binary_round prec64 emax64 s m e).
Proof. unfold binary_round. destruct (shl_align _ _ _) as [mz ez]. by apply round_aux_signed. Qed.

Lemma normalize_signed m e :
  signed (m <? 0) (binary_normalize prec64 emax64 m e false).
Proof. destruct m; simpl; [by left|apply round_signed..]. Qed.

Lemma add_nonneg x y : nonneg x = true → nonneg y = true → nonneg (f_add x y) = true.
Proof.
  destruct x as [[]|[]| |[] m1 e1], y as [[]|[]| |[] m2 e2]; try done. intros _ _.
  apply signed_nonneg. unfold f_add, SFadd. simpl cond_Zopp. apply normalize_signed.
Qed.

Lemma sub_clamped x y :
  nonneg x = true → nonneg y = true → ¬ (units x = None ∧ units y = None) →
  nonneg (Meters (Sub (mkDistance x) (mkDistance y))) = true.
Proof.
  intros Hx Hy Hn. unfold Sub, f_sub, f_lt. simpl Meters.
  destruct x as [[]|[]| |[] m1 e1], y as [[]|[]| |[] m2 e2]; try done; try (by destruct Hn).
  unfold SFsub. simpl cond_Zopp. cbv zeta.
  match goal with |- context [binary_normalize _ _ ?m ?e false] => pose proof (normalize_signed m e) as Hs;
    generalize dependent (binary_normalize prec64 emax64 m e false) end.
  intros r. destruct (_ <? 0); intros [->|[->|(m & e & ->)]]; done.
Qed.

Lemma div_nonneg x m e : nonneg x = true → nonneg (f_div x (S754_finite false m e)) = true.
Proof.
  destruct x as [[]|[]| |[] m1 e1]; try done. intros _. unfold f_div, SFdiv.
  destruct (SFdiv_core_binary _ _ _ _ _ _) as [[q e'] l] eqn:Hd. apply signed_nonneg. simpl xorb. apply round_aux_signed.
  unfold SFdiv_core_binary in Hd. destruct (Z.div_eucl _ _) as [q' r] eqn:Hq. injection Hd as <- _ _.
  match type of Hq with Z.div_eucl ?a ?b = _ => assert (Ha : 0 ≤ a); [|pose proof (Z.div_pos a b Ha eq_refl) as Hp] end.
  { destruct (_ - _ - _); [done|apply Z.shiftl_nonneg; lia|done]. }
  unfold Z.div in Hp. by rewrite Hq in Hp.
Qed.

(** Distances the package's operations build, from non-negative numbers. *)
Inductive made : Distance → Prop :=
| made_new m d : is_nan m = false → NewDistance m = Ok d → made d
| made_unit d : d ∈ [Meter; Kilometer; Mile; NauticalMile] → made d
| made_add d1 d2 : made d1 → made d2 → made (Add d1 d2)
| made_sub d1 d2 : made d1 → made d2 → units (Meters d1) ≠ None → made (Sub d1 d2).

(** No chain of operations yields a negative distance or NaN, in any unit, as long as no
    NaN is put in and nothing is subtracted from an infinite distance. *)
Theorem distances_nonneg (d : Distance) :
  made d → Forall (λ x, nonneg x = true) [Meters d; Kilometers d; Miles d; NauticalMiles d].
Proof.
  intros Hm. assert (H : nonneg (Meters d) = true).
  { induction Hm as [m d Hn Hd|d Hin|d1 d2 _ IH1 _ IH2|[x] [y] _ IH1 _ IH2 Hf].
    - unfold NewDistance in Hd. destruct (f_lt m _) eqn:Hl; [done|]. injection Hd as <-. simpl.
      destruct m as [|[]| |[]]; done.
    - rewrite !elem_of_cons, elem_of_nil in Hin. by destruct_or? Hin; subst; try done.
    - by apply add_nonneg.
    - apply sub_clamped; [done..|]. by intros [? _]. }
  repeat constructor; [done|..]; by apply div_nonneg.
Qed.

Lemma iter_xO m d : Z.pos (Pos.iter xO m d) = Z.pos m * 2 ^ Z.pos d.
Proof.
  induction d as [|d IH] using Pos.peano_ind; [simpl; lia|].
  rewrite Pos.iter_succ, Pos2Z.inj_succ, Z.pow_succ_r by lia. lia.
Qed.

Lemma shl_align_value m e ez : ez ≤ e → Z.pos (shl_align m e ez).1 = Z.pos m * 2 ^ (e - ez).
Proof.
  intros He. unfold shl_align. destruct (ez - e) as [|d|d] eqn:Hd; simpl fst; [|lia|].
  - replace (e - ez) with 0 by lia. lia.
  - rewrite iter_xO. do 2 f_equal. lia.
Qed.

Lemma aligned_units m e ez :
  -1074 ≤ ez ≤ e → Z.pos m * 2 ^ (e + 1074) = Z.pos (shl_align m e ez).1 * 2 ^ (ez + 1074).
Proof.
  intros He. rewrite shl_align_value by lia. rewrite <-Z.mul_assoc, <-Z.pow_add_r by lia. do 2 f_equal. lia.
Qed.

(** [Add] does not depend on the order, and [Sub] clamps exactly: the result is zero when
    the minuend is not larger, and otherwise the rounded difference with a positive sign. *)
Theorem distance_arithmetic (d other : Distance) (a b : Z) :
  valid64 (Meters d) = true → valid64 (Meters other) = true → nonneg (Meters d) = true → nonneg (Meters other) = true →
  units (Meters d) = Some a → units (Meters other) = Some b →
  Add d other = Add other d ∧
  (a ≤ b → SFeqb (Meters (Sub d other)) (of_Z 0) = true) ∧
  (b < a → Meters (Sub d other) = f_sub (Meters d) (Meters other) ∧ signed false (Meters (Sub d other))).
Proof.
  destruct d as [x], other as [y]. unfold Add, Sub, f_add, f_sub. simpl Meters. intros Vx Vy Nx Ny Ua Ub.
  destruct x as [s1|[]| |[] m1 e1], y as [s2|[]| |[] m2 e2]; try done; cbn [units cond_Zopp] in Ua, Ub;
    injection Ua as <-; injection Ub as <-.
  - split; [by destruct s1, s2|]. split; [|lia]. intros _. by destruct s1, s2.
  - pose proof (units_pos m2 e2 Vy). split; [by destruct s1|]. split; [done|lia].
  - pose proof (units_pos m1 e1 Vx). split; [by destruct s2|]. split; [lia|]. intros _. split; [done|]. right. right. eauto.
  - pose proof (valid_mantissa _ _ _ Vx) as [He1 _]. pose proof (valid_mantissa _ _ _ Vy) as [He2 _].
    split; [unfold SFadd; by rewrite Z.min_comm, Z.add_comm|].
    rewrite (aligned_units m1 e1 (Z.min e1 e2)), (aligned_units m2 e2 (Z.min e1 e2)) by lia.
    unfold SFsub. cbn [cond_Zopp]. cbv zeta.
    assert (0 < 2 ^ (Z.min e1 e2 + 1074)) as Hp by (apply Z.pow_pos_nonneg; lia).
    generalize (Z.pos (shl_align m1 e1 (Z.min e1 e2)).1) (Z.pos (shl_align m2 e2 (Z.min e1 e2)).1). intros u v.
    pose proof (normalize_signed (u - v) (Z.min e1 e2)) as Hs. split.
    + intros Hle. destruct (Z.eq_dec u v) as [->|Hne]; [by rewrite Z.sub_diag|].
      rewrite (proj2 (Z.ltb_lt (u - v) 0)) in Hs by nia. destruct Hs as [->|[->|(m & e & ->)]]; done.
    + intros Hlt. rewrite (proj2 (Z.ltb_ge (u - v) 0)) in Hs by nia.
      split; [by destruct Hs as [->|[->|(m & e & ->)]]|]. by destruct Hs as [->|[->|(m & e & ->)]]; unfold signed; simpl; eauto.
Qed.

(** The constructors let NaN through, and an overflow followed by a subtraction makes one. *)
Example nan_accepted :
  NewPoint S754_nan (of_Z 0) = Ok (mkPoint S754_nan (of_Z 0)) ∧ NewDistance S754_nan = Ok (mkDistance S754_nan) ∧
  let huge := mkDistance (SFmax_float prec64 emax64) in
  Meters (Add huge huge) = S754_infinity false ∧ Meters (Sub (Add huge huge) (Add huge huge)) = S754_nan.
Proof. vm_compute. auto. Qed.

(** The conversions of a marathon, as the program computes them. *)
Example conversions :
  let d := mkDistance (of_Z 42195) in
  f_lt (of_Z 42) (Kilometers d) = true ∧ f_lt (Kilometers d) (of_Z 43) = true ∧
  f_lt (of_Z 26) (Miles d) = true ∧ f_lt (Miles d) (of_Z 27) = true ∧
  Miles Mile = of_Z 1 ∧ NauticalMiles NauticalMile = of_Z 1 ∧ Kilometers Kilometer = of_Z 1.
Proof. vm_compute. auto 10. Qed.

End Geo.
