(* ===== verification/Pagination.v ===== *)
(** * Cursor pagination

    Models [internal/shared/domain/cursor.go]: cursors with their wire format (JSON inside
    URL-safe base64) and the pages built from a result set that holds one item more than
    the page when there are further items. *)
From S2P Require Import Prelude Json JsonDecode Base64.
Import Json JsonDecode.

Module Pagination.

(** ** Cursors *)

Definition CursorDirectionNext : string := "next".
Definition CursorDirectionPrev : string := "prev".

(** [LastValue] is nil or what [json.Unmarshal] stores in an [any]. *)
Record Cursor := mkCursor {
  LastID : string;
  LastValue : option json;
  Direction : string
}.

Definition cursor_json (c : Cursor) : json :=
  JObj (("last_id", JStr (LastID c)) ::
        match LastValue c with Some v => [("last_value", v)] | None => [] end ++
        (if String.eqb (Direction c) "" then [] else [("direction", JStr (Direction c))])).

Definition Encode (c : option Cursor) : string :=
  match c with
  | None => ""
  | Some c => if String.eqb (LastID c) "" then "" else Base64.encode (encode (cursor_json c))
  end.

(** *** [json.Unmarshal] into a [Cursor] *)

(** One member of the object: the cursor so far and whether an error was saved. *)
Definition set_field (st : Cursor * bool) (kv : string * json) : Cursor * bool :=
  let '(c, bad) := st in
  let '(k, v) := kv in
  if field_is "last_id" k then
    match v with
    | JStr s => (mkCursor s (LastValue c) (Direction c), bad)
    | JNull => (c, bad)
    | _ => (c, true)
    end
  else if field_is "last_value" k then
    match v with
    | JNull => (mkCursor (LastID c) None (Direction c), bad)
    | _ => (mkCursor (LastID c) (Some v) (Direction c), bad || negb (any_ok v))
    end
  else if field_is "direction" k then
    match v with
    | JStr s => (mkCursor (LastID c) (LastValue c) s, bad)
    | JNull => (c, bad)
    | _ => (c, true)
    end
  else (c, bad).

Definition unmarshal_cursor (v : json) : option Cursor :=
  match v with
  | JNull => Some (mkCursor "" None "")
  | JObj m => let '(c, bad) := fold_left set_field m (mkCursor "" None "", false) in
              if bad then None else Some c
  | _ => None
  end.

(** The two failures, told apart by the text of the error. *)
Inductive cursorError := InvalidCursorFormat | InvalidCursorData.

Definition DecodeCursor (encoded : string) : result cursorError (option Cursor) :=
  if String.eqb encoded "" then Ok None
  else match Base64.decode encoded with
       | None => Err InvalidCursorFormat
       | Some data =>
           match parse data with
           | None => Err InvalidCursorData
           | Some v => match unmarshal_cursor v with
                       | None => Err InvalidCursorData
                       | Some c => Ok (Some c)
                       end
           end
       end.

(** ** Pages *)

Record PaginationMeta := mkMeta {
  NextCursor : option string;
  PrevCursor : option string;
  HasMore : bool;
  HasPrev : bool;
  Total : option Z
}.

Record CursorPage (T : Type) := mkPage { Items : list T; Meta : PaginationMeta }.
Arguments mkPage {T}.
Arguments Items {T}.
Arguments Meta {T}.

Definition GetItems {T} (p : CursorPage T) : list T := Items p.
Definition GetMeta {T} (p : CursorPage T) : PaginationMeta := Meta p.

Definition WithTotal {T} (p : CursorPage T) (total : Z) : CursorPage T :=
  mkPage (Items p) (mkMeta (NextCursor (Meta p)) (PrevCursor (Meta p)) (HasMore (Meta p)) (HasPrev (Meta p)) (Some total)).

Definition DefaultLimit : Z := 20.
Definition MaxLimit : Z := 100.

Definition NormalizeLimit (limit : Z) : Z :=
  if limit <=? 0 then DefaultLimit else if limit >? MaxLimit then MaxLimit else limit.

Section page.
Context {T : Type}.

(** [data[:limit]], where [limit < len(data)]: a negative bound panics ([None]). *)
Definition slice_to (data : list T) (limit : Z) : option (list T) :=
  if limit <? 0 then None else Some (take (Z.to_nat limit) data).

(** The cursor of an item, pointing in a direction: nil when [cursorFn] returns nil. *)
Definition point (cursorFn : T → option Cursor) (dir : string) (x : option T) : option string :=
  match x with
  | None => None
  | Some x => match cursorFn x with
              | Some c => Some (Encode (Some (mkCursor (LastID c) (LastValue c) dir)))
              | None => None
              end
  end.

Definition NewCursorPage (data : list T) (limit : Z) (cursorFn : T → option Cursor) : option (CursorPage T) :=
  let hasMore := Z.of_nat (length data) >? limit in
  match (if hasMore then slice_to data limit else Some data) with
  | None => None
  | Some data =>
      let nextCursor := if hasMore then point cursorFn CursorDirectionNext (last data) else None in
      Some (mkPage data (mkMeta nextCursor None hasMore false None))
  end.

Definition NewBidirectionalCursorPage (data : list T) (limit : Z) (direction : string) (hasCursor : bool)
    (cursorFn : T → option Cursor) : option (CursorPage T) :=
  let hasExtra := Z.of_nat (length data) >? limit in
  let isBackward := String.eqb direction "prev" in
  let '(hasMore, hasPrev) := if isBackward then (hasCursor, hasExtra) else (hasExtra, hasCursor) in
  match (if negb hasExtra then Some data
         else if isBackward then (if decide (data = []) then None else Some (drop 1 data))
         else slice_to data limit) with
  | None => None
  | Some data =>
      let nextCursor := if hasMore then point cursorFn CursorDirectionNext (last data) else None in
      let prevCursor := if hasPrev then point cursorFn CursorDirectionPrev (head data) else None in
      Some (mkPage data (mkMeta nextCursor prevCursor hasMore hasPrev None))
  end.
End page.

(** ** Cursors round-trip *)

Definition cursor_ok (c : Cursor) : bool :=
  negb (String.eqb (LastID c) "") && valid_utf8 (LastID c) && valid_utf8 (Direction c) &&
  match LastValue c with
  | None => true
  | Some JNull => false
  | Some v => wf 1 v && any_ok v
  end.

Lemma cursor_json_wf c : cursor_ok c = true → wf 0 (cursor_json c) = true.
Proof.
  destruct c as [id [v|] d]; unfold cursor_ok, cursor_json; cbn [LastID LastValue Direction]; intros Hc; to_prop.
  - assert (wf 1 v = true) as Hv by (destruct v; to_prop; done).
    cbn [wf]. change (0 <? maxNestingDepth) with true.
    destruct (String.eqb d ""); cbn [app forallb fst snd wf]; change (0 + 1) with 1;
      change (valid_utf8 "last_id") with true; change (valid_utf8 "last_value") with true;
      change (valid_utf8 "direction") with true; rewrite Hv;
      repeat match goal with H : valid_utf8 _ = true |- _ => rewrite H; clear H end; done.
  - cbn [wf]. change (0 <? maxNestingDepth) with true.
    destruct (String.eqb d ""); cbn [app forallb fst snd wf]; change (0 + 1) with 1;
      change (valid_utf8 "last_id") with true; change (valid_utf8 "direction") with true;
      repeat match goal with H : valid_utf8 _ = true |- _ => rewrite H; clear H end; done.
Qed.

Lemma unmarshal_cursor_json c : cursor_ok c = true → unmarshal_cursor (cursor_json c) = Some c.
Proof.
  destruct c as [id [v|] d]; unfold cursor_ok, cursor_json; cbn [LastID LastValue Direction]; intros Hc; to_prop.
  - assert (any_ok v = true ∧ v ≠ JNull) as [Hv Hn] by (destruct v; to_prop; done).
    assert (∀ st, set_field st ("last_value", v) = (mkCursor (LastID st.1) (Some v) (Direction st.1), st.2)) as Hset.
    { intros [c0 bad]. unfold set_field.
      change (field_is "last_id" "last_value") with false. change (field_is "last_value" "last_value") with true.
      cbv iota. rewrite Hv, orb_false_r. by destruct v. }
    destruct (String.eqb d "") eqn:Hd; cbn [unmarshal_cursor app fold_left]; rewrite Hset;
      [apply String.eqb_eq in Hd as ->|]; reflexivity.
  - destruct (String.eqb d "") eqn:Hd; [apply String.eqb_eq in Hd as ->|]; reflexivity.
Qed.

Lemma encode_cursor_json_nonempty c : encode (cursor_json c) ≠ "".
Proof. done. Qed.

Lemma encode_ok c : cursor_ok c = true →
  Encode (Some c) ≠ "" ∧ DecodeCursor (Encode (Some c)) = Ok (Some c).
Proof.
  intros Hc. pose proof (cursor_json_wf _ Hc) as Hw. pose proof (unmarshal_cursor_json _ Hc) as Hu.
  unfold Encode, DecodeCursor. assert (String.eqb (LastID c) "" = false) as ->.
  { unfold cursor_ok in Hc. to_prop. by apply String.eqb_neq. }
  assert (Base64.encode (encode (cursor_json c)) ≠ "") as Hne
    by apply Base64.encode_nonempty, encode_cursor_json_nonempty.
  split; [done|]. rewrite (proj2 (String.eqb_neq _ _)) by done.
  by rewrite Base64.decode_encode, json_roundtrip, Hu.
Qed.

(** A cursor handed out to a client decodes to itself: whatever the identifier, the
    direction and the stored value are (identifier non-empty, texts in UTF-8, value within
    the decoder's nesting and number range), the base64 and JSON layers cancel.  A nil cursor
    and a cursor without identifier encode to the empty string, which decodes to nil. *)
Theorem cursor_roundtrip (c : option Cursor) :
  match c with Some c => LastID c = "" ∨ cursor_ok c = true | None => True end →
  DecodeCursor (Encode c) = Ok (match c with Some c => if String.eqb (LastID c) "" then None else Some c | None => None end).
Proof.
  destruct c as [c|]; [|done]. intros [Hid|Hc].
  - unfold Encode. by rewrite Hid.
  - destruct (encode_ok c Hc) as [_ ->]. unfold cursor_ok in Hc. to_prop.
    by rewrite (proj2 (String.eqb_neq _ _)).
Qed.

Definition sample_cursor : Cursor :=
  mkCursor "0190f3a2-7c1e-7a5b-8f00-0242ac120002" (Some (JArr [JNum "1e308"; JStr ("<" +:+ String q "&")])) "prev".

Lemma cursor_roundtrip_witness :
  cursor_ok sample_cursor = true ∧ DecodeCursor (Encode (Some sample_cursor)) = Ok (Some sample_cursor).
Proof.
  split; [vm_compute; reflexivity|].
  apply (cursor_roundtrip (Some sample_cursor)). right. vm_compute. reflexivity.
Defined.

(** ** Facts the listings use *)

Lemma NormalizeLimit_range l : 1 ≤ NormalizeLimit l ≤ MaxLimit.
Proof. unfold NormalizeLimit, DefaultLimit, MaxLimit. repeat case_match; to_prop; lia. Qed.

End Pagination.
