(* ===== verification/Database.v ===== *)
(** * Database helpers

    Models [pkg/pgutil/pgutil.go] and the transaction runner of
    [internal/platform/database/postgres.go].  The driver (pgx) and the server are third
    party: what they answer to BEGIN, ROLLBACK and COMMIT is an input of [WithTx], and a
    transaction works on its own copy of the database, which replaces the shared one when
    the server commits. *)
From S2P Require Import Prelude AppErr Port.
Import AppErr.

Module Database.

(** ** pgutil *)

(** [pgtype.UUID]: [None] when not [Valid]. *)
Section pgutil.
Context {U : Type} `{Uuid U}.

Definition UUIDToPgtype (id : U) : option U := Some id.
Definition PgtypeToUUID (id : option U) : U := match id with Some u => u | None => uuid_Nil end.

Definition NullableUUID (s : string) : option U :=
  if String.eqb s "" then None
  else match uuid_Parse s with
       | None => None
       | Some uid => UUIDToPgtype uid
       end.

Definition ParseUUID (s : string) : option U := uuid_Parse s.
End pgutil.

(** [strings.Contains] *)
Fixpoint Contains (s sub : string) : bool :=
  has_prefix sub s || match s with EmptyString => false | String _ s' => Contains s' sub end.

(** The argument is the error, [None] for nil; the type assertion sees the outermost error
    only. *)
Definition IsDuplicateKeyError (err : option error) : bool :=
  match err with
  | None => false
  | Some (PgError code _) => String.eqb code "23505"
  | Some e => Contains (ErrorText e) "23505" || Contains (ErrorText e) "duplicate key"
  end.

Definition IsForeignKeyViolation (err : option error) : bool :=
  match err with
  | None => false
  | Some (PgError code _) => String.eqb code "23503"
  | Some e => Contains (ErrorText e) "23503"
  end.

Definition IsNotNullViolation (err : option error) : bool :=
  match err with
  | None => false
  | Some (PgError code _) => String.eqb code "23502"
  | Some e => Contains (ErrorText e) "23502"
  end.

(** ** Transactor.WithTx *)

(** How the function run in the transaction ends. *)
Inductive fnOutcome :=
| Returned (err : option error)
| Panicked (p : string).

(** The answers of driver and server.  When COMMIT reports an error the client cannot know
    whether the server applied it: [commit_applied]. *)
Record TxAnswers := mkTxAnswers {
  begin_err : option error;
  rollback_err : option error;
  commit_err : option error;
  commit_applied : bool
}.

(** [fn] works on the transaction's copy and leaves a value in a captured variable, [None]
    when it did not run. *)
Definition WithTx {DB A} (tx : TxAnswers) (db : DB) (fn : DB → DB * A * fnOutcome)
    : DB * option A * fnOutcome :=
  match begin_err tx with
  | Some err => (db, None, Returned (Some (FmtError "failed to begin transaction: " err "")))
  | None =>
      match fn db with
      | (_, a, Panicked p) => (db, Some a, Panicked p)
      | (_, a, Returned (Some err)) =>
          match rollback_err tx with
          | Some rbErr =>
              (db, Some a, Returned (Some (FmtError "tx error: " err (", rollback error: " +:+ ErrorText rbErr))))
          | None => (db, Some a, Returned (Some err))
          end
      | (db', a, Returned None) =>
          match commit_err tx with
          | Some err => (if commit_applied tx then db' else db, Some a,
                         Returned (Some (FmtError "failed to commit transaction: " err "")))
          | None => (db', Some a, Returned None)
          end
      end
  end.

(** A transaction that reports success has committed exactly what the function did; one
    that does not and whose COMMIT was not ambiguous has changed nothing. *)
Lemma WithTx_ok {DB A} tx (db db' : DB) fn (a : option A) :
  WithTx tx db fn = (db', a, Returned None) →
  ∃ a', a = Some a' ∧ fn db = (db', a', Returned None).
Proof. unfold WithTx. intros. repeat case_match; naive_solver. Qed.

Lemma WithTx_rolled_back {DB A} tx (db db' : DB) fn (a : option A) out :
  WithTx tx db fn = (db', a, out) → out ≠ Returned None →
  db' = db ∨ (commit_applied tx = true ∧ is_Some (commit_err tx) ∧ ∃ a', fn db = (db', a', Returned None)).
Proof. unfold WithTx. intros. repeat case_match; naive_solver. Qed.

(** The error of the function is the one a client sees, also when the rollback fails. *)
Lemma WithTx_public {DB A} tx (db db' d1 : DB) fn (a : option A) a' err out :
  begin_err tx = None → fn db = (d1, a', Returned (Some err)) → WithTx tx db fn = (db', a, out) →
  db' = db ∧ a = Some a' ∧ ∃ e, out = Returned (Some e) ∧ public_part e = public_part err.
Proof. unfold WithTx. intros Hb Hf. rewrite Hb, Hf. case_match; naive_solver. Qed.

End Database.
