(* ===== verification/TxContext.v ===== *)
(** * Transactions carried by the context

    Models how a transaction reaches the statements that belong to it: [WithTx] of
    [internal/platform/database/postgres.go] puts the driver's transaction into the context,
    the repository asks [DBFromContext] for the handle of every statement
    ([module/user/repository]), and the generated [Queries] run on that handle.  Here the
    calls the driver sees are kept one by one; [Database] has the effect of one transaction
    on the data. *)
From S2P Require Import Prelude AppErr Config Database.
Import AppErr Config Database.

Module TxContext.

(** ** Contexts and handles *)

(** The keys are of types of their own, so that [txKey] meets no other key. *)
Inductive ctxKey := txKey | otherKey (k : string).
#[export] Instance ctxKey_eq_dec : EqDecision ctxKey.
Proof. solve_decision. Defined.

Inductive ctxValue := TxValue (tx : positive) | StringValue (s : string).

(** The chain of [context.WithValue]s, the innermost first. *)
Notation Ctx := (list (ctxKey * ctxValue)).

Definition WithValue (ctx : Ctx) (k : ctxKey) (v : ctxValue) : Ctx := (k, v) :: ctx.

Fixpoint Value (ctx : Ctx) (k : ctxKey) : option ctxValue :=
  match ctx with [] => None | (k', v) :: ctx' => if decide (k' = k) then Some v else Value ctx' k end.

Definition GetTx (ctx : Ctx) : option positive :=
  match Value ctx txKey with Some (TxValue tx) => Some tx | _ => None end.

(** What a statement can run on: the pool, or one transaction's connection. *)
Inductive DBTX := Pool | Tx (tx : positive).
#[export] Instance DBTX_eq_dec : EqDecision DBTX.
Proof. solve_decision. Defined.

Definition DBFromContext (ctx : Ctx) : DBTX := match GetTx ctx with Some tx => Tx tx | None => Pool end.

(** [sqlc.Queries] *)
Record Queries := New { db : DBTX }.
Definition Queries_WithTx (q : Queries) (tx : positive) : Queries := New (Tx tx).

(** [Repository.queries] *)
Definition queries (ctx : Ctx) : Queries := New (DBFromContext ctx).

(** ** The driver *)

Definition rollbackTimeout : Z := 5 * Second.

(** The calls the driver receives.  A rollback runs under a context of its own, of which the
    timeout is left; everything else runs under the caller's. *)
Inductive call :=
| BeginFailed
| Began (tx : positive)
| Exec (on : DBTX) (stmt : string)
| Commit (tx : positive)
| Rollback (tx : positive) (timeout : Z).
#[export] Instance call_eq_dec : EqDecision call.
Proof. solve_decision. Defined.

(** Its answers may depend on all that was called before. *)
Record Driver := mkDriver {
  on_Begin : list call → result error positive;
  on_Exec : list call → DBTX → string → result error bool;
  on_Commit : list call → positive → option error;
  on_Rollback : list call → positive → option error
}.

(** A transaction that begins is a new one. *)
Class FreshTx (d : Driver) : Prop := fresh_tx h tx : on_Begin d h = Ok tx → Began tx ∉ h.

Section calls.
Variable d : Driver.

Definition WithTx (ctx : Ctx) (fn : Ctx → list call → list call * fnOutcome) (h : list call) : list call * fnOutcome :=
  match on_Begin d h with
  | Err err => (h ++ [BeginFailed], Returned (Some (FmtError "failed to begin transaction: " err "")))
  | Ok tx =>
      match fn (WithValue ctx txKey (TxValue tx)) (h ++ [Began tx]) with
      | (h1, Panicked p) => (h1 ++ [Rollback tx rollbackTimeout], Panicked p)
      | (h1, Returned (Some err)) =>
          (h1 ++ [Rollback tx rollbackTimeout],
           match on_Rollback d h1 tx with
           | Some rbErr => Returned (Some (FmtError "tx error: " err (", rollback error: " +:+ ErrorText rbErr)))
           | None => Returned (Some err)
           end)
      | (h1, Returned None) =>
          (h1 ++ [Commit tx],
           match on_Commit d h1 tx with
           | Some err => Returned (Some (FmtError "failed to commit transaction: " err ""))
           | None => Returned None
           end)
      end
  end.

(** A statement of a repository method called with [ctx]. *)
Definition statement (ctx : Ctx) (stmt : string) (h : list call) : list call * result error bool :=
  let q := queries ctx in (h ++ [Exec (db q) stmt], on_Exec d h (db q) stmt).

(** *** Code that uses repositories and transactions

    [Stmt n] and [InTx n] are given the [n]-th enclosing context, 0 being the one of the
    innermost [WithTx]: code may hold on to the context outside. *)
Inductive code :=
| Done (out : fnOutcome)
| Stmt (n : nat) (stmt : string) (k : result error bool → code)
| InTx (n : nat) (body : code) (k : option error → code).

Definition nth_ctx (ctxs : list Ctx) (n : nat) : Ctx := nth n ctxs [].

(** A panic passes through; only [WithTx] recovers, and panics again. *)
Fixpoint interp (ctxs : list Ctx) (c : code) (h : list call) : list call * fnOutcome :=
  match c with
  | Done out => (h, out)
  | Stmt n stmt k => let '(h1, r) := statement (nth_ctx ctxs n) stmt h in interp ctxs (k r) h1
  | InTx n body k =>
      match WithTx (nth_ctx ctxs n) (λ ctx, interp (ctx :: ctxs) body) h with
      | (h1, Panicked p) => (h1, Panicked p)
      | (h1, Returned err) => interp ctxs (k err) h1
      end
  end.

(** [userUseCase.Create], after the password was hashed: both statements are given the
    context of the transaction. *)
Definition create (email : string) : code :=
  InTx 0
    (Stmt 0 "UserExistsByEmail" (λ r, match r with
     | Err err => Done (Returned (Some (FmtError "failed to check email existence: " err "")))
     | Ok true => Done (Returned (Some (Conflictf ("user with email " +:+ email +:+ " already exists"))))
     | Ok false =>
         Stmt 0 "CreateUser" (λ r, match r with
         | Err err =>
             Done (Returned (Some (if IsDuplicateKeyError (Some err)
                                   then Conflictf ("user with email " +:+ email +:+ " already exists")
                                   else FmtError "failed to create user: " err "")))
         | Ok _ => Done (Returned None)
         end)
     end))
    (λ err, Done (Returned err)).

End calls.

(** ** Brackets

    [check stk h] reads the calls with the stack of open transactions: a transaction is
    opened when it is not open, ends when it is the innermost, and a statement runs on the
    pool or on an open one.  [None] is a call out of place. *)
Fixpoint check (stk : list positive) (h : list call) : option (list positive) :=
  match h with
  | [] => Some stk
  | BeginFailed :: h' => check stk h'
  | Began tx :: h' => if decide (tx ∈ stk) then None else check (tx :: stk) h'
  | Exec Pool _ :: h' => check stk h'
  | Exec (Tx tx) _ :: h' => if decide (tx ∈ stk) then check stk h' else None
  | Commit tx :: h' | Rollback tx _ :: h' =>
      match stk with t :: stk' => if decide (t = tx) then check stk' h' else None | [] => None end
  end.

Lemma check_app stk h1 h2 : check stk (h1 ++ h2) = check stk h1 ≫= λ stk', check stk' h2.
Proof.
  revert stk. induction h1 as [|c h1 IH]; intros stk; [done|]. destruct c as [|tx|[|tx] s|tx|tx z]; cbn; try apply IH;
    repeat case_match; try apply IH; done.
Qed.

Definition begun (h : list call) : list positive := omap (λ c, match c with Began tx => Some tx | _ => None end) h.

Lemma begun_app h1 h2 : begun (h1 ++ h2) = begun h1 ++ begun h2.
Proof. apply omap_app. Qed.

Lemma elem_of_begun h tx : tx ∈ begun h ↔ Began tx ∈ h.
Proof.
  unfold begun. rewrite list_elem_of_omap. split; [intros ([] & Hin & Hc); by simplify_eq|intros Hin; by exists (Began tx)].
Qed.

Lemma begun_closed h tx z : begun (h ++ [Rollback tx z]) = begun h ∧ begun (h ++ [Commit tx]) = begun h.
Proof. by rewrite !begun_app, !app_nil_r. Qed.

(** The contexts in scope carry open transactions. *)
Definition in_scope (stk : list positive) (ctx : Ctx) : Prop := ∀ tx, GetTx ctx = Some tx → tx ∈ stk.

Lemma nth_in_scope stk ctxs n : Forall (in_scope stk) ctxs → in_scope stk (nth_ctx ctxs n).
Proof.
  intros Hs. unfold nth_ctx. destruct (nth_in_or_default n ctxs []) as [Hin | ->]; [|by intros tx].
  apply (proj1 (Forall_forall _ _) Hs). by apply list_elem_of_In.
Qed.

Lemma in_scope_cons stk tx ctx : in_scope stk ctx → in_scope (tx :: stk) ctx.
Proof. intros Hs t Ht. right. by apply Hs. Qed.

Lemma GetTx_WithValue ctx tx : GetTx (WithValue ctx txKey (TxValue tx)) = Some tx.
Proof. reflexivity. Qed.

(** What a piece of code adds to the calls is well bracketed over the open transactions. *)
Definition bracketed (stk : list positive) (m : list call → list call * fnOutcome) : Prop :=
  ∀ h, stk ⊆ begun h → NoDup (begun h) →
    ∃ h', (m h).1 = h ++ h' ∧ check stk h' = Some stk ∧ NoDup (begun (h ++ h')).

Section brackets.
Context (d : Driver) `{!FreshTx d}.

Lemma WithTx_bracketed stk ctx fn :
  (∀ tx, tx ∉ stk → bracketed (tx :: stk) (fn (WithValue ctx txKey (TxValue tx)))) → bracketed stk (WithTx d ctx fn).
Proof.
  intros Hfn h Hstk Hnd. unfold WithTx. destruct (on_Begin d h) as [tx|err] eqn:Hb.
  2: { exists [BeginFailed]. by rewrite begun_app, app_nil_r. }
  pose proof (fresh_tx h tx Hb) as Hf. rewrite <-elem_of_begun in Hf.
  assert (Hout : tx ∉ stk) by (intros Hin; by apply Hf, Hstk).
  destruct (Hfn tx Hout (h ++ [Began tx])) as (h' & Hh & Hc & Hn).
  { rewrite begun_app. set_solver. }
  { rewrite begun_app. apply NoDup_app. split_and!; [done|set_solver|apply NoDup_singleton]. }
  destruct (fn _ _) as [h1 out]; simpl in Hh; subst h1.
  assert (Hend : ∀ c, c = Rollback tx rollbackTimeout ∨ c = Commit tx →
    ∃ h'0, ((h ++ [Began tx]) ++ h') ++ [c] = h ++ h'0 ∧ check stk h'0 = Some stk ∧ NoDup (begun (h ++ h'0))).
  { intros c Hcl. exists ([Began tx] ++ h' ++ [c]). rewrite <-!app_assoc. split; [done|]. split.
    - cbn. rewrite decide_False by done. rewrite check_app, Hc. cbn. destruct Hcl as [-> | ->]; cbn; by rewrite decide_True.
    - rewrite (app_assoc [Began tx]), (app_assoc h), (app_assoc h). destruct Hcl as [-> | ->]; by rewrite ?(proj1 (begun_closed _ _ _)), ?(proj2 (begun_closed _ tx 0)). }
  destruct out as [[err|]|p]; cbn [fst]; apply Hend; auto.
Qed.

Lemma interp_bracketed c : ∀ stk ctxs, Forall (in_scope stk) ctxs → bracketed stk (interp d ctxs c).
Proof.
  induction c as [out|n stmt k IH|n body IHb k IHk]; intros stk ctxs Hs h Hstk Hnd.
  - exists []. by rewrite app_nil_r.
  - cbn [interp statement]. cbn. destruct (IH (on_Exec d h (DBFromContext (nth_ctx ctxs n)) stmt) stk ctxs Hs
      (h ++ [Exec (DBFromContext (nth_ctx ctxs n)) stmt])) as (h' & Hh & Hc & Hn).
    { rewrite begun_app, app_nil_r. done. }
    { rewrite begun_app, app_nil_r. done. }
    rewrite <-app_assoc in *. exists ([Exec (DBFromContext (nth_ctx ctxs n)) stmt] ++ h'). split_and!; [done| |done].
    pose proof (nth_in_scope stk ctxs n Hs) as Hi. cbn. unfold DBFromContext. unfold in_scope in Hi.
    destruct (GetTx _) as [tx|]; [|done]. by rewrite decide_True by (by apply Hi).
  - cbn [interp]. destruct (WithTx_bracketed stk (nth_ctx ctxs n) (λ ctx, interp d (ctx :: ctxs) body)) with (h := h)
      as (h' & Hh & Hc & Hn); [|done|done|].
    { intros tx Htx. apply IHb. constructor; [intros t; rewrite GetTx_WithValue; intros [= ->]; by left|].
      apply (Forall_impl _ _ _ Hs). intros ctx. apply in_scope_cons. }
    destruct (WithTx _ _ _ _) as [h1 [err|p]]; simpl in Hh; subst h1; [|by exists h'].
    destruct (IHk err stk ctxs Hs (h ++ h')) as (h2 & Hh2 & Hc2 & Hn2); [rewrite begun_app; set_solver|done|].
    exists (h' ++ h2). rewrite <-app_assoc in *. split_and!; [done| |done]. by rewrite check_app, Hc.
Qed.

(** C15: Whatever code runs transactions, nested in each other and with any of the contexts in
    scope, whatever the driver answers and wherever it panics: every transaction that began
    ends exactly once, in last-in first-out order, none is begun twice, and every statement
    runs on the pool or on a transaction that is open at that moment. *)
Theorem transactions_nest (c : code) :
  let '(h, _) := interp d [[]] c [] in check [] h = Some [] ∧ NoDup (begun h).
Proof.
  destruct (interp_bracketed c [] [[]]) with (h := @nil call) as (h & Hh & Hc & Hn).
  - constructor; [|constructor]. by intros tx.
  - done.
  - constructor.
  - destruct (interp _ _ _ _) as [h1 out]. simpl in *. by subst.
Qed.

(** The creation of a user: all its statements run on the one transaction, which is
    committed exactly when none of them failed and the address was free. *)
Lemma create_calls email h out :
  interp d [[]] (create email) [] = (h, out) →
  h = [BeginFailed] ∨ ∃ tx,
    h = [Began tx; Exec (Tx tx) "UserExistsByEmail"; Exec (Tx tx) "CreateUser"; Commit tx] ∨
    (∃ err, out = Returned (Some err)) ∧
    (h = [Began tx; Exec (Tx tx) "UserExistsByEmail"; Rollback tx rollbackTimeout] ∨
     h = [Began tx; Exec (Tx tx) "UserExistsByEmail"; Exec (Tx tx) "CreateUser"; Rollback tx rollbackTimeout]).
Proof.
  unfold create. cbn. unfold WithTx. cbn. destruct (on_Begin d []) as [tx|err]; [|intros [= <- _]; by left].
  intros Hi. right. exists tx. destruct (on_Exec d _ _ _) as [[]|err]; cbn in Hi.
  - right. destruct (on_Rollback d _ _); injection Hi as <- <-; eauto.
  - destruct (on_Exec d _ _ _) as [b|err]; cbn in Hi.
    + left. destruct (on_Commit d _ _); by injection Hi as <- _.
    + right. destruct (on_Rollback d _ _); injection Hi as <- <-; eauto.
  - right. destruct (on_Rollback d _ _); injection Hi as <- <-; eauto.
Qed.

End brackets.

(** The outcome is the one of [Database.WithTx] on the answers the driver gave. *)
Lemma WithTx_outcome d ctx fn h :
  let tx := match on_Begin d h with Ok tx => tx | Err _ => 1%positive end in
  let '(h1, out) := fn (WithValue ctx txKey (TxValue tx)) (h ++ [Began tx]) in
  (WithTx d ctx fn h).2 =
    (Database.WithTx (mkTxAnswers (match on_Begin d h with Ok _ => None | Err err => Some err end)
       (on_Rollback d h1 tx) (on_Commit d h1 tx) false) () (λ u, (u, (), out))).2.
Proof.
  unfold WithTx, Database.WithTx. cbn zeta. destruct (on_Begin d h) as [tx|err]; [|by destruct (fn _ _)].
  destruct (fn _ _) as [h1 [[err|]|p]]; cbn; by repeat case_match.
Qed.

(** *** A transaction inside a transaction *)

(** Numbers the transactions; nothing fails. *)
Definition counting : Driver :=
  mkDriver (λ h, Ok (Pos.of_succ_nat (length h))) (λ _ _ _, Ok false) (λ _ _, None) (λ _ _, None).

#[export] Instance minting_fresh d : FreshTx (mkDriver (λ h, Ok (Pos.succ (foldr Pos.max 1%positive (begun h))))
  (on_Exec d) (on_Commit d) (on_Rollback d)).
Proof.
  intros h tx. cbn. intros [= <-] Hin%elem_of_begun.
  assert (∀ l t, t ∈ l → (t ≤ foldr Pos.max 1 l)%positive) as Hm.
  { intros l t. induction 1; cbn; lia. }
  apply Hm in Hin. lia.
Qed.

Definition minting : Driver :=
  mkDriver (λ h, Ok (Pos.succ (foldr Pos.max 1%positive (begun h)))) (on_Exec counting) (on_Commit counting) (on_Rollback counting).

(** [WithTx] asks the pool for a connection, not the transaction of its context for a
    savepoint: an inner transaction is independent, and stays committed when the outer one
    is rolled back. *)
Example inner_survives_rollback :
  interp minting [[]] (InTx 0 (InTx 0 (Stmt 0 "inner" (λ _, Done (Returned None)))
      (λ _, Stmt 1 "beside" (λ _, Stmt 0 "outer" (λ _, Done (Panicked "boom"))))) (λ err, Done (Returned err))) [] =
  ([Began 2; Began 3; Exec (Tx 3) "inner"; Commit 3; Exec Pool "beside"; Exec (Tx 2) "outer"; Rollback 2 (5 * Second)],
   Panicked "boom").
Proof. vm_compute. reflexivity. Qed.

Lemma transactions_nest_witness :
  let '(h, _) := interp minting [[]] (create "a@b.c") [] in check [] h = Some [] ∧ NoDup (begun h).
Proof. exact (@transactions_nest minting (minting_fresh counting) (create "a@b.c")). Defined.

End TxContext.
