(* ===== verification/Validator.v ===== *)
(** * Request validation

    Models [internal/platform/validator/validator.go] and
    [internal/platform/sanitizer/sanitizer.go]: the reflection walk that sanitizes every
    settable string of a decoded request, and the conversion of the validation library's
    field errors into the response.  The decoder (Fiber's body parser), the HTML policy
    (bluemonday) and the rule engine (go-playground/validator) are parameters. *)
From S2P Require Import Prelude GoStr AppErr.
Import AppErr.

Module Validator.

(** The name a field has in the errors, from its json tag; when it is empty the library
    uses the Go name. *)
Definition tagName (jsonTag : string) : string :=
  match GoStr.SplitN2 "," jsonTag with
  | name :: _ => if String.eqb name "-" then "" else name
  | [] => ""
  end.

Example tagName_examples : tagName "email,omitempty" = "email" ∧ tagName "-" = "" ∧ tagName "" = "".
Proof. done. Qed.

(** ** The sanitizer's walk *)

(** A decoded request as [reflect] presents it. *)
Inductive rvalue :=
| RString (s : string)
| RStruct (fields : list rfield)
| RPtr (v : option rvalue)
| RSlice (l : list rvalue)
| ROther (z : Z)              (* numbers, booleans, maps, ... *)
with rfield := mkRField (name : string) (settable : bool) (v : rvalue).

Section walk.
Variable Sanitize : string → string.   (* bluemonday.StrictPolicy().Sanitize *)

Fixpoint sanitizeValue (v : rvalue) : rvalue :=
  match v with
  | RString s => RString (Sanitize s)
  | RStruct fs =>
      RStruct ((fix go (fs : list rfield) : list rfield :=
                  match fs with
                  | [] => []
                  | mkRField n true w :: fs' => mkRField n true (sanitizeValue w) :: go fs'
                  | mkRField n false w :: fs' => mkRField n false w :: go fs'
                  end) fs)
  | RPtr (Some w) => RPtr (Some (sanitizeValue w))
  | RPtr None => RPtr None
  | RSlice l => RSlice ((fix go (l : list rvalue) : list rvalue :=
                  match l with [] => [] | w :: l' => sanitizeValue w :: go l' end) l)
  | ROther z => ROther z
  end.

(** [SanitizeStruct(v)]: the argument is a pointer to the struct. *)
Definition SanitizeStruct (v : rvalue) : rvalue :=
  match v with
  | RStruct _ => sanitizeValue v
  | RPtr (Some (RStruct fs)) => RPtr (Some (sanitizeValue (RStruct fs)))
  | _ => v
  end.

(** The settable strings of a value, in order. *)
Fixpoint texts (v : rvalue) : list string :=
  match v with
  | RString s => [s]
  | RStruct fs => (fix go (fs : list rfield) : list string :=
                     match fs with
                     | [] => []
                     | mkRField _ true w :: fs' => texts w ++ go fs'
                     | mkRField _ false _ :: fs' => go fs'
                     end) fs
  | RPtr (Some w) => texts w
  | RPtr None => []
  | RSlice l => (fix go (l : list rvalue) : list string :=
                   match l with [] => [] | w :: l' => texts w ++ go l' end) l
  | ROther _ => []
  end.

Fixpoint texts_sanitizeValue (v : rvalue) : texts (sanitizeValue v) = Sanitize <$> texts v.
Proof.
  destruct v as [s|fs|[w|]|l|z]; [reflexivity| | |reflexivity| |reflexivity].
  - cbn. induction fs as [|[n [] w] fs IH]; [reflexivity| |exact IH].
    rewrite fmap_app, <-texts_sanitizeValue. f_equal. exact IH.
  - exact (texts_sanitizeValue w).
  - cbn. induction l as [|w l IH]; [reflexivity|].
    rewrite fmap_app, <-texts_sanitizeValue. f_equal. exact IH.
Qed.

End walk.

(** ** Field errors *)

(** [validator.FieldError]: the field's JSON name, the failed rule and its parameter *)
Record FieldError := mkFieldError { fe_Field : string; fe_Tag : string; fe_Param : string }.

Definition formatError (e : FieldError) : string :=
  let field := fe_Field e in
  let param := fe_Param e in
  let tag_is := String.eqb (fe_Tag e) in
  if tag_is "required" then field +:+ " is required"
  else if tag_is "email" then field +:+ " must be a valid email address"
  else if tag_is "min" then field +:+ " must be at least " +:+ param +:+ " characters"
  else if tag_is "max" then field +:+ " must be at most " +:+ param +:+ " characters"
  else if tag_is "len" then field +:+ " must be exactly " +:+ param +:+ " characters"
  else if tag_is "gte" then field +:+ " must be greater than or equal to " +:+ param
  else if tag_is "lte" then field +:+ " must be less than or equal to " +:+ param
  else if tag_is "gt" then field +:+ " must be greater than " +:+ param
  else if tag_is "lt" then field +:+ " must be less than " +:+ param
  else if tag_is "oneof" then field +:+ " must be one of: " +:+ param
  else if tag_is "uuid" then field +:+ " must be a valid UUID"
  else if tag_is "url" then field +:+ " must be a valid URL"
  else if tag_is "alphanum" then field +:+ " must contain only alphanumeric characters"
  else if tag_is "numeric" then field +:+ " must be numeric"
  else if tag_is "eqfield" then field +:+ " must be equal to " +:+ param
  else field +:+ " is invalid".

(** The [map[string]string] the errors are collected in: a later error of the same field
    replaces the earlier one. *)
Definition ValidateStruct (rules : rvalue → list FieldError) (s : rvalue) : gmap string string :=
  foldl (λ errs e, <[fe_Field e := formatError e]> errs) ∅ (rules s).

Definition Validate (rules : rvalue → list FieldError) (s : rvalue) : option error :=
  let errs := ValidateStruct rules s in
  if (0 <? Z.of_nat (size errs)) then Some (ValidationError (map_to_list errs)) else None.

(** [parsed] is what [c.BodyParser(s)] did: the filled struct or an error. *)
Definition ValidateAndBind (Sanitize : string → string) (rules : rvalue → list FieldError)
    (parsed : option rvalue) : rvalue * option error :=
  match parsed with
  | None => (ROther 0, Some (ValidationError [("body", "Invalid request body")]))
  | Some s => let s' := SanitizeStruct Sanitize s in (s', Validate rules s')
  end.

Definition ValidateQuery (rules : rvalue → list FieldError) (parsed : option rvalue) : rvalue * option error :=
  match parsed with
  | None => (ROther 0, Some (ValidationError [("query", "Invalid query parameters")]))
  | Some s => (s, Validate rules s)
  end.

(** [errors.As] with a *ValidationError target *)
Fixpoint IsValidationError (e : error) : option (list (string * string)) :=
  match e with
  | ValidationError errs => Some errs
  | AppError _ _ _ (Some w) => IsValidationError w
  | FmtError _ i _ => IsValidationError i
  | _ => None
  end.

Definition HandleValidationError {A} (err : error) : Response A :=
  match IsValidationError err with
  | Some errs => Resp.ValidationFailed errs
  | None => Resp.Fail (BadRequestf (ErrorText err))
  end.

(** ** Properties *)

Lemma ValidateStruct_dom rules s :
  dom (ValidateStruct rules s) = list_to_set (fe_Field <$> rules s).
Proof.
  unfold ValidateStruct.
  assert (∀ l m, dom (foldl (λ errs e, <[fe_Field e := formatError e]> errs) m l)
                 = dom (m : gmap string string) ∪ list_to_set (fe_Field <$> l)) as ->; [|set_solver].
  induction l as [|e l IH]; intros m; simpl; [set_solver|]. rewrite IH, dom_insert_L. set_solver.
Qed.

Lemma Validate_None rules s : Validate rules s = None ↔ rules s = [].
Proof.
  unfold Validate. pose proof (ValidateStruct_dom rules s) as Hd.
  destruct (Z.ltb_spec 0 (Z.of_nat (size (ValidateStruct rules s)))) as [Hs|Hs].
  - split; [done|]. intros Hr. rewrite Hr in Hd. simpl in Hd. apply dom_empty_iff_L in Hd.
    rewrite Hd in Hs. rewrite map_size_empty in Hs. lia.
  - split; [intros _|done]. assert (ValidateStruct rules s = ∅) as He.
    { apply map_size_empty_inv. lia. }
    rewrite He, dom_empty_L in Hd. destruct (rules s); [done|]. simpl in Hd. set_solver.
Qed.

(** What a handler may act on.  When binding reports no error, the request given to
    the handler is the sanitized one (every settable string of the decoded body, at any
    depth, went through the HTML policy) and the rule engine found nothing wrong with that
    very value; when it reports one, the answer is 400 with a validation body. *)
Theorem bound_request_validated (Sanitize : string → string) (rules : rvalue → list FieldError)
    (fs : list rfield) :
  let '(v, err) := ValidateAndBind Sanitize rules (Some (RPtr (Some (RStruct fs)))) in
  texts v = Sanitize <$> texts (RPtr (Some (RStruct fs))) ∧
  (err = None ↔ rules v = []) ∧
  (∀ e, err = Some e →
     status (@HandleValidationError unit e) = 400 ∧
     ∃ errs, resp_error (@HandleValidationError unit e)
               = Some (mkErrorBody CodeValidation "Validation failed" (Some errs)) ∧
       ∀ f, f ∈ errs.*1 ↔ f ∈ fe_Field <$> rules v).
Proof.
  cbn [ValidateAndBind SanitizeStruct]. split; [|split].
  - apply (texts_sanitizeValue Sanitize (RPtr (Some (RStruct fs)))).
  - apply Validate_None.
  - intros e. unfold Validate. case_match; [|done]. intros [= <-]. split; [done|].
    eexists. split; [reflexivity|]. intros f.
    set (s' := RPtr _). pose proof (ValidateStruct_dom rules s') as Hd.
    assert (f ∈ fe_Field <$> rules s' ↔ is_Some (ValidateStruct rules s' !! f)) as ->.
    { rewrite <-elem_of_dom, Hd. symmetry. apply elem_of_list_to_set. }
    rewrite list_elem_of_fmap. split.
    + intros ([f' m] & -> & Hin). apply elem_of_map_to_list in Hin. eauto.
    + intros [m Hm]. exists (f, m). split; [done|]. by apply elem_of_map_to_list.
Qed.

Definition sample_rules (v : rvalue) : list FieldError :=
  match v with
  | RPtr (Some (RStruct [mkRField "Role" _ (RString "")])) => [mkFieldError "role" "required" ""]
  | _ => []
  end.
Definition sample_policy (s : string) : string := if String.eqb s "<b></b>" then "" else s.

Lemma bound_request_validated_witness :
  let '(v, err) := ValidateAndBind sample_policy sample_rules
                     (Some (RPtr (Some (RStruct [mkRField "Role" true (RString "<b></b>")])))) in
  texts v = [""] ∧ ∃ e, err = Some e ∧ status (@HandleValidationError unit e) = 400.
Proof.
  destruct (bound_request_validated sample_policy sample_rules [mkRField "Role" true (RString "<b></b>")])
    as (Ht & _ & He).
  split; [exact Ht|]. eexists. split; [vm_compute; reflexivity|]. apply He. vm_compute. reflexivity.
Defined.

End Validator.
