(* ===== verification/DecisionCache.v ===== *)
(** * The LRU decision cache of the Casbin adapter

    Models [internal/adapter/casbin/cache.go].  The Go structure keeps a map
    from flattened keys to elements of a doubly linked list; the model keeps
    both, with element identities, so the aliasing between the map and the list
    is explicit.  The abstract specification is a recency list of decisions
    indexed by the (subject, object, action) triple; [run_refines] states that
    every sequence of operations on the Go structure produces the outputs of
    the abstract one. *)
From S2P Require Import Prelude.

Module DecisionCache.

(** ** State *)

Record cacheEntry := mkEntry { key : string; value : bool }.

Record decisionCache := mkCache {
  maxSize : Z;
  items : gmap string nat;       (* map[string]*list.Element *)
  order : list nat;              (* container/list elements, front first *)
  store : gmap nat cacheEntry;   (* the *cacheEntry held by each element *)
  next_elem : nat                (* identity of the next element allocated *)
}.

(** A [*decisionCache]; the methods accept a nil receiver. *)
Abbreviation cachePtr := (option decisionCache).

Definition newDecisionCache (n : Z) : cachePtr := Some (mkCache n ∅ [] ∅ 0).

(** ** container/list, restricted to what the cache uses *)

Definition list_remove (el : nat) (l : list nat) : list nat := filter (λ x, x ≠ el) l.
Definition list_move_to_front (el : nat) (l : list nat) : list nat :=
  if decide (el ∈ l) then el :: list_remove el l else l.

(** ** Operations *)

Definition cacheKey (sub obj act : string) : string :=
  sub +:+ String NUL (obj +:+ String NUL act).

Definition has_nul3 (sub obj act : string) : bool :=
  contains_byte NUL sub || contains_byte NUL obj || contains_byte NUL act.

Definition get (cp : cachePtr) (sub obj act : string) : cachePtr * (bool * bool) :=
  match cp with
  | None => (cp, (false, false))
  | Some c =>
      if maxSize c =? 0 then (cp, (false, false))
      else if has_nul3 sub obj act then (cp, (false, false))
      else match items c !! cacheKey sub obj act with
           | None => (cp, (false, false))
           | Some el =>
               let c' := mkCache (maxSize c) (items c) (list_move_to_front el (order c))
                                 (store c) (next_elem c) in
               (Some c', (match store c !! el with Some e => value e | None => false end, true))
           end
  end.

Definition evictLRU (c : decisionCache) : decisionCache :=
  match last (order c) with
  | None => c
  | Some tail =>
      mkCache (maxSize c)
        (match store c !! tail with Some e => delete (key e) (items c) | None => items c end)
        (list_remove tail (order c)) (store c) (next_elem c)
  end.

Definition put (cp : cachePtr) (sub obj act : string) (v : bool) : cachePtr :=
  match cp with
  | None => cp
  | Some c =>
      if maxSize c =? 0 then cp
      else if has_nul3 sub obj act then cp
      else
        let k := cacheKey sub obj act in
        match items c !! k with
        | Some el =>
            Some (mkCache (maxSize c) (items c) (list_move_to_front el (order c))
                    (alter (λ e, mkEntry (key e) v) el (store c)) (next_elem c))
        | None =>
            let c1 := if Z.of_nat (length (order c)) >=? maxSize c then evictLRU c else c in
            let el := next_elem c1 in
            Some (mkCache (maxSize c1) (<[k := el]> (items c1)) (el :: order c1)
                    (<[el := mkEntry k v]> (store c1)) (S el))
        end
  end.

(** [len(key) >= len(prefix) && key[:len(prefix)] == prefix] *)
Definition key_has_prefix (k prefix : string) : bool :=
  (String.length prefix <=? String.length k)%nat &&
  String.eqb (String.substring 0 (String.length prefix) k) prefix.

(** The body of the [range] loop of [invalidateSub]; Go visits the entries in an
    unspecified order and deletes only the entry it is visiting. *)
Definition invalidate_entry (prefix : string) (c : decisionCache) (ke : string * nat) : decisionCache :=
  if key_has_prefix ke.1 prefix then
    mkCache (maxSize c) (delete ke.1 (items c)) (list_remove ke.2 (order c)) (store c) (next_elem c)
  else c.

Definition invalidateSub (cp : cachePtr) (sub : string) : cachePtr :=
  match cp with
  | None => cp
  | Some c =>
      if maxSize c =? 0 then cp
      else Some (foldl (invalidate_entry (sub +:+ String NUL "")) c (map_to_list (items c)))
  end.

Definition flush (cp : cachePtr) : cachePtr :=
  match cp with
  | None => cp
  | Some c => if maxSize c =? 0 then cp
              else Some (mkCache (maxSize c) ∅ [] (store c) (next_elem c))
  end.

Definition len (cp : cachePtr) : Z :=
  match cp with None => 0 | Some c => Z.of_nat (length (order c)) end.

(** ** Abstract specification: a recency list of decisions *)

Definition request : Type := string * string * string.

Definition rkey (r : request) : string := cacheKey r.1.1 r.1.2 r.2.
Definition nul_free (r : request) : Prop := has_nul3 r.1.1 r.1.2 r.2 = false.

Definition lru_without (r : request) (l : list (request * bool)) : list (request * bool) :=
  filter (λ p, p.1 ≠ r) l.

Fixpoint lru_find (r : request) (l : list (request * bool)) : option bool :=
  match l with
  | [] => None
  | p :: l' => if decide (p.1 = r) then Some p.2 else lru_find r l'
  end.

Definition lru_evict (l : list (request * bool)) : list (request * bool) :=
  take (pred (length l)) l.

Inductive cop :=
| OpGet (r : request)
| OpPut (r : request) (v : bool)
| OpInvalidate (sub : string)
| OpFlush
| OpLen.

Inductive cout := OutGet (v ok : bool) | OutUnit | OutLen (n : Z).

Definition cstep (cp : cachePtr) (op : cop) : cachePtr * cout :=
  match op with
  | OpGet (s, o, a) => let '(cp', (v, ok)) := get cp s o a in (cp', OutGet v ok)
  | OpPut (s, o, a) v => (put cp s o a v, OutUnit)
  | OpInvalidate s => (invalidateSub cp s, OutUnit)
  | OpFlush => (flush cp, OutUnit)
  | OpLen => (cp, OutLen (len cp))
  end.

Definition lru_step (n : Z) (l : list (request * bool)) (op : cop) : list (request * bool) * cout :=
  match op with
  | OpGet r =>
      if has_nul3 r.1.1 r.1.2 r.2 then (l, OutGet false false)
      else match lru_find r l with
           | Some v => ((r, v) :: lru_without r l, OutGet v true)
           | None => (l, OutGet false false)
           end
  | OpPut r v =>
      if has_nul3 r.1.1 r.1.2 r.2 then (l, OutUnit)
      else match lru_find r l with
           | Some _ => ((r, v) :: lru_without r l, OutUnit)
           | None => ((r, v) :: (if Z.of_nat (length l) >=? n then lru_evict l else l), OutUnit)
           end
  | OpInvalidate s => (filter (λ p, p.1.1.1 ≠ s) l, OutUnit)
  | OpFlush => ([], OutUnit)
  | OpLen => (l, OutLen (Z.of_nat (length l)))
  end.

Fixpoint crun (cp : cachePtr) (ops : list cop) : cachePtr * list cout :=
  match ops with
  | [] => (cp, [])
  | op :: ops' => let '(cp1, o) := cstep cp op in
                  let '(cp2, os) := crun cp1 ops' in (cp2, o :: os)
  end.

Fixpoint lru_run (n : Z) (l : list (request * bool)) (ops : list cop) : list (request * bool) * list cout :=
  match ops with
  | [] => (l, [])
  | op :: ops' => let '(l1, o) := lru_step n l op in
                  let '(l2, os) := lru_run n l1 ops' in (l2, o :: os)
  end.

(** The adapter calls [invalidateSub] only on validated (NUL-free) subjects. *)
Definition op_ok (op : cop) : Prop :=
  match op with OpInvalidate s => contains_byte NUL s = false | _ => True end.

(** ** Simulation *)

Definition entry_rel (c : decisionCache) (el : nat) (p : request * bool) : Prop :=
  store c !! el = Some (mkEntry (rkey p.1) p.2) ∧ items c !! rkey p.1 = Some el ∧ nul_free p.1.

Record sim (n : Z) (c : decisionCache) (l : list (request * bool)) : Prop := {
  sim_max : maxSize c = n;
  sim_rel : Forall2 (entry_rel c) (order c) l;
  sim_items : ∀ k el, items c !! k = Some el → ∃ p, p ∈ l ∧ k = rkey p.1;
  sim_nodup : NoDup (order c);
  sim_fresh : ∀ el, el ∈ order c → (el < next_elem c)%nat
}.

Lemma rkey_inj r1 r2 : nul_free r1 → nul_free r2 → rkey r1 = rkey r2 → r1 = r2.
Proof.
  destruct r1 as [[s1 o1] a1], r2 as [[s2 o2] a2].
  unfold nul_free, has_nul3, rkey, cacheKey; simpl. intros H1 H2 Heq. to_prop.
  apply append_sep_inj in Heq as [-> Heq]; [|done..].
  by apply append_sep_inj in Heq as [-> ->].
Qed.

Lemma lru_find_Some r l v : lru_find r l = Some v → (r, v) ∈ l.
Proof.
  induction l as [|[r' v'] l IH]; simpl; [done|].
  case_decide; simplify_eq/=; intros; simplify_eq; [by left | right; auto].
Qed.

Lemma lru_find_None r l : lru_find r l = None ↔ ∀ v, (r, v) ∉ l.
Proof.
  induction l as [|[r' v'] l IH]; simpl.
  - split; [intros _ v ?%elem_of_nil; done | done].
  - case_decide; simplify_eq/=.
    + split; [done | intros H; exfalso; apply (H v'); by left].
    + rewrite IH. setoid_rewrite elem_of_cons. naive_solver.
Qed.

Section sim_lemmas.
Context {n : Z} {c : decisionCache} {l : list (request * bool)} (HS : sim n c l).

Lemma sim_elem p : p ∈ l → ∃ el, el ∈ order c ∧ entry_rel c el p.
Proof. intros Hp. eapply Forall2_elem_of_r; [apply HS | done]. Qed.

Lemma sim_hit r el :
  nul_free r → items c !! rkey r = Some el →
  ∃ v, lru_find r l = Some v ∧ el ∈ order c ∧ entry_rel c el (r, v).
Proof.
  intros Hr Hi. destruct (sim_items _ _ _ HS _ _ Hi) as ([r' v'] & Hin & Hk).
  destruct (sim_elem _ Hin) as (el' & _ & _ & _ & Hr').
  apply rkey_inj in Hk; [|done..]. simpl in Hk; subst r'.
  destruct (lru_find r l) as [v|] eqn:Hf; [|by apply lru_find_None with (v:=v') in Hf].
  apply lru_find_Some in Hf. destruct (sim_elem _ Hf) as (el2 & Hel2 & Hrel).
  assert (el2 = el) as -> by (destruct Hrel as (_ & Hi' & _); simpl in *; congruence).
  eauto.
Qed.

Lemma sim_miss r : items c !! rkey r = None → lru_find r l = None.
Proof.
  intros Hi. apply lru_find_None. intros v Hin.
  destruct (sim_elem _ Hin) as (el & _ & _ & Hi' & _). simpl in *. congruence.
Qed.

Lemma sim_without r v el :
  entry_rel c el (r, v) → Forall2 (entry_rel c) (list_remove el (order c)) (lru_without r l).
Proof.
  intros (Hs & Hi & Hr). apply Forall2_filter; [|apply HS].
  intros el' [r' v'] (Hs' & Hi' & Hr'); simpl in *. split; intros Hne Heq; apply Hne.
  - subst r'. congruence.
  - subst el'. rewrite Hs in Hs'. injection Hs' as Hk _. by apply rkey_inj.
Qed.

(** Moving an element to the front and rewriting its value. *)
Lemma sim_promote r v v' el st :
  entry_rel c el (r, v) →
  el ∈ order c →
  st !! el = Some (mkEntry (rkey r) v') →
  (∀ el', el' ≠ el → st !! el' = store c !! el') →
  sim n (mkCache (maxSize c) (items c) (list_move_to_front el (order c)) st (next_elem c))
        ((r, v') :: lru_without r l).
Proof.
  intros Hrel Hin Hst Hother. unfold list_move_to_front. rewrite decide_True by done.
  pose proof (sim_without _ _ _ Hrel) as Hw. destruct Hrel as (Hs & Hi & Hr).
  split; simpl.
  - apply HS.
  - constructor; [done|]. eapply Forall2_impl_in; [exact Hw|].
    intros el' p [Hne _]%list_elem_of_filter _ (Hs' & ? & ?). unfold entry_rel; simpl.
    by rewrite Hother.
  - intros k el' Hk. destruct (sim_items _ _ _ HS _ _ Hk) as ([r' v''] & Hp & ->).
    destruct (decide (r' = r)) as [->|Hne].
    + exists (r, v'). split; [by left | done].
    + exists (r', v''). split; [right; by apply list_elem_of_filter | done].
  - constructor; [by intros [? _]%list_elem_of_filter | apply NoDup_filter, HS].
  - intros el' [->|[_ ?]%list_elem_of_filter]%elem_of_cons; by apply (sim_fresh _ _ _ HS).
Qed.

(** Dropping one map entry together with its list element. *)
Lemma sim_delete k el :
  items c !! k = Some el →
  sim n (mkCache (maxSize c) (delete k (items c)) (list_remove el (order c)) (store c) (next_elem c))
        (filter (λ p, rkey p.1 ≠ k) l).
Proof.
  intros Hk. destruct (sim_items _ _ _ HS _ _ Hk) as (p0 & Hp0 & ->).
  destruct (sim_elem _ Hp0) as (el0 & _ & Hs0 & Hi0 & _).
  assert (el0 = el) as -> by congruence.
  split; simpl.
  - apply HS.
  - eapply Forall2_impl_in with (R := entry_rel c).
    + apply Forall2_filter; [|apply HS]. intros el' p (Hs' & Hi' & _).
      split; intros Hne Heq; apply Hne; [congruence|subst el'; congruence].
    + intros el' p _ [Hne _]%list_elem_of_filter (? & ? & ?). unfold entry_rel; simpl.
      by rewrite lookup_delete_ne by done.
  - intros k' el' [Hne Hk']%lookup_delete_Some.
    destruct (sim_items _ _ _ HS _ _ Hk') as (p & Hp & ->).
    exists p. split; [by apply list_elem_of_filter | done].
  - apply NoDup_filter, HS.
  - intros el' [_ ?]%list_elem_of_filter. by apply (sim_fresh _ _ _ HS).
Qed.

Lemma sim_insert r v :
  nul_free r → items c !! rkey r = None →
  sim n (mkCache (maxSize c) (<[rkey r := next_elem c]> (items c)) (next_elem c :: order c)
          (<[next_elem c := mkEntry (rkey r) v]> (store c)) (S (next_elem c)))
        ((r, v) :: l).
Proof.
  intros Hr Hk.
  assert (next_elem c ∉ order c) as Hfresh by (intros ?%(sim_fresh _ _ _ HS); lia).
  split; simpl.
  - apply HS.
  - constructor; [by unfold entry_rel; simpl; rewrite !lookup_insert_eq|].
    eapply Forall2_impl_in; [apply HS|]. intros el p Hel Hp (Hs & Hi & ?).
    unfold entry_rel; simpl. rewrite !lookup_insert_ne; [done|congruence|congruence].
  - intros k el [[<- <-]|[_ Hk']]%lookup_insert_Some.
    + exists (r, v). split; [by left | done].
    + destruct (sim_items _ _ _ HS _ _ Hk') as (p & Hp & ->). exists p. split; [by right | done].
  - constructor; [done | apply HS].
  - intros el [->|?%(sim_fresh _ _ _ HS)]%elem_of_cons; lia.
Qed.

End sim_lemmas.

Lemma sim_evict n c l : sim n c l → sim n (evictLRU c) (lru_evict l).
Proof.
  intros HS. unfold evictLRU. destruct (last (order c)) as [tail|] eqn:Hl.
  - apply last_Some in Hl as [o Ho].
    pose proof (sim_rel _ _ _ HS) as Hrel. rewrite Ho in Hrel.
    apply Forall2_app_inv_l in Hrel as (l1 & l2 & H1 & H2 & ->).
    apply Forall2_cons_inv_l in H2 as (p & l3 & Hp & ->%Forall2_nil_inv_l & ->).
    destruct Hp as (Hs & Hi & Hr). rewrite Hs; simpl.
    replace (lru_evict (l1 ++ [p])) with (filter (λ q, rkey q.1 ≠ rkey p.1) (l1 ++ [p])).
    { by apply (sim_delete HS). }
    unfold lru_evict. rewrite length_app, Nat.add_comm; simpl. rewrite take_app_length.
    rewrite filter_app, filter_cons_False by (by intros []). rewrite filter_nil, app_nil_r.
    apply filter_all, Forall_forall. intros q Hq Hk.
    destruct (Forall2_elem_of_r _ _ _ _ H1 Hq) as (el & Hel & _ & Hi' & _).
    pose proof (sim_nodup _ _ _ HS) as Hnd. rewrite Ho in Hnd.
    apply NoDup_app in Hnd as (_ & Hd & _). apply (Hd el Hel).
    rewrite Hk in Hi'. assert (el = tail) as -> by congruence. by left.
  - apply last_None in Hl. pose proof (sim_rel _ _ _ HS) as Hrel. rewrite Hl in Hrel.
    apply Forall2_nil_inv_l in Hrel as ->. done.
Qed.

Lemma substring_has_prefix p s :
  String.eqb (String.substring 0 (String.length p) s) p = has_prefix p s.
Proof.
  revert s. induction p as [|a p IH]; intros s; simpl; [by destruct s|].
  destruct s as [|b s]; simpl; [done|]. rewrite IH.
  by rewrite (Ascii.eqb_sym b a); destruct (Ascii.eqb a b).
Qed.

Lemma has_prefix_length p s : has_prefix p s = true → (String.length p ≤ String.length s)%nat.
Proof. intros [t ->]%has_prefix_spec. rewrite length_append. lia. Qed.

Lemma key_has_prefix_spec k p : key_has_prefix k p = has_prefix p k.
Proof.
  unfold key_has_prefix. rewrite substring_has_prefix.
  destruct (has_prefix p k) eqn:H; [|by rewrite andb_false_r].
  apply has_prefix_length in H. rewrite andb_true_r. by apply Nat.leb_le.
Qed.

(** The prefix test of [invalidateSub] selects exactly the entries of the subject. *)
Lemma key_prefix_sub r sub :
  nul_free r → contains_byte NUL sub = false →
  key_has_prefix (rkey r) (sub +:+ String NUL "") = true ↔ r.1.1 = sub.
Proof.
  destruct r as [[s o] a]. unfold nul_free, has_nul3, rkey, cacheKey; simpl. intros Hr Hsub.
  to_prop. rewrite key_has_prefix_spec, has_prefix_spec. split.
  - intros [t Ht]. rewrite append_assoc in Ht. simpl in Ht.
    by apply append_sep_inj in Ht as [-> _].
  - intros ->. exists (o +:+ String NUL a). by rewrite append_assoc.
Qed.

Definition drop_key (prefix : string) (l : list (request * bool)) (ke : string * nat) :=
  if key_has_prefix ke.1 prefix then filter (λ p, rkey p.1 ≠ ke.1) l else l.

Lemma sim_invalidate_fold n prefix kvs c l :
  sim n c l → NoDup kvs.*1 → (∀ k el, (k, el) ∈ kvs → items c !! k = Some el) →
  sim n (foldl (invalidate_entry prefix) c kvs) (foldl (drop_key prefix) l kvs).
Proof.
  revert c l. induction kvs as [|[k el] kvs IH]; intros c l HS Hnd Hk; [done|].
  simpl in *. apply NoDup_cons in Hnd as [Hk' Hnd].
  apply IH; [|done|].
  - unfold invalidate_entry, drop_key; simpl. destruct (key_has_prefix k prefix); [|done].
    apply (sim_delete HS). apply Hk. by left.
  - intros k2 el2 Hin. assert (items c !! k2 = Some el2) as Hi by (apply Hk; by right).
    unfold invalidate_entry; simpl. destruct (key_has_prefix k prefix); simpl; [|done].
    rewrite lookup_delete_ne; [done|]. intros ->. apply Hk'. apply list_elem_of_fmap.
    by exists (k2, el2).
Qed.

Definition hit (prefix : string) (kvs : list (string * nat)) (p : request * bool) : bool :=
  existsb (λ ke, key_has_prefix ke.1 prefix && String.eqb (rkey p.1) ke.1) kvs.

Lemma foldl_drop_key prefix kvs l :
  foldl (drop_key prefix) l kvs = filter (λ p, hit prefix kvs p = false) l.
Proof.
  revert l. induction kvs as [|ke kvs IH]; intros l; simpl.
  - symmetry. by apply filter_all, Forall_forall.
  - rewrite IH. unfold drop_key. destruct (key_has_prefix ke.1 prefix) eqn:Hk; simpl.
    + rewrite list_filter_filter. apply filter_iff_in. intros p _.
      rewrite orb_false_iff, String.eqb_neq. tauto.
    + by apply filter_iff_in.
Qed.

Lemma sim_invalidate n c l sub :
  sim n c l → contains_byte NUL sub = false →
  sim n (foldl (invalidate_entry (sub +:+ String NUL "")) c (map_to_list (items c)))
        (filter (λ p, p.1.1.1 ≠ sub) l).
Proof.
  intros HS Hsub.
  assert (filter (λ p, p.1.1.1 ≠ sub) l =
          foldl (drop_key (sub +:+ String NUL "")) l (map_to_list (items c))) as ->.
  { rewrite foldl_drop_key. apply filter_iff_in. intros p Hp.
    destruct (sim_elem HS _ Hp) as (el & _ & _ & Hi & Hr).
    rewrite <-(key_prefix_sub _ sub Hr Hsub), <-not_true_iff_false.
    apply not_iff_compat. unfold hit. rewrite existsb_exists. split.
    - intros Hk. exists (rkey p.1, el). rewrite <-list_elem_of_In, elem_of_map_to_list.
      split; [done|]. simpl. by rewrite Hk, String.eqb_refl.
    - intros ([k el'] & _ & Hk). simpl in Hk. to_prop. subst k. done. }
  apply sim_invalidate_fold; [done | apply NoDup_fst_map_to_list |].
  by intros k el Hin%elem_of_map_to_list.
Qed.

Lemma sim_flush n c l : sim n c l → sim n (mkCache (maxSize c) ∅ [] (store c) (next_elem c)) [].
Proof.
  intros HS. split; simpl.
  - apply HS.
  - constructor.
  - intros k el Hk. by rewrite lookup_empty in Hk.
  - constructor.
  - by intros el ?%elem_of_nil.
Qed.

(** One step of the Go structure is matched by one step of the recency list. *)
Lemma step_sim n c l op :
  0 < n → sim n c l → op_ok op →
  ∃ c', (cstep (Some c) op).1 = Some c' ∧
        sim n c' (lru_step n l op).1 ∧
        (cstep (Some c) op).2 = (lru_step n l op).2.
Proof.
  intros Hn HS Hok. pose proof (sim_max _ _ _ HS) as Hmax.
  assert ((maxSize c =? 0) = false) as Hnz by (apply Z.eqb_neq; lia).
  destruct op as [[[s o] a]|[[s o] a] v|sub| |]; simpl; rewrite ?Hnz.
  - destruct (has_nul3 s o a) eqn:Hnul; [by exists c|].
    change (cacheKey s o a) with (rkey (s, o, a)). assert (nul_free (s, o, a)) as Hnf by exact Hnul.
    destruct (items c !! rkey (s, o, a)) as [el|] eqn:Hi.
    + destruct (sim_hit HS _ _ Hnf Hi) as (v & -> & Hin & Hrel).
      destruct (Hrel) as (Hs & _). rewrite Hs. eexists; split; [done|].
      split; [by apply (sim_promote HS _ v)|done].
    + rewrite (sim_miss HS _ Hi). by exists c.
  - destruct (has_nul3 s o a) eqn:Hnul; [by exists c|].
    change (cacheKey s o a) with (rkey (s, o, a)). assert (nul_free (s, o, a)) as Hnf by exact Hnul.
    destruct (items c !! rkey (s, o, a)) as [el|] eqn:Hi.
    + destruct (sim_hit HS _ _ Hnf Hi) as (v0 & -> & Hin & Hrel).
      eexists; split; [done|]. split; [|done]. apply (sim_promote HS _ v0); [done|done|..].
      * destruct Hrel as (Hs & _). rewrite lookup_alter_eq, Hs. done.
      * intros el' Hne. by rewrite lookup_alter_ne.
    + rewrite (sim_miss HS _ Hi).
      assert (length (order c) = length l) as <- by (by eapply Forall2_length, HS).
      rewrite Hmax. eexists; split; [done|]. split; [|done].
      destruct (Z.of_nat (length (order c)) >=? n).
      * apply sim_insert; [by apply sim_evict|done|].
        unfold evictLRU. destruct (last (order c)) as [t|]; simpl; [|done].
        destruct (store c !! t); [|done]. by apply lookup_delete_None; right.
      * by apply sim_insert.
  - eexists; split; [done|].
    split; [|done]. by apply sim_invalidate.
  - eexists; split; [done|]. split; [by eapply sim_flush|done].
  - exists c. split; [done|]. split; [done|]. by erewrite Forall2_length by apply HS.
Qed.

#[local] Arguments get : simpl never.
#[local] Arguments put : simpl never.
#[local] Arguments invalidateSub : simpl never.
#[local] Arguments flush : simpl never.

Lemma run_sim n c l ops :
  0 < n → sim n c l → Forall op_ok ops →
  ∃ c', (crun (Some c) ops).1 = Some c' ∧ sim n c' (lru_run n l ops).1 ∧
        (crun (Some c) ops).2 = (lru_run n l ops).2.
Proof.
  intros Hn. revert c l. induction ops as [|op ops IH]; intros c l HS Hok; simpl; [by exists c|].
  apply Forall_cons in Hok as [Hop Hok].
  destruct (step_sim n c l op Hn HS Hop) as (c1 & H1 & HS1 & Ho1).
  destruct (cstep (Some c) op) as [cp1 o1], (lru_step n l op) as [l1 o1']; simpl in *.
  subst cp1 o1'. destruct (IH c1 l1 HS1 Hok) as (c2 & H2 & HS2 & Ho2).
  destruct (crun (Some c1) ops) as [cp2 os], (lru_run n l1 ops) as [l2 os']; simpl in *.
  subst. eauto.
Qed.

Lemma sim_new n : sim n (mkCache n ∅ [] ∅ 0) [].
Proof.
  split; simpl; [done|constructor| |constructor|].
  - intros k el Hk. by rewrite lookup_empty in Hk.
  - by intros el ?%elem_of_nil.
Qed.

(** *** Capacity *)

Lemma length_without r l v :
  lru_find r l = Some v → (length (lru_without r l) < length l)%nat.
Proof.
  intros Hf%lru_find_Some. unfold lru_without.
  apply elem_of_Permutation in Hf as [k Hk]. rewrite Hk. rewrite filter_cons_False by naive_solver.
  simpl. apply Nat.lt_succ_r, length_filter.
Qed.

Lemma lru_step_bound n l op :
  0 < n → Z.of_nat (length l) ≤ n → Z.of_nat (length (lru_step n l op).1) ≤ n.
Proof.
  intros Hn Hl. destruct op as [r|r v|sub| |]; simpl.
  - destruct (has_nul3 _ _ _); [done|]. destruct (lru_find r l) eqn:Hf; [|done].
    apply length_without in Hf. simpl. lia.
  - destruct (has_nul3 _ _ _); [done|]. destruct (lru_find r l) eqn:Hf.
    + apply length_without in Hf. simpl. lia.
    + destruct (_ >=? n) eqn:Hge; to_prop; simpl; [|lia].
      unfold lru_evict. rewrite length_take. lia.
  - etrans; [apply inj_le, length_filter|lia].
  - simpl. lia.
  - done.
Qed.

Lemma lru_run_bound n ops l :
  0 < n → Z.of_nat (length l) ≤ n → Z.of_nat (length (lru_run n l ops).1) ≤ n.
Proof.
  intros Hn. revert l. induction ops as [|op ops IH]; intros l Hl; simpl; [done|].
  pose proof (lru_step_bound n l op Hn Hl) as Hb.
  destruct (lru_step n l op) as [l1 o]; simpl in *.
  specialize (IH l1 Hb). by destruct (lru_run n l1 ops).
Qed.

(** ** What a client may rely on

    [holds cp P] says that every decision stored in the cache satisfies [P]; the
    lemmas below are the contract the Casbin adapter uses. *)

Definition holds (cp : cachePtr) (P : request → bool → Prop) : Prop :=
  match cp with
  | None => True
  | Some c => maxSize c = 0 ∨
              (0 < maxSize c ∧ ∃ l, sim (maxSize c) c l ∧ ∀ r v, (r, v) ∈ l → P r v)
  end.

Lemma holds_mono cp (P Q : request → bool → Prop) :
  (∀ r v, P r v → Q r v) → holds cp P → holds cp Q.
Proof.
  intros HPQ. destruct cp as [c|]; [|done].
  intros [?|(? & l & ? & ?)]; [by left | right; eauto 10].
Qed.

Lemma holds_new n P : 0 ≤ n → holds (newDecisionCache n) P.
Proof.
  intros Hn. destruct (decide (n = 0)) as [->|]; [by left|]. right. simpl. split; [lia|].
  exists []. split; [apply sim_new | by intros r v ?%elem_of_nil].
Qed.

Lemma holds_get cp P s o a :
  holds cp P →
  holds (get cp s o a).1 P ∧ ((get cp s o a).2.2 = true → P (s, o, a) (get cp s o a).2.1).
Proof.
  destruct cp as [c|]; [|done]. intros [Hz|(Hn & l & HS & HP)].
  { unfold get. rewrite Hz; simpl. split; [by left | done]. }
  destruct (step_sim _ c l (OpGet (s, o, a)) Hn HS I) as (c' & Hc & HS' & Ho).
  simpl in Hc, HS', Ho. pose proof (sim_max _ _ _ HS') as Hm.
  destruct (get (Some c) s o a) as [cp' [v ok]]; simpl in *. subst cp'.
  destruct (has_nul3 s o a); simpl in *; [|destruct (lru_find (s, o, a) l) as [v0|] eqn:Hf]; simplify_eq/=.
  - split; [|done]. right. rewrite Hm. eauto.
  - pose proof (HP _ _ (lru_find_Some _ _ _ Hf)). split; [|done].
    right. rewrite Hm. split; [done|]. eexists; split; [done|].
    intros r v' [?|[_ ?]%list_elem_of_filter]%elem_of_cons; simplify_eq; auto.
  - split; [|done]. right. rewrite Hm. eauto.
Qed.

Lemma holds_put cp (P : request → bool → Prop) s o a v :
  holds cp P → P (s, o, a) v → holds (put cp s o a v) P.
Proof.
  destruct cp as [c|]; [|done]. intros [Hz|(Hn & l & HS & HP)] Hv.
  { unfold put. rewrite Hz; simpl. by left. }
  destruct (step_sim _ c l (OpPut (s, o, a) v) Hn HS I) as (c' & Hc & HS' & _).
  simpl in Hc, HS'. pose proof (sim_max _ _ _ HS') as Hm. rewrite Hc. right. rewrite Hm.
  split; [done|]. eexists; split; [done|]. intros r v'.
  destruct (has_nul3 s o a); simpl; [auto|]. destruct (lru_find (s, o, a) l); simpl.
  - intros [?|[_ ?]%list_elem_of_filter]%elem_of_cons; simplify_eq; auto.
  - intros [?|Hin]%elem_of_cons; simplify_eq; [done|]. apply HP.
    destruct (_ >=? _); [|done]. unfold lru_evict in Hin.
    apply elem_of_take in Hin as (i & Hi & _). by eapply list_elem_of_lookup_2.
Qed.

Lemma holds_invalidate cp (P Q : request → bool → Prop) sub :
  contains_byte NUL sub = false →
  (∀ r v, r.1.1 ≠ sub → P r v → Q r v) →
  holds cp P → holds (invalidateSub cp sub) Q.
Proof.
  intros Hsub HPQ. destruct cp as [c|]; [|done]. intros [Hz|(Hn & l & HS & HP)].
  { unfold invalidateSub. rewrite Hz; simpl. by left. }
  destruct (step_sim _ c l (OpInvalidate sub) Hn HS Hsub) as (c' & Hc & HS' & _).
  simpl in Hc, HS'. pose proof (sim_max _ _ _ HS') as Hm. rewrite Hc. right. rewrite Hm.
  split; [done|]. eexists; split; [done|].
  intros r v [Hr Hin]%list_elem_of_filter. auto.
Qed.

Lemma holds_flush cp (P Q : request → bool → Prop) : holds cp P → holds (flush cp) Q.
Proof.
  destruct cp as [c|]; [|done]. intros [Hz|(Hn & l & HS & HP)]; unfold flush.
  { rewrite Hz; simpl. by left. }
  assert ((maxSize c =? 0) = false) as -> by (apply Z.eqb_neq; lia).
  right. simpl. split; [done|]. exists []. split; [by eapply sim_flush|].
  by intros r v ?%elem_of_nil.
Qed.

#[export] Hint Resolve holds_new holds_flush holds_put : go.

(** ** Properties *)

(** C4: the Go LRU cache (map plus linked list, flattened keys) is observationally
    the recency list of decisions per (subject, object, action): for every positive
    capacity and every sequence of get, put, invalidateSub, flush and len calls, the
    values returned are those of the abstract list, starting from an empty cache. *)
Theorem run_refines (n : Z) (ops : list cop) :
  0 < n → Forall op_ok ops →
  (crun (newDecisionCache n) ops).2 = (lru_run n [] ops).2.
Proof.
  intros Hn Hok.
  by destruct (run_sim n _ [] ops Hn (sim_new n) Hok) as (c' & _ & _ & ?).
Qed.

Lemma run_refines_witness :
  let r1 := ("u1", "users", "read") in
  let r2 := ("u2", "users", "read") in
  let r3 := ("u1", "roles", "read") in
  let ops := [OpPut r1 true; OpPut r2 false; OpGet r1; OpPut r3 true; OpGet r2;
              OpInvalidate "u1"; OpGet r1; OpGet r3; OpLen] in
  (crun (newDecisionCache 2) ops).2
    = [OutUnit; OutUnit; OutGet true true; OutUnit; OutGet false false;
       OutUnit; OutGet false false; OutGet false false; OutLen 0].
Proof.
  intros r1 r2 r3 ops. rewrite (run_refines 2 ops); [vm_compute; reflexivity|lia|].
  repeat constructor.
Defined.

(** The number of cached decisions never exceeds the configured capacity,
    whatever the sequence of operations. *)
Theorem len_bounded (n : Z) (ops : list cop) :
  0 < n → Forall op_ok ops → len (crun (newDecisionCache n) ops).1 ≤ n.
Proof.
  intros Hn Hok.
  destruct (run_sim n _ [] ops Hn (sim_new n) Hok) as (c' & Hc & HS & _).
  unfold newDecisionCache. rewrite Hc. simpl. rewrite (Forall2_length _ _ _ (sim_rel _ _ _ HS)).
  apply lru_run_bound; [done | simpl; lia].
Qed.

Lemma len_bounded_witness :
  len (crun (newDecisionCache 1) [OpPut ("a", "o", "x") true; OpPut ("b", "o", "x") true]).1 ≤ 1.
Proof. apply len_bounded; [lia | repeat constructor]. Defined.

End DecisionCache.
