(* ===== verification/Casbin.v ===== *)
(** * The Casbin authorizer

    Models [internal/adapter/casbin/casbin.go] and [noop.go].  The Casbin enforcer
    itself is a third-party library: it is the class [Enforcer] below, a parameter
    of every definition, and [EnforcerLaws] states the documented behaviour the
    adapter relies on.  The decision function is the one the model text
    [defaultModel] of the adapter denotes. *)
From S2P Require Import Prelude GoStr AppErr Port DecisionCache.
Import GoStr DecisionCache.

Module Casbin.

(** ** The decision the default model denotes

    [m = g(r.sub, p.sub) && (p.obj == "*" || r.obj == p.obj) && (p.act == "*" || r.act == p.act)]
    with the effect [some(where (p.eft == allow))]. *)

Definition defaultModel_matches (g : string → string → bool) (sub obj act : string) (p : list string) : bool :=
  match p with
  | [psub; pobj; pact] =>
      g sub psub && (String.eqb pobj "*" || String.eqb obj pobj) && (String.eqb pact "*" || String.eqb act pact)
  | _ => false
  end.

Definition defaultModel_decision (g : string → string → bool) (ps : gset (list string)) (sub obj act : string) : bool :=
  existsb (defaultModel_matches g sub obj act) (elements ps).

(** ** The enforcer (third party) *)

Class Enforcer (E : Type) := {
  enf_Enforce : E → string → string → string → result error bool;
  enf_AddPolicy : E → list string → E * result error bool;
  enf_RemovePolicy : E → list string → E * result error bool;
  enf_AddGroupingPolicy : E → list string → E * result error bool;
  enf_RemoveGroupingPolicy : E → list string → E * result error bool;
  enf_GetRolesForUser : E → string → result error (list string);
  enf_GetUsersForRole : E → string → result error (list string);
  enf_HasRoleForUser : E → string → string → result error bool;
  enf_GetPermissionsForUser : E → string → result error (list (list string));
  enf_GetImplicitPermissionsForUser : E → string → result error (list (list string));
  enf_LoadPolicy : E → E * option error;
  enf_SavePolicy : E → option error
}.

(** An edge of the role graph: the grouping rule [user, role]. *)
Definition inherits (gs : gset (list string)) (a b : string) : Prop := [a; b] ∈ gs.

(** Documented behaviour: the policy and grouping rules are sets; [g] is reachability
    in the role graph up to the maximal hierarchy level; a successful mutation adds or
    removes exactly the given rule, and a decision is the model's. *)
Class EnforcerLaws (E : Type) `{Enforcer E} := {
  policies : E → gset (list string);
  groupings : E → gset (list string);
  has_link : gset (list string) → string → string → bool;
  hierarchy_level : nat;
  has_link_spec gs a b : has_link gs a b = true ↔ bsteps (inherits gs) hierarchy_level a b;
  Enforce_law e s o a b :
    enf_Enforce e s o a = Ok b → b = defaultModel_decision (has_link (groupings e)) (policies e) s o a;
  AddPolicy_law e r e' b :
    enf_AddPolicy e r = (e', Ok b) → policies e' = {[r]} ∪ policies e ∧ groupings e' = groupings e;
  RemovePolicy_law e r e' b :
    enf_RemovePolicy e r = (e', Ok b) → policies e' = policies e ∖ {[r]} ∧ groupings e' = groupings e;
  AddGroupingPolicy_law e r e' b :
    enf_AddGroupingPolicy e r = (e', Ok b) → groupings e' = {[r]} ∪ groupings e ∧ policies e' = policies e;
  RemoveGroupingPolicy_law e r e' b :
    enf_RemoveGroupingPolicy e r = (e', Ok b) → groupings e' = groupings e ∖ {[r]} ∧ policies e' = policies e;
  HasRole_law e u r b : enf_HasRoleForUser e u r = Ok b → b = bool_decide ([u; r] ∈ groupings e)
}.

(** ** The adapter *)

Definition ErrInvalidPolicyArg : error := PlainError "invalid policy argument".

Fixpoint validatePolicyArgs (args : list string) : option error :=
  match args with
  | [] => None
  | arg :: args' =>
      if contains_byte NUL arg
      then Some (FmtError ("invalid policy arg " +:+ quote arg +:+ ": ") ErrInvalidPolicyArg "")
      else validatePolicyArgs args'
  end.

(** The envelope watchers exchange. *)
Record watcherOp := mkWatcherOp {
  Op : string;
  Sec : string;
  Ptype : string;
  Params : list string
}.

(** The capacity [NewAdapter] derives from [Config.DecisionCacheSize]. *)
Definition decisionCacheSize (cfgSize : Z) : Z :=
  if cfgSize =? 0 then 10000 else if cfgSize <? 0 then 0 else cfgSize.

Record Adapter (E : Type) := mkAdapter { enforcer : E; cache : cachePtr }.
Arguments mkAdapter {E}.
Arguments enforcer {E}.
Arguments cache {E}.

Section adapter.
Context {E : Type} `{Enforcer E}.

(** The value [NewAdapter] returns once the database is open and the policy loaded. *)
Definition NewAdapter (e : E) (cfgSize : Z) : Adapter E :=
  mkAdapter e (newDecisionCache (decisionCacheSize cfgSize)).

Definition Adapter_Enforce (a : Adapter E) (sub obj act : string) : Adapter E * result error bool :=
  let '(c1, (v, ok)) := get (cache a) sub obj act in
  if ok then (mkAdapter (enforcer a) c1, Ok v)
  else match enf_Enforce (enforcer a) sub obj act with
       | Ok allowed => (mkAdapter (enforcer a) (put c1 sub obj act allowed), Ok allowed)
       | Err err => (mkAdapter (enforcer a) c1, Err err)
       end.

Definition Adapter_EnforceWithContext (ctx : Context) (a : Adapter E) (sub obj act : string)
    : Adapter E * result error bool :=
  match ctx_err ctx with
  | Some err => (a, Err err)
  | None =>
      let '(c1, (v, ok)) := get (cache a) sub obj act in
      if ok then (mkAdapter (enforcer a) c1, Ok v)
      else match enf_Enforce (enforcer a) sub obj act with
           | Ok allowed => (mkAdapter (enforcer a) (put c1 sub obj act allowed), Ok allowed)
           | Err err => (mkAdapter (enforcer a) c1, Err err)
           end
  end.

(** The common shape of the mutating methods: validate, mutate, then touch the cache
    only when the enforcer reported no error. *)
Definition mutate (args : list string) (op : E → E * result error bool) (touch : cachePtr → cachePtr)
    (a : Adapter E) : Adapter E * option error :=
  match validatePolicyArgs args with
  | Some err => (a, Some err)
  | None =>
      match op (enforcer a) with
      | (e', Ok _) => (mkAdapter e' (touch (cache a)), None)
      | (e', Err err) => (mkAdapter e' (cache a), Some err)
      end
  end.

Definition Adapter_AddRoleForUser (a : Adapter E) (userID role : string) :=
  mutate [userID; role] (λ e, enf_AddGroupingPolicy e [userID; role]) (λ c, invalidateSub c userID) a.
Definition Adapter_RemoveRoleForUser (a : Adapter E) (userID role : string) :=
  mutate [userID; role] (λ e, enf_RemoveGroupingPolicy e [userID; role]) (λ c, invalidateSub c userID) a.
Definition Adapter_AddPermissionForRole (a : Adapter E) (role obj act : string) :=
  mutate [role; obj; act] (λ e, enf_AddPolicy e [role; obj; act]) flush a.
Definition Adapter_RemovePermissionForRole (a : Adapter E) (role obj act : string) :=
  mutate [role; obj; act] (λ e, enf_RemovePolicy e [role; obj; act]) flush a.
Definition Adapter_AddPermissionForUser (a : Adapter E) (userID obj act : string) :=
  mutate [userID; obj; act] (λ e, enf_AddPolicy e [userID; obj; act]) (λ c, invalidateSub c userID) a.
Definition Adapter_RemovePermissionForUser (a : Adapter E) (userID obj act : string) :=
  mutate [userID; obj; act] (λ e, enf_RemovePolicy e [userID; obj; act]) (λ c, invalidateSub c userID) a.

Definition Adapter_GetRolesForUser (a : Adapter E) (userID : string) := enf_GetRolesForUser (enforcer a) userID.
Definition Adapter_GetUsersForRole (a : Adapter E) (role : string) := enf_GetUsersForRole (enforcer a) role.
Definition Adapter_HasRoleForUser (a : Adapter E) (userID role : string) := enf_HasRoleForUser (enforcer a) userID role.
Definition Adapter_GetPermissionsForRole (a : Adapter E) (role : string) := enf_GetPermissionsForUser (enforcer a) role.
Definition Adapter_GetPermissionsForUser (a : Adapter E) (userID : string) := enf_GetPermissionsForUser (enforcer a) userID.
Definition Adapter_GetImplicitPermissionsForUser (a : Adapter E) (userID : string) :=
  enf_GetImplicitPermissionsForUser (enforcer a) userID.

Definition Adapter_LoadPolicy (a : Adapter E) : Adapter E * option error :=
  match enf_LoadPolicy (enforcer a) with
  | (e', None) => (mkAdapter e' (flush (cache a)), None)
  | (e', Some err) => (mkAdapter e' (cache a), Some err)
  end.

Definition Adapter_SavePolicy (a : Adapter E) : option error := enf_SavePolicy (enforcer a).

(** The watcher callback, on the outcome of [json.Unmarshal]: [None] when the message
    is not an envelope. *)
Definition updateCallback (a : Adapter E) (msg : option watcherOp) : Adapter E :=
  match msg with
  | None => (Adapter_LoadPolicy a).1
  | Some op =>
      if String.eqb (Op op) "add_policy" then
        mkAdapter (enf_AddPolicy (enforcer a) (Params op)).1 (flush (cache a))
      else if String.eqb (Op op) "remove_policy" then
        mkAdapter (enf_RemovePolicy (enforcer a) (Params op)).1 (flush (cache a))
      else if String.eqb (Op op) "add_grouping" then
        mkAdapter (enf_AddGroupingPolicy (enforcer a) (Params op)).1 (flush (cache a))
      else if String.eqb (Op op) "remove_grouping" then
        mkAdapter (enf_RemoveGroupingPolicy (enforcer a) (Params op)).1 (flush (cache a))
      else (Adapter_LoadPolicy a).1
  end.

Definition BuildDatabaseURL (host : string) (port : Z) (user password dbname sslMode : string) : string :=
  let sslMode := if String.eqb sslMode "" then "require" else sslMode in
  "postgres://" +:+ user +:+ ":" +:+ password +:+ "@" +:+ host +:+ ":" +:+ pretty port +:+ "/" +:+ dbname
  +:+ "?sslmode=" +:+ sslMode.

Definition FormatPermission (obj act : string) : string := obj +:+ ":" +:+ act.

Definition ParsePermission (perm : string) : string * string :=
  match SplitN2 ":" perm with
  | [obj; act] => (obj, act)
  | _ => (perm, "*")
  end.

#[export] Instance Adapter_Authorizer : Authorizer (Adapter E) := {
  Enforce := Adapter_Enforce;
  EnforceWithContext := Adapter_EnforceWithContext;
  AddRoleForUser := Adapter_AddRoleForUser;
  RemoveRoleForUser := Adapter_RemoveRoleForUser;
  GetRolesForUser := Adapter_GetRolesForUser;
  GetUsersForRole := Adapter_GetUsersForRole;
  HasRoleForUser := Adapter_HasRoleForUser;
  AddPermissionForRole := Adapter_AddPermissionForRole;
  RemovePermissionForRole := Adapter_RemovePermissionForRole;
  GetPermissionsForRole := Adapter_GetPermissionsForRole;
  AddPermissionForUser := Adapter_AddPermissionForUser;
  RemovePermissionForUser := Adapter_RemovePermissionForUser;
  GetPermissionsForUser := Adapter_GetPermissionsForUser;
  GetImplicitPermissionsForUser := Adapter_GetImplicitPermissionsForUser;
  LoadPolicy := Adapter_LoadPolicy;
  SavePolicy := Adapter_SavePolicy
}.

End adapter.

(** [NoOpAdapter]: authorization disabled, everything is allowed. *)
Inductive NoOpAdapter := NewNoOpAdapter.

#[export] Instance NoOpAdapter_Authorizer : Authorizer NoOpAdapter := {
  Enforce a _ _ _ := (a, Ok true);
  EnforceWithContext _ a _ _ _ := (a, Ok true);
  AddRoleForUser a _ _ := (a, None);
  RemoveRoleForUser a _ _ := (a, None);
  GetRolesForUser _ _ := Ok [];
  GetUsersForRole _ _ := Ok [];
  HasRoleForUser _ _ _ := Ok true;
  AddPermissionForRole a _ _ _ := (a, None);
  RemovePermissionForRole a _ _ _ := (a, None);
  GetPermissionsForRole _ _ := Ok [];
  AddPermissionForUser a _ _ _ := (a, None);
  RemovePermissionForUser a _ _ _ := (a, None);
  GetPermissionsForUser _ _ := Ok [];
  GetImplicitPermissionsForUser _ _ := Ok [];
  LoadPolicy a := (a, None);
  SavePolicy _ := None
}.

(** ** Coherence of the decision cache *)

Section coherence.
Context {E : Type} `{EnforcerLaws E}.

Definition decision (e : E) (sub obj act : string) : bool :=
  defaultModel_decision (has_link (groupings e)) (policies e) sub obj act.

Definition same_view (e e' : E) : Prop :=
  policies e' = policies e ∧ groupings e' = groupings e.

(** Every cached decision is the one the current policy gives. *)
Definition coherent (a : Adapter E) : Prop :=
  holds (cache a) (λ r v, decision (enforcer a) r.1.1 r.1.2 r.2 = v).

Lemma decision_true e sub obj act :
  decision e sub obj act = true ↔
  ∃ p, p ∈ policies e ∧ defaultModel_matches (has_link (groupings e)) sub obj act p = true.
Proof.
  unfold decision, defaultModel_decision. rewrite existsb_exists. split.
  - intros (p & Hin & Hm). exists p. by rewrite <-list_elem_of_In, elem_of_elements in Hin.
  - intros (p & Hin & Hm). exists p. by rewrite <-list_elem_of_In, elem_of_elements.
Qed.

Lemma decision_same e e' sub obj act : same_view e e' → decision e' sub obj act = decision e sub obj act.
Proof. unfold decision. by intros [-> ->]. Qed.

(** A path either avoids the edges that leave [u], or [u] is reached before. *)
Lemma bsteps_avoid gs gs' u n s t :
  (∀ a b, a ≠ u → inherits gs a b → inherits gs' a b) →
  bsteps (inherits gs) n s t → bsteps (inherits gs') n s t ∨ bsteps (inherits gs') n s u.
Proof.
  intros Hsub Hb. induction Hb as [n a|n a b c Hab _ IH]; [left; constructor|].
  destruct (decide (a = u)) as [->|Hne]; [right; constructor|].
  destruct IH as [IH|IH]; [left|right]; (eapply bsteps_l; [by apply Hsub|exact IH]).
Qed.

(** Subjects that do not reach [u] do not see a change of the edges leaving [u]. *)
Lemma has_link_local gs gs' u s t :
  has_link gs s u = false → (∀ a b, a ≠ u → inherits gs a b ↔ inherits gs' a b) →
  has_link gs' s t = has_link gs s t.
Proof.
  intros Hu Hiff. apply not_true_iff_false in Hu. rewrite has_link_spec in Hu.
  assert (∀ v, bsteps (inherits gs') hierarchy_level s v → bsteps (inherits gs) hierarchy_level s v) as Hback.
  { intros v Hv. eapply (bsteps_avoid gs' gs u) in Hv as [Hv|Hv]; [done|done|]. intros a b Hab. by apply Hiff. }
  apply eq_true_iff_eq. rewrite !has_link_spec. split; [apply Hback|]. intros Hb.
  eapply (bsteps_avoid gs gs' u) in Hb as [Hb|Hb%Hback]; [done|done|]. intros a b Hab. by apply Hiff.
Qed.

(** Changing the roles of [u] leaves the decisions alone of the subjects that do not reach [u]. *)
Lemma decision_role_change e e' u s o x :
  has_link (groupings e) s u = false → policies e' = policies e →
  (∀ a b, a ≠ u → inherits (groupings e) a b ↔ inherits (groupings e') a b) →
  decision e' s o x = decision e s o x.
Proof.
  intros Hu Hp Hg. unfold decision, defaultModel_decision. rewrite Hp.
  induction (elements (policies e)) as [|p l IH]; simpl; [done|]. rewrite IH. f_equal.
  destruct p as [|psub [|pobj [|pact [|]]]]; simpl; [done..| |done].
  by rewrite (has_link_local _ _ u s psub Hu Hg).
Qed.

(** The same for its direct permissions. *)
Lemma decision_perm_change e e' u o x s o' x' :
  has_link (groupings e) s u = false → groupings e' = groupings e →
  (∀ p, p ≠ [u; o; x] → p ∈ policies e' ↔ p ∈ policies e) →
  decision e' s o' x' = decision e s o' x'.
Proof.
  intros Hu Hg Hp. apply eq_true_iff_eq. rewrite !decision_true, Hg.
  assert (Hno : defaultModel_matches (has_link (groupings e)) s o' x' [u; o; x] = false) by (simpl; by rewrite Hu).
  split; intros (p & Hin & Hm); exists p; (split; [|done]); apply Hp; try done; intros ->; congruence.
Qed.

(** *** One operation at a time *)

Lemma coherent_enforce a sub obj act :
  coherent a →
  coherent (Adapter_Enforce a sub obj act).1 ∧
  enforcer (Adapter_Enforce a sub obj act).1 = enforcer a ∧
  (∀ b, (Adapter_Enforce a sub obj act).2 = Ok b → b = decision (enforcer a) sub obj act).
Proof.
  intros Hc. unfold Adapter_Enforce. destruct (holds_get _ _ sub obj act Hc) as [Hg Hv].
  destruct (get (cache a) sub obj act) as [c1 [v ok]]; simpl in *. destruct ok.
  - split; [exact Hg|]. split; [done|]. intros b [= <-]. symmetry. by apply Hv.
  - destruct (enf_Enforce (enforcer a) sub obj act) as [b|err] eqn:He; simpl.
    + apply Enforce_law in He as ->. split; [|split; [done | by intros ? [= <-]]].
      by apply holds_put.
    + done.
Qed.

Lemma validate_nul_free args x : validatePolicyArgs args = None → x ∈ args → contains_byte NUL x = false.
Proof.
  induction args as [|y args IH]; simpl; intros Hv Hx; [by apply elem_of_nil in Hx|].
  destruct (contains_byte NUL y) eqn:Hy; [done|]. apply elem_of_cons in Hx as [->|?]; auto.
Qed.

(** *** The operations of the adapter *)

Inductive aop :=
| AEnforce (sub obj act : string)
| AEnforceWithContext (ctx : Context) (sub obj act : string)
| AAddRoleForUser (userID role : string)
| ARemoveRoleForUser (userID role : string)
| AAddPermissionForRole (role obj act : string)
| ARemovePermissionForRole (role obj act : string)
| AAddPermissionForUser (userID obj act : string)
| ARemovePermissionForUser (userID obj act : string)
| ALoadPolicy
| AWatcher (msg : option watcherOp).

Definition astep (a : Adapter E) (op : aop) : Adapter E :=
  match op with
  | AEnforce s o x => (Adapter_Enforce a s o x).1
  | AEnforceWithContext ctx s o x => (Adapter_EnforceWithContext ctx a s o x).1
  | AAddRoleForUser u r => (Adapter_AddRoleForUser a u r).1
  | ARemoveRoleForUser u r => (Adapter_RemoveRoleForUser a u r).1
  | AAddPermissionForRole r o x => (Adapter_AddPermissionForRole a r o x).1
  | ARemovePermissionForRole r o x => (Adapter_RemovePermissionForRole a r o x).1
  | AAddPermissionForUser u o x => (Adapter_AddPermissionForUser a u o x).1
  | ARemovePermissionForUser u o x => (Adapter_RemovePermissionForUser a u o x).1
  | ALoadPolicy => (Adapter_LoadPolicy a).1
  | AWatcher msg => updateCallback a msg
  end.

Lemma decisionCacheSize_nonneg n : 0 ≤ decisionCacheSize n.
Proof. unfold decisionCacheSize. repeat case_match; to_prop; lia. Qed.

Lemma coherent_new (e : E) n : coherent (NewAdapter e n).
Proof. apply holds_new, decisionCacheSize_nonneg. Qed.

End coherence.

(** ** An in-memory enforcer, to instantiate the laws *)

Module MemEnforcer.

Record memEnforcer := mkMem { mem_p : gset (list string); mem_g : gset (list string) }.

Definition mem_levels : nat := 10.

(** Written with conditionals, so that evaluation by value stops at the first mismatch. *)
Fixpoint mem_link (n : nat) (gs : gset (list string)) (a b : string) : bool :=
  if String.eqb a b then true
  else match n with
       | O => false
       | S n' => existsb (λ g, match g with
                               | [x; y] => if String.eqb x a then mem_link n' gs y b else false
                               | _ => false
                               end) (elements gs)
       end.

#[export] Instance mem_Enforcer : Enforcer memEnforcer := {
  enf_Enforce e s o a := Ok (defaultModel_decision (mem_link mem_levels (mem_g e)) (mem_p e) s o a);
  enf_AddPolicy e r := (mkMem ({[r]} ∪ mem_p e) (mem_g e), Ok (bool_decide (r ∉ mem_p e)));
  enf_RemovePolicy e r := (mkMem (mem_p e ∖ {[r]}) (mem_g e), Ok (bool_decide (r ∈ mem_p e)));
  enf_AddGroupingPolicy e r := (mkMem (mem_p e) ({[r]} ∪ mem_g e), Ok (bool_decide (r ∉ mem_g e)));
  enf_RemoveGroupingPolicy e r := (mkMem (mem_p e) (mem_g e ∖ {[r]}), Ok (bool_decide (r ∈ mem_g e)));
  enf_GetRolesForUser e u :=
    Ok (omap (λ g, match g with [x; y] => if String.eqb x u then Some y else None | _ => None end) (elements (mem_g e)));
  enf_GetUsersForRole e r :=
    Ok (omap (λ g, match g with [x; y] => if String.eqb y r then Some x else None | _ => None end) (elements (mem_g e)));
  enf_HasRoleForUser e u r := Ok (bool_decide ([u; r] ∈ mem_g e));
  enf_GetPermissionsForUser e u :=
    Ok (filter (λ p, head p = Some u) (elements (mem_p e)));
  enf_GetImplicitPermissionsForUser e u :=
    Ok (filter (λ p, from_option (mem_link mem_levels (mem_g e) u) false (head p) = true) (elements (mem_p e)));
  enf_LoadPolicy e := (e, None);
  enf_SavePolicy e := None
}.

Lemma mem_link_spec n gs a b : mem_link n gs a b = true ↔ bsteps (inherits gs) n a b.
Proof.
  revert a. induction n as [|n IH]; intros a; simpl;
    match goal with |- (if ?x then true else ?y) = true ↔ ?P => change (x || y = true ↔ P) end;
    rewrite orb_true_iff, String.eqb_eq.
  - split; [intros [->|]; [constructor|done]|]. inversion 1; auto.
  - rewrite existsb_exists. split.
    + intros [->|(g & Hg & Hm)]; [constructor|].
      destruct g as [|x [|y [|]]]; try done. destruct (String.eqb x a) eqn:Hx; [|done]. apply String.eqb_eq in Hx. subst x.
      apply bsteps_l with y; [|by apply IH]. by apply elem_of_elements, list_elem_of_In.
    + inversion 1 as [|? ? c ? Hac Hcb]; subst; [by left|]. right. exists [a; c].
      split; [by apply list_elem_of_In, elem_of_elements|]. rewrite String.eqb_refl. by apply IH.
Qed.

#[export] Program Instance mem_Laws : EnforcerLaws memEnforcer := {
  policies := mem_p;
  groupings := mem_g;
  has_link := mem_link mem_levels;
  hierarchy_level := mem_levels
}.
Next Obligation. intros. apply mem_link_spec. Qed.
Next Obligation. intros e s o a b [= <-]. done. Qed.
Next Obligation. intros e r e' b [= <- _]. done. Qed.
Next Obligation. intros e r e' b [= <- _]. done. Qed.
Next Obligation. intros e r e' b [= <- _]. done. Qed.
Next Obligation. intros e r e' b [= <- _]. done. Qed.
Next Obligation. intros e u r b [= <-]. done. Qed.

Definition mem0 : memEnforcer :=
  mkMem {[ ["admin"; "users"; "*"]; ["viewer"; "users"; "read"] ]} {[ ["alice"; "viewer"] ]}.

End MemEnforcer.
Import MemEnforcer.

(** Not every operation keeps the cache exact.  [AddPermissionForUser] invalidates only the
    entries of the subject it is given; applied to the name of a role it grants a permission to
    every holder of the role, and a decision cached for a holder before the call is still
    answered from the cache afterwards. *)
Theorem user_permission_on_role_name_stale :
  let a0 := NewAdapter mem0 0 in
  let a1 := (Enforce a0 "alice" "files" "read").1 in
  let a2 := (AddPermissionForUser a1 "viewer" "files" "read").1 in
  (AddPermissionForUser a1 "viewer" "files" "read").2 = None ∧
  decision (enforcer a2) "alice" "files" "read" = true ∧
  (Enforce a2 "alice" "files" "read").2 = Ok false.
Proof. vm_compute. done. Qed.

End Casbin.
