(* ===== verification/Watcher.v ===== *)
(** * Policy propagation between instances

    Models the watchers of [internal/adapter/casbin] ([watcher_memory.go], [watcher_redis.go],
    [watcher_noop.go]), the JSON envelope they exchange, and the part of [casbin.go] that runs
    beside the requests: the watcher callback, [Start] with its back-stop reload, [Close], and
    the error paths of [NewAdapter].  Redis Pub/Sub and Casbin's notification of the watcher are
    third party: what they send is stated where it is used.  Several adapters over one table,
    and calls that overlap, are in [CasbinSteps]. *)
From S2P Require Import Prelude AppErr Config Port Json JsonDecode DecisionCache Casbin.
Import Json JsonDecode Config DecisionCache Casbin.

Module Watcher.

(** ** The envelope *)

(** A Go slice of strings: [None] is nil. *)
Definition slice : Type := option (list string).

Definition op_json (op sec ptype : string) (params : slice) : json :=
  JObj [("op", JStr op); ("sec", JStr sec); ("ptype", JStr ptype);
        ("params", match params with Some l => JArr (map JStr l) | None => JNull end)].

(** [json.Marshal] cannot fail on strings; its error is dropped. *)
Definition encodeOp (op sec ptype : string) (params : slice) : string := encode (op_json op sec ptype params).

Definition op_fields : list (string * setter watcherOp) :=
  [("op", string_field (λ w s, mkWatcherOp s (Sec w) (Ptype w) (Params w)));
   ("sec", string_field (λ w s, mkWatcherOp (Op w) s (Ptype w) (Params w)));
   ("ptype", string_field (λ w s, mkWatcherOp (Op w) (Sec w) s (Params w)));
   ("params", strings_field Params (λ w l, mkWatcherOp (Op w) (Sec w) (Ptype w) l))].

Definition decodeOp (msg : string) : option watcherOp := Unmarshal op_fields (mkWatcherOp "" "" "" []) msg.

Definition makeUpdateCallback {E} `{Enforcer E} (a : Adapter E) (msg : string) : Adapter E :=
  updateCallback a (decodeOp msg).

(** ** The watchers *)

(** [persist.WatcherEx]: a method returns [None] when it panics. *)
Class WatcherEx (W : Type) := {
  w_Update : W → option (W * option error);
  w_UpdateForAddPolicy : W → string → string → slice → option (W * option error);
  w_UpdateForRemovePolicy : W → string → string → slice → option (W * option error);
  w_UpdateForRemoveFilteredPolicy : W → string → string → Z → slice → option (W * option error);
  w_UpdateForSavePolicy : W → option (W * option error);
  w_UpdateForAddPolicies : W → string → string → list slice → option (W * option error);
  w_UpdateForRemovePolicies : W → string → string → list slice → option (W * option error);
  w_Close : W → option W
}.

(** What the two sending watchers have in common: each method encodes and sends. *)
Section sending.
Context {W : Type} (send : W → string → option (W * option error)).

Definition Update (w : W) := send w (encodeOp "reload" "" "" None).
Definition UpdateForAddPolicy (w : W) (sec ptype : string) (params : slice) :=
  send w (encodeOp "add_policy" sec ptype params).
Definition UpdateForRemovePolicy (w : W) (sec ptype : string) (params : slice) :=
  send w (encodeOp "remove_policy" sec ptype params).
Definition UpdateForRemoveFilteredPolicy (w : W) (sec ptype : string) (fieldIndex : Z) (fieldValues : slice) :=
  send w (encodeOp "reload" "" "" None).
Definition UpdateForSavePolicy (w : W) := send w (encodeOp "reload" "" "" None).

(** One message per rule, until a send fails. *)
Fixpoint send_each (op sec ptype : string) (w : W) (rules : list slice) : option (W * option error) :=
  match rules with
  | [] => Some (w, None)
  | rule :: rules' =>
      match send w (encodeOp op sec ptype rule) with
      | None => None
      | Some (w', Some err) => Some (w', Some err)
      | Some (w', None) => send_each op sec ptype w' rules'
      end
  end.
Definition UpdateForAddPolicies (w : W) (sec ptype : string) (rules : list slice) :=
  send_each "add_policy" sec ptype w rules.
Definition UpdateForRemovePolicies (w : W) (sec ptype : string) (rules : list slice) :=
  send_each "remove_policy" sec ptype w rules.
End sending.

(** *** In process *)

Definition memoryWatcherBufSize : nat := 64.

(** The buffered channel, and whether it is closed; [A] is the state the callback changes. *)
Record MemoryWatcher (A : Type) := mkMemoryWatcher {
  ch : list string;
  ch_closed : bool;
  callback : option (A → string → A)
}.
Arguments mkMemoryWatcher {A}.
Arguments ch {A}.
Arguments ch_closed {A}.
Arguments callback {A}.

Definition NewMemoryWatcher {A} : MemoryWatcher A := mkMemoryWatcher [] false None.

Definition SetUpdateCallback {A} (w : MemoryWatcher A) (f : A → string → A) : MemoryWatcher A * option error :=
  (mkMemoryWatcher (ch w) (ch_closed w) (Some f), None).

(** Sending on a closed channel panics, also in a [select] with a default case. *)
Definition mem_send {A} (w : MemoryWatcher A) (msg : string) : option (MemoryWatcher A * option error) :=
  if ch_closed w then None
  else if (length (ch w) <? memoryWatcherBufSize)%nat
       then Some (mkMemoryWatcher (ch w ++ [msg]) false (callback w), None)
       else Some (w, None).

Definition mem_Close {A} (w : MemoryWatcher A) : option (MemoryWatcher A) :=
  if ch_closed w then None else Some (mkMemoryWatcher (ch w) true (callback w)).

(** One turn of the dispatch goroutine when its context is live and a message or the end of
    the channel is ready: the flag says whether the goroutine goes on.  Messages buffered
    before [Close] are still received. *)
Definition mem_dispatch {A} (w : MemoryWatcher A) (a : A) : option (MemoryWatcher A * A * bool) :=
  match ch w with
  | msg :: rest =>
      Some (mkMemoryWatcher rest (ch_closed w) (callback w),
            match callback w with Some f => f a msg | None => a end, true)
  | [] => if ch_closed w then Some (w, a, false) else None
  end.

#[export] Instance MemoryWatcher_WatcherEx A : WatcherEx (MemoryWatcher A) := {
  w_Update := Update mem_send;
  w_UpdateForAddPolicy := UpdateForAddPolicy mem_send;
  w_UpdateForRemovePolicy := UpdateForRemovePolicy mem_send;
  w_UpdateForRemoveFilteredPolicy := UpdateForRemoveFilteredPolicy mem_send;
  w_UpdateForSavePolicy := UpdateForSavePolicy mem_send;
  w_UpdateForAddPolicies := UpdateForAddPolicies mem_send;
  w_UpdateForRemovePolicies := UpdateForRemovePolicies mem_send;
  w_Close := mem_Close
}.

(** *** Redis Pub/Sub *)

(** The client (third party): publishing to a channel. *)
Class PubSub (R : Type) := {
  redis_Publish : R → string → string → R * option error;   (* channel, message *)
  pubsub_Close : R → R * option error
}.

Definition defaultRedisChannel : string := "casbin:policy:update:v1".

Record RedisWatcher (R : Type) := mkRedisWatcher { client : R; channel : string }.
Arguments mkRedisWatcher {R}.
Arguments client {R}.
Arguments channel {R}.

Section redis.
Context {R : Type} `{PubSub R}.

Definition NewRedisWatcher (c : R) (channel : string) : RedisWatcher R :=
  mkRedisWatcher c (if String.eqb channel "" then defaultRedisChannel else channel).

Definition publish (w : RedisWatcher R) (msg : string) : option (RedisWatcher R * option error) :=
  let '(c', err) := redis_Publish (client w) (channel w) msg in
  Some (mkRedisWatcher c' (channel w), err).

(** An error of the subscription is logged only. *)
Definition redis_Close (w : RedisWatcher R) : option (RedisWatcher R) :=
  Some (mkRedisWatcher (pubsub_Close (client w)).1 (channel w)).

#[export] Instance RedisWatcher_WatcherEx : WatcherEx (RedisWatcher R) := {
  w_Update := Update publish;
  w_UpdateForAddPolicy := UpdateForAddPolicy publish;
  w_UpdateForRemovePolicy := UpdateForRemovePolicy publish;
  w_UpdateForRemoveFilteredPolicy := UpdateForRemoveFilteredPolicy publish;
  w_UpdateForSavePolicy := UpdateForSavePolicy publish;
  w_UpdateForAddPolicies := UpdateForAddPolicies publish;
  w_UpdateForRemovePolicies := UpdateForRemovePolicies publish;
  w_Close := redis_Close
}.
End redis.

(** One message of the subscription in the loop of [listen]. *)
Definition listen_msg {A} (cb : option (A → string → A)) (a : A) (payload : string) : A :=
  match cb with Some f => f a payload | None => a end.

(** *** No-op *)

Inductive NoopWatcher := NewNoopWatcher.

#[export] Instance NoopWatcher_WatcherEx : WatcherEx NoopWatcher := {
  w_Update w := Some (w, None);
  w_UpdateForAddPolicy w _ _ _ := Some (w, None);
  w_UpdateForRemovePolicy w _ _ _ := Some (w, None);
  w_UpdateForRemoveFilteredPolicy w _ _ _ _ := Some (w, None);
  w_UpdateForSavePolicy w := Some (w, None);
  w_UpdateForAddPolicies w _ _ _ := Some (w, None);
  w_UpdateForRemovePolicies w _ _ _ := Some (w, None);
  w_Close w := Some w
}.

(** ** Construction, start and shutdown of the adapter *)

Section lifecycle.
Context {E W : Type} `{Enforcer E, WatcherEx W}.
Open Scope go_scope.

Definition step_err (msg : string) (r : option error) : result error unit :=
  match r with Some err => Err (FmtError msg err "") | None => Ok tt end.

(** The outcomes of the third-party constructors are inputs; [mk] is the new enforcer. *)
Definition OpenAdapter (open_ ping adapter_ model_ : option error) (mk : result error E) (cfgSize : Z)
    : result error (Adapter E) :=
  let? _ := step_err "failed to open database: " open_ in
  let? _ := step_err "failed to ping database: " ping in
  let? _ := step_err "failed to create casbin adapter: " adapter_ in
  let? _ := step_err "failed to create casbin model: " model_ in
  let? e := match mk with Ok e => Ok e | Err err => Err (FmtError "failed to create casbin enforcer: " err "") end in
  match enf_LoadPolicy e with
  | (_, Some err) => Err (FmtError "failed to load policies: " err "")
  | (e', None) => Ok (NewAdapter e' cfgSize)
  end.

(** The fields [Start] and [Close] use: the derived context ([None] before [Start]), the once
    flag, the stored error, and whether there is a database handle. *)
Record Life := mkLife {
  reloadInterval : Z;
  watcher : option W;
  cancelled : option bool;
  closeOnce : bool;
  closeErr : option error;
  has_db : bool
}.

Definition backstop_interval (interval : Z) : Z := if interval =? 0 then wrap64 (5 * Minute) else interval.

(** [setcb] and [setwatcher] are the answers of the watcher and of the enforcer. *)
Definition Start (l : Life) (setcb setwatcher : option error) : Life * option error :=
  let run := mkLife (reloadInterval l) (watcher l) (Some false) (closeOnce l) (closeErr l) (has_db l) in
  match watcher l with
  | None => (run, None)
  | Some _ =>
      match setcb with
      | Some err => (l, Some (FmtError "casbin: set watcher callback: " err ""))
      | None => match setwatcher with
                | Some err => (l, Some (FmtError "casbin: set watcher on enforcer: " err ""))
                | None => (run, None)
                end
      end
  end.

(** A tick of the back-stop goroutine: it acts while the derived context is live. *)
Definition tick (l : Life) (a : Adapter E) : Adapter E :=
  match cancelled l with Some false => (Adapter_LoadPolicy a).1 | _ => a end.

(** [sync.Once] counts the call also when it panics ([None], from the watcher). *)
Definition Close (l : Life) (db_close : option error) : Life * option (option error) :=
  if closeOnce l then (l, Some (closeErr l))
  else
    let stopped := match cancelled l with Some _ => Some true | None => None end in
    let err := if has_db l then db_close else closeErr l in
    match watcher l with
    | None => (mkLife (reloadInterval l) None stopped true err (has_db l), Some err)
    | Some w =>
        match w_Close w with
        | None => (mkLife (reloadInterval l) (Some w) stopped true (closeErr l) (has_db l), None)
        | Some w' => (mkLife (reloadInterval l) (Some w') stopped true err (has_db l), Some err)
        end
    end.

(** Closing again answers as the first time and changes nothing. *)
Lemma Close_idempotent l d1 d2 r :
  (Close l d1).2 = Some r → Close (Close l d1).1 d2 = ((Close l d1).1, Some r).
Proof.
  unfold Close at 1 3 4. destruct (closeOnce l) eqn:Hc; simpl.
  - intros [= <-]. unfold Close. by rewrite Hc.
  - destruct (watcher l) as [w|]; [destruct (w_Close w)|]; by intros [= <-].
Qed.

(** After [Close] the back-stop does nothing more. *)
Lemma Close_stops_backstop l d a : cancelled l ≠ Some false ∨ closeOnce l = false → tick (Close l d).1 a = a.
Proof.
  unfold Close, tick. destruct (closeOnce l) eqn:Hc; simpl.
  - intros [Hl|]; [|done]. by destruct (cancelled l) as [[]|].
  - intros _. destruct (watcher l) as [w|]; [destruct (w_Close w)|]; simpl; by destruct (cancelled l).
Qed.

End lifecycle.

(** ** The envelope round-trips *)

Definition op_text (op sec ptype : string) (params : slice) : bool :=
  valid_utf8 op && valid_utf8 sec && valid_utf8 ptype && forallb valid_utf8 (default [] params).

Lemma op_json_wf op sec ptype params : op_text op sec ptype params = true → wf 0 (op_json op sec ptype params) = true.
Proof.
  unfold op_text, op_json. intros Ht. to_prop.
  assert (wf 1 (match params with Some l => JArr (map JStr l) | None => JNull end) = true) as Hp.
  { destruct params as [l|]; [|done]. cbn [wf]. by rewrite wf_strings. }
  cbn [wf forallb fst snd]. change (0 + 1) with 1. rewrite Hp.
  repeat match goal with H : valid_utf8 _ = true |- _ => rewrite H; clear H end. done.
Qed.

Lemma decodeOp_encodeOp op sec ptype params :
  op_text op sec ptype params = true →
  decodeOp (encodeOp op sec ptype params) = Some (mkWatcherOp op sec ptype (default [] params)).
Proof.
  intros Ht. unfold decodeOp, encodeOp. rewrite Unmarshal_encode by (by apply op_json_wf).
  destruct params as [l|]; [|done]. cbv -[string_elems map]. by rewrite string_elems_map.
Qed.

(** ** Clusters *)

(** The rules of the table [casbin_rules]: policies and groupings. *)
Definition rules : Type := gset (list string) * gset (list string).

(** The enforcer with its SQL adapter (third party): [at_table t e] is the enforcer when the
    table holds [t].  Loading replaces the rules in memory by those of the table; a load that
    fails leaves them. *)
Class SharedTable (E : Type) `{EnforcerLaws E} := {
  at_table : rules → E → E;
  at_table_view t e : same_view e (at_table t e);
  LoadPolicy_ok t e e' :
    enf_LoadPolicy (at_table t e) = (e', None) → policies e' = t.1 ∧ groupings e' = t.2;
  LoadPolicy_failed t e e' err :
    enf_LoadPolicy (at_table t e) = (e', Some err) → same_view (at_table t e) e'
}.

(** The methods of [WatcherEx] Casbin calls after a mutation has changed the rules: the
    section is [p] for a policy and [g] for a grouping. *)
Definition notified (op : aop) : list string :=
  let add sec r := [encodeOp "add_policy" sec sec (Some r)] in
  let remove sec r := [encodeOp "remove_policy" sec sec (Some r)] in
  match op with
  | AAddRoleForUser u r => add "g" [u; r]
  | ARemoveRoleForUser u r => remove "g" [u; r]
  | AAddPermissionForRole x o a | AAddPermissionForUser x o a => add "p" [x; o; a]
  | ARemovePermissionForRole x o a | ARemovePermissionForUser x o a => remove "p" [x; o; a]
  | _ => []
  end.

(** ** What a message does to its receiver *)

Section receiver.
Context {E : Type} `{EnforcerLaws E}.

(** The decision cache is well formed, whatever it answers. *)
Definition cache_wf (a : Adapter E) : Prop := holds (cache a) (λ _ _, True).


(** The rule a mutation is about, and whether it adds it. *)
Definition rule_of (op : aop) : option (bool * list string) :=
  match op with
  | AAddRoleForUser u r => Some (true, [u; r])
  | ARemoveRoleForUser u r => Some (false, [u; r])
  | AAddPermissionForRole x o a | AAddPermissionForUser x o a => Some (true, [x; o; a])
  | ARemovePermissionForRole x o a | ARemovePermissionForUser x o a => Some (false, [x; o; a])
  | _ => None
  end.

Lemma notified_decodes op add rule msg :
  rule_of op = Some (add, rule) → forallb valid_utf8 rule = true → msg ∈ notified op →
  ∃ sec, decodeOp msg = Some (mkWatcherOp (if add then "add_policy" else "remove_policy") sec sec rule).
Proof.
  intros Hr Hu Hm. destruct op; simplify_eq/=; apply list_elem_of_singleton in Hm as ->; eexists;
    apply decodeOp_encodeOp; unfold op_text; simpl; by rewrite Hu.
Qed.

(** What an instance does with a watcher message.  The message sent for a permission change
    applies the same change to the receiver's policy rules and empties its decision cache.
    The message sent for a role assignment or removal is also taken as a change of the policy
    rules: the receiver adds or removes the two-field rule [user, role] and its groupings stay
    as they were, so role changes reach other instances only with the next reload. *)
Theorem watcher_message_effect (a : Adapter E) (op : aop) (add : bool) (rule : list string) (msg : string) :
  rule_of op = Some (add, rule) → forallb valid_utf8 rule = true → msg ∈ notified op →
  is_ok (enf_AddPolicy (enforcer a) rule).2 = true → is_ok (enf_RemovePolicy (enforcer a) rule).2 = true →
  let a' := makeUpdateCallback a msg in
  groupings (enforcer a') = groupings (enforcer a) ∧
  policies (enforcer a') = (if add then {[rule]} ∪ policies (enforcer a) else policies (enforcer a) ∖ {[rule]}) ∧
  (cache_wf a → coherent a').
Proof.
  intros Hr Hu Hm Hadd Hrem. destruct (notified_decodes _ _ _ _ Hr Hu Hm) as [sec Hd].
  unfold makeUpdateCallback. rewrite Hd. unfold updateCallback. destruct add; simpl.
  - destruct (enf_AddPolicy (enforcer a) rule) as [e' [b|]] eqn:He; [|done].
    apply AddPolicy_law in He as [Hp Hg]. split_and!; [done..|]. apply holds_flush.
  - destruct (enf_RemovePolicy (enforcer a) rule) as [e' [b|]] eqn:He; [|done].
    apply RemovePolicy_law in He as [Hp Hg]. split_and!; [done..|]. apply holds_flush.
Qed.

End receiver.

(** *** An enforcer over a table *)

Module TabEnforcer.
Import MemEnforcer.

(** The table as of now, and the rules in memory. *)
Record tabEnforcer := mkTab { tab : rules; mem : memEnforcer }.

Definition on_mem (f : memEnforcer → memEnforcer * result error bool) (e : tabEnforcer) : tabEnforcer * result error bool :=
  (mkTab (tab e) (f (mem e)).1, (f (mem e)).2).

#[export] Instance tab_Enforcer : Enforcer tabEnforcer := {
  enf_Enforce e := enf_Enforce (mem e);
  enf_AddPolicy e r := on_mem (λ m, enf_AddPolicy m r) e;
  enf_RemovePolicy e r := on_mem (λ m, enf_RemovePolicy m r) e;
  enf_AddGroupingPolicy e r := on_mem (λ m, enf_AddGroupingPolicy m r) e;
  enf_RemoveGroupingPolicy e r := on_mem (λ m, enf_RemoveGroupingPolicy m r) e;
  enf_GetRolesForUser e := enf_GetRolesForUser (mem e);
  enf_GetUsersForRole e := enf_GetUsersForRole (mem e);
  enf_HasRoleForUser e := enf_HasRoleForUser (mem e);
  enf_GetPermissionsForUser e := enf_GetPermissionsForUser (mem e);
  enf_GetImplicitPermissionsForUser e := enf_GetImplicitPermissionsForUser (mem e);
  enf_LoadPolicy e := (mkTab (tab e) (mkMem (tab e).1 (tab e).2), None);
  enf_SavePolicy e := None
}.

#[export] Program Instance tab_Laws : EnforcerLaws tabEnforcer := {
  policies e := mem_p (mem e);
  groupings e := mem_g (mem e);
  has_link := mem_link mem_levels;
  hierarchy_level := mem_levels
}.
Next Obligation. intros. apply mem_link_spec. Qed.
Next Obligation. intros e s o a b [= <-]. done. Qed.
Next Obligation. intros e r e' b [= <- _]. done. Qed.
Next Obligation. intros e r e' b [= <- _]. done. Qed.
Next Obligation. intros e r e' b [= <- _]. done. Qed.
Next Obligation. intros e r e' b [= <- _]. done. Qed.
Next Obligation. intros e u r b [= <-]. done. Qed.

#[export] Program Instance tab_Shared : SharedTable tabEnforcer := { at_table t e := mkTab t (mem e) }.
Next Obligation. done. Qed.
Next Obligation. intros t e e' [= <-]. done. Qed.
Next Obligation. done. Qed.

Definition rules0 : rules := (mem_p mem0, mem_g mem0).
Definition tab0 : tabEnforcer := mkTab rules0 mem0.
End TabEnforcer.
Import MemEnforcer TabEnforcer.

Lemma watcher_message_effect_witness :
  let a := NewAdapter tab0 0 in
  let msg := encodeOp "add_policy" "g" "g" (Some ["alice"; "admin"]) in
  groupings (enforcer (makeUpdateCallback a msg)) = groupings (enforcer a) ∧
  policies (enforcer (makeUpdateCallback a msg)) = {[ ["alice"; "admin"] ]} ∪ policies (enforcer a).
Proof.
  intros a msg.
  destruct (watcher_message_effect a (AAddRoleForUser "alice" "admin") true ["alice"; "admin"] msg) as (Hg & Hp & _);
    [reflexivity | vm_compute; reflexivity | by left | reflexivity | reflexivity | done].
Defined.

End Watcher.
