(* ===== verification/CasbinSteps.v ===== *)
(** * Calls of the authorizer that overlap

    The methods of [internal/adapter/casbin/casbin.go] hold no lock: [Enforce] looks the
    decision up, asks the enforcer and stores the answer; a mutating method, a reload and the
    watcher callback change the enforcer's rules and then touch the decision cache.  Here each
    of these calls is a step of its own, and a run is any interleaving of the steps of any
    number of calls; only a single call of the enforcer (third party) and of the cache (behind
    its mutex) is atomic.  The steps of a call taken without interruption are the method of
    [Casbin].  The second half runs several such adapters over one table. *)
From S2P Require Import Prelude AppErr Config Port DecisionCache Casbin Watcher.
Import DecisionCache Casbin Watcher.

Module CasbinSteps.

(** ** The steps *)

(** A call under way: a check that found nothing in the cache, a check the enforcer has
    answered, a mutation whose rules are changed and whose cache is not touched yet. *)
Inductive pending :=
| Checking (sub obj act : string)
| Answered (sub obj act : string) (v : bool)
| Mutating (op : aop).

(** The first step of the call [id] is [Lookup] or [Rules].  A mutation whose arguments are
    refused ends there; a check whose context is done takes no step at all. *)
Inductive cstep :=
| Lookup (id : nat) (sub obj act : string)
| Ask (id : nat)
| Store (id : nat)
| Rules (id : nat) (op : aop)
| Finish (id : nat).

Section steps.
Context {E : Type} `{Enforcer E}.

Record Conc := mkConc { adapter : Adapter E; calls : gmap nat pending }.

(** The rules after the enforcer's call, and whether the method goes on to the cache. *)
Definition guarded (args : list string) (call : E → E * result error bool) (e : E) : E * bool :=
  match validatePolicyArgs args with
  | Some _ => (e, false)
  | None => ((call e).1, is_ok (call e).2)
  end.

Definition reload (e : E) : E * bool :=
  ((enf_LoadPolicy e).1, match (enf_LoadPolicy e).2 with None => true | Some _ => false end).

Definition received (msg : option watcherOp) (e : E) : E * bool :=
  match msg with
  | None => reload e
  | Some op =>
      if String.eqb (Op op) "add_policy" then ((enf_AddPolicy e (Params op)).1, true)
      else if String.eqb (Op op) "remove_policy" then ((enf_RemovePolicy e (Params op)).1, true)
      else if String.eqb (Op op) "add_grouping" then ((enf_AddGroupingPolicy e (Params op)).1, true)
      else if String.eqb (Op op) "remove_grouping" then ((enf_RemoveGroupingPolicy e (Params op)).1, true)
      else reload e
  end.

Definition change (op : aop) (e : E) : E * bool :=
  match op with
  | AEnforce _ _ _ | AEnforceWithContext _ _ _ _ => (e, false)
  | AAddRoleForUser u r => guarded [u; r] (λ e, enf_AddGroupingPolicy e [u; r]) e
  | ARemoveRoleForUser u r => guarded [u; r] (λ e, enf_RemoveGroupingPolicy e [u; r]) e
  | AAddPermissionForRole r o x => guarded [r; o; x] (λ e, enf_AddPolicy e [r; o; x]) e
  | ARemovePermissionForRole r o x => guarded [r; o; x] (λ e, enf_RemovePolicy e [r; o; x]) e
  | AAddPermissionForUser u o x => guarded [u; o; x] (λ e, enf_AddPolicy e [u; o; x]) e
  | ARemovePermissionForUser u o x => guarded [u; o; x] (λ e, enf_RemovePolicy e [u; o; x]) e
  | ALoadPolicy => reload e
  | AWatcher msg => received msg e
  end.

(** What the method then does to the cache. *)
Definition touch (op : aop) (c : cachePtr) : cachePtr :=
  match op with
  | AEnforce _ _ _ | AEnforceWithContext _ _ _ _ => c
  | AAddRoleForUser u _ | ARemoveRoleForUser u _ => invalidateSub c u
  | AAddPermissionForUser u _ _ | ARemovePermissionForUser u _ _ => invalidateSub c u
  | AAddPermissionForRole _ _ _ | ARemovePermissionForRole _ _ _ => flush c
  | ALoadPolicy | AWatcher _ => flush c
  end.

Definition conc_step (c : Conc) (st : cstep) : Conc :=
  let '(mkConc a ps) := c in
  match st with
  | Lookup id s o x =>
      match ps !! id with
      | Some _ => c
      | None =>
          let '(c1, (v, ok)) := get (cache a) s o x in
          mkConc (mkAdapter (enforcer a) c1) (if ok then ps else <[id := Checking s o x]> ps)
      end
  | Ask id =>
      match ps !! id with
      | Some (Checking s o x) =>
          match enf_Enforce (enforcer a) s o x with
          | Ok v => mkConc a (<[id := Answered s o x v]> ps)
          | Err _ => mkConc a (delete id ps)
          end
      | _ => c
      end
  | Store id =>
      match ps !! id with
      | Some (Answered s o x v) => mkConc (mkAdapter (enforcer a) (put (cache a) s o x v)) (delete id ps)
      | _ => c
      end
  | Rules id op =>
      match ps !! id with
      | Some _ => c
      | None =>
          let '(e', go) := change op (enforcer a) in
          mkConc (mkAdapter e' (cache a)) (if go then <[id := Mutating op]> ps else ps)
      end
  | Finish id =>
      match ps !! id with
      | Some (Mutating op) => mkConc (mkAdapter (enforcer a) (touch op (cache a))) (delete id ps)
      | _ => c
      end
  end.

Definition conc_run (c : Conc) (sts : list cstep) : Conc := foldl conc_step c sts.

(** What [NewAdapter] returns, with no call under way. *)
Definition fresh (e : E) (cfgSize : Z) : Conc := mkConc (NewAdapter e cfgSize) ∅.

(** *** Without interruption, the steps are the methods *)

Lemma mutate_change args call t (a : Adapter E) :
  (mutate args call t a).1 =
  mkAdapter (guarded args call (enforcer a)).1 (if (guarded args call (enforcer a)).2 then t (cache a) else cache a).
Proof.
  unfold mutate, guarded. destruct (validatePolicyArgs args); [by destruct a|].
  by destruct (call (enforcer a)) as [e' []].
Qed.

Lemma load_change (a : Adapter E) :
  (Adapter_LoadPolicy a).1 =
  mkAdapter (reload (enforcer a)).1 (if (reload (enforcer a)).2 then flush (cache a) else cache a).
Proof. unfold Adapter_LoadPolicy, reload. by destruct (enf_LoadPolicy (enforcer a)) as [e' []]. Qed.

(** The operations that change rules. *)
Definition mutates (op : aop) : bool :=
  match op with AEnforce _ _ _ | AEnforceWithContext _ _ _ _ => false | _ => true end.

Lemma change_astep op (a : Adapter E) : mutates op = true →
  astep a op = mkAdapter (change op (enforcer a)).1 (if (change op (enforcer a)).2 then touch op (cache a) else cache a).
Proof.
  intros Hm. destruct op as [| | | | | | | | |msg]; try done; try apply mutate_change; [apply load_change|].
  cbn [astep change touch]. unfold updateCallback, received. destruct msg as [op|]; [|apply load_change].
  repeat (destruct (String.eqb (Op op) _); [done|]). apply load_change.
Qed.

(** A mutation: the method's step on the rules and on the cache. *)
Lemma uninterrupted_mutation (c : Conc) id op :
  mutates op = true → calls c !! id = None →
  conc_run c [Rules id op; Finish id] = mkConc (astep (adapter c) op) (calls c).
Proof.
  intros Hm Hid. destruct c as [a ps]. cbn [adapter calls] in *. rewrite change_astep by done.
  cbn [conc_run foldl conc_step]. rewrite Hid. destruct (change op (enforcer a)) as [e' []]; cbn.
  - rewrite lookup_insert_eq. by rewrite delete_insert_id.
  - by rewrite Hid.
Qed.

(** A check: its three steps are [Enforce]. *)
Lemma uninterrupted_check (c : Conc) id s o x :
  calls c !! id = None →
  conc_run c [Lookup id s o x; Ask id; Store id] = mkConc (Adapter_Enforce (adapter c) s o x).1 (calls c).
Proof.
  intros Hid. destruct c as [a ps]. cbn [adapter calls] in *. unfold conc_run. cbn [foldl conc_step]. rewrite Hid.
  unfold Adapter_Enforce. destruct (get (cache a) s o x) as [c1 [v []]]; cbn [conc_step].
  - by rewrite Hid; cbn [conc_step]; rewrite Hid.
  - rewrite lookup_insert_eq. cbn [enforcer]. destruct (enf_Enforce (enforcer a) s o x) as [b|err]; cbn [conc_step].
    + rewrite lookup_insert_eq. cbn [enforcer cache fst]. f_equal. rewrite insert_insert_eq. by rewrite delete_insert_id.
    + rewrite lookup_delete_eq. cbn [fst]. f_equal. by rewrite delete_insert_id.
Qed.
End steps.

(** ** Which answers are up to date *)

Section answers.
Context {E : Type} `{EnforcerLaws E}.
Notation Conc := (Conc (E := E)).

(** The subject whose rule an operation changes. *)
Definition subject (op : aop) : option string :=
  match op with
  | AAddRoleForUser u _ | ARemoveRoleForUser u _ => Some u
  | AAddPermissionForUser u _ _ | ARemovePermissionForUser u _ _ => Some u
  | AAddPermissionForRole r _ _ | ARemovePermissionForRole r _ _ => Some r
  | _ => None
  end.

(** An operation affects [s] when it changes the rules: for the rules of one subject, when [s]
    is that subject or reaches it over its roles; for a reload or a received message, and for
    a call that the enforcer answers with an error after it has changed the rules, always. *)
Definition affects (e : E) (op : aop) (s : string) : Prop :=
  ¬ same_view e (change op e).1 ∧
  ∀ u, subject op = Some u → (change op e).2 = true → has_link (groupings e) s u = true.

(** The subjects whose decisions an operation promises to drop from the cache: an operation on
    a user's roles or permissions those of the user, the others everybody's. *)
Definition promises (op : aop) (s : string) : bool :=
  match op with
  | AAddRoleForUser u _ | ARemoveRoleForUser u _ => String.eqb u s
  | AAddPermissionForUser u _ _ | ARemovePermissionForUser u _ _ => String.eqb u s
  | _ => mutates op
  end.

(** A check for [s] that the enforcer answered otherwise than it would now has yet to store its
    answer. *)
Definition outdated (s : string) (c : Conc) : Prop :=
  ∃ id o x v, calls c !! id = Some (Answered s o x v) ∧ v ≠ decision (enforcer (adapter c)) s o x.

(** A step with which an operation that promises [s] returns, with no such check under way. *)
Definition settles (s : string) (c : Conc) (st : cstep) : Prop :=
  ∃ id op, st = Finish id ∧ calls c !! id = Some (Mutating op) ∧ promises op s = true ∧ ¬ outdated s c.

(** No step of the run affects [s]. *)
Fixpoint unaffected (s : string) (c : Conc) (sts : list cstep) : Prop :=
  match sts with
  | [] => True
  | st :: sts' =>
      (∀ id op, st = Rules id op → calls c !! id = None → ¬ affects (enforcer (adapter c)) op s) ∧
      unaffected s (conc_step c st) sts'
  end.

(** *** Changes of the rules *)

Lemma guarded_ok args (call : E → E * result error bool) (e : E) u :
  (guarded args call e).2 = true → u ∈ args →
  contains_byte NUL u = false ∧ ∃ b, call e = ((guarded args call e).1, Ok b).
Proof.
  unfold guarded. destruct (validatePolicyArgs args) eqn:Hv; [done|]. simpl. intros Hok Hu.
  split; [by eapply validate_nul_free|]. destruct (call e) as [e' [b|]]; [eauto|done].
Qed.

Lemma subject_valid op (e : E) u : subject op = Some u → (change op e).2 = true → contains_byte NUL u = false.
Proof. destruct op; simpl; try done; intros [= <-] Hok; (eapply guarded_ok; [exact Hok|left]). Qed.

(** Changing the rules of a subject that [s] does not reach keeps the decisions for [s]. *)
Lemma change_local op (e : E) u s :
  subject op = Some u → (change op e).2 = true → has_link (groupings e) s u = false →
  ∀ o x, decision (change op e).1 s o x = decision e s o x.
Proof.
  destruct op; simpl; try done; intros [= <-] Hok Hl o' x';
    (edestruct guarded_ok as [_ [b Hb]]; [exact Hok|left|]).
  - apply AddGroupingPolicy_law in Hb as [Hg Hp]. eapply decision_role_change; [done..|].
    intros c d Hc. unfold inherits. rewrite Hg. set_solver.
  - apply RemoveGroupingPolicy_law in Hb as [Hg Hp]. eapply decision_role_change; [done..|].
    intros c d Hc. unfold inherits. rewrite Hg. set_solver.
  - apply AddPolicy_law in Hb as [Hp Hg]. eapply decision_perm_change; [done..|]. rewrite Hp. set_solver.
  - apply RemovePolicy_law in Hb as [Hp Hg]. eapply decision_perm_change; [done..|]. rewrite Hp. set_solver.
  - apply AddPolicy_law in Hb as [Hp Hg]. eapply decision_perm_change; [done..|]. rewrite Hp. set_solver.
  - apply RemovePolicy_law in Hb as [Hp Hg]. eapply decision_perm_change; [done..|]. rewrite Hp. set_solver.
Qed.

#[export] Instance same_view_dec (e e' : E) : Decision (same_view e e').
Proof. unfold same_view. apply _. Defined.

Lemma unaffected_decision op (e : E) s : ¬ affects e op s → ∀ o x, decision (change op e).1 s o x = decision e s o x.
Proof.
  intros Hna o x. destruct (decide (same_view e (change op e).1)) as [Hv|Hv]; [by apply decision_same|].
  destruct (subject op) as [u|] eqn:Hu; [destruct (change op e).2 eqn:Hok|].
  - destruct (has_link (groupings e) s u) eqn:Hl; [|by eapply change_local].
    exfalso. apply Hna. split; [done|]. intros u' Hu' _. congruence.
  - exfalso. apply Hna. split; [done|]. intros u' _ Hok'. congruence.
  - exfalso. apply Hna. split; [done|]. intros u' Hu'. congruence.
Qed.

(** *** The cache and the answers under way *)

Definition wf (c : Conc) : Prop :=
  cache_wf (adapter c) ∧
  ∀ id op u, calls c !! id = Some (Mutating op) → subject op = Some u → contains_byte NUL u = false.

(** What the cache holds for [s], and what the checks under way will store, is [D]. *)
Definition agrees (D : string → string → bool) (s : string) (c : Conc) : Prop :=
  holds (cache (adapter c)) (λ r v, r.1.1 = s → D r.1.2 r.2 = v) ∧
  ∀ id o x v, calls c !! id = Some (Answered s o x v) → v = D o x.

Lemma holds_touch op cp (P Q : request → bool → Prop) :
  (∀ u, subject op = Some u → contains_byte NUL u = false) →
  (∀ r v, promises op r.1.1 = false → P r v → Q r v) → holds cp P → holds (touch op cp) Q.
Proof.
  intros Hu HPQ Hc. destruct op; simpl in *; try (by eapply holds_flush); try (revert Hc; apply holds_mono; by auto).
  all: eapply holds_invalidate; [by apply Hu| |exact Hc]; intros r v Hr; apply HPQ; by apply String.eqb_neq, not_eq_sym.
Qed.

(** A property of the cached decisions and of the answers under way that the enforcer's
    answers have and that touching the cache keeps, is kept by every step. *)
Lemma step_keeps (P : request → bool → Prop) (c : Conc) st :
  (∀ s o x v, enf_Enforce (enforcer (adapter c)) s o x = Ok v → P (s, o, x) v) →
  (∀ id op u, calls c !! id = Some (Mutating op) → subject op = Some u → contains_byte NUL u = false) →
  holds (cache (adapter c)) P ∧ (∀ id s o x v, calls c !! id = Some (Answered s o x v) → P (s, o, x) v) →
  holds (cache (adapter (conc_step c st))) P ∧
  (∀ id s o x v, calls (conc_step c st) !! id = Some (Answered s o x v) → P (s, o, x) v).
Proof.
  intros HP Hv [Hc Ha]. destruct c as [a ps]. cbn [adapter calls] in *.
  destruct st as [id s o x|id|id|id op|id]; cbn [conc_step]; destruct (ps !! id) as [[s' o' x'|s' o' x' v'|op']|] eqn:Hid;
    try (by split); cbn [adapter calls cache].
  - pose proof (holds_get _ _ s o x Hc) as [Hg _]. destruct (get (cache a) s o x) as [c1 [v []]]; cbn [adapter calls cache];
      (split; [exact Hg|]); [exact Ha|]. intros id2 s2 o2 x2 v2 [[_ [=]]|[_ Hl]]%lookup_insert_Some. by eapply Ha.
  - destruct (enf_Enforce (enforcer a) s' o' x') as [v|err] eqn:He; cbn [adapter calls cache]; (split; [exact Hc|]).
    + intros id2 s2 o2 x2 v2 [[_ [= <- <- <- <-]]|[_ Hl]]%lookup_insert_Some; [by apply HP|by eapply Ha].
    + intros id2 s2 o2 x2 v2 [_ Hl]%lookup_delete_Some. by eapply Ha.
  - split; [apply holds_put; [exact Hc|by eapply Ha]|]. intros id2 s2 o2 x2 v2 [_ Hl]%lookup_delete_Some. by eapply Ha.
  - destruct (change op (enforcer a)) as [e' []]; cbn [adapter calls cache]; (split; [exact Hc|]); [|exact Ha].
    intros id2 s2 o2 x2 v2 [[_ [=]]|[_ Hl]]%lookup_insert_Some. by eapply Ha.
  - split; [|intros id2 s2 o2 x2 v2 [_ Hl]%lookup_delete_Some; by eapply Ha].
    eapply holds_touch; [intros u; by eapply Hv|by intros|exact Hc].
Qed.

Lemma wf_step (c : Conc) st : wf c → wf (conc_step c st).
Proof.
  intros [Hc Hv]. split; [by apply (step_keeps (λ _ _, True) c st)|].
  destruct c as [a ps]. cbn [adapter calls] in *.
  destruct st as [id s o x|id|id|id op|id]; cbn [conc_step]; destruct (ps !! id) as [[s' o' x'|s' o' x' v'|op']|] eqn:Hid;
    try done; cbn [adapter calls].
  - destruct (get (cache a) s o x) as [c1 [v []]]; cbn [calls]; [done|].
    intros id2 op2 u2 [[_ [=]]|[_ Hl]]%lookup_insert_Some. by eapply Hv.
  - destruct (enf_Enforce (enforcer a) s' o' x'); cbn [calls]; intros id2 op2 u2.
    + intros [[_ [=]]|[_ Hl]]%lookup_insert_Some. by eapply Hv.
    + intros [_ Hl]%lookup_delete_Some. by eapply Hv.
  - intros id2 op2 u2 [_ Hl]%lookup_delete_Some. by eapply Hv.
  - destruct (change op (enforcer a)) as [e' []] eqn:Hch; cbn [calls]; [|done].
    intros id2 op2 u2 [[_ [= <-]]|[_ Hl]]%lookup_insert_Some; [|by eapply Hv].
    intros Hs. eapply (subject_valid op (enforcer a)); [done|by rewrite Hch].
  - intros id2 op2 u2 [_ Hl]%lookup_delete_Some. by eapply Hv.
Qed.

Lemma wf_run (c : Conc) sts : wf c → wf (conc_run c sts).
Proof. revert c. induction sts as [|st sts IH]; intros c Hc; [done|]. by apply IH, wf_step. Qed.

Lemma fresh_calls (e : E) n id : calls (fresh e n) !! id = None.
Proof. apply lookup_empty. Qed.

Lemma wf_fresh (e : E) n : wf (fresh e n).
Proof. split; [apply holds_new, decisionCacheSize_nonneg|]. intros id op u Hid. by rewrite fresh_calls in Hid. Qed.

Lemma agrees_step D s (c : Conc) st :
  wf c → (∀ o x, decision (enforcer (adapter c)) s o x = D o x) → agrees D s c → agrees D s (conc_step c st).
Proof.
  intros [_ Hv] HD [Hc Ha].
  destruct (step_keeps (λ r v, r.1.1 = s → D r.1.2 r.2 = v) c st) as [Hc' Ha']; [|exact Hv| |].
  - intros s' o x v He. cbn. intros ->. rewrite <-HD. by apply Enforce_law in He as ->.
  - split; [exact Hc|]. cbn. intros id s' o x v Hid ->. symmetry. by eapply Ha.
  - split; [exact Hc'|]. intros id o x v Hid. symmetry. by eapply (Ha' id s).
Qed.

(** The cached decisions for [s] are those of the current rules, and so are the answers under
    way. *)
Definition up_to_date (s : string) (c : Conc) : Prop := agrees (decision (enforcer (adapter c)) s) s c.

Lemma agrees_decisions D D' s (c : Conc) : (∀ o x, D o x = D' o x) → agrees D s c → agrees D' s c.
Proof.
  intros HD [Hc Ha]. split; [|intros id o x v Hid; rewrite <-HD; by eapply Ha].
  revert Hc. apply holds_mono. intros r v Hr Hs. rewrite <-HD. by apply Hr.
Qed.

Lemma step_decision s (c : Conc) st :
  (∀ id op, st = Rules id op → calls c !! id = None → ¬ affects (enforcer (adapter c)) op s) →
  ∀ o x, decision (enforcer (adapter (conc_step c st))) s o x = decision (enforcer (adapter c)) s o x.
Proof.
  intros Hna o x. destruct c as [a ps]. cbn [adapter calls] in *.
  destruct st as [id s' o' x'|id|id|id op|id]; cbn [conc_step]; destruct (ps !! id) as [[]|] eqn:Hid; try done.
  - by destruct (get (cache a) s' o' x') as [c1 [v []]].
  - by destruct (enf_Enforce _ _ _ _).
  - pose proof (unaffected_decision op (enforcer a) s (Hna id op eq_refl Hid) o x) as Hd.
    by destruct (change op (enforcer a)) as [e' []].
Qed.

Lemma up_to_date_run s (c : Conc) sts : wf c → unaffected s c sts → up_to_date s c → up_to_date s (conc_run c sts).
Proof.
  revert c. induction sts as [|st sts IH]; intros c Hwf Hun Hup; [done|]. destruct Hun as [Hna Hun].
  apply (IH (conc_step c st)); [by apply wf_step|done|]. eapply agrees_decisions; [|apply agrees_step; [done|reflexivity|exact Hup]].
  intros o x. symmetry. by apply step_decision.
Qed.

(** After [NewAdapter], and after an operation that promises [s] has returned. *)
Lemma up_to_date_fresh s (e : E) n : up_to_date s (fresh e n).
Proof. split; [apply holds_new, decisionCacheSize_nonneg|]. intros id o x v Hid. by rewrite fresh_calls in Hid. Qed.

Lemma agrees_finish D s (c : Conc) id op :
  wf c → calls c !! id = Some (Mutating op) → promises op s = true →
  (∀ id' o x v, calls c !! id' = Some (Answered s o x v) → v = D o x) → agrees D s (conc_step c (Finish id)).
Proof.
  intros [Hc Hv] Hid Hp Ha. destruct c as [a ps]. cbn [adapter calls conc_step] in *. rewrite Hid. split; cbn [adapter cache calls].
  - eapply holds_touch; [intros u; by eapply Hv| |exact Hc]. intros r v Hr _ Hs. congruence.
  - intros id2 o x v [_ Hl]%lookup_delete_Some. by eapply Ha.
Qed.

Lemma settles_up_to_date s (c : Conc) st : wf c → settles s c st → up_to_date s (conc_step c st).
Proof.
  intros Hwf (id & op & -> & Hid & Hp & Hno). apply (agrees_decisions (decision (enforcer (adapter c)) s)).
  - intros o x. symmetry. by apply step_decision.
  - eapply agrees_finish; [done..|]. intros id' o x v Hl. destruct (decide (v = decision (enforcer (adapter c)) s o x)); [done|].
    exfalso. apply Hno. by exists id', o, x, v.
Qed.

Lemma up_to_date_enforce s (c : Conc) o x b :
  up_to_date s c → (Enforce (adapter c) s o x).2 = Ok b → b = decision (enforcer (adapter c)) s o x.
Proof.
  intros [Hc _]. simpl. unfold Adapter_Enforce. pose proof (holds_get _ _ s o x Hc) as [_ Hv].
  destruct (get (cache (adapter c)) s o x) as [c1 [v []]]; cbn [fst snd] in *.
  - intros [= <-]. symmetry. by apply Hv.
  - destruct (enf_Enforce (enforcer (adapter c)) s o x) eqn:He; [|done]. apply Enforce_law in He as ->. by intros [= <-].
Qed.

(** Deciding [outdated] on a concrete state. *)
Definition fresh_answer (c : Conc) (p : pending) : bool :=
  match p with Answered s o x v => Bool.eqb v (decision (enforcer (adapter c)) s o x) | _ => true end.

Lemma not_outdated s (c : Conc) : forallb (fresh_answer c) (map_to_list (calls c)).*2 = true → ¬ outdated s c.
Proof.
  rewrite forallb_forall. intros Hall (id & o & x & v & Hid & Hv).
  assert (fresh_answer c (Answered s o x v) = true) as Hf.
  { apply Hall, list_elem_of_In, list_elem_of_fmap. exists (id, Answered s o x v). split; [done|]. by apply elem_of_map_to_list. }
  by apply Bool.eqb_prop in Hf.
Qed.

(** C3: what the decision cache may answer while calls overlap.  Take any interleaving of the
    steps of checks, role and permission changes, reloads and watcher messages on a fresh
    adapter of any cache size.  Up to the first rule change that affects a subject, and again
    from the moment an operation that promises the subject returns (one on a user's roles or
    permissions for that user, one on a role's permissions, a reload and a message for
    everybody) while no outdated answer for it waits to be stored, until the next rule change
    that affects it: every check for the subject, answered from the cache or by the enforcer,
    gets the decision of the rules as they are, and so does every check that the enforcer has
    answered and that is still under way.  A change of one subject's rules affects that
    subject and those that reach it over their roles, and nobody else; a reload, a message and
    a call that fails half-way affect everybody, unless they leave the rules as they were. *)
Theorem cached_decisions_exact (e : E) (n : Z) (before after : list cstep) (s o x : string) :
  let c0 := conc_run (fresh e n) before in
  let c := conc_run c0 after in
  before = [] ∨ (∃ earlier st, before = earlier ++ [st] ∧ settles s (conc_run (fresh e n) earlier) st) →
  unaffected s c0 after →
  (∀ b, (Enforce (adapter c) s o x).2 = Ok b → b = decision (enforcer (adapter c)) s o x) ∧
  (∀ id v, calls c !! id = Some (Answered s o x v) → v = decision (enforcer (adapter c)) s o x).
Proof.
  intros c0 c Hstart Hun. assert (wf c0) as Hwf by apply wf_run, wf_fresh.
  assert (up_to_date s c) as Hup.
  { apply up_to_date_run; [done..|]. destruct Hstart as [->|(earlier & st & -> & Hst)]; [apply up_to_date_fresh|].
    unfold c0, conc_run. rewrite foldl_app. apply settles_up_to_date; [apply wf_run, wf_fresh|exact Hst]. }
  split; [intros b; by apply up_to_date_enforce|]. intros id v Hid. by eapply (proj2 Hup).
Qed.

End answers.
(** ** Several instances over one table *)

Section cluster.
Context {E : Type} `{SharedTable E}.
Notation Conc := (Conc (E := E)).

(** An instance: its adapter with the calls under way, and the messages of its subscription not
    yet received. *)
Record Instance_ := mkInstance { conc : Conc; inbox : list string }.
Record Cluster := mkCluster { table : rules; instances : list Instance_ }.

(** What an instance would read from the table now. *)
Definition seen (t : rules) (c : Conc) : Conc :=
  mkConc (mkAdapter (at_table t (enforcer (adapter c))) (cache (adapter c))) (calls c).

Definition broadcast (msgs : list string) (l : list Instance_) : list Instance_ :=
  map (λ x, mkInstance (conc x) (inbox x ++ msgs)) l.

(** What can happen: a step of a call at an instance, which may leave the table as [t] and
    send its notification; the callback taking the oldest message of an instance (as the call
    [id]), which may write the table and notify in turn; the loss of that message; a write to
    the table by another program.  A back-stop reload is the call [ALoadPolicy]. *)
Inductive event :=
| EvStep (i : nat) (st : cstep) (t : rules) (sent : bool)
| EvDeliver (i id : nat) (t : rules) (echo : list string)
| EvLose (i : nat)
| EvTable (t : rules).

Definition at_instance (i : nat) (f : Instance_ → Instance_) (c : Cluster) : list Instance_ :=
  alter f i (instances c).

Definition sends (st : cstep) : list string := match st with Rules _ op => notified op | _ => [] end.

Definition step_at (t : rules) (st : cstep) (x : Instance_) : Instance_ :=
  mkInstance (conc_step (seen t (conc x)) st) (inbox x).

Definition receive_at (t : rules) (id : nat) (x : Instance_) : Instance_ :=
  match inbox x, calls (conc x) !! id with
  | msg :: rest, None => mkInstance (conc_step (seen t (conc x)) (Rules id (AWatcher (decodeOp msg)))) rest
  | _, _ => x
  end.

Definition cluster_step (c : Cluster) (ev : event) : Cluster :=
  match ev with
  | EvStep i st t sent =>
      mkCluster t (broadcast (if sent then sends st else []) (at_instance i (step_at (table c) st) c))
  | EvDeliver i id t echo => mkCluster t (broadcast echo (at_instance i (receive_at (table c) id) c))
  | EvLose i => mkCluster (table c) (at_instance i (λ x, mkInstance (conc x) (tail (inbox x))) c)
  | EvTable t => mkCluster t (instances c)
  end.

Definition cluster_run (c : Cluster) (evs : list event) : Cluster := foldl cluster_step c evs.

Definition cluster_start (t : rules) (es : list E) (cfgSize : Z) : Cluster :=
  mkCluster t (map (λ e, mkInstance (fresh e cfgSize) []) es).

(** The decision the table calls for. *)
Definition table_decision (t : rules) (sub obj act : string) : bool :=
  defaultModel_decision (has_link t.2) t.1 sub obj act.

(** *** Instances stay well formed *)

Definition all_wf (c : Cluster) : Prop := Forall (λ x, wf (conc x)) (instances c).

Lemma wf_step_at t st x : wf (conc x) → wf (conc (step_at t st x)).
Proof. intros Hx. by apply wf_step. Qed.

Lemma all_wf_alter c i f : all_wf c → (∀ x, wf (conc x) → wf (conc (f x))) → Forall (λ x, wf (conc x)) (at_instance i f c).
Proof. intros Hc Hf. apply Forall_alter; [done|]. intros x _ Hx. by apply Hf. Qed.

Lemma all_wf_broadcast msgs l : Forall (λ x, wf (conc x)) l → Forall (λ x, wf (conc x)) (broadcast msgs l).
Proof. intros Hl. unfold broadcast. apply Forall_map. by apply (Forall_impl _ _ _ Hl). Qed.

Lemma all_wf_step c ev : all_wf c → all_wf (cluster_step c ev).
Proof.
  intros Hc. destruct ev as [i st t sent|i id t echo|i|t]; unfold all_wf; cbn [cluster_step instances]; try done.
  - apply all_wf_broadcast, all_wf_alter; [done|]. apply wf_step_at.
  - apply all_wf_broadcast, all_wf_alter; [done|]. intros x Hx. unfold receive_at.
    destruct (inbox x); [done|]. destruct (calls (conc x) !! id); [done|]. by apply wf_step.
  - by apply all_wf_alter.
Qed.

Lemma all_wf_run evs c : all_wf c → all_wf (cluster_run c evs).
Proof. revert c. induction evs as [|ev evs IH]; intros c Hc; [done|]. by apply IH, all_wf_step. Qed.

Lemma all_wf_start t es n : all_wf (cluster_start t es n).
Proof. apply Forall_map, Forall_true. intros e. apply wf_fresh. Qed.

(** *** Rules as in the table *)

Definition loaded (t : rules) (c : Conc) : Prop :=
  policies (enforcer (adapter c)) = t.1 ∧ groupings (enforcer (adapter c)) = t.2.

(** Steps that change no rule other than by reading the table. *)
Definition keeps (st : cstep) : bool :=
  match st with Rules _ ALoadPolicy => true | Rules _ op => negb (mutates op) | _ => true end.

Lemma loaded_decision t (c : Conc) s o x : loaded t c → decision (enforcer (adapter c)) s o x = table_decision t s o x.
Proof. intros [Hp Hg]. unfold decision, table_decision. by rewrite Hp, Hg. Qed.

Lemma loaded_seen t t' (c : Conc) : loaded t c → loaded t (seen t' c).
Proof. intros [Hp Hg]. destruct (at_table_view t' (enforcer (adapter c))) as [Hp' Hg']. split; simpl; congruence. Qed.

Lemma loaded_view t (c : Conc) e' ca ps :
  loaded t c → same_view (enforcer (adapter c)) e' → loaded t (mkConc (mkAdapter e' ca) ps).
Proof. intros [Hp Hg] [Hp' Hg']. split; simpl; congruence. Qed.

Lemma load_loaded t (c : Conc) ca ps :
  (reload (enforcer (adapter (seen t c)))).2 = true →
  loaded t (mkConc (mkAdapter (reload (enforcer (adapter (seen t c)))).1 ca) ps).
Proof.
  unfold reload. cbn [seen adapter enforcer]. destruct (enf_LoadPolicy _) as [e' [err|]] eqn:Hl; [done|]. intros _.
  apply LoadPolicy_ok in Hl. done.
Qed.

Lemma loaded_step t (c : Conc) st : keeps st = true → loaded t c → loaded t (conc_step (seen t c) st).
Proof.
  intros Hk Hl. pose proof (loaded_seen t t c Hl) as Hs. destruct c as [a ps]. unfold seen in *. cbn [adapter calls] in *.
  set (e := at_table t (enforcer a)) in *.
  destruct st as [id s o x|id|id|id op|id]; cbn [conc_step]; destruct (ps !! id) as [[]|]; try done; cbn [enforcer cache].
  - by destruct (get (cache a) s o x) as [c1 [v []]].
  - by destruct (enf_Enforce e _ _ _).
  - destruct op; try done. unfold change. destruct (reload e) as [e' ok] eqn:Hr. unfold reload in Hr.
    destruct (enf_LoadPolicy e) as [e2 [err|]] eqn:Hlo; injection Hr as <- <-; cbn [fst].
    + apply LoadPolicy_failed in Hlo. by eapply loaded_view.
    + apply LoadPolicy_ok in Hlo as [Hp Hg]. by split.
Qed.

(** The rules are those of the table, and so are all cached decisions and answers under way. *)
Definition exact (t : rules) (c : Conc) : Prop := loaded t c ∧ ∀ s, agrees (table_decision t s) s c.

Lemma exact_step t (c : Conc) st : keeps st = true → wf c → exact t c → exact t (conc_step (seen t c) st).
Proof.
  intros Hk Hwf [Hl Ha]. split; [by apply loaded_step|]. intros s. apply agrees_step; [done| |by apply Ha].
  intros o x. by apply loaded_decision, loaded_seen.
Qed.

(** Events that change neither the table nor, other than by reading and reloading, the
    instance [i]. *)
Definition quiet (i : nat) (t : rules) (ev : event) : bool :=
  match ev with
  | EvStep j st t' _ => bool_decide (t' = t) && (negb (j =? i)%nat || keeps st)
  | EvDeliver j _ t' _ => bool_decide (t' = t) && negb (j =? i)%nat
  | EvLose _ => true
  | EvTable t' => bool_decide (t' = t)
  end.

Lemma broadcast_lookup msgs l i x :
  broadcast msgs l !! i = Some x → ∃ y, l !! i = Some y ∧ conc x = conc y.
Proof. unfold broadcast. rewrite list_lookup_fmap, fmap_Some. intros (y & ? & ->). eauto. Qed.

Lemma at_instance_lookup c i j f x :
  at_instance j f c !! i = Some x → ∃ y, instances c !! i = Some y ∧ (x = y ∨ (i = j ∧ x = f y)).
Proof.
  unfold at_instance. destruct (decide (i = j)) as [->|Hne].
  - rewrite list_lookup_alter_eq, fmap_Some. naive_solver.
  - rewrite list_lookup_alter_ne by done. eauto.
Qed.

(** A property of an instance that quiet steps keep holds through quiet runs. *)
Lemma quiet_run (P : Conc → Prop) i t :
  (∀ c st, keeps st = true → wf c → P c → P (conc_step (seen t c) st)) →
  ∀ evs c, table c = t → all_wf c → forallb (quiet i t) evs = true →
    (∀ x, instances c !! i = Some x → P (conc x)) →
    table (cluster_run c evs) = t ∧ ∀ x, instances (cluster_run c evs) !! i = Some x → P (conc x).
Proof.
  intros HP. induction evs as [|ev evs IH]; intros c Ht Hwf Hq Hc; [done|]. simpl in Hq. to_prop.
  apply (IH (cluster_step c ev)); [|by apply all_wf_step|done|]; clear IH.
  - destruct ev; simpl in *; to_prop; congruence.
  - intros x. destruct ev as [j st t' sent|j id t' echo|j|t']; simpl in *; to_prop; subst.
    + intros (y & Hy & ->)%broadcast_lookup. apply at_instance_lookup in Hy as (z & Hz & [->|[-> ->]]); [by apply Hc|].
      rewrite Nat.eqb_refl in *. apply HP; [naive_solver|by eapply (Forall_lookup_1 _ _ _ _ Hwf)|by apply Hc].
    + intros (y & Hy & ->)%broadcast_lookup. apply at_instance_lookup in Hy as (z & Hz & [->|[-> ->]]); [by apply Hc|].
      by rewrite Nat.eqb_refl in *.
    + intros Hy. apply at_instance_lookup in Hy as (z & Hz & [->|[-> ->]]); simpl; by apply Hc.
    + apply Hc.
Qed.

(** C19: propagation converges.  Whatever steps of calls, deliveries, lost messages, reloads
    and foreign writes happened before, in whatever order, from fresh instances of any cache
    size: let a back-stop reload of an instance read the table with success and later flush the
    cache, and let no check that the enforcer answered by older rules be still under way at the
    flush.  While, from the reading on, the table stays as it is and the instance itself
    mutates nothing and takes no message - checks and reloads may overlap as they like - every
    decision the instance returns after the flush, cached or not, is the one the table calls
    for, and so is every answer still to be stored. *)
Theorem backstop_converges (t0 : rules) (es : list E) (n : Z) (before during after : list event) (i id : nat)
    (y z x : Instance_) (sub obj act : string) :
  let c := cluster_run (cluster_start t0 es n) before in
  let t := table c in
  let c1 := cluster_run (cluster_step c (EvStep i (Rules id ALoadPolicy) t false)) during in
  let c2 := cluster_run (cluster_step c1 (EvStep i (Finish id) t false)) after in
  instances c !! i = Some y → calls (conc y) !! id = None → (reload (enforcer (adapter (seen t (conc y))))).2 = true →
  forallb (quiet i t) during = true →
  instances c1 !! i = Some z → calls (conc z) !! id = Some (Mutating ALoadPolicy) → (∀ s, ¬ outdated s (conc z)) →
  forallb (quiet i t) after = true →
  instances c2 !! i = Some x →
  (∀ b, (Enforce (adapter (conc x)) sub obj act).2 = Ok b → b = table_decision t sub obj act) ∧
  (∀ id' v, calls (conc x) !! id' = Some (Answered sub obj act v) → v = table_decision t sub obj act).
Proof.
  intros c t c1 c2 Hy Hid Hload Hduring Hz Hmut Hout Hafter Hx.
  assert (Hwf : all_wf c) by apply all_wf_run, all_wf_start.
  set (cr := cluster_step c (EvStep i (Rules id ALoadPolicy) t false)) in *.
  assert (Hwfr : all_wf cr) by by apply all_wf_step.
  destruct (quiet_run (loaded t) i t) with (evs := during) (c := cr) as [Ht1 Hl1];
    [intros; by apply loaded_step|done|done|done| |].
  { intros w. unfold cr. cbn [cluster_step instances]. intros (v & Hv & ->)%broadcast_lookup.
    unfold at_instance in Hv. rewrite list_lookup_alter_eq, Hy in Hv. injection Hv as <-.
    revert Hload. destruct (conc y) as [a ps] eqn:E1. unfold step_at. rewrite E1. cbn [conc seen adapter calls conc_step] in *. rewrite Hid.
    cbn [change enforcer cache]. intros Hload. pose proof (load_loaded t (mkConc a ps) (cache a)) as Hll.
    cbn [seen adapter enforcer cache] in Hll. destruct (reload _) as [e' ok] eqn:Hr. cbn [fst snd] in *. by apply Hll. }
  assert (Hwf1 : all_wf c1) by by apply all_wf_run.
  destruct (quiet_run (exact t) i t) with (evs := after) (c := cluster_step c1 (EvStep i (Finish id) t false)) as [_ Hex];
    [intros; by apply exact_step|done|by apply all_wf_step|done| |].
  { intros w. cbn [cluster_step instances]. intros (v & Hv & ->)%broadcast_lookup.
    unfold at_instance in Hv. rewrite list_lookup_alter_eq, Hz in Hv. injection Hv as <-.
    fold c1 in Ht1. rewrite Ht1. pose proof (Hl1 z Hz) as Hlz. split; [by apply loaded_step|].
    intros s. eapply agrees_finish; [exact (Forall_lookup_1 _ _ _ _ Hwf1 Hz)|exact Hmut|done|].
    intros id' o' x' v Hans. rewrite <-(loaded_decision t (conc z) s o' x' Hlz).
    destruct (decide (v = decision (enforcer (adapter (conc z))) s o' x')); [done|]. exfalso. apply (Hout s). by exists id', o', x', v. }
  destruct (Hex x Hx) as [Hl Ha]. split.
  - intros b Hb. rewrite <-(loaded_decision t (conc x) sub obj act Hl). eapply up_to_date_enforce; [|exact Hb].
    eapply agrees_decisions; [|apply Ha]. intros o' x'. symmetry. by apply loaded_decision.
  - intros id' v Hid'. by eapply (proj2 (Ha sub)).
Qed.

End cluster.
(** ** Concrete runs *)

Import MemEnforcer TabEnforcer.

Definition check_alice (id : nat) : list cstep := [Lookup id "alice" "users" "delete"; Ask id; Store id].

(** Alice's check is cached, then she becomes an admin while Bob's check is under way. *)
Definition promoted : list cstep :=
  check_alice 0 ++ [Rules 1 (AAddRoleForUser "alice" "admin"); Lookup 2 "bob" "users" "read"; Ask 2; Finish 1].
(** Later Bob becomes a viewer in the middle of another check of hers. *)
Definition later : list cstep :=
  [Lookup 3 "alice" "users" "delete"; Rules 4 (AAddRoleForUser "bob" "viewer"); Ask 3; Store 3; Finish 4].

Lemma cached_decisions_exact_witness :
  let a := adapter (conc_run (conc_run (fresh mem0 0) promoted) later) in
  (Enforce (adapter (conc_run (fresh mem0 0) (check_alice 0))) "alice" "users" "delete").2 = Ok false ∧
  (Enforce a "alice" "users" "delete").2 = Ok (decision (enforcer a) "alice" "users" "delete") ∧
  decision (enforcer a) "alice" "users" "delete" = true.
Proof.
  intros a. split; [vm_compute; reflexivity|]. split; [|vm_compute; reflexivity].
  destruct (cached_decisions_exact mem0 0 promoted later "alice" "users" "delete") as [Hd _].
  - right. eexists (check_alice 0 ++ [Rules 1 (AAddRoleForUser "alice" "admin"); Lookup 2 "bob" "users" "read"; Ask 2]), (Finish 1).
    split; [reflexivity|]. exists 1%nat, (AAddRoleForUser "alice" "admin"). split; [reflexivity|].
    split; [vm_compute; reflexivity|]. split; [reflexivity|]. apply not_outdated. vm_compute. reflexivity.
  - unfold later. repeat (apply conj; [intros id op Hst _; try discriminate Hst|]); [|exact I].
    injection Hst as <- <-. intros [_ Hu]. specialize (Hu "bob" eq_refl eq_refl). vm_compute in Hu. discriminate Hu.
  - destruct (Enforce a "alice" "users" "delete").2 as [b|err] eqn:Hb; [f_equal; exact (Hd b Hb)|].
    vm_compute in Hb. discriminate Hb.
Defined.

(** The condition on outdated answers is needed.  A check that overlaps a revocation can undo
    its effect on the cache: it asks the enforcer before the permission is removed and stores
    the answer after the removal has flushed the cache; from then on the revoked permission is
    granted, to this check and to every later one, until the next flush or reload. *)
Theorem revocation_race_stale :
  let c := conc_run (fresh mem0 0)
    [Lookup 0 "alice" "users" "read"; Ask 0;
     Rules 1 (ARemovePermissionForRole "viewer" "users" "read"); Finish 1; Store 0] in
  decision (enforcer (adapter c)) "alice" "users" "read" = false ∧
  (Enforce (adapter c) "alice" "users" "read").2 = Ok true ∧
  (Enforce (adapter (conc_run c [Rules 2 ALoadPolicy; Finish 2])) "alice" "users" "read").2 = Ok false.
Proof. vm_compute. done. Qed.

(** Two instances that have loaded the same table.  The first assigns a role; the message makes
    the second flush its cache and reload nothing; the reload that follows brings the role. *)
Definition rules1 : rules := (rules0.1, {[ ["alice"; "admin"] ]} ∪ rules0.2).
Definition at_ (i : nat) (sts : list cstep) : list event := map (λ st, EvStep i st rules1 true) sts.
Definition assigned : list event :=
  at_ 0 [Rules 0 (AAddRoleForUser "alice" "admin")] ++ at_ 1 (check_alice 0) ++
  [EvDeliver 1 1 rules1 []; EvStep 1 (Finish 1) rules1 false; EvLose 0].

Lemma tab_enforce_ok (a : Adapter tabEnforcer) s o x err : (Enforce a s o x).2 ≠ Err err.
Proof. simpl. unfold Adapter_Enforce. by destruct (get (cache a) s o x) as [c1 [v []]]. Qed.

(** The instance at [i], which is there. *)
Definition inst (c : Cluster (E := tabEnforcer)) (i : nat) : Instance_ := default (mkInstance (fresh tab0 0) []) (instances c !! i).
Definition assigned_run : Cluster := cluster_run (cluster_start rules0 [tab0; tab0] 0) assigned.
(** The reload while a check of hers is under way. *)
Definition reloading : Cluster :=
  cluster_run (cluster_step assigned_run (EvStep 1 (Rules 2 ALoadPolicy) rules1 false)) (at_ 1 [Lookup 3 "alice" "users" "delete"; Ask 3]).
Definition reloaded : Cluster := cluster_run (cluster_step reloading (EvStep 1 (Finish 2) rules1 false)) (at_ 1 [Store 3]).

Lemma backstop_converges_witness :
  let ask x := (Enforce (adapter (conc x)) "alice" "users" "delete").2 in
  ask (inst assigned_run 1) = Ok false ∧
  ask (inst reloaded 1) = Ok (table_decision (table assigned_run) "alice" "users" "delete").
Proof.
  intros ask. split; [vm_compute; reflexivity|].
  destruct (backstop_converges rules0 [tab0; tab0] 0 assigned (at_ 1 [Lookup 3 "alice" "users" "delete"; Ask 3]) (at_ 1 [Store 3])
              1 2 (inst assigned_run 1) (inst reloading 1) (inst reloaded 1) "alice" "users" "delete") as [Hd _];
    [vm_compute; reflexivity.. | | vm_compute; reflexivity | vm_compute; reflexivity | ].
  - intros s. apply not_outdated. vm_compute. reflexivity.
  - fold assigned_run in Hd. unfold ask. destruct (Enforce (adapter (conc (inst reloaded 1))) "alice" "users" "delete").2 as [b|err] eqn:Hb.
    + f_equal. exact (Hd b eq_refl).
    + by apply tab_enforce_ok in Hb.
Defined.

End CasbinSteps.
