(* ===== verification/Cache.v ===== *)
(** * Cache adapters

    Models [internal/adapter/cache]: the no-op cache ([noop.go]) and the Redis cache
    ([redis.go]) with its SCAN/DEL loop and the Lua sliding-window script.  The Redis
    server and its client library are parameters (class [Redis]); [RedisLaws] states the
    documented behaviour the adapter relies on, and [MemRedis] is a concrete server that
    has it.  Both adapters are instances of the port [Cache]. *)
From S2P Require Import Prelude AppErr Port.

Module CacheAdapter.

(** ** The no-op cache *)

Definition NoOpCache := unit.

#[export] Instance NoOpCache_Cache : Port.Cache NoOpCache := {
  cache_Get _ _ := Err CacheMissError;
  cache_Set c _ _ _ := (c, None);
  cache_Delete c _ := (c, None);
  cache_DeleteByPrefix c _ := (c, Some CacheUnavailableError);
  cache_Exists _ _ := Ok false;
  cache_Increment c _ := (c, Ok 0);
  cache_Decrement c _ := (c, Ok 0);
  cache_Expire c _ _ := (c, None);
  cache_SlidingWindowAllow c _ _ maxReqs _ := (c, Ok (true, maxReqs, 0))
}.

#[export] Instance NoOpCache_safety : CacheSafety NoOpCache.
Proof.
  refine {| live := λ _ : NoOpCache, ∅ |}; simpl; intros; try done; try apply map_empty_subseteq.
Defined.

(** ** Lua numbers: IEEE doubles holding integers *)

(** The double nearest to an integer, ties to even: 53 significant bits. *)
Definition round_double (z : Z) : Z :=
  let a := Z.abs z in
  if a <? 2 ^ 53 then z
  else
    let sh := Z.log2 a - 52 in
    let q := a / 2 ^ sh in
    let r := a `mod` 2 ^ sh in
    let half := 2 ^ (sh - 1) in
    let q' := if (half <? r) || ((half =? r) && Z.odd q) then q + 1 else q in
    Z.sgn z * (q' * 2 ^ sh).

(** [math.ceil(a / b)] for [b > 0]: the quotient is rounded to a double first. *)
Definition ceil_fdiv (a b : Z) : Z :=
  let n := Z.abs a in
  if n =? 0 then 0
  else
    let e := Z.log2 n - Z.log2 b in
    let k := Z.max 0 (53 - e) in                 (* enough binary places for 53 bits *)
    let e' := Z.log2 (n * 2 ^ k / b) - k in      (* exponent of the quotient *)
    let p := Z.max 0 (52 - e') in
    let q := n * 2 ^ p / b in
    let r := (n * 2 ^ p) `mod` b in
    let m := if (b <? 2 * r) || ((b =? 2 * r) && Z.odd q) then q + 1 else q in
    if 0 <? a then - ((- m) / 2 ^ p) else - (m / 2 ^ p).

(** The sliding-window script on the sorted set of its key.  Members and scores are the
    same numbers, so the set is a set of numbers; the result is the new set, the argument
    of PEXPIRE when it is called, and the reply. *)
Definition set_min (s : gset Z) : option Z :=
  foldr (λ x acc, match acc with Some y => Some (Z.min x y) | None => Some x end) None (elements s).

Definition slidingWindowScript (now0 window0 max0 : Z) (zs : gset Z)
    : gset Z * option Z * list Z :=
  let now := round_double now0 in
  let window := round_double window0 in
  let max := round_double max0 in
  let cutoff := round_double (now - window) in
  let zs := filter (λ x, cutoff < x) zs in
  let count := Z.of_nat (size zs) in
  if count >=? max then
    let retry_ns := match set_min zs with
                    | Some oldest => round_double (round_double (oldest + window) - now)
                    | None => 0
                    end in
    let retry_sec := ceil_fdiv retry_ns 1000000000 in
    let retry_sec := if retry_sec <? 1 then 1 else retry_sec in
    (zs, None, [0; 0; retry_sec])
  else
    ({[now]} ∪ zs, Some (ceil_fdiv window 1000000), [1; max - count - 1; 0]).

(** ** Redis *)

(** [redis.Nil] or a client error *)
Inductive redis_error := RedisNil | RedisErr (e : error).

Class Redis (R : Type) := {
  redis_Get : R → string → result redis_error string;
  redis_Set : R → string → string → Z → R * option error;
  redis_Del : R → list string → R * option error;
  redis_Scan : R → Z → string → Z → result error (list string * Z);
  redis_Exists : R → string → result error Z;
  redis_Incr : R → string → R * result error Z;
  redis_Decr : R → string → R * result error Z;
  redis_Expire : R → string → Z → R * option error;
  (* EVAL of a script over the sorted set of one key *)
  redis_Eval : R → string → (gset Z → gset Z * option Z * list Z) → R * result error (list Z);
  (* number of SCAN calls a full iteration may take from a cursor on *)
  redis_scan_left : R → Z → nat
}.

(** SCAN's contract: an iteration started at cursor 0 visits every key that is present
    from its start to its end, and it ends.  [ahead r c k] says that an iteration at
    cursor [c] still has [k] before it. *)
Class RedisLaws (R : Type) `{Redis R} := {
  strs : R → gmap string string;
  redis_Get_sound r k v : redis_Get r k = Ok v → strs r !! k = Some v;
  redis_Get_complete r k v : strs r !! k = Some v →
    redis_Get r k = Ok v ∨ ∃ e, redis_Get r k = Err (RedisErr e);
  redis_Set_upper r k v ttl : strs (redis_Set r k v ttl).1 ⊆ <[k := v]> (strs r);
  redis_Del_upper r ks : strs (redis_Del r ks).1 ⊆ strs r;
  redis_Del_ok r ks k :
    (redis_Del r ks).2 = None → k ∈ ks → strs (redis_Del r ks).1 !! k = None;
  ahead : R → Z → string → Prop;
  ahead_start r k : ahead r 0 k;
  ahead_Del r ks c k : ahead r c k → ahead (redis_Del r ks).1 c k;
  Scan_visits r c p n ks c' k :
    plain_prefix p = true → redis_Scan r c (p +:+ "*") n = Ok (ks, c') →
    has_prefix p k = true → is_Some (strs r !! k) → ahead r c k →
    k ∈ ks ∨ (c' ≠ 0 ∧ ahead r c' k);
  Scan_ends r c pat n ks c' :
    redis_Scan r c pat n = Ok (ks, c') → c' ≠ 0 →
    (redis_scan_left r c' < redis_scan_left r c)%nat;
  Scan_left_Del r ks c : (redis_scan_left (redis_Del r ks).1 c ≤ redis_scan_left r c)%nat
}.

Section redis_cache.
Context {R : Type} `{Redis R}.

Definition redis_get (c : R) (key : string) : result error string :=
  match redis_Get c key with
  | Ok v => Ok v
  | Err RedisNil => Err CacheMissError
  | Err (RedisErr e) => Err (FmtError "redis get error: " e "")
  end.

Definition redis_set (c : R) (key value : string) (ttl : Z) : R * option error :=
  let '(c', e) := redis_Set c key value ttl in
  (c', (λ e, FmtError "redis set error: " e "") <$> e).

Definition redis_delete (c : R) (key : string) : R * option error :=
  let '(c', e) := redis_Del c [key] in
  (c', (λ e, FmtError "redis delete error: " e "") <$> e).

(** [if len(keys) > 0 { client.Del(ctx, keys...) }] *)
Definition del_keys (c : R) (keys : list string) : R * option error :=
  if 0 <? Z.of_nat (length keys) then redis_Del c keys else (c, None).

(** The SCAN loop; [None] when the fuel runs out. *)
Fixpoint scan_loop (fuel : nat) (c : R) (cursor : Z) (prefix : string) : option (R * option error) :=
  match fuel with
  | O => None
  | S fuel' =>
      match redis_Scan c cursor (prefix +:+ "*") 100 with
      | Err e => Some (c, Some (FmtError "redis scan error: " e ""))
      | Ok (keys, nextCursor) =>
          let '(c', delErr) := del_keys c keys in
          match delErr with
          | Some e => Some (c', Some (FmtError "redis del error: " e ""))
          | None => if nextCursor =? 0 then Some (c', None) else scan_loop fuel' c' nextCursor prefix
          end
      end
  end.

(** The loop with the fuel a full iteration needs ([scan_loop_total] below). *)
Definition redis_delete_by_prefix (c : R) (prefix : string) : R * option error :=
  default (c, None) (scan_loop (S (redis_scan_left c 0)) c 0 prefix).

Definition redis_exists (c : R) (key : string) : result error bool :=
  match redis_Exists c key with
  | Ok n => Ok (0 <? n)
  | Err e => Err (FmtError "redis exists error: " e "")
  end.

Definition redis_wrap {A} (text : string) (r : R * result error A) : R * result error A :=
  match r with
  | (c', Err e) => (c', Err (FmtError text e ""))
  | ok => ok
  end.

Definition redis_increment (c : R) (key : string) := redis_wrap "redis incr error: " (redis_Incr c key).
Definition redis_decrement (c : R) (key : string) := redis_wrap "redis decr error: " (redis_Decr c key).

Definition redis_expire (c : R) (key : string) (ttl : Z) : R * option error :=
  let '(c', e) := redis_Expire c key ttl in
  (c', (λ e, FmtError "redis expire error: " e "") <$> e).

Definition redis_sliding_window_allow (c : R) (nowNs : Z) (key : string) (maxReqs window : Z)
    : R * result error (bool * Z * Z) :=
  match redis_Eval c key (slidingWindowScript nowNs window maxReqs) with
  | (c', Err e) => (c', Err (FmtError "redis sliding window error: " e ""))
  | (c', Ok (allowed :: remaining :: retryAfter :: _)) => (c', Ok (allowed =? 1, remaining, retryAfter))
  | (c', Ok res) =>
      (c', Err (PlainError ("redis sliding window: unexpected result length " +:+
                            pretty (Z.of_nat (length res)))))
  end.

End redis_cache.

Record RedisCache (R : Type) := mkRedisCache { client : R }.
Arguments mkRedisCache {R}.
Arguments client {R}.

Definition on_client {R A} (r : R * A) : RedisCache R * A := (mkRedisCache r.1, r.2).

#[export] Instance RedisCache_Cache {R} `{Redis R} : Port.Cache (RedisCache R) := {
  cache_Get c k := redis_get (client c) k;
  cache_Set c k v ttl := on_client (redis_set (client c) k v ttl);
  cache_Delete c k := on_client (redis_delete (client c) k);
  cache_DeleteByPrefix c p := on_client (redis_delete_by_prefix (client c) p);
  cache_Exists c k := redis_exists (client c) k;
  cache_Increment c k := on_client (redis_increment (client c) k);
  cache_Decrement c k := on_client (redis_decrement (client c) k);
  cache_Expire c k ttl := on_client (redis_expire (client c) k ttl);
  cache_SlidingWindowAllow c now k m w := on_client (redis_sliding_window_allow (client c) now k m w)
}.

(** The constructor: [connect] is the client for the options, with the answer to PING. *)
Definition NewRedisCache {R} (connect : string → string → Z → R * option error) (addr password : string) (db : Z)
    : result error (RedisCache R) :=
  let '(c, ping) := connect addr password db in
  match ping with
  | Some err => Err (FmtError "failed to connect to redis: " err "")
  | None => Ok (mkRedisCache c)
  end.

(** ** JSON values *)

Section json.
Context {R : Type} `{Redis R} {T : Type}.
Context (marshal : T → result error string) (unmarshal : string → T → result error T).

Definition redis_set_json (c : RedisCache R) (key : string) (value : T) (ttl : Z) : RedisCache R * option error :=
  match marshal value with
  | Err err => (c, Some (FmtError "failed to marshal json: " err ""))
  | Ok data => cache_Set c key data ttl
  end.

(** The new contents of the destination. *)
Definition redis_get_json (c : RedisCache R) (key : string) (dest : T) : result error T :=
  match cache_Get c key with
  | Err err => Err err
  | Ok data =>
      match unmarshal data dest with
      | Err err => Err (FmtError "failed to unmarshal json: " err "")
      | Ok v => Ok v
      end
  end.

(** Nothing is written when the value cannot be marshalled; on a server that loses nothing
    a stored value is read back, if decoding undoes encoding. *)
Theorem cache_json_roundtrip `{!CacheSafety (RedisCache R), !CacheRetention (RedisCache R)} (c : RedisCache R) key v dest ttl :
  (∀ d, marshal v = Ok d → unmarshal d dest = Ok v) →
  match redis_set_json c key v ttl with
  | (c', None) => redis_get_json c' key dest = Ok v
  | (c', Some _) => c' = c
  end.
Proof.
  intros Hrt. unfold redis_set_json, redis_get_json. destruct (marshal v) as [d|] eqn:Hm; [|done].
  destruct (Set_works c key d ttl) as [Hok Hl]. destruct (cache_Set c key d ttl) as [c' e]. simpl in Hok, Hl. subst e.
  assert (cache_Get c' key = Ok d) as -> by (apply Get_complete; by rewrite Hl, lookup_insert_eq). by rewrite Hrt.
Qed.

End json.

Definition noop_set_json {T} (c : NoOpCache) (key : string) (value : T) (ttl : Z) : NoOpCache * option error := (c, None).
Definition noop_get_json {T} (c : NoOpCache) (key : string) (dest : T) : result error T := Err CacheMissError.

(** ** The SCAN loop ends and deletes the whole prefix *)

Section scan.
Context {R : Type} `{RedisLaws R}.

Lemma Del_keys_upper (c : R) (keys : list string) :
  strs (del_keys c keys).1 ⊆ strs c.
Proof. unfold del_keys. case_match; [apply redis_Del_upper | done]. Qed.

Lemma Del_keys_ok (c : R) (keys : list string) k :
  (del_keys c keys).2 = None → k ∈ keys →
  strs (del_keys c keys).1 !! k = None.
Proof.
  intros Hok Hk. destruct keys as [|k0 keys]; [by apply elem_of_nil in Hk|].
  simpl in *. by apply redis_Del_ok.
Qed.

Lemma Del_keys_left (c : R) (keys : list string) cur :
  (redis_scan_left (del_keys c keys).1 cur
   ≤ redis_scan_left c cur)%nat.
Proof. unfold del_keys. case_match; [apply Scan_left_Del | done]. Qed.

Lemma Del_keys_ahead (c : R) (keys : list string) cur k :
  ahead c cur k →
  ahead (del_keys c keys).1 cur k.
Proof. unfold del_keys. case_match; [apply ahead_Del | done]. Qed.

Lemma scan_loop_total fuel (c : R) cur p :
  (redis_scan_left c cur < fuel)%nat → is_Some (scan_loop fuel c cur p).
Proof.
  revert c cur. induction fuel as [|fuel IH]; intros c cur Hf; [lia|]. simpl.
  destruct (redis_Scan c cur (p +:+ "*") 100) as [[keys next]|e] eqn:Hs; [|eauto].
  pose proof (Del_keys_left c keys next) as Hl.
  destruct (del_keys c keys) as [c' [e|]];
    simpl in *; [eauto|].
  destruct (Z.eqb_spec next 0) as [->|Hn]; [eauto|].
  apply IH. pose proof (Scan_ends _ _ _ _ _ _ Hs Hn). lia.
Qed.

Lemma scan_loop_upper fuel (c c' : R) cur p e :
  scan_loop fuel c cur p = Some (c', e) → strs c' ⊆ strs c.
Proof.
  revert c cur. induction fuel as [|fuel IH]; intros c cur Hf; [done|]. simpl in Hf.
  destruct (redis_Scan c cur (p +:+ "*") 100) as [[keys next]|e'] eqn:Hs; simplify_eq/=; [|done].
  pose proof (Del_keys_upper c keys) as Hu.
  destruct (del_keys c keys) as [c1 [e1|]];
    simplify_eq/=; [done|].
  destruct (next =? 0); simplify_eq; [done|]. by etrans; [eapply IH|].
Qed.

Lemma scan_loop_deletes fuel (c c' : R) cur p k :
  plain_prefix p = true → has_prefix p k = true →
  scan_loop fuel c cur p = Some (c', None) →
  strs c !! k = None ∨ ahead c cur k → strs c' !! k = None.
Proof.
  intros Hp Hk. revert c cur. induction fuel as [|fuel IH]; intros c cur Hf Hpre; [done|].
  pose proof (scan_loop_upper (S fuel) _ _ _ _ _ Hf) as Hup.
  destruct (strs c !! k) as [v|] eqn:Hv; [|by eapply lookup_weaken_None].
  destruct Hpre as [|Ha]; [done|]. simpl in Hf.
  destruct (redis_Scan c cur (p +:+ "*") 100) as [[keys next]|e'] eqn:Hs; simplify_eq/=.
  assert (k ∈ keys ∨ (next ≠ 0 ∧ ahead c next k)) as Hvis by (eapply Scan_visits; rewrite ?Hv; eauto).
  pose proof (Del_keys_ok c keys k) as Hdel.
  pose proof (Del_keys_ahead c keys next k) as Hah.
  destruct (del_keys c keys) as [c1 [e1|]];
    simplify_eq/=.
  destruct (Z.eqb_spec next 0) as [->|Hn]; simplify_eq.
  - destruct Hvis as [?|[? _]]; [by apply Hdel | done].
  - eapply IH; [done|]. destruct Hvis as [?|[_ ?]]; [left; by apply Hdel | right; by apply Hah].
Qed.

Lemma redis_delete_by_prefix_run (c : R) p :
  scan_loop (S (redis_scan_left c 0)) c 0 p = Some (redis_delete_by_prefix c p).
Proof.
  unfold redis_delete_by_prefix.
  destruct (scan_loop_total (S (redis_scan_left c 0)) c 0 p) as [r ->]; [lia | done].
Qed.

(** C30: for every Redis with the documented SCAN contract, the SCAN/DEL loop of
    [DeleteByPrefix] terminates within the fuel the definition gives it; it never adds
    or changes a key, and when it reports success no key with the prefix is left, however
    SCAN splits the key space and whatever duplicates it returns. *)
Theorem delete_by_prefix_complete (c : R) (p : string) :
  plain_prefix p = true →
  ∃ c' e, scan_loop (S (redis_scan_left c 0)) c 0 p = Some (c', e) ∧
    redis_delete_by_prefix c p = (c', e) ∧
    strs c' ⊆ strs c ∧
    (e = None → ∀ k, has_prefix p k = true → strs c' !! k = None).
Proof.
  intros Hp. pose proof (redis_delete_by_prefix_run c p) as Hr.
  destruct (redis_delete_by_prefix c p) as [c' e]. exists c', e.
  split; [exact Hr|]. split; [done|]. split; [exact (scan_loop_upper _ _ _ _ _ _ Hr)|].
  intros -> k Hk. exact (scan_loop_deletes _ _ _ _ _ _ Hp Hk Hr (or_intror (ahead_start c k))).
Qed.

(** The Redis adapter keeps the contract of the port. *)
#[export] Instance RedisCache_safety : CacheSafety (RedisCache R).
Proof.
  refine {| live := λ c, strs (client c) |}; intros [c]; simpl.
  - intros k v. unfold redis_get. intros Hg. repeat case_match; simplify_eq. by apply redis_Get_sound.
  - intros k v ttl. unfold redis_set. pose proof (redis_Set_upper c k v ttl).
    by destruct (redis_Set c k v ttl).
  - intros k. unfold redis_delete. pose proof (redis_Del_upper c [k]). by destruct (redis_Del c [k]).
  - intros k. unfold redis_delete. pose proof (redis_Del_ok c [k] k).
    destruct (redis_Del c [k]) as [c' [e|]]; simpl in *; [done|]. intros _. apply H1; [done|by left].
  - intros p. pose proof (redis_delete_by_prefix_run c p) as Hr.
    destruct (redis_delete_by_prefix c p). by eapply scan_loop_upper.
  - intros p k Hp Hok Hk. pose proof (redis_delete_by_prefix_run c p) as Hr.
    destruct (redis_delete_by_prefix c p) as [c' e]; simpl in *; subst.
    apply (scan_loop_deletes (S (redis_scan_left c 0)) c c' 0 p k); [done | done | exact Hr | right; apply ahead_start].
Defined.

End scan.

(** ** A concrete server *)

(** Strings and sorted sets; SCAN visits the keys of even length in a first call and the
    others in a second one. *)
Record MemRedis := mkMemRedis { mr_strs : gmap string string; mr_zsets : gmap string (gset Z) }.

Definition mem_keys (r : MemRedis) (cursor : Z) (pattern : string) : list string :=
  let p := String.substring 0 (String.length pattern - 1) pattern in
  filter (λ k, has_prefix p k = true ∧ Nat.even (String.length k) = (cursor =? 0))
         (elements (dom (mr_strs r))).

Definition mem_del (r : MemRedis) (ks : list string) : MemRedis :=
  mkMemRedis (foldr delete (mr_strs r) ks) (mr_zsets r).

#[export] Instance MemRedis_Redis : Redis MemRedis := {
  redis_Get r k := match mr_strs r !! k with Some v => Ok v | None => Err RedisNil end;
  redis_Set r k v _ := (mkMemRedis (<[k := v]> (mr_strs r)) (mr_zsets r), None);
  redis_Del r ks := (mem_del r ks, None);
  redis_Scan r c pat _ := Ok (mem_keys r c pat, if c =? 0 then 1 else 0);
  redis_Exists r k := Ok (if decide (k ∈ dom (mr_strs r)) then 1 else 0);
  redis_Incr r _ := (r, Ok 1);
  redis_Decr r _ := (r, Ok (-1));
  redis_Expire r _ _ := (r, None);
  redis_Eval r k f :=
    let '(zs, _, reply) := f (default ∅ (mr_zsets r !! k)) in
    (mkMemRedis (mr_strs r) (<[k := zs]> (mr_zsets r)), Ok reply);
  redis_scan_left _ c := if c =? 0 then 1%nat else 0%nat
}.

Lemma lookup_foldr_delete (m : gmap string string) ks k :
  foldr delete m ks !! k = if decide (k ∈ ks) then None else m !! k.
Proof.
  induction ks as [|k' ks IH]; simpl; [done|].
  destruct (decide (k = k')) as [->|Hne].
  - rewrite lookup_delete_eq, decide_True by (by left). done.
  - rewrite lookup_delete_ne, IH by done.
    destruct (decide (k ∈ ks)); [rewrite decide_True by (by right) | rewrite decide_False by set_solver]; done.
Qed.

Lemma substring_prefix p q : String.substring 0 (String.length p) (p +:+ q) = p.
Proof. induction p as [|c p IH]; simpl; [by destruct q | by rewrite IH]. Qed.

Lemma pattern_prefix p : String.substring 0 (String.length (p +:+ "*") - 1) (p +:+ "*") = p.
Proof.
  rewrite length_append. simpl. replace (_ + 1 - 1)%nat with (String.length p) by lia.
  apply substring_prefix.
Qed.

#[export] Instance MemRedis_laws : RedisLaws MemRedis.
Proof.
  refine {| strs := mr_strs;
            ahead := λ _ c k, c = 0 ∨ (c = 1 ∧ Nat.even (String.length k) = false) |};
    simpl; unfold redis_scan_left; simpl.
  - intros r k v Hg. repeat case_match; congruence.
  - intros r k v ->. by left.
  - done.
  - intros r ks. apply map_subseteq_spec. intros k v. rewrite lookup_foldr_delete. by case_match.
  - intros r ks k _ Hk. by rewrite lookup_foldr_delete, decide_True.
  - by left.
  - done.
  - intros r c p n ks c' k _ [= <- <-] Hk Hs Ha. unfold mem_keys. rewrite pattern_prefix.
    rewrite list_elem_of_filter, elem_of_elements, elem_of_dom.
    destruct Ha as [->|[-> He]]; simpl; [|naive_solver].
    destruct (Nat.even (String.length k)); naive_solver.
  - intros r c pat n ks c' [= <- <-] Hn. destruct (c =? 0); simpl in *; [lia | done].
  - done.
Defined.

Lemma del_keys_mem (r : MemRedis) ks : del_keys r ks = (mem_del r ks, None).
Proof. by destruct r, ks. Qed.

Lemma elem_of_mem_keys r c p k :
  k ∈ mem_keys r c (p +:+ "*") ↔
  has_prefix p k = true ∧ Nat.even (String.length k) = (c =? 0) ∧ is_Some (mr_strs r !! k).
Proof.
  unfold mem_keys. rewrite pattern_prefix, list_elem_of_filter, elem_of_elements, elem_of_dom. naive_solver.
Qed.

Lemma mem_delete_by_prefix r p :
  let r1 := mem_del r (mem_keys r 0 (p +:+ "*")) in
  redis_delete_by_prefix r p = (mem_del r1 (mem_keys r1 1 (p +:+ "*")), None).
Proof. unfold redis_delete_by_prefix. simpl. rewrite del_keys_mem. simpl. by rewrite del_keys_mem. Qed.

Lemma lookup_mem_delete_by_prefix r p k :
  mr_strs (redis_delete_by_prefix r p).1 !! k = if has_prefix p k then None else mr_strs r !! k.
Proof.
  rewrite mem_delete_by_prefix. simpl. rewrite !lookup_foldr_delete. simpl.
  destruct (decide (k ∈ mem_keys (mem_del r _) 1 _)) as [Hk|Hk];
    rewrite elem_of_mem_keys in Hk; simpl in Hk; [by destruct Hk as [-> _]|].
  rewrite lookup_foldr_delete in Hk.
  destruct (decide (k ∈ mem_keys r 0 _)) as [Hk'|Hk']; rewrite elem_of_mem_keys in Hk'; simpl in Hk';
    [by destruct Hk' as [-> _]|].
  destruct (has_prefix p k); [|done]. destruct (mr_strs r !! k) eqn:Hv; [|done].
  destruct (Nat.even (String.length k)); naive_solver.
Qed.

#[export] Instance MemRedis_retention : CacheRetention (RedisCache MemRedis).
Proof.
  constructor; intros [r]; simpl; [|done|done|].
  - intros k v Hk. unfold redis_get; simpl in *. by rewrite Hk.
  - intros p Hp. split; [by rewrite mem_delete_by_prefix|].
    apply map_eq. intros k. rewrite lookup_mem_delete_by_prefix.
    destruct (has_prefix p k) eqn:Hk; symmetry.
    + apply map_lookup_filter_None. right. intros v _. simpl. congruence.
    + destruct (mr_strs r !! k) as [v|] eqn:Hv;
        [by apply map_lookup_filter_Some | apply map_lookup_filter_None; by left].
Qed.

(** [scan_loop] with two pages on a store of three keys, one outside the prefix *)
Definition sample_redis : MemRedis :=
  mkMemRedis (list_to_map [("u:1", "a"); ("u:22", "b"); ("x", "c")]) ∅.

Example scan_two_pages : strs (redis_delete_by_prefix sample_redis "u:").1 = {[ "x" := "c" ]}.
Proof. vm_compute. reflexivity. Qed.

Lemma delete_by_prefix_complete_witness :
  (redis_delete_by_prefix sample_redis "u:").2 = None ∧
  strs (redis_delete_by_prefix sample_redis "u:").1 !! "u:22" = None.
Proof.
  destruct (delete_by_prefix_complete sample_redis "u:" eq_refl) as (c' & e & _ & Heq & _ & Hk).
  rewrite Heq. assert (e = None) as ->.
  { transitivity (redis_delete_by_prefix sample_redis "u:").2; [by rewrite Heq | vm_compute; reflexivity]. }
  split; [done | by apply Hk].
Defined.

End CacheAdapter.
