(* ===== verification/Auth.v ===== *)
(** * Authentication sessions

    Models [internal/module/auth]: the use case ([usecase/auth_usecase.go]), its audit
    decorator ([usecase/audit_decorator.go]) and the request/response types.  The cache
    is any instance of the port [Cache]; the user repository is the narrow interface
    [UserRepo] the use case declares; SHA-256, bcrypt and the JWT library are parameters
    (class [Crypto]).  The clock and the random source are inputs of each call. *)
From S2P Require Import Prelude AppErr Config Port Cache Base64.
Import AppErr Config CacheAdapter.

Module Auth.

(** ** Third-party primitives *)

Record jwtClaims := mkJwtClaims {
  Subject : string;
  claims_Issuer : string;
  claims_Audience : list string;
  ExpiresAt : option Z;      (* NumericDate: whole seconds *)
  IssuedAt : option Z;
  NotBefore : option Z;
  claims_UserID : string;
  claims_Email : string;
  claims_Name : string
}.

#[export] Instance jwtClaims_eq_dec : EqDecision jwtClaims.
Proof. solve_decision. Defined.

Class Crypto := {
  sha256_hex : string → string;                          (* hex.EncodeToString(sha256.Sum256(x)) *)
  bcrypt_matches : string → string → bool;               (* CompareHashAndPassword = nil *)
  bcrypt_hash : string → result error string;            (* GenerateFromPassword *)
  jwt_SignedString : jwtClaims → string → result error string   (* HS256 *)
}.

(** What one call reads from its environment. *)
Record Oracle := mkOracle { now : Z; rand_Read : result error string }.

(** [jwt.NewNumericDate]: truncated to a second *)
Definition NumericDate (t : Z) : Z := t / Second.

Record UserRepo (U : Type) := mkUserRepo {
  repo_GetByEmail : string → result error (User U);
  repo_GetByID : string → result error (User U)
}.
Arguments mkUserRepo {U}.
Arguments repo_GetByEmail {U}.
Arguments repo_GetByID {U}.

Record LoginResponse := mkLoginResponse {
  AccessToken : string; RefreshToken : string; ExpiresIn : Z; TokenType : string; UserID : string
}.
Record RefreshResponse := mkRefreshResponse {
  r_AccessToken : string; r_RefreshToken : string; r_ExpiresIn : Z; r_TokenType : string
}.

Section auth.
Context {U C : Type} `{Uuid U} `{Cache C} `{Crypto}.
Variable userRepo : UserRepo U.
Variable jwtCfg : JWTConfig.

Definition tokenHash (token : string) : string := sha256_hex token.
Definition tokLookupKey (token : string) : string := "refresh:tok:" +:+ tokenHash token.
Definition userIdxPrefix (userID : string) : string := "refresh:user:" +:+ userID +:+ ":".
Definition userIdxKey (userID token : string) : string :=
  "refresh:user:" +:+ userID +:+ ":" +:+ tokenHash token.

Definition generateAccessToken (t : Z) (userID email name : string) : result error string :=
  let claims := mkJwtClaims userID (Issuer jwtCfg) [Audience jwtCfg]
                  (Some (NumericDate (t + AccessTokenDuration jwtCfg)))
                  (Some (NumericDate t)) (Some (NumericDate t)) userID email name in
  jwt_SignedString claims (Secret jwtCfg).

Definition generateRefreshToken (o : Oracle) : result error string :=
  res_map Base64.encode (rand_Read o).

Definition invalidCredentials : error := WithMessage ErrUnauthorized "Invalid email or password".
Definition invalidRefresh : error := WithMessage ErrUnauthorized "Invalid or expired refresh token".
Definition cacheDown : error := Internalf "auth: cache unavailable, cannot issue refresh token".

(** The two writes with which [Login] and [Refresh] issue a refresh token. *)
Definition issue (c : C) (userID token : string) : C * option error :=
  let ttl := RefreshTokenDuration jwtCfg in
  let lookupKey := tokLookupKey token in
  let idxKey := userIdxKey userID token in
  let '(c1, err) := cache_Set c lookupKey userID ttl in
  match err with
  | Some _ => (c1, Some cacheDown)
  | None =>
      let '(c2, err) := cache_Set c1 idxKey "1" ttl in
      match err with
      | Some _ => let '(c3, _) := cache_Delete c2 lookupKey in (c3, Some cacheDown)
      | None => (c2, None)
      end
  end.

Definition Login (c : C) (o : Oracle) (email password : string) : C * result error LoginResponse :=
  match repo_GetByEmail userRepo email with
  | Err _ => (c, Err invalidCredentials)
  | Ok user =>
      if negb (bcrypt_matches (user_PasswordHash user) password) then (c, Err invalidCredentials)
      else
        let userID := uuid_String (user_ID user) in
        match generateAccessToken (now o) userID (user_Email user) (user_Name user) with
        | Err _ => (c, Err (Internalf "failed to generate access token"))
        | Ok accessToken =>
            match generateRefreshToken o with
            | Err _ => (c, Err (Internalf "failed to generate refresh token"))
            | Ok refreshToken =>
                let '(c1, err) := issue c userID refreshToken in
                match err with
                | Some e => (c1, Err e)
                | None => (c1, Ok (mkLoginResponse accessToken refreshToken
                                     (wrap64 (AccessTokenTTL jwtCfg * 60)) "Bearer" userID))
                end
            end
        end
  end.

Definition Refresh (c : C) (o : Oracle) (token : string) : C * result error RefreshResponse :=
  let lookupKey := tokLookupKey token in
  match cache_Get c lookupKey with
  | Err _ => (c, Err invalidRefresh)
  | Ok userID =>
      let idxKey := userIdxKey userID token in
      match cache_Get c idxKey with
      | Err _ => (c, Err invalidRefresh)
      | Ok _ =>
          match repo_GetByID userRepo userID with
          | Err _ => (c, Err (WithMessage ErrUnauthorized "User not found"))
          | Ok user =>
              let '(c1, _) := cache_Delete c lookupKey in
              let '(c2, _) := cache_Delete c1 idxKey in
              let uid := uuid_String (user_ID user) in
              match generateAccessToken (now o) uid (user_Email user) (user_Name user) with
              | Err _ => (c2, Err (Internalf "failed to generate access token"))
              | Ok accessToken =>
                  match generateRefreshToken o with
                  | Err _ => (c2, Err (Internalf "failed to generate refresh token"))
                  | Ok newRefreshToken =>
                      let '(c3, err) := issue c2 uid newRefreshToken in
                      match err with
                      | Some e => (c3, Err e)
                      | None => (c3, Ok (mkRefreshResponse accessToken newRefreshToken
                                           (wrap64 (AccessTokenTTL jwtCfg * 60)) "Bearer"))
                      end
                  end
              end
          end
      end
  end.

Definition Logout (c : C) (callerID refreshToken : string) : C * option error :=
  let lookupKey := tokLookupKey refreshToken in
  match cache_Get c lookupKey with
  | Err _ => (c, None)
  | Ok storedUserID =>
      if negb (String.eqb storedUserID callerID) then (c, None)
      else
        let idxKey := userIdxKey callerID refreshToken in
        let '(c1, _) := cache_Delete c lookupKey in
        let '(c2, _) := cache_Delete c1 idxKey in
        (c2, None)
  end.

Definition RevokeAllForUser (c : C) (userID : string) : C * option error :=
  cache_DeleteByPrefix c (userIdxPrefix userID).

End auth.

(** ** The audit decorator *)

Definition classifyLoginFailure (err : error) : string :=
  match AsAppError err with
  | Some (code, _, _, _) =>
      if String.eqb code CodeUnauthorized then "invalid_credentials"
      else if String.eqb code CodeForbidden then "user_inactive"
      else "unknown"
  | None => "unknown"
  end.

Definition with_metadata (e : AuditEntry) (m : list (string * any)) : AuditEntry :=
  mkAuditEntry (ae_UserID e) (ae_Action e) (ae_Resource e) (ae_ResourceID e) (ae_OldValue e)
    (ae_NewValue e) (Some m) (ae_IPAddress e) (ae_UserAgent e) (ae_Timestamp e).

Section audited.
Context {U C L : Type} `{Uuid U} `{Cache C} `{Crypto} `{Auditor L}.
Variable userRepo : UserRepo U.
Variable jwtCfg : JWTConfig.

Definition Audited_Login (ctx : Context) (t : Z) (cl : C * L) (o : Oracle) (email password : string)
    : (C * L) * result error LoginResponse :=
  let '(c, l) := cl in
  match Login userRepo jwtCfg c o email password with
  | (c', Err err) =>
      let entry := with_metadata (NewAuditEntry ctx t ActionLogin "user" email)
                     [("outcome", AnyString "failed"); ("reason", AnyString (classifyLoginFailure err))] in
      ((c', (auditor_Log l entry).1), Err err)
  | (c', Ok resp) =>
      let entry := with_metadata (NewAuditEntry ctx t ActionLogin "user" (UserID resp))
                     [("outcome", AnyString "success")] in
      ((c', (auditor_Log l entry).1), Ok resp)
  end.

Definition Audited_Refresh (cl : C * L) (o : Oracle) (token : string)
    : (C * L) * result error RefreshResponse :=
  let '(c', r) := Refresh userRepo jwtCfg cl.1 o token in ((c', cl.2), r).

Definition Audited_Logout (ctx : Context) (t : Z) (cl : C * L) (callerID refreshToken : string)
    : (C * L) * option error :=
  let '(c, l) := cl in
  match Logout c callerID refreshToken with
  | (c', Some err) => ((c', l), Some err)
  | (c', None) => ((c', (auditor_Log l (NewAuditEntry ctx t ActionLogout "user" callerID)).1), None)
  end.

End audited.

(** ** Keys *)

Section keys.
Context {U : Type} `{Uuid U} `{Crypto}.

Lemma plain_prefix_spec p :
  (∀ c, contains_byte c p = true → existsb (Ascii.eqb c) ["*"; "?"; "["; "]"; "\"]%char = false) →
  plain_prefix p = true.
Proof.
  induction p as [|c p IH]; intros Hp; [done|]. cbn [plain_prefix]. rewrite (Hp c), IH; [done| |].
  - intros d Hd. apply Hp. simpl. by rewrite Hd, orb_true_r.
  - simpl. by rewrite Ascii.eqb_refl.
Qed.

Lemma uuid_no_colon (u : U) : contains_byte ":" (uuid_String u) = false.
Proof. by apply uuid_no_byte. Qed.

Lemma userIdxPrefix_plain (u : U) : plain_prefix (userIdxPrefix (uuid_String u)) = true.
Proof.
  apply plain_prefix_spec. intros c Hc.
  destruct (existsb _ _) eqn:Hx; [|done].
  apply existsb_exists in Hx as (d & Hd & ->%Ascii.eqb_eq).
  unfold userIdxPrefix in Hc. rewrite !contains_byte_append, (uuid_no_byte u) in Hc;
    destruct Hd as [<-|[<-|[<-|[<-|[<-|[]]]]]]; done.
Qed.

Lemma idx_prefix_tok u t : has_prefix (userIdxPrefix u) (tokLookupKey t) = false.
Proof. done. Qed.

Lemma tok_idx_ne u t t' : tokLookupKey t ≠ userIdxKey u t'.
Proof. done. Qed.

Lemma idx_prefix_own u t : has_prefix (userIdxPrefix u) (userIdxKey u t) = true.
Proof. apply has_prefix_spec. exists (tokenHash t). unfold userIdxPrefix, userIdxKey. by rewrite !append_assoc. Qed.

Lemma idx_prefix_other (u v : U) t :
  has_prefix (userIdxPrefix (uuid_String u)) (userIdxKey (uuid_String v) t) = true → u = v.
Proof.
  intros [r Heq]%has_prefix_spec. unfold userIdxPrefix, userIdxKey in Heq.
  rewrite !append_assoc in Heq. apply append_cancel_l in Heq. simpl in Heq.
  apply append_sep_inj in Heq as [Heq _]; [by apply uuid_String_inj | apply uuid_no_colon..].
Qed.

End keys.

(** ** Sessions over whole histories *)

Section sessions.
Context {U C : Type} `{Uuid U} `{CacheSafety C} `{Crypto}.
Variable userRepo : UserRepo U.
Variable jwtCfg : JWTConfig.

Inductive call :=
| CLogin (o : Oracle) (email password : string)
| CRefresh (o : Oracle) (token : string)
| CLogout (callerID token : string)
| CRevoke (userID : string).

Definition run_call (c : C) (x : call) : C :=
  match x with
  | CLogin o e p => (Login userRepo jwtCfg c o e p).1
  | CRefresh o t => (Refresh userRepo jwtCfg c o t).1
  | CLogout u t => (Logout c u t).1
  | CRevoke u => (RevokeAllForUser c u).1
  end.

(** A call, restricted to logins of the users in [who], or keys expiring. *)
Inductive session_step (who : User U → Prop) : C → C → Prop :=
| step_call c x :
    (∀ o e p usr, x = CLogin o e p → repo_GetByEmail userRepo e = Ok usr → who usr) →
    session_step who c (run_call c x)
| step_age c c' : live c' ⊆ live c → session_step who c c'.

(** Lookup keys hold printed UUIDs. *)
Definition canonical (c : C) : Prop :=
  ∀ t v, live c !! tokLookupKey t = Some v → ∃ w : U, v = uuid_String w.

(** No index key of [u] is left. *)
Definition no_index (u : U) (c : C) : Prop :=
  ∀ k, has_prefix (userIdxPrefix (uuid_String u)) k = true → live c !! k = None.

(** What one call may leave in the cache: old bindings, or the two keys it issued. *)
Definition grows (new : gmap string string) (c c' : C) : Prop :=
  ∀ k v, live c' !! k = Some v → live c !! k = Some v ∨ new !! k = Some v.

Lemma grows_sub new c c' : live c' ⊆ live c → grows new c c'.
Proof. intros Hs k v Hk. left. by eapply lookup_weaken. Qed.

Lemma grows_trans new c1 c2 c3 : grows new c1 c2 → grows new c2 c3 → grows new c1 c3.
Proof. intros H12 H23 k v [?|?]%H23; [by apply H12 | by right]. Qed.

Lemma grows_set new c k v ttl : new !! k = Some v → grows new c (cache_Set c k v ttl).1.
Proof.
  intros Hn k' v' Hk'. pose proof (Set_upper c k v ttl) as Hu.
  eapply lookup_weaken in Hk'; [|exact Hu].
  apply lookup_insert_Some in Hk' as [[<- <-]|[_ ?]]; auto.
Qed.

Lemma grows_delete new c k : grows new c (cache_Delete c k).1.
Proof. apply grows_sub, Delete_upper. Qed.

Definition issued (uid tok : string) : gmap string string :=
  {[ userIdxKey uid tok := "1"; tokLookupKey tok := uid ]}.

Lemma issued_lookup uid tok : issued uid tok !! tokLookupKey tok = Some uid.
Proof. unfold issued. rewrite lookup_insert_ne by (intros Heq; by apply (tok_idx_ne uid tok tok)). apply lookup_singleton_eq. Qed.

Lemma issued_index uid tok : issued uid tok !! userIdxKey uid tok = Some "1".
Proof. apply lookup_insert_eq. Qed.

Lemma issued_inv uid tok k v :
  issued uid tok !! k = Some v → (k = userIdxKey uid tok ∧ v = "1") ∨ (k = tokLookupKey tok ∧ v = uid).
Proof. unfold issued. intros [[<- <-]|[_ [<- <-]%lookup_singleton_Some]]%lookup_insert_Some; auto. Qed.

Lemma issue_grows c uid tok : grows (issued uid tok) c (issue jwtCfg c uid tok).1.
Proof.
  unfold issue.
  pose proof (grows_set (issued uid tok) c _ _ (RefreshTokenDuration jwtCfg) (issued_lookup uid tok)) as G1.
  destruct (cache_Set c (tokLookupKey tok) uid _) as [c1 [e|]]; simpl in *; [done|].
  pose proof (grows_set (issued uid tok) c1 _ _ (RefreshTokenDuration jwtCfg) (issued_index uid tok)) as G2.
  destruct (cache_Set c1 (userIdxKey uid tok) "1" _) as [c2 [e|]]; simpl in *; [|by eapply grows_trans].
  pose proof (grows_delete (issued uid tok) c2 (tokLookupKey tok)) as G3.
  destruct (cache_Delete c2 (tokLookupKey tok)) as [c3 e3]; simpl in *. by eauto using grows_trans.
Qed.

Lemma login_grows c o e p :
  grows ∅ c (Login userRepo jwtCfg c o e p).1 ∨
  ∃ usr tok, repo_GetByEmail userRepo e = Ok usr ∧
    grows (issued (uuid_String (user_ID usr)) tok) c (Login userRepo jwtCfg c o e p).1.
Proof.
  unfold Login. destruct (repo_GetByEmail userRepo e) as [usr|] eqn:Hr; [|left; by apply grows_sub].
  destruct (bcrypt_matches _ _); simpl; [|left; by apply grows_sub].
  destruct (generateAccessToken _ _ _ _ _) as [at'|]; [|left; by apply grows_sub].
  destruct (generateRefreshToken o) as [tok|]; [|left; by apply grows_sub].
  right. exists usr, tok. split; [done|].
  pose proof (issue_grows c (uuid_String (user_ID usr)) tok) as G.
  by destruct (issue _ _ _ _) as [c1 [e1|]].
Qed.

Lemma refresh_grows c o t :
  grows ∅ c (Refresh userRepo jwtCfg c o t).1 ∨
  ∃ uid idx usr tok, live c !! tokLookupKey t = Some uid ∧ live c !! userIdxKey uid t = Some idx ∧
    repo_GetByID userRepo uid = Ok usr ∧
    grows (issued (uuid_String (user_ID usr)) tok) c (Refresh userRepo jwtCfg c o t).1.
Proof.
  unfold Refresh. destruct (cache_Get c (tokLookupKey t)) as [uid|] eqn:Hl; [|left; by apply grows_sub].
  destruct (cache_Get c (userIdxKey uid t)) as [idx|] eqn:Hi; [|left; by apply grows_sub].
  destruct (repo_GetByID userRepo uid) as [usr|] eqn:Hr; [|left; by apply grows_sub].
  pose proof (Delete_upper c (tokLookupKey t)) as D1.
  destruct (cache_Delete c (tokLookupKey t)) as [c1 e1]; simpl in *.
  pose proof (Delete_upper c1 (userIdxKey uid t)) as D2.
  destruct (cache_Delete c1 (userIdxKey uid t)) as [c2 e2]; simpl in *.
  assert (live c2 ⊆ live c) as D by (by etrans).
  destruct (generateAccessToken _ _ _ _ _) as [at'|]; [|left; by apply grows_sub].
  destruct (generateRefreshToken o) as [tok|]; [|left; by apply grows_sub].
  right. exists uid, idx, usr, tok. split_and!; [by apply Get_sound | by apply Get_sound | done|].
  pose proof (issue_grows c2 (uuid_String (user_ID usr)) tok) as G.
  destruct (issue _ _ _ _) as [c3 [e3|]]; simpl in *; by eapply grows_trans; [apply grows_sub|].
Qed.

Lemma logout_sub c u t : live (Logout c u t).1 ⊆ live c.
Proof.
  unfold Logout. destruct (cache_Get c (tokLookupKey t)) as [uid|]; [|done].
  destruct (String.eqb uid u); simpl; [|done].
  pose proof (Delete_upper c (tokLookupKey t)) as D1.
  destruct (cache_Delete c (tokLookupKey t)) as [c1 e1]; simpl in *.
  pose proof (Delete_upper c1 (userIdxKey u t)) as D2.
  destruct (cache_Delete c1 (userIdxKey u t)) as [c2 e2]; simpl in *. by etrans.
Qed.

(** *** Invariants *)

Lemma grows_canonical new c c' :
  grows new c c' → (∀ t v, new !! tokLookupKey t = Some v → ∃ w : U, v = uuid_String w) →
  canonical c → canonical c'.
Proof. intros G Hn Hc t v [?|?]%G; eauto. Qed.

Lemma issued_canonical (w : U) tok t v :
  issued (uuid_String w) tok !! tokLookupKey t = Some v → ∃ w : U, v = uuid_String w.
Proof.
  intros [[Heq _]|[_ ->]]%issued_inv; [by apply tok_idx_ne in Heq | eauto].
Qed.

Lemma run_call_grows c x :
  grows ∅ c (run_call c x) ∨
  (∃ o e p usr tok, x = CLogin o e p ∧ repo_GetByEmail userRepo e = Ok usr ∧
     grows (issued (uuid_String (user_ID usr)) tok) c (run_call c x)) ∨
  (∃ o t uid idx usr tok, x = CRefresh o t ∧
     live c !! tokLookupKey t = Some uid ∧ live c !! userIdxKey uid t = Some idx ∧
     repo_GetByID userRepo uid = Ok usr ∧
     grows (issued (uuid_String (user_ID usr)) tok) c (run_call c x)).
Proof.
  destruct x as [o e p|o t|u t|u]; simpl.
  - destruct (login_grows c o e p) as [?|(usr & tok & ? & ?)]; [by left|]. right; left. eauto 10.
  - destruct (refresh_grows c o t) as [?|(uid & idx & usr & tok & ? & ? & ? & ?)]; [by left|].
    right; right. eauto 15.
  - left. apply grows_sub, logout_sub.
  - left. apply grows_sub, DeleteByPrefix_upper.
Qed.

Lemma step_canonical who c c' : session_step who c c' → canonical c → canonical c'.
Proof.
  intros [c1 x _|c1 c2 Hs] Hc.
  - destruct (run_call_grows c1 x) as [G|[(?&?&?&usr&tok&?&?&G)|(?&?&?&?&usr&tok&?&?&?&?&G)]];
      eapply grows_canonical; try exact G; try done; intros; by eapply issued_canonical.
  - intros t v Hv. eapply (Hc t). by eapply lookup_weaken.
Qed.

Lemma reach_canonical who c0 c :
  live c0 = ∅ → rtc (session_step who) c0 c → canonical c.
Proof.
  intros He Hr. assert (canonical c0) as Hc by (intros t v; by rewrite He, lookup_empty).
  clear He. induction Hr; eauto using step_canonical.
Qed.

Hypothesis repo_by_id : ∀ v usr, repo_GetByID userRepo v = Ok usr → uuid_Parse v = Some (user_ID usr).

(** A refresh that passes both reads belongs to the user whose index key it found. *)
Lemma refresh_owner c t uid idx usr :
  canonical c → live c !! tokLookupKey t = Some uid → live c !! userIdxKey uid t = Some idx →
  repo_GetByID userRepo uid = Ok usr → uid = uuid_String (user_ID usr).
Proof.
  intros Hc Hl _ Hr. destruct (Hc _ _ Hl) as [w ->].
  apply repo_by_id in Hr. rewrite uuid_parse_string in Hr. congruence.
Qed.

Lemma grows_no_index (u w : U) tok c c' :
  grows (issued (uuid_String w) tok) c c' → w ≠ u → no_index u c → no_index u c'.
Proof.
  intros G Hw Hn k Hk. destruct (live c' !! k) as [v|] eqn:Hv; [|done].
  apply G in Hv as [Hv|[[-> _]|[-> _]]%issued_inv].
  - by rewrite (Hn k Hk) in Hv.
  - by apply idx_prefix_other in Hk.
  - by rewrite idx_prefix_tok in Hk.
Qed.

Lemma no_index_refresh u c t uid idx usr :
  canonical c → no_index u c → live c !! tokLookupKey t = Some uid →
  live c !! userIdxKey uid t = Some idx → repo_GetByID userRepo uid = Ok usr → user_ID usr ≠ u.
Proof.
  intros Hc Hn Hl Hi Hr <-. pose proof (refresh_owner _ _ _ _ _ Hc Hl Hi Hr) as ->.
  by rewrite (Hn _ (idx_prefix_own _ _)) in Hi.
Qed.

Lemma step_no_index u c c' :
  session_step (λ usr, user_ID usr ≠ u) c c' → canonical c → no_index u c → no_index u c'.
Proof.
  intros [c1 x Hwho|c1 c2 Hs] Hc Hn.
  - destruct (run_call_grows c1 x) as [G|[(o&e&p&usr&tok&->&Hr&G)|(o&t&uid&idx&usr&tok&->&?&?&?&G)]].
    + intros k Hk. destruct (live (run_call c1 x) !! k) as [v|] eqn:Hv; [|done].
      apply G in Hv as [Hv|Hv]; [by rewrite (Hn k Hk) in Hv | done].
    + eapply grows_no_index; eauto.
    + eapply grows_no_index; eauto using no_index_refresh.
  - intros k Hk. eapply lookup_weaken_None; [by apply Hn | done].
Qed.

Lemma steps_no_index u c c' :
  rtc (session_step (λ usr, user_ID usr ≠ u)) c c' →
  canonical c → no_index u c → canonical c' ∧ no_index u c'.
Proof. induction 1; eauto using step_canonical, step_no_index. Qed.

Lemma refresh_ok_inv c o t resp :
  (Refresh userRepo jwtCfg c o t).2 = Ok resp →
  ∃ uid idx usr, live c !! tokLookupKey t = Some uid ∧ live c !! userIdxKey uid t = Some idx ∧
    repo_GetByID userRepo uid = Ok usr ∧
    generateAccessToken jwtCfg (now o) (uuid_String (user_ID usr)) (user_Email usr) (user_Name usr)
      = Ok (r_AccessToken resp).
Proof.
  unfold Refresh. destruct (cache_Get c (tokLookupKey t)) as [uid|] eqn:Hl; [|done].
  destruct (cache_Get c (userIdxKey uid t)) as [idx|] eqn:Hi; [|done].
  destruct (repo_GetByID userRepo uid) as [usr|] eqn:Hr; [|done].
  destruct (cache_Delete c (tokLookupKey t)) as [c1 e1].
  destruct (cache_Delete c1 (userIdxKey uid t)) as [c2 e2].
  destruct (generateAccessToken _ _ _ _ _) as [at'|] eqn:Ha; [|done].
  destruct (generateRefreshToken o) as [tok|]; [|done].
  destruct (issue _ _ _ _) as [c3 [e3|]]; simpl; [done|]. intros [= <-].
  exists uid, idx, usr. split_and!; [by apply Get_sound | by apply Get_sound | done | done].
Qed.

Lemma revoke_no_index c c' (u : U) : RevokeAllForUser c (uuid_String u) = (c', None) → no_index u c'.
Proof.
  unfold RevokeAllForUser. intros Hrev k Hk.
  pose proof (DeleteByPrefix_ok c (userIdxPrefix (uuid_String u)) k) as Hd.
  rewrite Hrev in Hd. apply Hd; [apply userIdxPrefix_plain | done | done].
Qed.

Lemma revoke_canonical c c' id e : RevokeAllForUser c id = (c', e) → canonical c → canonical c'.
Proof.
  unfold RevokeAllForUser. intros Hrev Hc t v Hv. apply (Hc t). eapply lookup_weaken; [exact Hv|].
  pose proof (DeleteByPrefix_upper c (userIdxPrefix id)) as Hu. by rewrite Hrev in Hu.
Qed.

(** C1: revocation is effective and permanent.  From an empty cache run any calls (logins,
    refreshes, logouts and revocations of any users, keys expiring at any time); when
    [RevokeAllForUser] then reports success for a user, no later sequence of calls without
    a new login of that user lets any refresh token, old or stolen, mint an access token
    for that user: a successful [Refresh] is for somebody else. *)
Theorem revocation_permanent (u : U) (c0 c1 c2 c3 : C) (o : Oracle) (token : string) (resp : RefreshResponse) :
  live c0 = ∅ →
  rtc (session_step (λ _, True)) c0 c1 →
  RevokeAllForUser c1 (uuid_String u) = (c2, None) →
  rtc (session_step (λ usr, user_ID usr ≠ u)) c2 c3 →
  (Refresh userRepo jwtCfg c3 o token).2 = Ok resp →
  ∃ usr, user_ID usr ≠ u ∧
    generateAccessToken jwtCfg (now o) (uuid_String (user_ID usr)) (user_Email usr) (user_Name usr)
      = Ok (r_AccessToken resp).
Proof.
  intros Hemp Hbefore Hrev Hlater Hok.
  assert (canonical c1) as Hc1 by eauto using reach_canonical.
  pose proof (revoke_canonical _ _ _ _ Hrev Hc1) as Hc2.
  pose proof (revoke_no_index _ _ _ Hrev) as Hn2.
  destruct (steps_no_index _ _ _ Hlater Hc2 Hn2) as [Hc3 Hn3].
  destruct (refresh_ok_inv _ _ _ _ Hok) as (uid & idx & usr & Hl & Hi & Hr & Ha).
  exists usr. split; [by eapply no_index_refresh | done].
Qed.

End sessions.

(** ** With a working cache *)

Section working.
Context {U C : Type} `{Uuid U} `{CacheRetention C} `{Crypto}.
Variable userRepo : UserRepo U.
Variable jwtCfg : JWTConfig.

Lemma Get_working c k : cache_Get c k = Ok (default "" (live c !! k)) ↔ is_Some (live c !! k).
Proof.
  split.
  - intros Hg%Get_sound. eauto.
  - intros [v Hv]. rewrite Hv. by apply Get_complete.
Qed.

Lemma Get_working_none c k : live c !! k = None → ∃ e, cache_Get c k = Err e.
Proof.
  intros Hk. destruct (cache_Get c k) as [v|e] eqn:Hg; [|eauto].
  apply Get_sound in Hg. congruence.
Qed.

Lemma issue_works c uid tok :
  (issue jwtCfg c uid tok).2 = None ∧
  live (issue jwtCfg c uid tok).1 = <[userIdxKey uid tok := "1"]> (<[tokLookupKey tok := uid]> (live c)).
Proof.
  unfold issue. destruct (Set_works c (tokLookupKey tok) uid (RefreshTokenDuration jwtCfg)) as [E1 L1].
  destruct (cache_Set c (tokLookupKey tok) uid _) as [c1 e1]; simpl in *; subst e1.
  destruct (Set_works c1 (userIdxKey uid tok) "1" (RefreshTokenDuration jwtCfg)) as [E2 L2].
  destruct (cache_Set c1 (userIdxKey uid tok) "1" _) as [c2 e2]; simpl in *; subst e2; simpl.
  by rewrite L2, L1.
Qed.

(** A token is usable for a user when both its keys are live. *)
Definition usable (c : C) (uid token : string) : Prop :=
  live c !! tokLookupKey token = Some uid ∧ is_Some (live c !! userIdxKey uid token).

Lemma issue_usable c uid tok : usable (issue jwtCfg c uid tok).1 uid tok.
Proof.
  destruct (issue_works c uid tok) as [_ L]. unfold usable. rewrite L, lookup_insert_eq. split; [|eauto].
  rewrite lookup_insert_ne by (intros Heq; by apply (tok_idx_ne uid tok tok)). apply lookup_insert_eq.
Qed.

Lemma login_ok_usable c c' o e p resp :
  Login userRepo jwtCfg c o e p = (c', Ok resp) → usable c' (UserID resp) (RefreshToken resp).
Proof.
  unfold Login. destruct (repo_GetByEmail userRepo e) as [usr|]; [|done].
  destruct (bcrypt_matches _ _); simpl; [|done].
  destruct (generateAccessToken _ _ _ _ _) as [at'|]; [|done].
  destruct (generateRefreshToken o) as [tok|]; [|done].
  pose proof (issue_usable c (uuid_String (user_ID usr)) tok) as Hu.
  destruct (issue _ _ _ _) as [c1 [e1|]]; intros; simplify_eq/=. done.
Qed.

Lemma refresh_not_live c o t :
  live c !! tokLookupKey t = None → Refresh userRepo jwtCfg c o t = (c, Err invalidRefresh).
Proof. intros Hn. unfold Refresh. destruct (Get_working_none c _ Hn) as [e ->]. done. Qed.

(** The successful path of [Refresh]. *)
Lemma refresh_usable c o t uid usr at' bytes :
  usable c uid t → repo_GetByID userRepo uid = Ok usr →
  generateAccessToken jwtCfg (now o) (uuid_String (user_ID usr)) (user_Email usr) (user_Name usr) = Ok at' →
  rand_Read o = Ok bytes →
  ∃ c', Refresh userRepo jwtCfg c o t =
          (c', Ok (mkRefreshResponse at' (Base64.encode bytes) (wrap64 (AccessTokenTTL jwtCfg * 60)) "Bearer")) ∧
    live c' = <[userIdxKey (uuid_String (user_ID usr)) (Base64.encode bytes) := "1"]>
                (<[tokLookupKey (Base64.encode bytes) := uuid_String (user_ID usr)]>
                   (delete (userIdxKey uid t) (delete (tokLookupKey t) (live c)))).
Proof.
  intros [Hl [i Hi]] Hr Ha Hb. unfold Refresh.
  rewrite (Get_complete _ _ _ Hl), (Get_complete _ _ _ Hi), Hr, Ha.
  unfold generateRefreshToken. rewrite Hb. simpl.
  pose proof (Delete_works c (tokLookupKey t)) as D1.
  destruct (cache_Delete c (tokLookupKey t)) as [c1 e1]; simpl in *.
  pose proof (Delete_works c1 (userIdxKey uid t)) as D2.
  destruct (cache_Delete c1 (userIdxKey uid t)) as [c2 e2]; simpl in *.
  destruct (issue_works c2 (uuid_String (user_ID usr)) (Base64.encode bytes)) as [E3 L3].
  destruct (issue _ _ _ _) as [c3 e3]; simpl in *; subst e3.
  exists c3. split; [done|]. by rewrite L3, D2, D1.
Qed.

(** C5: refresh tokens work and rotate.  On a working cache, the token a successful login
    returned refreshes (when the user can still be read and the token libraries do not
    fail): the answer carries the new tokens, the new refresh token is usable by the same
    user, and from then on the old one is rejected as invalid. *)
Theorem refresh_rotates (c c1 : C) (o o' : Oracle) (email password at' bytes : string)
    (resp : LoginResponse) (usr : User U) :
  Login userRepo jwtCfg c o email password = (c1, Ok resp) →
  repo_GetByID userRepo (UserID resp) = Ok usr →
  generateAccessToken jwtCfg (now o') (uuid_String (user_ID usr)) (user_Email usr) (user_Name usr) = Ok at' →
  rand_Read o' = Ok bytes →
  sha256_hex (Base64.encode bytes) ≠ sha256_hex (RefreshToken resp) →
  ∃ c2, Refresh userRepo jwtCfg c1 o' (RefreshToken resp) =
          (c2, Ok (mkRefreshResponse at' (Base64.encode bytes) (ExpiresIn resp) "Bearer")) ∧
    usable c2 (uuid_String (user_ID usr)) (Base64.encode bytes) ∧
    ∀ o2, Refresh userRepo jwtCfg c2 o2 (RefreshToken resp) = (c2, Err invalidRefresh).
Proof.
  intros Hlog Hr Ha Hb Hne. pose proof (login_ok_usable _ _ _ _ _ _ Hlog) as Hu.
  assert (ExpiresIn resp = wrap64 (AccessTokenTTL jwtCfg * 60)) as ->.
  { revert Hlog. unfold Login. repeat case_match; intros; by simplify_eq. }
  destruct (refresh_usable _ o' _ _ usr at' bytes Hu Hr Ha Hb) as (c2 & Heq & L).
  exists c2. split; [exact Heq|]. split.
  - unfold usable. rewrite L, lookup_insert_eq. split; [|eauto].
    rewrite lookup_insert_ne by (intros E; by eapply tok_idx_ne). apply lookup_insert_eq.
  - intros o2. apply refresh_not_live. rewrite L.
    rewrite lookup_insert_ne by (intros E; by eapply tok_idx_ne).
    rewrite lookup_insert_ne by (intros E; apply append_cancel_l in E; by apply Hne).
    apply lookup_delete_None. right. apply lookup_delete_eq.
Qed.

(** Logout ends exactly the caller's own session.  It always reports success; a token
    the caller does not own (or an unknown one) leaves the cache as it was; the caller's
    own token can never refresh again afterwards, and every other key is untouched. *)
Theorem logout_own_session (c : C) (callerID token : string) :
  (Logout c callerID token).2 = None ∧
  (live c !! tokLookupKey token ≠ Some callerID → (Logout c callerID token).1 = c) ∧
  (live c !! tokLookupKey token = Some callerID →
     (∀ o, (Refresh userRepo jwtCfg (Logout c callerID token).1 o token).2 = Err invalidRefresh) ∧
     ∀ k, k ≠ tokLookupKey token → k ≠ userIdxKey callerID token →
       live (Logout c callerID token).1 !! k = live c !! k).
Proof.
  unfold Logout.
  pose proof (Delete_works c (tokLookupKey token)) as D1.
  destruct (cache_Get c (tokLookupKey token)) as [uid|err] eqn:Hg.
  - apply Get_sound in Hg. rewrite Hg. destruct (String.eqb_spec uid callerID) as [->|Hne]; simpl.
    + destruct (cache_Delete c (tokLookupKey token)) as [c1 e1]; simpl in *.
      pose proof (Delete_works c1 (userIdxKey callerID token)) as D2.
      destruct (cache_Delete c1 (userIdxKey callerID token)) as [c2 e2]; simpl in *.
      rewrite D1 in D2. split; [done|]. split; [done|]. intros _. split.
      * intros o. rewrite refresh_not_live; [done|]. rewrite D2.
        apply lookup_delete_None. right. apply lookup_delete_eq.
      * intros k H1' H2'. rewrite D2, !lookup_delete_ne by done. done.
    + split; [done|]. split; [done|]. intros [= ->]. done.
  - split; [done|]. split; [done|]. intros Hl%Get_complete. congruence.
Qed.

End working.

(** ** The audit trail *)

Section audit.
Context {U C L : Type} `{Uuid U} `{Cache C} `{Crypto} `{Auditor L}.
Variable userRepo : UserRepo U.
Variable jwtCfg : JWTConfig.

(** The decorator is transparent and records every login attempt: the caller gets the
    inner result and the inner cache, whatever the auditor does; exactly one entry is
    logged, with the attempted e-mail and a category out of a fixed set on failure and
    the user's id on success. *)
Theorem login_audited (ctx : Context) (t : Z) (c : C) (l : L) (o : Oracle) (email password : string) :
  let inner := Login userRepo jwtCfg c o email password in
  let audited := Audited_Login userRepo jwtCfg ctx t (c, l) o email password in
  audited.2 = inner.2 ∧ audited.1.1 = inner.1 ∧
  ∃ entry, audited.1.2 = (auditor_Log l entry).1 ∧
    ae_Action entry = ActionLogin ∧ ae_Resource entry = "user" ∧
    match inner.2 with
    | Ok resp => ae_ResourceID entry = UserID resp ∧
        ae_Metadata entry = Some [("outcome", AnyString "success")]
    | Err _ => ae_ResourceID entry = email ∧
        ∃ reason, ae_Metadata entry = Some [("outcome", AnyString "failed"); ("reason", AnyString reason)] ∧
          reason ∈ ["invalid_credentials"; "user_inactive"; "unknown"]
    end.
Proof.
  simpl. unfold Audited_Login. destruct (Login userRepo jwtCfg c o email password) as [c' [resp|err]]; simpl.
  - split; [done|]. split; [done|]. eexists. split; [reflexivity|]. done.
  - split; [done|]. split; [done|]. eexists. split; [reflexivity|]. split_and!; try done.
    eexists. split; [reflexivity|]. unfold classifyLoginFailure. repeat case_match; set_solver.
Qed.

(** Failed logins of an unknown user and of a wrong password are indistinguishable. *)
Lemma login_no_oracle (c : C) (o : Oracle) email password :
  (∀ usr, repo_GetByEmail userRepo email = Ok usr → bcrypt_matches (user_PasswordHash usr) password = false) →
  Login userRepo jwtCfg c o email password = (c, Err invalidCredentials).
Proof. intros Hbad. unfold Login. destruct (repo_GetByEmail userRepo email); [by rewrite Hbad | done]. Qed.

End audit.

(** ** Concrete runs *)

Module Sample.

#[local] Existing Instance BoolUuid.

Definition crypto : Crypto := {|
  sha256_hex s := s;
  bcrypt_matches := String.eqb;
  bcrypt_hash s := Ok s;
  jwt_SignedString c secret := Ok ("hs256:" +:+ secret +:+ ":" +:+ Subject c)
|}.
#[local] Existing Instance crypto.

Definition store := RedisCache MemRedis.
Definition empty : store := mkRedisCache (mkMemRedis ∅ ∅).

Definition alice : User bool := mkUser true "alice@x.io" "pw1" "Alice" true 0 0.
Definition bob : User bool := mkUser false "bob@x.io" "pw2" "Bob" true 0 0.
Definition repo : UserRepo bool := mkUserRepo
  (λ e, if String.eqb e "alice@x.io" then Ok alice else if String.eqb e "bob@x.io" then Ok bob else Err ErrNotFound)
  (λ i, match uuid_Parse i with Some true => Ok alice | Some false => Ok bob | None => Err ErrNotFound end).
Definition cfg : JWTConfig := mkJWTConfig "secret" 15 10080 "goscratch" "goscratch-api".
Definition ora (r : string) : Oracle := mkOracle 1000 (Ok r).

Definition c1 : store := (Login repo cfg empty (ora "r1") "alice@x.io" "pw1").1.
Definition c2 : store := (RevokeAllForUser c1 (uuid_String true)).1.
Definition c3 : store := (Login repo cfg c2 (ora "r2") "bob@x.io" "pw2").1.

Lemma repo_ok v usr : repo_GetByID repo v = Ok usr → uuid_Parse v = Some (user_ID usr).
Proof. simpl. destruct (two_uuid_Parse v) as [[]|]; intros; by simplify_eq. Qed.

End Sample.

Lemma revocation_permanent_witness :
  ∃ usr : User bool, user_ID usr ≠ true ∧
    @generateAccessToken Sample.crypto Sample.cfg 1000 (@uuid_String _ BoolUuid (user_ID usr))
      (user_Email usr) (user_Name usr) = Ok "hs256:secret:00000000-0000-0000-0000-000000000000".
Proof.
  apply (@revocation_permanent bool Sample.store BoolUuid _ _ Sample.crypto Sample.repo Sample.cfg
           Sample.repo_ok true Sample.empty Sample.c1 Sample.c2 Sample.c3 (Sample.ora "r3")
           (Base64.encode "r2")
           (mkRefreshResponse "hs256:secret:00000000-0000-0000-0000-000000000000" (Base64.encode "r3") 900 "Bearer")).
  - reflexivity.
  - eapply rtc_l; [|apply rtc_refl].
    apply (@step_call _ _ _ _ _ Sample.crypto Sample.repo Sample.cfg _ _ (CLogin (Sample.ora "r1") "alice@x.io" "pw1")).
    done.
  - vm_compute. reflexivity.
  - eapply rtc_l; [|apply rtc_refl].
    apply (@step_call _ _ _ _ _ Sample.crypto Sample.repo Sample.cfg _ _ (CLogin (Sample.ora "r2") "bob@x.io" "pw2")).
    intros o e p usr [= <- <- <-] Hr. vm_compute in Hr. by injection Hr as <-.
  - vm_compute. reflexivity.
Defined.

Lemma refresh_rotates_witness :
  ∃ c2 : Sample.store, @Refresh bool Sample.store BoolUuid _ Sample.crypto Sample.repo Sample.cfg Sample.c1
      (Sample.ora "r9") (Base64.encode "r1")
    = (c2, Ok (mkRefreshResponse "hs256:secret:00000000-0000-0000-0000-000000000001"
                 (Base64.encode "r9") 900 "Bearer")).
Proof.
  destruct (@refresh_rotates bool Sample.store BoolUuid _ _ _ Sample.crypto Sample.repo Sample.cfg Sample.empty
    Sample.c1 (Sample.ora "r1") (Sample.ora "r9") "alice@x.io" "pw1"
    "hs256:secret:00000000-0000-0000-0000-000000000001" "r9"
    (mkLoginResponse "hs256:secret:00000000-0000-0000-0000-000000000001" (Base64.encode "r1") 900 "Bearer"
       (@uuid_String _ BoolUuid true)) Sample.alice) as (c2 & Heq & _).
  - vm_compute. reflexivity.
  - reflexivity.
  - vm_compute. reflexivity.
  - reflexivity.
  - vm_compute. discriminate.
  - exists c2. exact Heq.
Defined.

Lemma logout_own_session_witness :
  (@Logout Sample.store _ Sample.crypto Sample.c1 (@uuid_String _ BoolUuid false) (Base64.encode "r1")).1 = Sample.c1.
Proof.
  destruct (@logout_own_session bool Sample.store BoolUuid _ _ _ Sample.crypto Sample.repo Sample.cfg Sample.c1
    (@uuid_String _ BoolUuid false) (Base64.encode "r1")) as (_ & Hother & _).
  apply Hother. vm_compute. discriminate.
Defined.

End Auth.
