(* ===== verification/Expiry.v ===== *)
(** * Refresh tokens over time

    The cache as a clock sees it: what a key holds ends at an instant, the one of the last
    successful [Set] plus its time to live.  [CacheExpiry] states it of a cache, a Redis server
    with expiring keys under the adapter of [internal/adapter/cache/redis.go] keeps it, and the
    refresh tokens of [internal/module/auth] end with it. *)
From S2P Require Import Prelude JsonDecode Base64 AppErr Config Port Cache Auth.
Import JsonDecode AppErr Config Port CacheAdapter Auth.

Module Expiry.

(** ** The contract *)

(** [ends_by c k d]: unless [k] is set again, nothing is read from it at or after [d].
    [elapses] is the passing of time. *)
Class CacheExpiry (C : Type) `{CacheSafety C} := {
  time_of : C → Z;
  ends_by : C → string → Z → Prop;
  elapses : C → C → Prop;
  ends_read c k d : ends_by c k d → d ≤ time_of c → live c !! k = None;
  Set_fresh c k v ttl : 0 < ttl → live c !! k = None → ends_by (cache_Set c k v ttl).1 k (time_of c + ttl);
  Set_other c k k' v ttl d : k ≠ k' → ends_by c k' d → ends_by (cache_Set c k v ttl).1 k' d;
  Delete_ends c k k' d : ends_by c k' d → ends_by (cache_Delete c k).1 k' d;
  DeleteByPrefix_ends c p k d : ends_by c k d → ends_by (cache_DeleteByPrefix c p).1 k d;
  elapses_ends c c' k d : elapses c c' → ends_by c k d → ends_by c' k d
}.

(** ** Refresh tokens *)

Section tokens.
Context {U C : Type} `{Uuid U} `{CacheExpiry C} `{Crypto}.
Variable userRepo : UserRepo U.
Variable jwtCfg : JWTConfig.

(** A call of the auth use case that does not draw the token again, or the passing of time. *)
Inductive later (token : string) : C → C → Prop :=
| later_call c x :
    (∀ o tok, (∃ e p, x = CLogin o e p) ∨ (∃ t, x = CRefresh o t) → generateRefreshToken o = Ok tok →
       tokenHash tok ≠ tokenHash token) →
    later token c (run_call userRepo jwtCfg c x)
| later_time c c' : elapses c c' → later token c c'.

Lemma lookup_key_inj t t' : tokenHash t ≠ tokenHash t' → tokLookupKey t ≠ tokLookupKey t'.
Proof. unfold tokLookupKey. intros Hne Heq. apply Hne. by injection Heq. Qed.

Lemma issue_ends c uid tok token d : tokenHash tok ≠ tokenHash token →
  ends_by c (tokLookupKey token) d → ends_by (issue jwtCfg c uid tok).1 (tokLookupKey token) d.
Proof.
  intros Hne Hc. unfold issue.
  assert (HE1 : ends_by (cache_Set c (tokLookupKey tok) uid (RefreshTokenDuration jwtCfg)).1 (tokLookupKey token) d)
    by (apply Set_other; [by apply lookup_key_inj|done]).
  destruct (cache_Set c _ uid _) as [c1 [e|]]; [done|].
  assert (HE2 : ends_by (cache_Set c1 (userIdxKey uid tok) "1" (RefreshTokenDuration jwtCfg)).1 (tokLookupKey token) d)
    by (apply Set_other; [intros Heq; by apply (tok_idx_ne uid token tok)|done]).
  destruct (cache_Set c1 _ "1" _) as [c2 [e|]]; [|done].
  pose proof (Delete_ends c2 (tokLookupKey tok) _ _ HE2) as HE3. by destruct (cache_Delete c2 _).
Qed.

Lemma issue_fresh c uid tok : 0 < RefreshTokenDuration jwtCfg → live c !! tokLookupKey tok = None →
  ends_by (issue jwtCfg c uid tok).1 (tokLookupKey tok) (time_of c + RefreshTokenDuration jwtCfg).
Proof.
  intros Hpos Hc. unfold issue. pose proof (Set_fresh c (tokLookupKey tok) uid _ Hpos Hc) as HE1.
  destruct (cache_Set c _ uid _) as [c1 [e|]]; [done|].
  pose proof (Set_other c1 (userIdxKey uid tok) (tokLookupKey tok) "1" (RefreshTokenDuration jwtCfg) _ ltac:(by apply not_eq_sym, tok_idx_ne) HE1) as HE2.
  destruct (cache_Set c1 _ "1" _) as [c2 [e|]]; [|done].
  pose proof (Delete_ends c2 (tokLookupKey tok) _ _ HE2) as HE3. by destruct (cache_Delete c2 _).
Qed.

(** One key after another goes; what is left of the token ends no later. *)
Lemma delete_two c k1 k2 k d : ends_by c k d →
  let '(c1, _) := cache_Delete c k1 in let '(c2, _) := cache_Delete c1 k2 in ends_by c2 k d.
Proof.
  intros Hc. pose proof (Delete_ends c k1 k d Hc) as HE1. destruct (cache_Delete c k1) as [c1 e].
  pose proof (Delete_ends c1 k2 k d HE1) as HE2. by destruct (cache_Delete c1 k2).
Qed.

Lemma later_ends token c c' d : later token c c' → ends_by c (tokLookupKey token) d → ends_by c' (tokLookupKey token) d.
Proof.
  intros [c0 x Hx|c0 c1 Ht] Hc; [|by eapply elapses_ends]. destruct x as [o e p|o t|u t|u]; cbn [run_call].
  - unfold Login. destruct (repo_GetByEmail userRepo e) as [usr|]; [|done]. destruct (negb _); [done|].
    destruct (generateAccessToken _ _ _ _ _); [|done]. destruct (generateRefreshToken o) as [tok|] eqn:Hg; [|done].
    pose proof (issue_ends c0 (uuid_String (user_ID usr)) tok token d (Hx o tok ltac:(eauto) Hg) Hc) as Hi.
    by destruct (issue _ _ _ _) as [c1 [err|]].
  - unfold Refresh. destruct (cache_Get c0 _) as [uid|]; [|done]. destruct (cache_Get c0 _); [|done].
    destruct (repo_GetByID userRepo uid) as [usr|]; [|done].
    pose proof (delete_two c0 (tokLookupKey t) (userIdxKey uid t) _ d Hc) as Hd.
    destruct (cache_Delete c0 _) as [c1 e1]. destruct (cache_Delete c1 _) as [c2 e2].
    destruct (generateAccessToken _ _ _ _ _); [|done]. destruct (generateRefreshToken o) as [tok|] eqn:Hg; [|done].
    pose proof (issue_ends c2 (uuid_String (user_ID usr)) tok token d (Hx o tok ltac:(eauto) Hg) Hd) as Hi.
    by destruct (issue _ _ _ _) as [c3 [err|]].
  - unfold Logout. destruct (cache_Get c0 _) as [uid|]; [|done]. destruct (negb _); [done|].
    pose proof (delete_two c0 (tokLookupKey t) (userIdxKey u t) _ d Hc) as Hd.
    destruct (cache_Delete c0 _) as [c1 e1]. by destruct (cache_Delete c1 _) as [c2 e2].
  - unfold RevokeAllForUser. by apply DeleteByPrefix_ends.
Qed.

Lemma run_ends token c c' d : rtc (later token) c c' → ends_by c (tokLookupKey token) d → ends_by c' (tokLookupKey token) d.
Proof. induction 1 as [|a b c' Hab _ IH]; [done|]. intros Ha. by eapply IH, later_ends. Qed.


End tokens.

(** ** A server with expiring keys *)

(** A key's value and the instant it ends, if any. *)
Record TtlRedis := mkTtlRedis { tr_clock : Z; tr_strs : gmap string (string * option Z); tr_zsets : gmap string (gset Z) }.

Definition alive (now : Z) (x : string * option Z) : option string :=
  match x.2 with Some t => if t <=? now then None else Some x.1 | None => Some x.1 end.
Definition tr_live (r : TtlRedis) : gmap string string := omap (alive (tr_clock r)) (tr_strs r).

Definition ttl_keys (r : TtlRedis) (cursor : Z) (pattern : string) : list string :=
  let p := String.substring 0 (String.length pattern - 1) pattern in
  filter (λ k, has_prefix p k = true ∧ Nat.even (String.length k) = (cursor =? 0)) (elements (dom (tr_live r))).

Definition ttl_del (r : TtlRedis) (ks : list string) : TtlRedis :=
  mkTtlRedis (tr_clock r) (foldr delete (tr_strs r) ks) (tr_zsets r).

(** INCR and DECR read a missing key as 0 and keep its end. *)
Definition ttl_add (r : TtlRedis) (k : string) (n : Z) : TtlRedis * result error Z :=
  match (match tr_live r !! k with Some v => Atoi v | None => Some 0 end) with
  | Some z => (mkTtlRedis (tr_clock r)
                 (<[k := (pretty (z + n), match tr_live r !! k with Some _ => default None (snd <$> tr_strs r !! k) | None => None end)]> (tr_strs r))
                 (tr_zsets r), Ok (z + n))
  | None => (r, Err (PlainError "ERR value is not an integer or out of range"))
  end.

#[export] Instance TtlRedis_Redis : Redis TtlRedis := {
  redis_Get r k := match tr_live r !! k with Some v => Ok v | None => Err RedisNil end;
  redis_Set r k v ttl :=
    (mkTtlRedis (tr_clock r) (<[k := (v, if 0 <? ttl then Some (tr_clock r + ttl) else None)]> (tr_strs r)) (tr_zsets r), None);
  redis_Del r ks := (ttl_del r ks, None);
  redis_Scan r c pat _ := Ok (ttl_keys r c pat, if c =? 0 then 1 else 0);
  redis_Exists r k := Ok (if decide (k ∈ dom (tr_live r)) then 1 else 0);
  redis_Incr r k := ttl_add r k 1;
  redis_Decr r k := ttl_add r k (-1);
  redis_Expire r k ttl :=
    (match tr_live r !! k with
     | Some v => mkTtlRedis (tr_clock r) (<[k := (v, Some (tr_clock r + ttl))]> (tr_strs r)) (tr_zsets r)
     | None => r
     end, None);
  redis_Eval r k f :=
    let '(zs, _, reply) := f (default ∅ (tr_zsets r !! k)) in
    (mkTtlRedis (tr_clock r) (tr_strs r) (<[k := zs]> (tr_zsets r)), Ok reply);
  redis_scan_left _ c := if c =? 0 then 1%nat else 0%nat
}.

Lemma live_lookup r k v : tr_live r !! k = Some v ↔ ∃ e, tr_strs r !! k = Some (v, e) ∧ match e with Some t => tr_clock r < t | None => True end.
Proof.
  unfold tr_live. rewrite lookup_omap. unfold alive. destruct (tr_strs r !! k) as [[v' e]|]; simpl; [|naive_solver].
  destruct e as [t|]; [destruct (Z.leb_spec t (tr_clock r))|]; naive_solver lia.
Qed.

Lemma lookup_deletes {A} (m : gmap string A) ks k :
  foldr delete m ks !! k = if decide (k ∈ ks) then None else m !! k.
Proof.
  induction ks as [|k' ks IH]; simpl; [done|]. destruct (decide (k = k')) as [->|Hne].
  - by rewrite lookup_delete_eq, decide_True by (by left).
  - rewrite lookup_delete_ne, IH by done. destruct (decide (k ∈ ks)); [rewrite decide_True by (by right)|rewrite decide_False by set_solver]; done.
Qed.

Lemma ttl_del_live r ks k v : tr_live (ttl_del r ks) !! k = Some v ↔ k ∉ ks ∧ tr_live r !! k = Some v.
Proof.
  rewrite !live_lookup. unfold ttl_del. cbn [tr_strs tr_clock]. rewrite lookup_deletes. case_decide; naive_solver.
Qed.

#[export] Instance TtlRedis_laws : RedisLaws TtlRedis.
Proof.
  refine {| strs := tr_live; ahead := λ _ c k, c = 0 ∨ (c = 1 ∧ Nat.even (String.length k) = false) |};
    simpl; unfold redis_scan_left; simpl.
  - intros r k v Hg. repeat case_match; congruence.
  - intros r k v ->. by left.
  - intros r k v ttl. apply map_subseteq_spec. intros k' v'. rewrite live_lookup. cbn [tr_strs tr_clock].
    destruct (decide (k = k')) as [<-|Hne]; [rewrite !lookup_insert_eq|rewrite !lookup_insert_ne by done]; [naive_solver|].
    by rewrite live_lookup.
  - intros r ks. apply map_subseteq_spec. intros k v Hk. by apply ttl_del_live in Hk as [_ ?].
  - intros r ks k _ Hk. apply eq_None_not_Some. intros [v Hv]. by apply ttl_del_live in Hv as [? _].
  - by left.
  - done.
  - intros r c p n ks c' k _ [= <- <-] Hk Hs Ha. unfold ttl_keys. rewrite pattern_prefix.
    rewrite list_elem_of_filter, elem_of_elements, elem_of_dom.
    destruct Ha as [->|[-> He]]; simpl; [|naive_solver].
    destruct (Nat.even (String.length k)); naive_solver.
  - intros r c pat n ks c' [= <- <-] Hn. destruct (c =? 0); simpl in *; [lia | done].
  - done.
Defined.

(** *** It keeps the contract under the adapter *)

Definition ttl_ends (r : TtlRedis) (k : string) (d : Z) : Prop :=
  ∀ v e, tr_strs r !! k = Some (v, e) → ∃ t, e = Some t ∧ t ≤ d.

(** An invariant of the deletions is one of the SCAN loop. *)
Lemma scan_loop_keeps {R} `{Redis R} (P : R → Prop) fuel (c c' : R) cur p e :
  (∀ r ks, P r → P (redis_Del r ks).1) → scan_loop fuel c cur p = Some (c', e) → P c → P c'.
Proof.
  intros Hdel. revert c cur. induction fuel as [|fuel IH]; intros c cur Hf Hc; [done|]. simpl in Hf.
  destruct (redis_Scan c cur (p +:+ "*") 100) as [[keys next]|e'] eqn:Hs; simplify_eq/=; [|done].
  assert (P (del_keys c keys).1) as Hd by (unfold del_keys; destruct (0 <? _); [by apply Hdel|done]).
  destruct (del_keys c keys) as [c1 [e1|]]; simplify_eq/=; [done|]. destruct (next =? 0); simplify_eq; [done|]. by eapply IH.
Qed.

Lemma ttl_del_ends r ks k d : ttl_ends r k d → ttl_ends (ttl_del r ks) k d.
Proof. unfold ttl_ends, ttl_del. cbn [tr_strs]. intros Hr v e. rewrite lookup_deletes. case_decide; [done|apply Hr]. Qed.

Definition wait (c : RedisCache TtlRedis) (t : Z) : RedisCache TtlRedis :=
  mkRedisCache (mkTtlRedis (tr_clock (client c) + t) (tr_strs (client c)) (tr_zsets (client c))).

#[export] Program Instance TtlRedis_expiry : CacheExpiry (RedisCache TtlRedis) := {
  time_of c := tr_clock (client c);
  ends_by c k d := ttl_ends (client c) k d;
  elapses c c' := ∃ t, 0 ≤ t ∧ c' = wait c t
}.

Next Obligation.
  intros [r] k d Hk Hd. simpl in *. apply eq_None_not_Some. intros [v (e & Hv & Ht)%live_lookup].
  destruct (Hk v e Hv) as (t & -> & Hle). simpl in Ht. lia.
Qed.
Next Obligation.
  intros [r] k v ttl Hpos _ v' e. simpl. rewrite lookup_insert_eq, (proj2 (Z.ltb_lt _ _) Hpos). intros [= <- <-]. eauto with lia.
Qed.
Next Obligation. intros [r] k k' v ttl d Hne Hk v' e. simpl. rewrite lookup_insert_ne by done. apply Hk. Qed.
Next Obligation. intros [r] k k' d Hk. apply (ttl_del_ends r [k]), Hk. Qed.
Next Obligation.
  intros [r] p k d Hk. simpl. pose proof (redis_delete_by_prefix_run r p) as Hr. destruct (redis_delete_by_prefix r p) as [c' e].
  eapply (scan_loop_keeps (λ r, ttl_ends r k d)); [|exact Hr|exact Hk]. intros r' ks. apply ttl_del_ends.
Qed.
Next Obligation. intros [r] c' k d (t & Ht & ->) Hk. exact Hk. Qed.

(** ** A concrete run *)

Module Sample.
#[local] Existing Instance BoolUuid.
#[local] Existing Instance Auth.Sample.crypto.

Definition empty : RedisCache TtlRedis := mkRedisCache (mkTtlRedis 0 ∅ ∅).
Definition ttl : Z := RefreshTokenDuration Auth.Sample.cfg.
Definition login := Login Auth.Sample.repo Auth.Sample.cfg empty (Auth.Sample.ora "r1") "alice@x.io" "pw1".
(** Half the lifetime later the token still works; when all of it has passed it does not. *)
Definition later_half := wait login.1 (ttl / 2).
Definition later_all := wait (Login Auth.Sample.repo Auth.Sample.cfg later_half (Auth.Sample.ora "r2") "bob@x.io" "pw2").1 (ttl / 2 + 1).

Example half_works : match (Refresh Auth.Sample.repo Auth.Sample.cfg later_half (Auth.Sample.ora "r3") (Base64.encode "r1")).2 with Ok _ => true | Err _ => false end = true.
Proof. vm_compute. reflexivity. Qed.
End Sample.


End Expiry.
