(* ===== verification/Middleware.v ===== *)
(** * HTTP middleware: authentication and authorization

    Models [internal/platform/http/middleware/auth.go], [authz.go], [request_id.go],
    [security_headers.go] and [context.go] on an explicit request: headers, cookies,
    Fiber locals, the user context and the response headers set so far.  A handler either
    passes the (changed) request on or answers.  Token verification is the JWT library's
    (class [JwtVerifier]); the authorizer is any instance of the port, with the contract
    [AuthorizerSpec] that the Casbin adapter discharges. *)
From S2P Require Import Prelude GoStr AppErr Config Port DecisionCache Casbin Auth.
Import GoStr AppErr Config Auth DecisionCache Casbin.

Module Middleware.

(** ** Requests *)

(** [authdomain.Claims] *)
Record Claims := mkClaims {
  dc_Subject : string; dc_UserID : string; dc_Email : string; dc_Name : string;
  dc_Issuer : string; dc_Audience : list string;
  dc_ExpiresAt : Z; dc_IssuedAt : Z; dc_NotBefore : Z
}.

Inductive local := LClaims (c : Claims) | LString (s : string).

Record Request := mkRequest {
  headers : gmap string string;
  cookies : gmap string string;
  ip : string;
  locals : gmap string local;
  user_ctx : Context;
  out_headers : gmap string string
}.

Inductive outcome := Next (r : Request) | Respond (resp : Response unit).

Definition header (r : Request) (name : string) : string := default "" (headers r !! name).
Definition Locals (r : Request) (k : string) (v : local) : Request :=
  mkRequest (headers r) (cookies r) (ip r) (<[k := v]> (locals r)) (user_ctx r) (out_headers r).
Definition SetUserContext (r : Request) (ctx : Context) : Request :=
  mkRequest (headers r) (cookies r) (ip r) (locals r) ctx (out_headers r).
Definition SetHeader (r : Request) (k v : string) : Request :=
  mkRequest (headers r) (cookies r) (ip r) (locals r) (user_ctx r) (<[k := v]> (out_headers r)).

Inductive ContextKey := UserIDKey | IPAddressKey | UserAgentKey | RequestIDKey.

Definition setContextValue (ctx : Context) (key : ContextKey) (v : string) : Context :=
  match key with
  | UserIDKey => mkContext (ctx_err ctx) (Some v) (ctx_ip ctx) (ctx_user_agent ctx) (ctx_request_id ctx)
  | IPAddressKey => mkContext (ctx_err ctx) (ctx_user_id ctx) (Some v) (ctx_user_agent ctx) (ctx_request_id ctx)
  | UserAgentKey => mkContext (ctx_err ctx) (ctx_user_id ctx) (ctx_ip ctx) (Some v) (ctx_request_id ctx)
  | RequestIDKey => mkContext (ctx_err ctx) (ctx_user_id ctx) (ctx_ip ctx) (ctx_user_agent ctx) (Some v)
  end.

(** ** JWT verification (third party) *)

Inductive jwt_error := JExpired | JOther (e : error).

(** [jwt.ParseWithClaims] with the parser options the code passes: method HS256, issuer
    and audience; the clock is its first argument. *)
Class JwtVerifier := {
  jwt_Parse : Z → string → string → string → string → result jwt_error jwtClaims;
  valid_utf8 : string → bool
}.

Definition text_claims `{JwtVerifier} (c : jwtClaims) : bool :=
  forallb valid_utf8 ([Subject c; claims_Issuer c; claims_UserID c; claims_Email c; claims_Name c] ++ claims_Audience c).

(** The library's documented validation of a token signed with the same secret. *)
Definition jwt_valid (t : Z) (iss aud : string) (c : jwtClaims) : bool :=
  String.eqb (claims_Issuer c) iss && existsb (String.eqb aud) (claims_Audience c)
  && match NotBefore c with Some n => n * Second <=? t | None => true end.
Definition jwt_expired (t : Z) (c : jwtClaims) : bool :=
  match ExpiresAt c with Some x => x * Second <=? t | None => false end.

Class JwtLaws `{Crypto} `{JwtVerifier} := {
  parse_signed t secret iss aud c tok :
    jwt_SignedString c secret = Ok tok → text_claims c = true →
    match jwt_Parse t secret iss aud tok with
    | Ok c' => c' = c ∧ jwt_valid t iss aud c = true ∧ jwt_expired t c = false
    | Err JExpired => jwt_expired t c = true
    | Err (JOther _) => jwt_valid t iss aud c = false ∧ jwt_expired t c = false
    end
}.

(** ** auth.go *)

Record AuthConfig := mkAuthConfig {
  JWTSecret : string; JWTIssuer : string; JWTAudience : string; TokenLookup : string; ContextKeyName : string
}.

Definition DefaultAuthConfig (jwtSecret : string) : AuthConfig :=
  mkAuthConfig jwtSecret "goscratch" "goscratch-api" "header:Authorization" "user".

(** The zero [time.Time], as Unix seconds *)
Definition zeroTime : Z := -62135596800.

Definition toDomainClaims (c : jwtClaims) : Claims :=
  mkClaims (Subject c) (claims_UserID c) (claims_Email c) (claims_Name c) (claims_Issuer c)
    (claims_Audience c) (default zeroTime (ExpiresAt c)) (default zeroTime (IssuedAt c))
    (default zeroTime (NotBefore c)).

Definition extractToken (r : Request) (lookup : string) : result error string :=
  match Split ":" lookup with
  | [kind; name] =>
      if String.eqb kind "header" then
        let auth := header r name in
        if String.eqb auth "" then Err ErrUnauthorized
        else if has_prefix "Bearer " auth then Ok (TrimPrefix auth "Bearer ")
        else Ok auth
      else if String.eqb kind "cookie" then Ok (default "" (cookies r !! name))
      else Err ErrBadRequest
  | _ => Err ErrBadRequest
  end.

Section auth.
Context `{JwtVerifier}.
Variable t : Z.   (* the clock the verification reads *)

Definition parseToken (tokenString secret issuer audience : string) : result jwt_error jwtClaims :=
  if String.eqb issuer "" || String.eqb audience "" then Err (JOther ErrUnauthorized)
  else jwt_Parse t secret issuer audience tokenString.

(** What both middlewares store once a token is accepted. *)
Definition authenticate (cfg : AuthConfig) (r : Request) (raw : jwtClaims) : Request :=
  let claims := toDomainClaims raw in
  let r := Locals r (ContextKeyName cfg) (LClaims claims) in
  let r := Locals r "user_id" (LString (dc_UserID claims)) in
  let ctx := user_ctx r in
  let ctx := setContextValue ctx UserIDKey (dc_UserID claims) in
  let ctx := setContextValue ctx IPAddressKey (ip r) in
  let ctx := setContextValue ctx UserAgentKey (header r "User-Agent") in
  SetUserContext r ctx.

Definition Auth (cfg : AuthConfig) (r : Request) : outcome :=
  match extractToken r (TokenLookup cfg) with
  | Err _ => Respond (Resp.Unauthorized "Missing or invalid token")
  | Ok token =>
      match parseToken token (JWTSecret cfg) (JWTIssuer cfg) (JWTAudience cfg) with
      | Err JExpired => Respond (Resp.Unauthorized "Token has expired")
      | Err (JOther _) => Respond (Resp.Unauthorized "Invalid token")
      | Ok raw => Next (authenticate cfg r raw)
      end
  end.

Definition OptionalAuth (cfg : AuthConfig) (r : Request) : outcome :=
  match extractToken r (TokenLookup cfg) with
  | Err _ => Next r
  | Ok token =>
      if String.eqb token "" then Next r
      else match parseToken token (JWTSecret cfg) (JWTIssuer cfg) (JWTAudience cfg) with
           | Err _ => Next r
           | Ok raw => Next (authenticate cfg r raw)
           end
  end.

End auth.

Definition GetClaims (r : Request) : option Claims :=
  match locals r !! "user" with Some (LClaims c) => Some c | _ => None end.
Definition GetUserID (r : Request) : string :=
  match locals r !! "user_id" with Some (LString s) => s | _ => "" end.

(** ** request_id.go and security_headers.go *)

Definition RequestIDHeader := "X-Request-ID".

(** [fresh] is [uuid.New().String()] *)
Definition RequestID (fresh : string) (r : Request) : outcome :=
  let requestID := if String.eqb (header r RequestIDHeader) "" then fresh else header r RequestIDHeader in
  let r := SetHeader r RequestIDHeader requestID in
  let r := Locals r "request_id" (LString requestID) in
  Next (SetUserContext r (setContextValue (user_ctx r) RequestIDKey requestID)).

Definition GetRequestID (r : Request) : string :=
  match locals r !! "request_id" with Some (LString s) => s | _ => "" end.

Definition SecurityHeaders (isProduction : bool) (r : Request) : outcome :=
  let r := SetHeader r "X-Content-Type-Options" "nosniff" in
  let r := SetHeader r "X-Frame-Options" "DENY" in
  let r := SetHeader r "X-XSS-Protection" "1; mode=block" in
  let r := SetHeader r "Content-Security-Policy" "default-src 'self'" in
  let r := SetHeader r "Referrer-Policy" "strict-origin-when-cross-origin" in
  let r := SetHeader r "Permissions-Policy" "camera=(), microphone=(), geolocation=()" in
  let r := if isProduction
           then SetHeader r "Strict-Transport-Security" "max-age=31536000; includeSubDomains" else r in
  Next r.

(** ** authz.go *)

Fixpoint parsePermission_from (seen perm : string) : option (string * string) :=
  match perm with
  | EmptyString => None
  | String c perm' =>
      if Ascii.eqb c ":" then Some (seen, perm')
      else parsePermission_from (seen +:+ String c "") perm'
  end.

(** The index loop: [seen] is [perm[:i]]. *)
Definition parsePermission (perm : string) : string * string :=
  match parsePermission_from "" perm with Some oa => oa | None => (perm, "*") end.

Section authz.
Context {S : Type} `{Authorizer S}.

Definition authRequired : outcome := Respond (Resp.Unauthorized "authentication required").
Definition checkFailed : outcome := Respond (Resp.Fail (Internalf "authorization check failed")).

Definition RequirePermission (obj act : string) (s : S) (r : Request) : S * outcome :=
  let userID := GetUserID r in
  if String.eqb userID "" then (s, authRequired)
  else match Enforce s userID obj act with
       | (s', Err _) => (s', checkFailed)
       | (s', Ok allowed) =>
           if negb allowed then (s', Respond (Resp.Forbidden "insufficient permissions"))
           else (s', Next r)
       end.

Definition RequireRole (role : string) (s : S) (r : Request) : outcome :=
  let userID := GetUserID r in
  if String.eqb userID "" then authRequired
  else match HasRoleForUser s userID role with
       | Err _ => checkFailed
       | Ok hasRole => if negb hasRole then Respond (Resp.Forbidden "insufficient role") else Next r
       end.

Fixpoint any_permission (userID : string) (perms : list string) (s : S) : S * bool :=
  match perms with
  | [] => (s, false)
  | perm :: perms' =>
      let '(obj, act) := parsePermission perm in
      match Enforce s userID obj act with
      | (s', Err _) => any_permission userID perms' s'
      | (s', Ok allowed) => if allowed : bool then (s', true) else any_permission userID perms' s'
      end
  end.

Definition RequireAnyPermission (perms : list string) (s : S) (r : Request) : S * outcome :=
  let userID := GetUserID r in
  if String.eqb userID "" then (s, authRequired)
  else let '(s', ok) := any_permission userID perms s in
       (s', if ok then Next r else Respond (Resp.Forbidden "insufficient permissions")).

Fixpoint all_permissions (userID : string) (perms : list string) (s : S) : S * bool :=
  match perms with
  | [] => (s, true)
  | perm :: perms' =>
      let '(obj, act) := parsePermission perm in
      match Enforce s userID obj act with
      | (s', Ok true) => all_permissions userID perms' s'
      | (s', _) => (s', false)
      end
  end.

Definition RequireAllPermissions (perms : list string) (s : S) (r : Request) : S * outcome :=
  let userID := GetUserID r in
  if String.eqb userID "" then (s, authRequired)
  else let '(s', ok) := all_permissions userID perms s in
       (s', if ok then Next r else Respond (Resp.Forbidden "insufficient permissions")).

Fixpoint any_role (userID : string) (roles : list string) (s : S) : bool :=
  match roles with
  | [] => false
  | role :: roles' =>
      match HasRoleForUser s userID role with
      | Ok true => true
      | _ => any_role userID roles' s
      end
  end.

Definition RequireAnyRole (roles : list string) (s : S) (r : Request) : outcome :=
  let userID := GetUserID r in
  if String.eqb userID "" then authRequired
  else if any_role userID roles s then Next r
  else Respond (Resp.Forbidden "insufficient role").

End authz.

(** ** What the middlewares need of an authorizer *)

(** [Enforce] answers, when it answers, the decision of the current policy, and changes
    no decision. *)
Class AuthorizerSpec (S : Type) `{Authorizer S} := {
  auth_inv : S → Prop;
  auth_dec : S → string → string → string → bool;
  Enforce_spec s u o a :
    auth_inv s →
    auth_inv (Enforce s u o a).1 ∧
    (∀ x y z, auth_dec (Enforce s u o a).1 x y z = auth_dec s x y z) ∧
    (∀ b, (Enforce s u o a).2 = Ok b → b = auth_dec s u o a)
}.

(** The Casbin adapter with its decision cache keeps the contract. *)
#[export] Instance Adapter_AuthorizerSpec {E} `{Casbin.EnforcerLaws E} : AuthorizerSpec (Casbin.Adapter E).
Proof.
  refine {| auth_inv := Casbin.coherent;
            auth_dec := λ a, Casbin.decision (Casbin.enforcer a) |}.
  intros a u o x Hc. destruct (Casbin.coherent_enforce a u o x Hc) as (Hc' & He & Hb).
  simpl. split; [done|]. split; [by rewrite He | done].
Defined.

#[export] Instance NoOp_AuthorizerSpec : AuthorizerSpec Casbin.NoOpAdapter.
Proof.
  refine {| auth_inv := λ _ : Casbin.NoOpAdapter, True; auth_dec := λ _ _ _ _, true |}.
  intros a u o x _. simpl. split; [done|]. split; [done|]. by intros b [= <-].
Defined.

Section authz_spec.
Context {S : Type} `{AuthorizerSpec S}.

Definition grants (s : S) (u perm : string) : bool :=
  auth_dec s u (parsePermission perm).1 (parsePermission perm).2.

Definition answers : Prop := ∀ (s : S) u o a, ∃ b, (Enforce s u o a).2 = Ok b.

Lemma grants_enforce (s s' : S) u perm :
  (∀ x y z, auth_dec s' x y z = auth_dec s x y z) → grants s' u perm = grants s u perm.
Proof. intros Hd. unfold grants. by rewrite Hd. Qed.

Lemma all_permissions_spec u perms (s : S) :
  auth_inv s →
  ((all_permissions u perms s).2 = true → forallb (grants s u) perms = true) ∧
  (answers → (all_permissions u perms s).2 = forallb (grants s u) perms).
Proof.
  revert s. induction perms as [|p perms IH]; intros s Hinv; simpl; [done|].
  unfold grants at 1 3. destruct (parsePermission p) as [obj act] eqn:Hp; simpl.
  destruct (Enforce_spec s u obj act Hinv) as (Hinv' & Hd & Hb).
  assert (∀ l, forallb (grants (Enforce s u obj act).1 u) l = forallb (grants s u) l) as Hf.
  { induction l as [|x l IHl]; simpl; [done|]. by rewrite IHl, (grants_enforce _ _ _ _ Hd). }
  destruct (IH _ Hinv') as [IH1 IH2]. rewrite Hf in IH1, IH2.
  destruct (Enforce s u obj act) as [s' res] eqn:He; simpl in *.
  destruct res as [[]|err]; simpl.
  - rewrite <-(Hb true eq_refl). split; [by intros Ht; rewrite IH1|]. intros Ha. by rewrite IH2.
  - rewrite <-(Hb false eq_refl). done.
  - split; [done|]. intros Ha. destruct (Ha s u obj act) as [b Hbad]. by rewrite He in Hbad.
Qed.

Lemma any_permission_spec u perms (s : S) :
  auth_inv s →
  ((any_permission u perms s).2 = true → existsb (grants s u) perms = true) ∧
  (answers → (any_permission u perms s).2 = existsb (grants s u) perms).
Proof.
  revert s. induction perms as [|p perms IH]; intros s Hinv; simpl; [done|].
  unfold grants at 1 3. destruct (parsePermission p) as [obj act] eqn:Hp; simpl.
  destruct (Enforce_spec s u obj act Hinv) as (Hinv' & Hd & Hb).
  assert (∀ l, existsb (grants (Enforce s u obj act).1 u) l = existsb (grants s u) l) as Hf.
  { induction l as [|x l IHl]; simpl; [done|]. by rewrite IHl, (grants_enforce _ _ _ _ Hd). }
  destruct (IH _ Hinv') as [IH1 IH2]. rewrite Hf in IH1, IH2.
  destruct (Enforce s u obj act) as [s' res] eqn:He; simpl in *.
  destruct res as [[]|err]; simpl.
  - by rewrite <-(Hb true eq_refl).
  - by rewrite <-(Hb false eq_refl).
  - split; [intros Ht; rewrite IH1 by done; apply orb_true_r|].
    intros Ha. destruct (Ha s u obj act) as [b Hbad]. by rewrite He in Hbad.
Qed.

(** The permission guards are exact.  A request passes [RequireAllPermissions]
    (respectively [RequireAnyPermission]) only when it carries a user id and the policy
    grants every (some) listed permission to that user, whatever authorizer errors occur;
    and when the authorizer answers, exactly then.  The request is passed on unchanged. *)
Theorem permission_guards_exact (perms : list string) (s : S) (r r' : Request) :
  auth_inv s →
  ((RequireAllPermissions perms s r).2 = Next r' →
     r' = r ∧ GetUserID r ≠ "" ∧ forallb (grants s (GetUserID r)) perms = true) ∧
  ((RequireAnyPermission perms s r).2 = Next r' →
     r' = r ∧ GetUserID r ≠ "" ∧ existsb (grants s (GetUserID r)) perms = true) ∧
  (answers → GetUserID r ≠ "" →
     ((RequireAllPermissions perms s r).2 = Next r ↔ forallb (grants s (GetUserID r)) perms = true) ∧
     ((RequireAnyPermission perms s r).2 = Next r ↔ existsb (grants s (GetUserID r)) perms = true)).
Proof.
  intros Hinv. unfold RequireAllPermissions, RequireAnyPermission.
  destruct (all_permissions_spec (GetUserID r) perms s Hinv) as [A1 A2].
  destruct (any_permission_spec (GetUserID r) perms s Hinv) as [B1 B2].
  destruct (String.eqb_spec (GetUserID r) "") as [Hu|Hu]; simpl; [done|].
  destruct (all_permissions _ _ s) as [sa ba], (any_permission _ _ s) as [sb bb]; simpl in *.
  split_and!.
  - destruct ba; [|done]. intros [= <-]. auto.
  - destruct bb; [|done]. intros [= <-]. auto.
  - intros Ha _. specialize (A2 Ha). specialize (B2 Ha). subst.
    split; [destruct (forallb _ perms) | destruct (existsb _ perms)]; naive_solver.
Qed.

End authz_spec.

(** ** Permission strings *)

Lemma parsePermission_from_cut seen perm :
  parsePermission_from seen perm = (λ xy, (seen +:+ xy.1, xy.2)) <$> cut ":" perm.
Proof.
  revert seen. induction perm as [|c perm IH]; intros seen; [done|].
  cbn [parsePermission_from cut]. destruct (Ascii.eqb c ":"); simpl.
  - by rewrite append_nil_r.
  - rewrite IH. destruct (cut ":" perm) as [[x y]|]; simpl; [|done]. by rewrite append_assoc.
Qed.

(** The two parsers of permission strings, the index loop of the middleware and the
    [SplitN] of the Casbin adapter, agree on every string; and parsing a formatted
    permission gives back object and action exactly when the object has no colon. *)
Theorem permission_parsers_agree (perm obj act : string) :
  parsePermission perm = Casbin.ParsePermission perm ∧
  (Casbin.ParsePermission (Casbin.FormatPermission obj act) = (obj, act) ↔ contains_byte ":" obj = false).
Proof.
  unfold Casbin.ParsePermission, SplitN2. split.
  - unfold parsePermission. rewrite parsePermission_from_cut. by destruct (cut ":" perm) as [[x y]|].
  - unfold Casbin.FormatPermission. destruct (cut ":" (obj +:+ ":" +:+ act)) as [[x y]|] eqn:Hc; simpl.
    + apply cut_Some in Hc as [Heq Hx]. split; [by intros [= -> ->]|].
      intros Ho. apply append_sep_inj in Heq as [-> ->]; done.
    + apply cut_None in Hc. rewrite !contains_byte_append in Hc. simpl in Hc.
      by rewrite orb_true_r in Hc.
Qed.

(** ** The guard chain of a protected route *)

Section chain.
Context `{JwtVerifier} {S : Type} `{AuthorizerSpec S}.

(** [group.Use(Auth(DefaultAuthConfig(secret)))] then [RequirePermission(obj, act)] *)
Definition guarded (t : Z) (secret obj act : string) (s : S) (r : Request) : S * outcome :=
  match Auth t (DefaultAuthConfig secret) r with
  | Respond resp => (s, Respond resp)
  | Next r' => RequirePermission obj act s r'
  end.

Lemma auth_next t cfg r r' :
  Auth t cfg r = Next r' →
  ∃ token raw, extractToken r (TokenLookup cfg) = Ok token ∧
    jwt_Parse t (JWTSecret cfg) (JWTIssuer cfg) (JWTAudience cfg) token = Ok raw ∧
    JWTIssuer cfg ≠ "" ∧ JWTAudience cfg ≠ "" ∧
    r' = authenticate cfg r raw.
Proof.
  unfold Auth, parseToken. destruct (extractToken r _) as [token|]; [|done].
  destruct (String.eqb_spec (JWTIssuer cfg) ""), (String.eqb_spec (JWTAudience cfg) ""); simpl; try done.
  destruct (jwt_Parse _ _ _ _ _) as [raw|[]] eqn:Hp; [|done..]. intros [= <-]. eauto 10.
Qed.

Lemma authenticate_user_id cfg r raw : GetUserID (authenticate cfg r raw) = claims_UserID raw.
Proof. unfold GetUserID, authenticate. simpl. by rewrite lookup_insert_eq. Qed.

Lemma require_permission_next obj act (s : S) r r' :
  auth_inv s → (RequirePermission obj act s r).2 = Next r' →
  r' = r ∧ GetUserID r ≠ "" ∧ auth_dec s (GetUserID r) obj act = true.
Proof.
  intros Hinv. unfold RequirePermission. destruct (String.eqb_spec (GetUserID r) "") as [|Hu]; [done|].
  destruct (Enforce_spec s (GetUserID r) obj act Hinv) as (_ & _ & Hb).
  destruct (Enforce s (GetUserID r) obj act) as [s' [[]|]]; simpl in *; try done.
  intros [= <-]. rewrite <-(Hb true eq_refl). done.
Qed.

(** A protected route is reached only by an authenticated and authorized caller: if
    the chain passes a request on, the request carried a token the verifier accepted for
    the configured secret, issuer and audience, the identity seen by the handler (locals
    and context) is the one of that token, and the policy grants the permission to that
    very user; a client cannot choose its identity by other means.  In every other case
    the answer is an error: 401, 403 or 500. *)
Theorem guarded_route_sound (t : Z) (secret obj act : string) (s : S) (r : Request) :
  auth_inv s →
  match (guarded t secret obj act s r).2 with
  | Next r' =>
      ∃ token raw, extractToken r "header:Authorization" = Ok token ∧
        jwt_Parse t secret "goscratch" "goscratch-api" token = Ok raw ∧
        GetUserID r' = claims_UserID raw ∧ claims_UserID raw ≠ "" ∧
        ctx_user_id (user_ctx r') = Some (claims_UserID raw) ∧
        GetClaims r' = Some (toDomainClaims raw) ∧
        auth_dec s (claims_UserID raw) obj act = true
  | Respond resp => status resp ∈ [401; 403; 500] ∧ success resp = false
  end.
Proof.
  intros Hinv. unfold guarded. destruct (Auth t (DefaultAuthConfig secret) r) as [r1|resp] eqn:Ha; simpl.
  - apply auth_next in Ha as (token & raw & Ht & Hp & _ & _ & ->); simpl in *.
    destruct (RequirePermission obj act s _).2 as [r'|resp] eqn:Hr.
    + apply require_permission_next in Hr as (-> & Hu & Hd); [|done].
      rewrite authenticate_user_id in Hu, Hd. exists token, raw. split_and!; try done.
      all: apply authenticate_user_id || (unfold GetClaims, authenticate; simpl;
        rewrite lookup_insert_ne, lookup_insert_eq by done; done).
    + revert Hr. unfold RequirePermission, authRequired, checkFailed.
      repeat case_match; simpl; intros Hr; simplify_eq; split; try done; set_solver.
  - revert Ha. unfold Auth. repeat case_match; intros Ha; simplify_eq; split; try done; set_solver.
Qed.

End chain.

(** ** Tokens of the auth module at the middleware *)

Section tokens.
Context `{Crypto} `{!JwtVerifier} `{!JwtLaws}.

Definition bearer (r : Request) (token : string) : Prop := header r "Authorization" = "Bearer " +:+ token.

Lemma bearer_extract r token : bearer r token → extractToken r "header:Authorization" = Ok token.
Proof.
  unfold bearer, extractToken. intros Hb. simpl. rewrite Hb, TrimPrefix_app. done.
Qed.

Lemma div_mul_le a b : 0 < b → a / b * b ≤ a.
Proof. intros. rewrite Z.mul_comm. by apply Z.mul_div_le. Qed.

(** C37: an access token of the auth use case whose claims are valid UTF-8, sent as a bearer
    token before its expiry, passes [Auth] with the user's id exactly when the configured
    issuer and audience are the fixed strings [DefaultAuthConfig] checks; otherwise it is
    refused as invalid.  At or after the expiry second it is refused as expired. *)
Theorem access_token_accepted (cfg : JWTConfig) (t0 t : Z) (uid email name token : string) (r : Request) :
  generateAccessToken cfg t0 uid email name = Ok token →
  text_claims (mkJwtClaims uid (Issuer cfg) [Audience cfg] None None None uid email name) = true →
  bearer r token →
  let expiry := NumericDate (t0 + AccessTokenDuration cfg) * Second in
  (t0 ≤ t < expiry →
     match Auth t (DefaultAuthConfig (Secret cfg)) r with
     | Next r' => Issuer cfg = "goscratch" ∧ Audience cfg = "goscratch-api" ∧ GetUserID r' = uid
     | Respond resp => ¬ (Issuer cfg = "goscratch" ∧ Audience cfg = "goscratch-api") ∧
                       resp = Resp.Unauthorized "Invalid token"
     end) ∧
  (expiry ≤ t → Auth t (DefaultAuthConfig (Secret cfg)) r = Respond (Resp.Unauthorized "Token has expired")).
Proof.
  intros Hg Htext Hb expiry. unfold generateAccessToken in Hg.
  unfold Auth, parseToken. simpl. rewrite (bearer_extract _ _ Hb).
  pose proof (parse_signed t _ "goscratch" "goscratch-api" _ _ Hg Htext) as Hlaw.
  unfold jwt_valid, jwt_expired in Hlaw; cbn -[String.eqb] in Hlaw. fold expiry in Hlaw.
  destruct (jwt_Parse t (Secret cfg) "goscratch" "goscratch-api" token) as [raw|[|e]].
  - destruct Hlaw as (-> & Hv & Hx). rewrite orb_false_r in Hv. to_prop.
    rewrite authenticate_user_id. simpl. split; [|lia]. by intros _.
  - to_prop. split; [lia | done].
  - destruct Hlaw as [Hv Hx]. apply Z.leb_gt in Hx. split; [|lia]. intros Ht. split; [|done].
    intros [Hi Ha]. rewrite Hi, Ha in Hv. simpl in Hv.
    pose proof (div_mul_le t0 Second eq_refl) as Hn. unfold NumericDate in Hv.
    apply Z.leb_gt in Hv. unfold Second in *. lia.
Qed.

End tokens.

(** ** Concrete runs *)

Module Sample.
Import MemEnforcer.

Definition adapter : Adapter memEnforcer := NewAdapter mem0 100.
Definition cfg : JWTConfig := mkJWTConfig "secret" 15 10080 "goscratch" "goscratch-api".
Definition claims : jwtClaims :=
  mkJwtClaims "alice" "goscratch" ["goscratch-api"] (Some 900) (Some 0) (Some 0) "alice" "a@x.io" "Alice".

(** One signed token. *)
Definition crypto : Crypto := {|
  sha256_hex s := s;
  bcrypt_matches := String.eqb;
  bcrypt_hash s := Ok s;
  jwt_SignedString c _ := if decide (c = claims) then Ok "tok" else Err (PlainError "no key")
|}.
Definition verifier : JwtVerifier := {|
  jwt_Parse t _ iss aud tok :=
    if String.eqb tok "tok" then
      if jwt_expired t claims then Err JExpired
      else if jwt_valid t iss aud claims then Ok claims else Err (JOther ErrUnauthorized)
    else Err (JOther ErrUnauthorized);
  valid_utf8 _ := true
|}.

Lemma laws : @JwtLaws crypto verifier.
Proof.
  constructor. intros t secret iss aud c tok. simpl. case_decide as Hc; [|done]. subst c.
  intros [= <-] _. simpl. by destruct (jwt_expired t claims), (jwt_valid t iss aud claims).
Qed.

Definition request (auth : string) : Request :=
  mkRequest {[ "Authorization" := auth ]} ∅ "10.0.0.1" ∅ Background ∅.
Definition alice_request : Request := Locals (request "") "user_id" (LString "alice").

End Sample.
Import MemEnforcer.

Lemma permission_guards_exact_witness :
  (RequireAllPermissions ["users:read"] Sample.adapter Sample.alice_request).2 = Next Sample.alice_request ∧
  (RequireAnyPermission ["users:delete"; "roles"] Sample.adapter Sample.alice_request).2
    ≠ Next Sample.alice_request.
Proof.
  assert (Ha : answers (S := Casbin.Adapter MemEnforcer.memEnforcer)).
  { intros s u o a. simpl. unfold Adapter_Enforce. destruct (get _ _ _ _) as [c1 [v []]]; simpl; eauto. }
  destruct (permission_guards_exact ["users:read"] Sample.adapter Sample.alice_request Sample.alice_request)
    as (_ & _ & H1); [apply coherent_new|].
  destruct (permission_guards_exact ["users:delete"; "roles"] Sample.adapter Sample.alice_request
    Sample.alice_request) as (_ & _ & H2); [apply coherent_new|].
  split.
  - apply H1; [exact Ha | discriminate | vm_compute; reflexivity].
  - rewrite (proj2 (H2 Ha ltac:(discriminate))). vm_compute. discriminate.
Defined.

Lemma guarded_route_sound_witness :
  match (@guarded Sample.verifier _ _ 10000000000 "secret" "users" "read" Sample.adapter
           (Sample.request "Bearer tok")).2 with
  | Next r' => GetUserID r' = "alice"
  | Respond _ => False
  end.
Proof.
  pose proof (@guarded_route_sound Sample.verifier _ _ _ 10000000000 "secret" "users" "read" Sample.adapter
    (Sample.request "Bearer tok") (coherent_new _ _)) as Hs.
  destruct (guarded _ _ _ _ _ _).2 as [r'|resp] eqn:Hg.
  - destruct Hs as (token & raw & Ht & Hp & Hu & _).
    vm_compute in Ht. injection Ht as <-. vm_compute in Hp. injection Hp as <-. exact Hu.
  - vm_compute in Hg. discriminate Hg.
Defined.

Lemma access_token_accepted_witness :
  @Auth Sample.verifier 900000000000 (DefaultAuthConfig "secret") (Sample.request "Bearer tok")
    = Respond (Resp.Unauthorized "Token has expired").
Proof.
  refine (proj2 (@access_token_accepted Sample.crypto Sample.verifier Sample.laws Sample.cfg 0 900000000000
    "alice" "a@x.io" "Alice" "tok" (Sample.request "Bearer tok") _ _ _) _).
  - vm_compute. reflexivity.
  - reflexivity.
  - reflexivity.
  - vm_compute. discriminate.
Defined.

End Middleware.
