(* ===== verification/AuthHttp.v ===== *)
(** * The auth HTTP handlers and a session end to end

    Models [internal/module/auth/handler/auth_handler.go] on the audited use case: login,
    refresh and logout, with the response bodies of [dto/auth_dto.go].  The composition of
    login, the [Auth] middleware, logout and refresh is the life of a session. *)
From S2P Require Import Prelude GoStr Json Base64 AppErr Config Port Validator Cache Auth Middleware.
Import GoStr Json AppErr Config Validator CacheAdapter Auth Middleware.

Module AuthHttp.

(** ** Bodies *)

Record LoginRequest := mkLoginRequest { lreq_Email : string; lreq_Password : string }.
Record RefreshRequest := mkRefreshRequest { rreq_RefreshToken : string }.
Record LogoutRequest := mkLogoutRequest { oreq_RefreshToken : string }.

(** [json:"-"]: the user id is not sent. *)
Definition LoginResponse_json (r : LoginResponse) : json :=
  JObj [ ("access_token", JStr (AccessToken r)); ("refresh_token", JStr (RefreshToken r));
         ("expires_in", JNum (pretty (ExpiresIn r))); ("token_type", JStr (TokenType r)) ].
Definition RefreshResponse_json (r : RefreshResponse) : json :=
  JObj [ ("access_token", JStr (r_AccessToken r)); ("refresh_token", JStr (r_RefreshToken r));
         ("expires_in", JNum (pretty (r_ExpiresIn r))); ("token_type", JStr (r_TokenType r)) ].

(** ** Handlers *)

Section handlers.
Context {U C L : Type} `{Uuid U} `{Port.Cache C} `{Crypto} `{Auditor L}.
Variable userRepo : UserRepo U.
Variable jwtCfg : JWTConfig.

(** [bound] is the outcome of [ValidateAndBind]; [r] is the request the middleware passed
    on, with the user context the use case receives. *)
Definition h_Login (t : Z) (cl : C * L) (o : Oracle) (r : Request) (bound : result error LoginRequest)
    : (C * L) * Response json :=
  match bound with
  | Err err => (cl, HandleValidationError err)
  | Ok req =>
      match Audited_Login userRepo jwtCfg (user_ctx r) t cl o (lreq_Email req) (lreq_Password req) with
      | (cl', Err err) => (cl', Resp.Fail err)
      | (cl', Ok res) => (cl', Resp.Success (LoginResponse_json res))
      end
  end.

Definition h_Refresh (cl : C * L) (o : Oracle) (bound : result error RefreshRequest) : (C * L) * Response json :=
  match bound with
  | Err err => (cl, HandleValidationError err)
  | Ok req =>
      match Audited_Refresh userRepo jwtCfg cl o (rreq_RefreshToken req) with
      | (cl', Err err) => (cl', Resp.Fail err)
      | (cl', Ok res) => (cl', Resp.Success (RefreshResponse_json res))
      end
  end.

Definition h_Logout (t : Z) (cl : C * L) (r : Request) (bound : result error LogoutRequest)
    : (C * L) * Response json :=
  let callerID := GetUserID r in
  if String.eqb callerID "" then (cl, Resp.Unauthorized "Missing or invalid token")
  else
    match bound with
    | Err err => (cl, HandleValidationError err)
    | Ok req =>
        match Audited_Logout (user_ctx r) t cl callerID (oreq_RefreshToken req) with
        | (cl', Some err) => (cl', Resp.Fail err)
        | (cl', None) => (cl', Resp.Message "Logged out successfully")
        end
    end.

End handlers.

(** ** The life of a session *)

Section session.
Context {U C L : Type} `{Uuid U} `{CacheRetention C} `{Crypto} `{Auditor L} `{!JwtVerifier} `{!JwtLaws}.
Variable userRepo : UserRepo U.
Variable jwtCfg : JWTConfig.

(** A successful login: the body is the one of the use case's answer, for the user with
    that e-mail and password. *)
Lemma login_success t cl cl' o r req body :
  h_Login userRepo jwtCfg t cl o r (Ok req) = (cl', Resp.Success body) →
  ∃ usr res, repo_GetByEmail userRepo (lreq_Email req) = Ok usr ∧
    bcrypt_matches (user_PasswordHash usr) (lreq_Password req) = true ∧
    UserID res = uuid_String (user_ID usr) ∧ body = LoginResponse_json res ∧
    ExpiresIn res = wrap64 (AccessTokenTTL jwtCfg * 60) ∧ TokenType res = "Bearer" ∧
    generateAccessToken jwtCfg (now o) (UserID res) (user_Email usr) (user_Name usr) = Ok (AccessToken res) ∧
    usable cl'.1 (UserID res) (RefreshToken res).
Proof.
  destruct cl as [c l]. unfold h_Login, Audited_Login.
  destruct (Login userRepo jwtCfg c o (lreq_Email req) (lreq_Password req)) as [c1 [res|err]] eqn:Hl; simpl.
  - intros [= <- <-]. pose proof (login_ok_usable _ _ _ _ _ _ _ _ Hl) as Hu. revert Hl. unfold Login.
    destruct (repo_GetByEmail _ _) as [usr|]; [|done].
    destruct (bcrypt_matches _ _) eqn:Hb; simpl; [|done].
    destruct (generateAccessToken _ _ _ _ _) as [at'|] eqn:Ha; [|done].
    destruct (generateRefreshToken _) as [tok|]; [|done].
    destruct (issue _ _ _ _) as [c2 [e|]]; intros; simplify_eq/=.
    exists usr, (mkLoginResponse at' tok (wrap64 (AccessTokenTTL jwtCfg * 60)) "Bearer" (uuid_String (user_ID usr))). do 7 (split; [done|]). done.
  - intros [= _ Hf]. revert Hf. unfold Resp.Fail. by repeat case_match.
Qed.

(** An access token of this service at the [Auth] middleware. *)
Lemma access_token_next (t0 t : Z) uid email name token r :
  Issuer jwtCfg = "goscratch" → Audience jwtCfg = "goscratch-api" →
  generateAccessToken jwtCfg t0 uid email name = Ok token →
  text_claims (mkJwtClaims uid "goscratch" ["goscratch-api"] None None None uid email name) = true →
  bearer r token → t0 ≤ t < NumericDate (t0 + AccessTokenDuration jwtCfg) * Second →
  ∃ r', Auth t (DefaultAuthConfig (Secret jwtCfg)) r = Next r' ∧ GetUserID r' = uid ∧
        ctx_user_id (user_ctx r') = Some uid.
Proof.
  intros Hi Ha Hg Htext Hb Ht. unfold generateAccessToken in Hg. rewrite Hi, Ha in Hg.
  unfold Auth, parseToken. simpl. rewrite (bearer_extract _ _ Hb).
  pose proof (parse_signed t _ "goscratch" "goscratch-api" _ _ Hg Htext) as Hlaw.
  pose proof (div_mul_le t0 Second eq_refl) as Hn.
  unfold jwt_valid, jwt_expired in Hlaw; cbn -[String.eqb Second] in Hlaw.
  destruct (jwt_Parse t (Secret jwtCfg) "goscratch" "goscratch-api" token) as [raw|[|e]].
  - destruct Hlaw as (-> & _). eexists. split; [done|]. by rewrite authenticate_user_id.
  - apply Z.leb_le in Hlaw. lia.
  - destruct Hlaw as [Hv _]. simpl in Hv. unfold NumericDate in Hv. apply Z.leb_gt in Hv. unfold Second in *. lia.
Qed.

(** Logging out of a session one owns ends it. *)
Lemma logout_ends c uid token :
  usable c uid token → live (Logout c uid token).1 !! tokLookupKey token = None ∧ (Logout c uid token).2 = None.
Proof.
  intros [Hl _]. unfold Logout. rewrite (Get_complete _ _ _ Hl), String.eqb_refl. simpl.
  pose proof (Delete_works c (tokLookupKey token)) as D1.
  destruct (cache_Delete c (tokLookupKey token)) as [c1 e1]; simpl in *.
  pose proof (Delete_works c1 (userIdxKey uid token)) as D2.
  destruct (cache_Delete c1 (userIdxKey uid token)) as [c2 e2]; simpl in *.
  rewrite D2, D1. split; [|done]. apply lookup_delete_None. right. apply lookup_delete_eq.
Qed.


End session.

(** ** A concrete session *)

Module Samples.
#[local] Existing Instance BoolUuid.

Definition claims : jwtClaims :=
  mkJwtClaims (uuid_String true) "goscratch" ["goscratch-api"] (Some 900) (Some 0) (Some 0)
    (uuid_String true) "alice@x.io" "Alice".

(** One signed token. *)
Definition crypto : Crypto := {|
  sha256_hex s := s;
  bcrypt_matches := String.eqb;
  bcrypt_hash s := Ok s;
  jwt_SignedString c _ := if decide (c = claims) then Ok "tok" else Err (PlainError "no key")
|}.
Definition verifier : JwtVerifier := {|
  jwt_Parse t _ iss aud tok :=
    if String.eqb tok "tok" then
      if jwt_expired t claims then Err JExpired
      else if jwt_valid t iss aud claims then Ok claims else Err (JOther ErrUnauthorized)
    else Err (JOther ErrUnauthorized);
  valid_utf8 _ := true
|}.

Lemma session_laws : @JwtLaws crypto verifier.
Proof.
  constructor. intros t secret iss aud c tok. simpl. case_decide as Hc; [|done]. subst c.
  intros [= <-] _. simpl. by destruct (jwt_expired t claims), (jwt_valid t iss aud claims).
Qed.

Definition trail : Auditor (list AuditEntry) := {| auditor_Log l e := (l ++ [e], None) |}.
Definition store := RedisCache MemRedis.
Definition req : LoginRequest := mkLoginRequest "alice@x.io" "pw1".
Definition request : Request := Middleware.Sample.request "Bearer tok".

Definition login : (store * list AuditEntry) * Response json :=
  @h_Login bool store _ BoolUuid _ crypto trail Auth.Sample.repo Auth.Sample.cfg 1000
    (Auth.Sample.empty, []) (Auth.Sample.ora "r1") request (Ok req).

End Samples.


End AuthHttp.
