(* ===== verification/Role.v ===== *)
(** * Roles and permissions

    Models [internal/module/role]: the role catalogue ([domain/role.go]), the use case
    ([usecase/role_usecase.go]) and the HTTP handlers ([handler/role_handler.go]), over
    any instance of the port [Authorizer].  The theorems instantiate the authorizer with
    the Casbin adapter. *)
From S2P Require Import Prelude AppErr Port Validator DecisionCache Casbin.
Import AppErr Validator DecisionCache Casbin.

Module Role.

(** ** domain/role.go *)

Record Role := mkRole { role_Name : string; role_Description : string }.

Definition PredefinedRoles : list Role :=
  [mkRole RoleSuperAdmin "Full system access with all permissions";
   mkRole RoleAdmin "Administrative access with most permissions";
   mkRole RoleEditor "Can create and edit content";
   mkRole RoleViewer "Read-only access"].

Definition IsValidRole (name : string) : bool :=
  existsb (λ r, String.eqb (role_Name r) name) PredefinedRoles.

(** ** Responses (dto/role_dto.go) *)

Record PermissionResponse := mkPermissionResponse { perm_Object : string; perm_Action : string }.

Inductive RoleData :=
| DRoles (l : list Role)
| DUserRoles (userID : string) (roles : list string)
| DRoleUsers (role : string) (userIDs : list string)
| DPermissions (l : list PermissionResponse)
| DUserPermissions (userID : string) (l : list PermissionResponse)
| DAllPermissions (l : list (string * list PermissionResponse))
| DCheck (userID object action : string) (allowed : bool).

(** ** usecase/role_usecase.go *)

(** The loop keeps [p[1], p[2]] of the rules with at least three fields. *)
Definition toPermissionResponses (perms : list (list string)) : list PermissionResponse :=
  omap (λ p, match p with _ :: o :: a :: _ => Some (mkPermissionResponse o a) | _ => None end) perms.

Definition ListRoles : list Role := PredefinedRoles.

Section usecase.
Context {S : Type} `{Authorizer S}.

Definition invalidRole (role : string) : error := BadRequestf ("invalid role: " +:+ role).
Definition internal (err : error) : error := WithError ErrInternal err.

Definition AssignRole (s : S) (userID role : string) : S * option error :=
  if negb (IsValidRole role) then (s, Some (invalidRole role))
  else match HasRoleForUser s userID role with
       | Err err => (s, Some (internal err))
       | Ok true => (s, Some (Conflictf ("user already has role " +:+ role)))
       | Ok false =>
           match AddRoleForUser s userID role with
           | (s', Some err) => (s', Some (internal err))
           | (s', None) => (s', None)
           end
       end.

Definition RemoveRole (s : S) (userID role : string) : S * option error :=
  if negb (IsValidRole role) then (s, Some (invalidRole role))
  else match HasRoleForUser s userID role with
       | Err err => (s, Some (internal err))
       | Ok false => (s, Some (NotFoundf ("user does not have role " +:+ role)))
       | Ok true =>
           match RemoveRoleForUser s userID role with
           | (s', Some err) => (s', Some (internal err))
           | (s', None) => (s', None)
           end
       end.

Definition GetUserRoles (s : S) (userID : string) : result error RoleData :=
  match GetRolesForUser s userID with
  | Err err => Err (internal err)
  | Ok roles => Ok (DUserRoles userID roles)
  end.

Definition GetRoleUsers (s : S) (role : string) : result error RoleData :=
  if negb (IsValidRole role) then Err (invalidRole role)
  else match GetUsersForRole s role with
       | Err err => Err (internal err)
       | Ok userIDs => Ok (DRoleUsers role userIDs)
       end.

Definition AddPermissionToRole (s : S) (role object action : string) : S * option error :=
  if negb (IsValidRole role) then (s, Some (invalidRole role))
  else match AddPermissionForRole s role object action with
       | (s', Some err) => (s', Some (internal err))
       | (s', None) => (s', None)
       end.

Definition RemovePermissionFromRole (s : S) (role object action : string) : S * option error :=
  if negb (IsValidRole role) then (s, Some (invalidRole role))
  else match RemovePermissionForRole s role object action with
       | (s', Some err) => (s', Some (internal err))
       | (s', None) => (s', None)
       end.

Definition GetRolePermissions (s : S) (role : string) : result error (list PermissionResponse) :=
  if negb (IsValidRole role) then Err (invalidRole role)
  else match GetPermissionsForRole s role with
       | Err err => Err (internal err)
       | Ok perms => Ok (toPermissionResponses perms)
       end.

Definition GetUserPermissions (s : S) (userID : string) : result error RoleData :=
  match GetImplicitPermissionsForUser s userID with
  | Err err => Err (internal err)
  | Ok perms => Ok (DUserPermissions userID (toPermissionResponses perms))
  end.

Definition CheckPermission (ctx : Context) (s : S) (userID object action : string) : S * result error bool :=
  match EnforceWithContext ctx s userID object action with
  | (s', Err err) => (s', Err (internal err))
  | (s', Ok allowed) => (s', Ok allowed)
  end.

Fixpoint role_entries (s : S) (roles : list Role) : result error (list (string * list PermissionResponse)) :=
  match roles with
  | [] => Ok []
  | r :: roles' =>
      match GetPermissionsForRole s (role_Name r) with
      | Err err => Err (internal err)
      | Ok perms =>
          match role_entries s roles' with
          | Err err => Err err
          | Ok entries => Ok ((role_Name r, toPermissionResponses perms) :: entries)
          end
      end
  end.

Definition ListAllPermissions (s : S) : result error RoleData :=
  res_map DAllPermissions (role_entries s PredefinedRoles).

Definition AddUserPermission (s : S) (userID object action : string) : S * option error :=
  match AddPermissionForUser s userID object action with
  | (s', Some err) => (s', Some (internal err))
  | (s', None) => (s', None)
  end.

Definition RemoveUserPermission (s : S) (userID object action : string) : S * option error :=
  match RemovePermissionForUser s userID object action with
  | (s', Some err) => (s', Some (internal err))
  | (s', None) => (s', None)
  end.

(** ** handler/role_handler.go *)

(** [bound] is the outcome of [ValidateAndBind] (or [ValidateQuery]): the fields of the
    request, or the error it returned; path parameters are arguments. *)
Definition reply (r : S * option error) (msg : string) : S * Response RoleData :=
  match r with
  | (s', Some err) => (s', Resp.Fail err)
  | (s', None) => (s', Resp.Message msg)
  end.

Definition answer (r : result error RoleData) : Response RoleData :=
  match r with Err err => Resp.Fail err | Ok d => Resp.Success d end.

Definition h_ListRoles : Response RoleData := Resp.Success (DRoles ListRoles).

Definition h_AssignRole (s : S) (bound : result error (string * string)) : S * Response RoleData :=
  match bound with
  | Err err => (s, HandleValidationError err)
  | Ok (userID, role) => reply (AssignRole s userID role) "Role assigned successfully"
  end.

Definition h_RevokeRole (s : S) (bound : result error (string * string)) : S * Response RoleData :=
  match bound with
  | Err err => (s, HandleValidationError err)
  | Ok (userID, role) => reply (RemoveRole s userID role) "Role revoked successfully"
  end.

Definition h_GetRoleUsers (s : S) (role : string) : Response RoleData := answer (GetRoleUsers s role).
Definition h_GetRolePermissions (s : S) (role : string) : Response RoleData :=
  answer (res_map DPermissions (GetRolePermissions s role)).

(** The role of the body is overridden by the path. *)
Definition h_AddRolePermission (s : S) (role : string) (bound : result error (string * string * string))
    : S * Response RoleData :=
  match bound with
  | Err err => (s, HandleValidationError err)
  | Ok (_, object, action) => reply (AddPermissionToRole s role object action) "Permission added successfully"
  end.

Definition h_RemoveRolePermission (s : S) (role : string) (bound : result error (string * string * string))
    : S * Response RoleData :=
  match bound with
  | Err err => (s, HandleValidationError err)
  | Ok (_, object, action) => reply (RemovePermissionFromRole s role object action) "Permission removed successfully"
  end.

Definition h_GetUserRoles (s : S) (userID : string) : Response RoleData := answer (GetUserRoles s userID).
Definition h_GetUserPermissions (s : S) (userID : string) : Response RoleData := answer (GetUserPermissions s userID).
Definition h_ListAllPermissions (s : S) : Response RoleData := answer (ListAllPermissions s).

Definition h_AddUserPermission (s : S) (userID : string) (bound : result error (string * string))
    : S * Response RoleData :=
  match bound with
  | Err err => (s, HandleValidationError err)
  | Ok (object, action) => reply (AddUserPermission s userID object action) "Permission added successfully"
  end.

Definition h_RemoveUserPermission (s : S) (userID : string) (bound : result error (string * string))
    : S * Response RoleData :=
  match bound with
  | Err err => (s, HandleValidationError err)
  | Ok (object, action) => reply (RemoveUserPermission s userID object action) "Permission removed successfully"
  end.

Definition h_CheckUserPermission (ctx : Context) (s : S) (userID : string) (bound : result error (string * string))
    : S * Response RoleData :=
  match bound with
  | Err err => (s, HandleValidationError err)
  | Ok (object, action) =>
      match CheckPermission ctx s userID object action with
      | (s', Err err) => (s', Resp.Fail err)
      | (s', Ok allowed) => (s', Resp.Success (DCheck userID object action allowed))
      end
  end.

End usecase.

(** ** Properties over the Casbin adapter *)

Section over_casbin.
Context {E : Type} `{EnforcerLaws E}.
Implicit Types (a : Adapter E).

Lemma add_role_effect a u r a' :
  AddRoleForUser a u r = (a', None) →
  groupings (enforcer a') = {[ [u; r] ]} ∪ groupings (enforcer a) ∧
  policies (enforcer a') = policies (enforcer a).
Proof.
  simpl. unfold Adapter_AddRoleForUser, mutate. repeat case_match; intros; simplify_eq/=.
  by eapply AddGroupingPolicy_law.
Qed.

Lemma remove_role_effect a u r a' :
  RemoveRoleForUser a u r = (a', None) →
  groupings (enforcer a') = groupings (enforcer a) ∖ {[ [u; r] ]} ∧
  policies (enforcer a') = policies (enforcer a).
Proof.
  simpl. unfold Adapter_RemoveRoleForUser, mutate. repeat case_match; intros; simplify_eq/=.
  by eapply RemoveGroupingPolicy_law.
Qed.

Lemma assign_effect a a' u r :
  AssignRole a u r = (a', None) →
  IsValidRole r = true ∧ [u; r] ∉ groupings (enforcer a) ∧
  groupings (enforcer a') = {[ [u; r] ]} ∪ groupings (enforcer a) ∧
  policies (enforcer a') = policies (enforcer a).
Proof.
  unfold AssignRole. destruct (IsValidRole r); simpl; [|done].
  destruct (Adapter_HasRoleForUser a u r) as [[]|] eqn:Hh; [done| |done].
  apply HasRole_law in Hh. symmetry in Hh. apply bool_decide_eq_false in Hh.
  destruct (Adapter_AddRoleForUser a u r) as [a1 [e|]] eqn:Ha; [done|]. intros [= <-].
  destruct (add_role_effect a u r a1 Ha). done.
Qed.

Lemma remove_effect a a' u r :
  RemoveRole a u r = (a', None) →
  IsValidRole r = true ∧ [u; r] ∈ groupings (enforcer a) ∧
  groupings (enforcer a') = groupings (enforcer a) ∖ {[ [u; r] ]} ∧
  policies (enforcer a') = policies (enforcer a).
Proof.
  unfold RemoveRole. destruct (IsValidRole r); simpl; [|done].
  destruct (Adapter_HasRoleForUser a u r) as [[]|] eqn:Hh; [|done|done].
  apply HasRole_law in Hh. symmetry in Hh. apply bool_decide_eq_true in Hh.
  destruct (Adapter_RemoveRoleForUser a u r) as [a1 [e|]] eqn:Ha; [done|]. intros [= <-].
  destruct (remove_role_effect a u r a1 Ha). done.
Qed.

(** Assigning a role changes the policy by exactly that assignment, and revoking it
    restores the policy.  A successful [AssignRole] requires a predefined role the user
    did not hold and adds just the rule [user, role]; a following successful [RemoveRole]
    leaves the grouping and permission rules exactly as they were before the assignment;
    a second [AssignRole] in between is refused as a conflict and changes nothing. *)
Theorem assign_remove_roundtrip (a a1 a2 : Adapter E) (u r : string) :
  AssignRole a u r = (a1, None) →
  RemoveRole a1 u r = (a2, None) →
  IsValidRole r = true ∧
  [u; r] ∉ groupings (enforcer a) ∧
  groupings (enforcer a1) = {[ [u; r] ]} ∪ groupings (enforcer a) ∧
  (∀ b, HasRoleForUser a1 u r = Ok b →
     AssignRole a1 u r = (a1, Some (Conflictf ("user already has role " +:+ r)))) ∧
  groupings (enforcer a2) = groupings (enforcer a) ∧
  policies (enforcer a2) = policies (enforcer a).
Proof.
  intros Ha Hr. apply assign_effect in Ha as (Hv & Hn & Hg & Hp).
  apply remove_effect in Hr as (_ & Hin & Hg2 & Hp2).
  split_and!; try done.
  - intros b Hb. unfold AssignRole. rewrite Hv. simpl in *. rewrite Hb.
    apply HasRole_law in Hb. by rewrite bool_decide_eq_true_2 in Hb by done; subst.
  - rewrite Hg2, Hg. set_solver.
  - by rewrite Hp2, Hp.
Qed.

(** *** Only predefined roles are ever assigned *)

Inductive role_call :=
| RAssign (u r : string) | RRemove (u r : string)
| RAddPerm (r o x : string) | RRemovePerm (r o x : string)
| RAddUserPerm (u o x : string) | RRemoveUserPerm (u o x : string)
| RCheck (ctx : Context) (u o x : string).

Definition role_step a (c : role_call) : Adapter E :=
  match c with
  | RAssign u r => (AssignRole a u r).1
  | RRemove u r => (RemoveRole a u r).1
  | RAddPerm r o x => (AddPermissionToRole a r o x).1
  | RRemovePerm r o x => (RemovePermissionFromRole a r o x).1
  | RAddUserPerm u o x => (AddUserPermission a u o x).1
  | RRemoveUserPerm u o x => (RemoveUserPermission a u o x).1
  | RCheck ctx u o x => (CheckPermission ctx a u o x).1
  end.

(** A failing mutation of the enforcer leaves the rules as they were or applies them. *)
Definition no_partial : Prop :=
  ∀ (e e' : E) r err,
    (enf_AddGroupingPolicy e r = (e', Err err) → groupings e' ⊆ {[ r ]} ∪ groupings e) ∧
    (enf_RemoveGroupingPolicy e r = (e', Err err) → groupings e' ⊆ groupings e) ∧
    (enf_AddPolicy e r = (e', Err err) → groupings e' = groupings e) ∧
    (enf_RemovePolicy e r = (e', Err err) → groupings e' = groupings e).

Lemma mutate_groupings a (args : list string) (op : E → E * result error bool)
    (touch : cachePtr → cachePtr) (P : gset (list string) → Prop) :
  P (groupings (enforcer a)) →
  (∀ e' b, op (enforcer a) = (e', Ok b) → P (groupings e')) →
  (∀ e' err, op (enforcer a) = (e', Err err) → P (groupings e')) →
  P (groupings (enforcer (mutate args op touch a).1)).
Proof. intros H1 H2 H3. unfold mutate. repeat case_match; simpl; eauto. Qed.

Definition roles_known a : Prop :=
  ∀ g, g ∈ groupings (enforcer a) → ∃ u r, g = [u; r] ∧ IsValidRole r = true.

Lemma fst_reply {A} (p : A * option error) (f : error → error) :
  (match p with (s', Some err) => (s', Some (f err)) | (s', None) => (s', None) end).1 = p.1.
Proof. by destruct p as [? []]. Qed.

Lemma known_mutate_sub a args (op : E → E * result error bool) touch :
  roles_known a →
  (∀ e' b, op (enforcer a) = (e', Ok b) → groupings e' ⊆ groupings (enforcer a)) →
  (∀ e' err, op (enforcer a) = (e', Err err) → groupings e' ⊆ groupings (enforcer a)) →
  roles_known (mutate args op touch a).1.
Proof.
  intros Hk Hok Herr. unfold roles_known.
  apply (mutate_groupings a args op touch (λ gs, ∀ g, g ∈ gs → ∃ u r, g = [u; r] ∧ IsValidRole r = true));
    [done | intros e' b He g Hg; apply Hk; by eapply Hok | intros e' b He g Hg; apply Hk; by eapply Herr].
Qed.

Lemma known_assign a u r : no_partial → roles_known a → roles_known (AssignRole a u r).1.
Proof.
  intros Hnp Hk. unfold AssignRole. destruct (IsValidRole r) eqn:Hv; simpl; [|done].
  destruct (Adapter_HasRoleForUser a u r) as [[]|]; [done| |done]. rewrite fst_reply.
  unfold roles_known, Adapter_AddRoleForUser.
  apply (mutate_groupings a _ _ _ (λ gs, ∀ g, g ∈ gs → ∃ u r, g = [u; r] ∧ IsValidRole r = true)); [done|..].
  - intros e' b He g Hg. apply AddGroupingPolicy_law in He as [Heq _]. rewrite Heq in Hg.
    apply elem_of_union in Hg as [->%elem_of_singleton|Hg]; eauto.
  - intros e' err He g Hg. apply (proj1 (Hnp _ _ _ err)) in He. apply He in Hg.
    apply elem_of_union in Hg as [->%elem_of_singleton|Hg]; eauto.
Qed.

Lemma known_remove a u r : no_partial → roles_known a → roles_known (RemoveRole a u r).1.
Proof.
  intros Hnp Hk. unfold RemoveRole. destruct (IsValidRole r) eqn:Hv; simpl; [|done].
  destruct (Adapter_HasRoleForUser a u r) as [[]|]; [|done|done]. rewrite fst_reply.
  apply known_mutate_sub; [done|intros e' b [-> _]%RemoveGroupingPolicy_law; set_solver|].
  intros e' err He. by apply (proj1 (proj2 (Hnp _ _ _ err))) in He.
Qed.

(** Permission rules are not role assignments. *)
Lemma known_policy a args touch (p : list string) :
  no_partial → roles_known a →
  roles_known (mutate args (λ e, enf_AddPolicy e p) touch a).1 ∧
  roles_known (mutate args (λ e, enf_RemovePolicy e p) touch a).1.
Proof.
  intros Hnp Hk. split; apply known_mutate_sub; try done.
  - by intros e' b [_ ->]%AddPolicy_law.
  - intros e' err He. apply (proj1 (proj2 (proj2 (Hnp _ _ _ err)))) in He. by rewrite He.
  - by intros e' b [_ ->]%RemovePolicy_law.
  - intros e' err He. apply (proj2 (proj2 (proj2 (Hnp _ _ _ err)))) in He. by rewrite He.
Qed.

Lemma enforce_ctx_enforcer ctx a u o x : enforcer (Adapter_EnforceWithContext ctx a u o x).1 = enforcer a.
Proof. unfold Adapter_EnforceWithContext. repeat case_match; done. Qed.

(** C36: whatever sequence of role operations the API runs, failed ones and enforcer
    errors included, every role assignment in the policy names a predefined role. *)
Theorem only_predefined_roles (a : Adapter E) (cs : list role_call) :
  no_partial → roles_known a → roles_known (foldl role_step a cs).
Proof.
  intros Hnp. revert a. induction cs as [|c cs IH]; intros a Hk; [done|]. simpl. apply IH.
  destruct c as [u r|u r|r o x|r o x|u o x|u o x|ctx u o x]; simpl.
  - by apply known_assign.
  - by apply known_remove.
  - unfold AddPermissionToRole. destruct (IsValidRole r); simpl; [|done].
    rewrite fst_reply. by apply known_policy.
  - unfold RemovePermissionFromRole. destruct (IsValidRole r); simpl; [|done].
    rewrite fst_reply. by apply known_policy.
  - unfold AddUserPermission. simpl. rewrite fst_reply. by apply known_policy.
  - unfold RemoveUserPermission. simpl. rewrite fst_reply. by apply known_policy.
  - unfold CheckPermission. simpl. pose proof (enforce_ctx_enforcer ctx a u o x) as He.
    destruct (Adapter_EnforceWithContext ctx a u o x) as [a1 [b|err]]; simpl in *;
      unfold roles_known; by rewrite He.
Qed.

End over_casbin.

Import MemEnforcer.
Definition sample : Adapter memEnforcer := NewAdapter mem0 16.

Lemma assign_remove_roundtrip_witness :
  groupings (enforcer (RemoveRole (AssignRole sample "bob" "admin").1 "bob" "admin").1)
    = {[ ["alice"; "viewer"] ]}.
Proof.
  destruct (assign_remove_roundtrip sample (AssignRole sample "bob" "admin").1
    (RemoveRole (AssignRole sample "bob" "admin").1 "bob" "admin").1 "bob" "admin") as (_ & _ & _ & _ & Hg & _);
    [vm_compute; reflexivity | vm_compute; reflexivity | exact Hg].
Defined.

Lemma only_predefined_roles_witness :
  roles_known (foldl role_step sample [RAssign "bob" "root"; RAssign "bob" "editor"; RRemove "alice" "viewer"]).
Proof.
  apply only_predefined_roles.
  - intros e e' r err. split_and!; discriminate.
  - intros g Hg. change (g ∈ ({[ ["alice"; "viewer"] ]} : gset (list string))) in Hg.
    apply elem_of_singleton in Hg as ->. exists "alice", "viewer". done.
Defined.

End Role.
