(* ===== verification/RateLimit.v ===== *)
(** * Rate limiting

    Models [internal/platform/http/middleware/rate_limit.go]: the in-memory sliding-window
    backend with its janitor, the Redis backend over the cache port, and the middleware
    with its defaults and its fail-open/fail-closed policy.  Times are nanoseconds; the
    clock is an argument of each call. *)
From S2P Require Import Prelude AppErr Config Port Cache Middleware.
Import AppErr Config CacheAdapter Middleware.

Module RateLimit.

(** ** The in-memory backend *)

Record slidingWindow := mkSlidingWindow { timestamps : list Z; expiresAt : Z }.

Record memoryBackend := mkMemoryBackend { windows : gmap string slidingWindow; stopped : bool }.

Definition newMemoryBackend : memoryBackend := mkMemoryBackend ∅ false.

(** (allowed, remaining, resetAt) *)
Definition verdict : Type := bool * Z * Z.

Definition memory_Allow (mb : memoryBackend) (now : Z) (key : string) (maxReqs window : Z)
    : memoryBackend * verdict :=
  let windowStart := now - window in
  let resetAt := now + window in
  let sw := default (mkSlidingWindow [] 0) (windows mb !! key) in
  let valid := filter (λ ts, windowStart < ts) (timestamps sw) in
  let count := Z.of_nat (length valid) in
  if count >=? maxReqs then
    (mkMemoryBackend (<[key := mkSlidingWindow valid resetAt]> (windows mb)) (stopped mb), (false, 0, resetAt))
  else
    (mkMemoryBackend (<[key := mkSlidingWindow (valid ++ [now]) resetAt]> (windows mb)) (stopped mb),
     (true, maxReqs - count - 1, resetAt)).

(** One tick of the janitor. *)
Definition cleanup_tick (mb : memoryBackend) (now : Z) : memoryBackend :=
  if stopped mb then mb
  else mkMemoryBackend (filter (λ kv, ¬ expiresAt kv.2 < now) (windows mb)) (stopped mb).

(** [closeOnce.Do(close(stop))] *)
Definition memory_Close (mb : memoryBackend) : memoryBackend := mkMemoryBackend (windows mb) true.

(** ** The Redis backend *)

Definition redis_Allow {C} `{Port.Cache C} (c : C) (now : Z) (key : string) (maxReqs window : Z)
    : C * (verdict * option error) :=
  match cache_SlidingWindowAllow c now key maxReqs window with
  | (c', Err redisErr) => (c', ((true, maxReqs, now + window), Some redisErr))
  | (c', Ok (ok, rem, _)) => (c', ((ok, rem, now + window), None))
  end.

(** ** The middleware *)

Record RateLimitConfig := mkRateLimitConfig {
  Max : Z;
  Window : Z;
  KeyFunc : option (Request → string);
  UseRedis : bool;
  FailClosed : bool
}.

Definition defaultKeyFunc (r : Request) : string :=
  let userID := GetUserID r in
  if String.eqb userID "" then "ip:" +:+ ip r else "user:" +:+ userID.

(** The defaults [RateLimit] applies. *)
Definition applyDefaults (cfg : RateLimitConfig) : RateLimitConfig :=
  mkRateLimitConfig
    (if Max cfg <=? 0 then 100 else Max cfg)
    (if Window cfg <=? 0 then Minute else Window cfg)
    (Some (default defaultKeyFunc (KeyFunc cfg)))
    (UseRedis cfg) (FailClosed cfg).

Definition keyOf (cfg : RateLimitConfig) (r : Request) : string :=
  default defaultKeyFunc (KeyFunc cfg) r.

(** [allow] is the backend's [Allow] on its state. *)
Definition RateLimit {B : Type} (allow : B → Z → string → Z → Z → B * (verdict * option error))
    (cfg0 : RateLimitConfig) (b : B) (now : Z) (r : Request) : B * outcome :=
  let cfg := applyDefaults cfg0 in
  let key := keyOf cfg r in
  let '(b', ((allowed, remaining, resetAt), err)) := allow b now key (Max cfg) (Window cfg) in
  match err with
  | Some _ =>
      if FailClosed cfg
      then (b', Respond (Resp.Fail (New "RATE_LIMIT_ERROR" "Service temporarily unavailable, please try again later" 503)))
      else (b', Next r)
  | None =>
      let r := SetHeader r "X-RateLimit-Limit" (pretty (Max cfg)) in
      let r := SetHeader r "X-RateLimit-Remaining" (pretty remaining) in
      let r := SetHeader r "X-RateLimit-Reset" (pretty (resetAt / Second)) in
      if negb allowed
      then (b', Respond (Resp.Fail (New "RATE_LIMIT_EXCEEDED" "Too many requests, please try again later" 429)))
      else (b', Next r)
  end.

Definition memory_allow (mb : memoryBackend) (now : Z) (key : string) (maxReqs window : Z)
    : memoryBackend * (verdict * option error) :=
  let '(mb', v) := memory_Allow mb now key maxReqs window in (mb', (v, None)).

(** ** The abstract limiter: a log of accepted requests per key *)

Section limiter.
Variables (maxReqs window : Z).

Inductive event := Req (t : Z) (key : string) | Tick (t : Z).
Definition time (e : event) : Z := match e with Req t _ | Tick t => t end.

Fixpoint ordered (t0 : Z) (evs : list event) : Prop :=
  match evs with [] => True | e :: evs' => t0 ≤ time e ∧ ordered (time e) evs' end.

Definition recent (t : Z) (h : list Z) : list Z := filter (λ x, t - window < x) h.

Definition spec_Allow (h : string → list Z) (t : Z) (key : string) : (string → list Z) * verdict :=
  let count := Z.of_nat (length (recent t (h key))) in
  if count <? maxReqs
  then (λ k, if String.eqb k key then h key ++ [t] else h k, (true, maxReqs - count - 1, t + window))
  else (h, (false, 0, t + window)).

Fixpoint run_spec (h : string → list Z) (evs : list event) : (string → list Z) * list verdict :=
  match evs with
  | [] => (h, [])
  | Req t key :: evs' =>
      let '(h', v) := spec_Allow h t key in
      let '(h'', vs) := run_spec h' evs' in (h'', v :: vs)
  | Tick _ :: evs' => run_spec h evs'
  end.

Fixpoint run_mem (mb : memoryBackend) (evs : list event) : memoryBackend * list verdict :=
  match evs with
  | [] => (mb, [])
  | Req t key :: evs' =>
      let '(mb', v) := memory_Allow mb t key maxReqs window in
      let '(mb'', vs) := run_mem mb' evs' in (mb'', v :: vs)
  | Tick t :: evs' => run_mem (cleanup_tick mb t) evs'
  end.

(** *** Refinement *)

Definition stamps (mb : memoryBackend) (key : string) : list Z :=
  match windows mb !! key with Some sw => timestamps sw | None => [] end.

(** From time [cur] on, backend and log see the same recent requests; a window outlives
    its time stamps. *)
Record agrees (cur : Z) (mb : memoryBackend) (h : string → list Z) : Prop := {
  agree_recent : ∀ key t, cur ≤ t → recent t (stamps mb key) = recent t (h key);
  agree_past : ∀ key x, x ∈ stamps mb key → x ≤ cur;
  agree_expiry : ∀ key sw x, windows mb !! key = Some sw → x ∈ timestamps sw → x + window ≤ expiresAt sw
}.

Lemma recent_recent t t' h : t ≤ t' → recent t' (recent t h) = recent t' h.
Proof.
  intros Ht. unfold recent. rewrite list_filter_filter. apply filter_iff_in. intros x _. lia.
Qed.

Lemma recent_app t h x : recent t (h ++ [x]) = recent t h ++ recent t [x].
Proof. apply filter_app. Qed.

Lemma stamps_insert mb key sw st k :
  stamps (mkMemoryBackend (<[key := sw]> (windows mb)) st) k = if String.eqb k key then timestamps sw else stamps mb k.
Proof.
  unfold stamps. simpl. destruct (String.eqb_spec k key) as [->|Hne].
  - by rewrite lookup_insert_eq.
  - by rewrite lookup_insert_ne.
Qed.

Lemma agrees_insert cur t mb h key l l' :
  agrees cur mb h → cur ≤ t →
  (∀ t', t ≤ t' → recent t' l = recent t' l') → (∀ x, x ∈ l → x ≤ t) →
  agrees t (mkMemoryBackend (<[key := mkSlidingWindow l (t + window)]> (windows mb)) (stopped mb))
           (λ k, if String.eqb k key then l' else h k).
Proof.
  intros [A1 A2 A3] Ht Hl Hx. split.
  - intros k t' Ht'. rewrite stamps_insert. destruct (String.eqb k key); [by apply Hl | apply A1; lia].
  - intros k x. rewrite stamps_insert. destruct (String.eqb k key); simpl; [by apply Hx|].
    intros Hk%A2. lia.
  - intros k sw x. simpl. destruct (decide (k = key)) as [->|Hne].
    + rewrite lookup_insert_eq. intros [= <-] Hin. simpl in *. apply Hx in Hin. lia.
    + rewrite lookup_insert_ne by done. by apply A3.
Qed.

Lemma agrees_ext cur mb h h' : (∀ k, h k = h' k) → agrees cur mb h → agrees cur mb h'.
Proof. intros Hh [A1 A2 A3]. split; [intros; rewrite <-Hh; auto | done | done]. Qed.

Lemma allow_agrees cur t mb h key :
  agrees cur mb h → cur ≤ t →
  agrees t (memory_Allow mb t key maxReqs window).1 (spec_Allow h t key).1 ∧
  (memory_Allow mb t key maxReqs window).2 = (spec_Allow h t key).2.
Proof.
  intros HA Ht. pose proof HA as [A1 A2 A3].
  assert (filter (λ ts, t - window < ts) (timestamps (default (mkSlidingWindow [] 0) (windows mb !! key)))
          = recent t (h key)) as Hv.
  { rewrite <-A1 by done. unfold stamps, recent. by destruct (windows mb !! key). }
  unfold memory_Allow, spec_Allow. rewrite Hv.
  assert (∀ x, x ∈ recent t (h key) → x ≤ t) as Hpast.
  { intros x. rewrite <-A1 by done. unfold recent. rewrite list_elem_of_filter. intros [_ Hx%A2]. lia. }
  rewrite Z.geb_leb. destruct (Z.leb_spec maxReqs (Z.of_nat (length (recent t (h key))))) as [Hc|Hc].
  - rewrite (proj2 (Z.ltb_ge _ _)) by lia. simpl. split; [|done].
    eapply agrees_ext; [|apply (agrees_insert cur t mb h key _ (h key) HA Ht); [|exact Hpast]].
    + intros k. simpl. destruct (String.eqb_spec k key) as [->|]; reflexivity.
    + intros t' Ht'. by apply recent_recent.
  - rewrite (proj2 (Z.ltb_lt _ _)) by lia. simpl. split; [|done].
    apply (agrees_insert cur t mb h key _ _ HA Ht).
    + intros t' Ht'. by rewrite !recent_app, recent_recent.
    + intros x [Hx| ->%list_elem_of_singleton]%elem_of_app; [by apply Hpast | lia].
Qed.

Lemma tick_agrees cur t mb h : agrees cur mb h → cur ≤ t → agrees t (cleanup_tick mb t) h.
Proof.
  intros [A1 A2 A3] Ht. unfold cleanup_tick. destruct (stopped mb).
  { split; [intros; apply A1; lia | intros key x Hx%A2; lia | done]. }
  assert (∀ k sw, filter (λ kv, ¬ expiresAt kv.2 < t) (windows mb) !! k = Some sw → windows mb !! k = Some sw) as Hsub.
  { intros k sw Hk. by apply map_lookup_filter_Some in Hk as [Hk _]. }
  split.
  - intros key t' Ht'. rewrite <-A1 by lia. unfold stamps; simpl.
    destruct (filter _ (windows mb) !! key) as [sw|] eqn:Hf; [by rewrite (Hsub _ _ Hf)|].
    destruct (windows mb !! key) as [sw|] eqn:Hw; [|done].
    apply map_lookup_filter_None in Hf as [Hf|Hf]; [congruence|].
    specialize (Hf sw Hw). simpl in Hf. symmetry. apply filter_none, Forall_forall.
    intros x Hx. pose proof (A3 _ _ _ Hw Hx). lia.
  - intros key x. unfold stamps; simpl. destruct (filter _ _ !! key) as [sw|] eqn:Hf; [|by intros ?%elem_of_nil].
    intros Hx. assert (x ≤ cur); [|lia]. apply (A2 key). unfold stamps. by rewrite (Hsub _ _ Hf).
  - intros key sw x Hf. apply (A3 key), (Hsub _ _ Hf).
Qed.

Lemma run_agrees cur evs mb h :
  agrees cur mb h → ordered cur evs →
  (run_mem mb evs).2 = (run_spec h evs).2.
Proof.
  revert cur mb h. induction evs as [|[t key|t] evs IH]; intros cur mb h HA Ho; simpl in *; [done| |].
  - destruct Ho as [Ht Ho]. destruct (allow_agrees cur t mb h key HA Ht) as [HA' Hv].
    destruct (memory_Allow mb t key maxReqs window) as [mb' v], (spec_Allow h t key) as [h' v'].
    simpl in *. specialize (IH _ _ _ HA' Ho).
    destruct (run_mem mb' evs), (run_spec h' evs). simpl in *. congruence.
  - destruct Ho as [Ht Ho]. exact (IH _ _ _ (tick_agrees _ _ _ _ HA Ht) Ho).
Qed.

Lemma agrees_new cur : agrees cur newMemoryBackend (λ _, []).
Proof.
  split.
  - done.
  - intros key x. unfold stamps, newMemoryBackend. simpl. rewrite lookup_empty. by intros ?%elem_of_nil.
  - intros key sw x. simpl. by rewrite lookup_empty.
Qed.

(** C21: the in-memory limiter with its janitor refines the log of accepted requests: on
    every history of requests to any keys and janitor ticks, in clock order, each answer
    (allowed, remaining, reset time) is the one computed from the complete log of accepted
    requests of that key, so discarding time stamps and evicting windows never changes an
    answer. *)
Theorem memory_backend_refines (t0 : Z) (evs : list event) :
  ordered t0 evs → (run_mem newMemoryBackend evs).2 = (run_spec (λ _, []) evs).2.
Proof. intros Ho. exact (run_agrees t0 evs _ _ (agrees_new t0) Ho). Qed.

(** *** The bound *)

(** The times at which requests of [key] were accepted. *)
Fixpoint accepted (key : string) (evs : list event) (vs : list verdict) : list Z :=
  match evs, vs with
  | Req t k :: evs', (ok, _, _) :: vs' =>
      if ok && String.eqb k key then t :: accepted key evs' vs' else accepted key evs' vs'
  | Tick _ :: evs', vs => accepted key evs' vs
  | _, _ => []
  end.

Definition in_window (t : Z) (h : list Z) : list Z := filter (λ x, t - window < x ≤ t) h.

Definition bounded (h : list Z) : Prop := ∀ t, Z.of_nat (length (in_window t h)) ≤ Z.max 0 maxReqs.

Lemma in_window_snoc t0 h t :
  (∀ x, x ∈ h → x ≤ t0) → t0 ≤ t →
  Z.of_nat (length (recent t h)) < maxReqs → bounded h → bounded (h ++ [t]).
Proof.
  intros Hpast Ht Hlt Hb t'. unfold in_window. rewrite filter_app, length_app.
  destruct (decide (t' - window < t ≤ t')) as [Hin|Hin].
  - rewrite filter_cons_True by done. simpl.
    assert (length (in_window t' h) ≤ length (recent t h))%nat; [|unfold in_window in *; lia].
    unfold recent, in_window. clear -Hin Hpast Ht. induction h as [|y h IH]; [done|].
    assert (y ≤ t0) by (apply Hpast; by left). rewrite !filter_cons.
    specialize (IH ltac:(intros; apply Hpast; by right)).
    destruct (decide (t' - window < y ≤ t')), (decide (t - window < y)); simpl; lia.
  - rewrite filter_cons_False by done. simpl. specialize (Hb t'). unfold in_window in Hb. lia.
Qed.

Lemma run_bounded t0 key evs h :
  ordered t0 evs → (∀ x, x ∈ h key → x ≤ t0) → bounded (h key) →
  bounded (h key ++ accepted key evs (run_spec h evs).2).
Proof.
  revert t0 h. induction evs as [|[t k|t] evs IH]; intros t0 h Ho Hp Hb; simpl in *.
  - by rewrite app_nil_r.
  - destruct Ho as [Ht Ho].
    destruct (spec_Allow h t k) as [h' v] eqn:Hs.
    specialize (IH t h' Ho). destruct (run_spec h' evs) as [h'' vs]; simpl in *.
    unfold spec_Allow in Hs. destruct (Z.ltb_spec (Z.of_nat (length (recent t (h k)))) maxReqs) as [Hlt|Hge];
      simplify_eq/=.
    + destruct (String.eqb_spec k key) as [->|Hne]; simpl.
      * rewrite String.eqb_refl, <-app_assoc in IH. apply IH.
        -- intros x [Hx%Hp| ->%list_elem_of_singleton]%elem_of_app; lia.
        -- by eapply in_window_snoc.
      * rewrite (proj2 (String.eqb_neq key k)) in IH by done. apply IH; [|done]. intros x Hx%Hp. lia.
    + apply IH; [|done]. intros x Hx%Hp. lia.
  - destruct Ho as [Ht Ho]. apply (IH t); [done| |done]. intros x Hx%Hp. lia.
Qed.

(** C20: the limit holds over every window, not only aligned ones: in any history, the
    requests of one key the in-memory limiter lets through within any interval
    [(t - window, t]] number at most [maxReqs]. *)
Theorem sliding_window_bound (t0 : Z) (evs : list event) (key : string) (t : Z) :
  ordered t0 evs →
  Z.of_nat (length (in_window t (accepted key evs (run_mem newMemoryBackend evs).2))) ≤ Z.max 0 maxReqs.
Proof.
  intros Ho. rewrite (run_agrees t0 evs _ _ (agrees_new t0) Ho).
  apply (run_bounded t0 key evs (λ _, []) Ho).
  - by intros x ?%elem_of_nil.
  - intros t'. simpl. lia.
Qed.

End limiter.

Definition sample_events : list event :=
  [Req 0 "ip:a"; Req 10 "ip:b"; Req 20 "ip:a"; Req 30 "ip:a"; Tick 60; Req 101 "ip:a"; Tick 300; Req 301 "ip:a"].

Lemma memory_backend_refines_witness :
  (run_mem 2 100 newMemoryBackend sample_events).2 = (run_spec 2 100 (λ _, []) sample_events).2 ∧
  (λ v : verdict, v.1.1) <$> (run_mem 2 100 newMemoryBackend sample_events).2
    = [true; true; true; false; true; true].
Proof.
  split; [apply (memory_backend_refines 2 100 0); simpl; lia | vm_compute; reflexivity].
Defined.

Lemma sliding_window_bound_witness :
  Z.of_nat (length (in_window 100 99 (accepted "ip:a" sample_events
    (run_mem 2 100 newMemoryBackend sample_events).2))) ≤ 2.
Proof. apply (sliding_window_bound 2 100 0 sample_events "ip:a" 99). simpl. lia. Defined.

(** ** The Redis script *)

(** The Lua script does not bound a burst.  The sorted set holds the time stamp as the
    member, and the time stamp is a double: nanosecond clocks of the present (about 2{^60})
    that differ by less than the spacing of doubles are one member.  With a limit of two,
    every one of ten requests within 100 ns is allowed. *)
Theorem redis_script_burst :
  let t0 := 1700000000000000000 in
  let call st t := let '(zs, _, reply) := slidingWindowScript t Minute 2 (st : gset Z) in (zs, reply) in
  let '(_, replies) :=
    foldl (λ '(zs, rs) i, let '(zs', r) := call zs (t0 + 10 * i) in (zs', rs ++ [r])) (∅, [])
      [0; 1; 2; 3; 4; 5; 6; 7; 8; 9] in
  (head <$> replies) = replicate 10 (Some 1).
Proof. vm_compute. reflexivity. Qed.

(** ** The middleware's policy *)

(** What the middleware does with the backend's verdict, for every configuration: the
    limits passed to the backend are positive; a backend error lets the request through
    only when the route is not fail-closed and otherwise answers 503; a rejection answers
    429; and a request passed on differs at most in its response headers. *)
Theorem rate_limit_policy {B : Type} (allow : B → Z → string → Z → Z → B * (verdict * option error))
    (cfg : RateLimitConfig) (b : B) (now : Z) (r : Request) :
  0 < Max (applyDefaults cfg) ∧ 0 < Window (applyDefaults cfg) ∧
  let '(b', (v, err)) := allow b now (keyOf (applyDefaults cfg) r) (Max (applyDefaults cfg)) (Window (applyDefaults cfg)) in
  (RateLimit allow cfg b now r).1 = b' ∧
  match (RateLimit allow cfg b now r).2 with
  | Next r' =>
      (err ≠ None → FailClosed cfg = false) ∧ (err = None → v.1.1 = true) ∧
      locals r' = locals r ∧ headers r' = headers r ∧ user_ctx r' = user_ctx r
  | Respond resp =>
      (status resp = 503 ∧ err ≠ None ∧ FailClosed cfg = true) ∨
      (status resp = 429 ∧ err = None ∧ v.1.1 = false)
  end.
Proof.
  split; [|split].
  - simpl. destruct (Z.leb_spec (Max cfg) 0); lia.
  - simpl. destruct (Z.leb_spec (Window cfg) 0); [done | lia].
  - unfold RateLimit. destruct (allow _ _ _ _ _) as [b' [[[allowed rem] reset] [e|]]]; simpl.
    + destruct (FailClosed cfg) eqn:Hf; simpl; (split; [done|]); [by left|]. by split_and!.
    + destruct allowed; simpl; (split; [done|]); [|by right]. by split_and!.
Qed.

End RateLimit.
