(* ===== verification/Routes.v ===== *)
(** * Routes and their guards

    Models the route tables of the application: the [RegisterRoutes] of every module under
    [internal/module], the order [RegisterModules] (server.go) registers them in, and the
    way a request walks the table.  Path matching is Fiber's: class [Router] with the law
    [group_covers] (a route registered in a group only matches paths under the group's
    prefix).  The walk runs the guards of [Middleware] and [RateLimit] on the state of the
    authorizer and of the cache; a handler is reached as a value of [endpoint]. *)
From S2P Require Import Prelude GoStr AppErr Config Port DecisionCache Casbin Cache Auth Middleware RateLimit.
Import GoStr AppErr Config Auth Casbin Middleware RateLimit.

Module Routes.

(** ** Registrations *)

Inductive endpoint :=
| DocsIndex | DocsSpec
| LivenessCheck | ReadinessCheck
| UserGetMe | UserChangePassword | UserList | UserGetByID | UserCreate | UserUpdate
| UserDelete | UserActivate | UserDeactivate
| AuthLogin | AuthRefresh | AuthLogout
| RoleListRoles | RoleListAllPermissions | RoleAssignRole | RoleRevokeRole | RoleGetRoleUsers
| RoleGetRolePermissions | RoleAddRolePermission | RoleRemoveRolePermission
| RoleGetUserRoles | RoleGetUserPermissions | RoleAddUserPermission | RoleRemoveUserPermission
| RoleCheckUserPermission
| FileUpload | FileList | FileGetURL | FileDownload | FileDelete
| SseSubscribe | SseBroadcast | SseClientCount
| JobDispatch | JobListTypes.

#[export] Instance endpoint_eq_dec : EqDecision endpoint.
Proof. solve_decision. Defined.

(** The handlers a route or a group puts before its endpoint. *)
Inductive guard := GAuth | GPermission (obj act : string) | GRole (role : string) | GAuthRate.

#[export] Instance guard_eq_dec : EqDecision guard.
Proof. solve_decision. Defined.

(** [router.Use] at a prefix, and [router.Get/Post/Put/Delete]. *)
Inductive registration :=
| RUse (prefix : string) (gs : list guard)
| RRoute (method pattern : string) (gs : list guard) (e : endpoint).

(** [group.<Method>(path, ...)] *)
Definition route (group method path : string) (gs : list guard) (e : endpoint) : registration :=
  RRoute method (group +:+ path) gs e.

(** *** The modules *)

Definition docs_RegisterRoutes : list registration :=
  [ route "/docs" "GET" "/" [] DocsIndex;
    route "/docs" "GET" "/openapi.yaml" [] DocsSpec ].

Definition health_RegisterRoutes : list registration :=
  [ RRoute "GET" "/healthz/live" [] LivenessCheck;
    RRoute "GET" "/healthz/ready" [] ReadinessCheck;
    RRoute "GET" "/health" [] LivenessCheck ].

Definition user_RegisterRoutes : list registration :=
  [ RUse "/users" [GAuth];
    route "/users" "GET" "/me" [] UserGetMe;
    route "/users" "POST" "/me/password" [] UserChangePassword;
    route "/users" "GET" "/" [GPermission "users" "read"] UserList;
    route "/users" "GET" "/:id" [GPermission "users" "read"] UserGetByID;
    route "/users" "POST" "/" [GPermission "users" "create"] UserCreate;
    route "/users" "PUT" "/:id" [GPermission "users" "update"] UserUpdate;
    route "/users" "DELETE" "/:id" [GPermission "users" "delete"] UserDelete;
    route "/users" "POST" "/:id/activate" [GPermission "users" "update"] UserActivate;
    route "/users" "POST" "/:id/deactivate" [GPermission "users" "update"] UserDeactivate ].

Definition auth_RegisterRoutes : list registration :=
  [ route "/auth" "POST" "/login" [GAuthRate] AuthLogin;
    route "/auth" "POST" "/refresh" [GAuthRate] AuthRefresh;
    route "/auth" "POST" "/logout" [GAuth] AuthLogout ].

Definition role_RegisterRoutes : list registration :=
  let requireRead := GPermission "roles" "read" in
  let requireManage := GPermission "roles" "manage" in
  [ RUse "/roles" [GAuth];
    route "/roles" "GET" "/" [requireRead] RoleListRoles;
    route "/roles" "GET" "/permissions" [requireRead] RoleListAllPermissions;
    route "/roles" "POST" "/assign" [requireManage] RoleAssignRole;
    route "/roles" "POST" "/revoke" [requireManage] RoleRevokeRole;
    route "/roles" "GET" "/:role/users" [requireRead] RoleGetRoleUsers;
    route "/roles" "GET" "/:role/permissions" [requireRead] RoleGetRolePermissions;
    route "/roles" "POST" "/:role/permissions" [requireManage] RoleAddRolePermission;
    route "/roles" "DELETE" "/:role/permissions" [requireManage] RoleRemoveRolePermission;
    RUse "/users" [GAuth];
    route "/users" "GET" "/:id/roles" [requireRead] RoleGetUserRoles;
    route "/users" "GET" "/:id/permissions" [requireRead] RoleGetUserPermissions;
    route "/users" "POST" "/:id/permissions" [requireManage] RoleAddUserPermission;
    route "/users" "DELETE" "/:id/permissions" [requireManage] RoleRemoveUserPermission;
    route "/users" "GET" "/:id/permissions/check" [requireRead] RoleCheckUserPermission ].

Definition storage_RegisterRoutes : list registration :=
  [ RUse "/files" [GAuth];
    route "/files" "POST" "/upload" [] FileUpload;
    route "/files" "GET" "/" [] FileList;
    route "/files" "GET" "/url/*" [] FileGetURL;
    route "/files" "GET" "/download/*" [] FileDownload;
    route "/files" "DELETE" "/*" [] FileDelete ].

Definition sse_RegisterRoutes : list registration :=
  [ route "/sse" "GET" "/subscribe" [GAuth] SseSubscribe;
    route "/sse" "POST" "/broadcast" [GAuth; GPermission "sse" "broadcast"] SseBroadcast;
    route "/sse" "GET" "/clients" [GAuth; GPermission "sse" "read"] SseClientCount ].

Definition job_RegisterRoutes : list registration :=
  [ RUse "/jobs" [GAuth];
    RUse "/jobs" [GRole RoleAdmin];
    route "/jobs" "POST" "/dispatch" [] JobDispatch;
    route "/jobs" "GET" "/types" [] JobListTypes ].

(** [server.RegisterModules(modules...)] *)
Definition RegisterModules (modules : list (list registration)) : list registration := concat modules.

Definition app_routes : list registration :=
  RegisterModules
    [ docs_RegisterRoutes; health_RegisterRoutes; user_RegisterRoutes; auth_RegisterRoutes;
      role_RegisterRoutes; storage_RegisterRoutes; sse_RegisterRoutes; job_RegisterRoutes ].

(** ** Matching (Fiber) *)

(** A literal path: no parameter, wildcard or escape character. *)
Definition literal_char (c : ascii) : bool :=
  forallb (λ x, negb (Ascii.eqb c x)) [":"; "*"; "+"; "?"; "\"; "("; ")"; "<"; ">"]%char.
Definition literal (p : string) : bool := forallb literal_char (String.list_ascii_of_string p).

Class Router := {
  route_match : string → string → string → string → bool;   (* method and pattern; request method and path *)
  use_match : string → string → bool                         (* prefix; path *)
}.

Class RouterLaws `{Router} := {
  group_covers prefix suffix method req path :
    literal prefix = true → suffix ≠ "" →
    route_match method (prefix +:+ suffix) req path = true → use_match prefix path = true
}.

(** ** The walk *)

(** The limiter of /login and /refresh. *)
Definition authRateLimit : RateLimitConfig := mkRateLimitConfig 20 (5 * Minute) None true true.

Inductive served := Reached (e : endpoint) (r : Request) | Answered (resp : Response unit) | NoRoute.

Section walk.
Context `{JwtVerifier} {S C : Type} `{Authorizer S} `{Port.Cache C} `{Router}.
Variables (t : Z) (jwtSecret : string).

Definition run_guard (g : guard) (sc : S * C) (r : Request) : (S * C) * outcome :=
  let '(s, c) := sc in
  match g with
  | GAuth => (sc, Auth t (DefaultAuthConfig jwtSecret) r)
  | GPermission obj act => let '(s', o) := RequirePermission obj act s r in ((s', c), o)
  | GRole role => (sc, RequireRole role s r)
  | GAuthRate => let '(c', o) := RateLimit redis_Allow authRateLimit c t r in ((s, c'), o)
  end.

(** The handlers of one registration, each calling [c.Next()]. *)
Fixpoint run_guards (gs : list guard) (sc : S * C) (r : Request) : (S * C) * outcome :=
  match gs with
  | [] => (sc, Next r)
  | g :: gs' =>
      match run_guard g sc r with
      | (sc', Next r') => run_guards gs' sc' r'
      | (sc', Respond resp) => (sc', Respond resp)
      end
  end.

(** Registrations are tried in registration order. *)
Fixpoint serve (regs : list registration) (req path : string) (sc : S * C) (r : Request) : (S * C) * served :=
  match regs with
  | [] => (sc, NoRoute)
  | RUse prefix gs :: regs' =>
      if use_match prefix path then
        match run_guards gs sc r with
        | (sc', Next r') => serve regs' req path sc' r'
        | (sc', Respond resp) => (sc', Answered resp)
        end
      else serve regs' req path sc r
  | RRoute method pattern gs e :: regs' =>
      if route_match method pattern req path then
        match run_guards gs sc r with
        | (sc', Next r') => (sc', Reached e r')
        | (sc', Respond resp) => (sc', Answered resp)
        end
      else serve regs' req path sc r
  end.

End walk.

(** ** The access policy *)

(** What the caller of an endpoint must have proved. *)
Definition required (e : endpoint) : list guard :=
  match e with
  | DocsIndex | DocsSpec | LivenessCheck | ReadinessCheck => []
  | AuthLogin | AuthRefresh => [GAuthRate]
  | AuthLogout | UserGetMe | UserChangePassword | SseSubscribe
  | FileUpload | FileList | FileGetURL | FileDownload | FileDelete => [GAuth]
  | UserList | UserGetByID => [GAuth; GPermission "users" "read"]
  | UserCreate => [GAuth; GPermission "users" "create"]
  | UserUpdate | UserActivate | UserDeactivate => [GAuth; GPermission "users" "update"]
  | UserDelete => [GAuth; GPermission "users" "delete"]
  | RoleListRoles | RoleListAllPermissions | RoleGetRoleUsers | RoleGetRolePermissions
  | RoleGetUserRoles | RoleGetUserPermissions | RoleCheckUserPermission => [GAuth; GPermission "roles" "read"]
  | RoleAssignRole | RoleRevokeRole | RoleAddRolePermission | RoleRemoveRolePermission
  | RoleAddUserPermission | RoleRemoveUserPermission => [GAuth; GPermission "roles" "manage"]
  | SseBroadcast => [GAuth; GPermission "sse" "broadcast"]
  | SseClientCount => [GAuth; GPermission "sse" "read"]
  | JobDispatch | JobListTypes => [GAuth; GRole RoleAdmin]
  end.

(** The guards of the groups a pattern is in, among the registrations made so far. *)
Definition inherited (uses : list (string * list guard)) (pattern : string) : list guard :=
  concat (map snd (filter (λ u, literal u.1 && has_prefix u.1 pattern && negb (String.eqb u.1 pattern)) uses)).

Definition guards_leb (gs gs' : list guard) : bool := forallb (λ g, bool_decide (g ∈ gs')) gs.

(** A route is covered when its own guards and those it inherits are what its endpoint
    requires. *)
Fixpoint covered (uses : list (string * list guard)) (regs : list registration) : bool :=
  match regs with
  | [] => true
  | RUse prefix gs :: regs' => covered (uses ++ [(prefix, gs)]) regs'
  | RRoute _ pattern gs e :: regs' =>
      guards_leb (required e) (inherited uses pattern ++ gs) && covered uses regs'
  end.

Lemma app_routes_covered : covered [] app_routes = true.
Proof. vm_compute. reflexivity. Qed.

(** ** Soundness of the walk *)

(** A permission check leaves the role assignments alone. *)
Class EnforceKeepsRoles (S : Type) `{Authorizer S} := {
  enforce_roles s u o a v role : HasRoleForUser (Enforce s u o a).1 v role = HasRoleForUser s v role
}.

#[export] Instance Adapter_keeps_roles {E} `{Casbin.Enforcer E} : EnforceKeepsRoles (Casbin.Adapter E).
Proof.
  constructor. intros a u o x v role. simpl. unfold Adapter_Enforce.
  repeat case_match; simplify_eq/=; done.
Qed.

#[export] Instance NoOp_keeps_roles : EnforceKeepsRoles Casbin.NoOpAdapter.
Proof. by constructor. Qed.

Section sound.
Context `{JwtVerifier} {S C : Type} `{AuthorizerSpec S} `{!EnforceKeepsRoles S} `{Port.Cache C} `{RouterLaws}.
Variables (t : Z) (jwtSecret : string) (s0 : S) (r0 : Request).

(** The token a request carries, when the verifier accepts it. *)
Definition token_user (r : Request) : option jwtClaims :=
  match extractToken r "header:Authorization" with
  | Ok token => match jwt_Parse t jwtSecret "goscratch" "goscratch-api" token with Ok raw => Some raw | Err _ => None end
  | Err _ => None
  end.

(** The identity of [r] is the one of the token of [r0]. *)
Definition identified (r : Request) : Prop :=
  ∃ raw, token_user r0 = Some raw ∧ GetUserID r = claims_UserID raw ∧
         ctx_user_id (user_ctx r) = Some (claims_UserID raw).

(** What passing a guard establishes, in terms of the incoming request and policy. *)
Definition fact (g : guard) : Prop :=
  match g with
  | GAuth => is_Some (token_user r0)
  | GPermission obj act => ∃ raw, token_user r0 = Some raw ∧ claims_UserID raw ≠ "" ∧
                                  auth_dec s0 (claims_UserID raw) obj act = true
  | GRole role => ∃ raw, token_user r0 = Some raw ∧ claims_UserID raw ≠ "" ∧
                         HasRoleForUser s0 (claims_UserID raw) role = Ok true
  | GAuthRate => ∃ (c c' : C) key rem reset,
      cache_SlidingWindowAllow c t key 20 (5 * Minute) = (c', Ok (true, rem, reset)) ∧
      (key = "ip:" +:+ ip r0 ∨ ∃ raw, token_user r0 = Some raw ∧ key = "user:" +:+ claims_UserID raw)
  end.

Definition holds (r : Request) (g : guard) : Prop := fact g ∧ (g = GAuth → identified r).

Record walking (s : S) (r : Request) : Prop := {
  w_client : headers r = headers r0 ∧ cookies r = cookies r0 ∧ ip r = ip r0;
  w_inv : auth_inv s;
  w_dec u o a : auth_dec s u o a = auth_dec s0 u o a;
  w_role u role : HasRoleForUser s u role = HasRoleForUser s0 u role;
  w_id : GetUserID r = "" ∨ identified r
}.

Lemma token_user_client r : headers r = headers r0 → cookies r = cookies r0 → token_user r = token_user r0.
Proof. intros Hh Hc. unfold token_user, extractToken, header. by rewrite Hh, Hc. Qed.

Lemma walking_next s s' r :
  walking s r → auth_inv s' → (∀ u o a, auth_dec s' u o a = auth_dec s u o a) →
  (∀ u role, HasRoleForUser s' u role = HasRoleForUser s u role) → walking s' r.
Proof. intros [] Hi Hd Hr. split; [done..| | |done]; intros; [by rewrite Hd | by rewrite Hr]. Qed.

Lemma walking_identified s r : walking s r → GetUserID r ≠ "" → identified r.
Proof. intros Hw Hu. by destruct (w_id _ _ Hw). Qed.

Lemma guard_auth s r r' :
  walking s r → Auth t (DefaultAuthConfig jwtSecret) r = Next r' → walking s r' ∧ holds r' GAuth ∧ identified r'.
Proof.
  intros [(Hh & Hc & Hip) Hi Hd Hr _] Ha.
  apply auth_next in Ha as (token & raw & Ht & Hp & _ & _ & ->); simpl in *.
  assert (Htok : token_user r0 = Some raw).
  { rewrite <-(token_user_client r Hh Hc). unfold token_user. by rewrite Ht, Hp. }
  assert (Hid : identified (authenticate (DefaultAuthConfig jwtSecret) r raw)).
  { exists raw. by rewrite authenticate_user_id. }
  split; [by split; auto|]. split; [|done]. split; [unfold fact; by rewrite Htok|done].
Qed.

Lemma guard_permission obj act s s' r r' :
  walking s r → RequirePermission obj act s r = (s', Next r') →
  r' = r ∧ walking s' r ∧ holds r (GPermission obj act).
Proof.
  intros Hw Hg. pose proof (require_permission_next obj act s r r' (w_inv _ _ Hw)) as Hn.
  rewrite Hg in Hn. destruct (Hn eq_refl) as (-> & Hu & Hd). split; [done|].
  destruct (Enforce_spec s (GetUserID r) obj act (w_inv _ _ Hw)) as (Hi & Hd' & _).
  assert (s' = (Enforce s (GetUserID r) obj act).1) as ->.
  { revert Hg. unfold RequirePermission. repeat case_match; intros; by simplify_eq/=. }
  split; [apply (walking_next s); auto using enforce_roles|].
  split; [|done]. destruct (walking_identified _ _ Hw Hu) as (raw & Ht & Hid & _).
  exists raw. rewrite <-(w_dec _ _ Hw), <-Hid. auto.
Qed.

Lemma guard_role role s r r' :
  walking s r → RequireRole role s r = Next r' → r' = r ∧ holds r (GRole role).
Proof.
  intros Hw. unfold RequireRole. destruct (String.eqb_spec (GetUserID r) "") as [|Hu]; [done|].
  destruct (HasRoleForUser s (GetUserID r) role) as [[]|] eqn:Hr; simpl; try done.
  intros [= <-]. split; [done|]. split; [|done].
  destruct (walking_identified _ _ Hw Hu) as (raw & Ht & Hid & _).
  exists raw. rewrite <-(w_role _ _ Hw), <-Hid. auto.
Qed.

Lemma rate_next c c' r r' :
  RateLimit redis_Allow authRateLimit c t r = (c', Next r') →
  (headers r', cookies r', ip r', locals r', user_ctx r') = (headers r, cookies r, ip r, locals r, user_ctx r) ∧
  ∃ rem reset, cache_SlidingWindowAllow c t (defaultKeyFunc r) 20 (5 * Minute) = (c', Ok (true, rem, reset)).
Proof.
  unfold RateLimit, redis_Allow, keyOf. simpl.
  destruct (cache_SlidingWindowAllow c t (defaultKeyFunc r) 20 (5 * Minute)) as [c1 [[[ok rem] reset]|e]];
    simpl; [|done].
  destruct ok; simpl; [|done]. intros [= <- <-]. simpl. eauto.
Qed.

Lemma guard_rate (c c' : C) s r r' :
  walking s r → RateLimit redis_Allow authRateLimit c t r = (c', Next r') →
  walking s r' ∧ (identified r → identified r') ∧ holds r' GAuthRate.
Proof.
  intros Hw Hg. apply rate_next in Hg as (Heq & rem & reset & Hs).
  injection Heq as Eh Ec Eip El Ectx.
  destruct Hw as [(Hh & Hc & Hip) Hi Hd Hr Hid].
  assert (Hu : GetUserID r' = GetUserID r) by (unfold GetUserID; by rewrite El).
  assert (Hto : identified r → identified r').
  { intros (raw & Ht & Hr1 & Hr2). exists raw. split_and!; congruence. }
  split_and!; [|done|]; [split; [split_and!; congruence|done..|]|].
  - rewrite Hu. naive_solver.
  - split; [|done]. exists c, c', (defaultKeyFunc r), rem, reset. split; [done|].
    unfold defaultKeyFunc. destruct (String.eqb_spec (GetUserID r) "") as [|Hne]; [left; congruence|].
    destruct Hid as [|(raw & Ht & Hi' & _)]; [done|]. right. exists raw. by rewrite Hi'.
Qed.

Lemma run_guard_sound g s c s' c' r r' :
  walking s r → run_guard t jwtSecret g (s, c) r = ((s', c'), Next r') →
  walking s' r' ∧ (identified r → identified r') ∧ holds r' g.
Proof.
  intros Hw Hg. destruct g as [|obj act|role|]; simpl in Hg.
  - injection Hg as <- <- Ha. destruct (guard_auth _ _ _ Hw Ha) as (? & ? & ?). auto.
  - destruct (RequirePermission obj act s r) as [s1 o] eqn:Hp. injection Hg as <- <- ->.
    destruct (guard_permission _ _ _ _ _ _ Hw Hp) as (-> & ? & ?). auto.
  - injection Hg as <- <- Hr. destruct (guard_role _ _ _ _ Hw Hr) as [-> ?]. auto.
  - destruct (RateLimit redis_Allow authRateLimit c t r) as [c1 o] eqn:Hr. injection Hg as <- <- ->.
    eauto using guard_rate.
Qed.

Lemma guard_holds_mono r r' g : (identified r → identified r') → holds r g → holds r' g.
Proof. intros Hi [Hf Ha]. split; auto. Qed.

Lemma run_guards_sound gs s c s' c' r r' :
  walking s r → run_guards t jwtSecret gs (s, c) r = ((s', c'), Next r') →
  walking s' r' ∧ (identified r → identified r') ∧ Forall (holds r') gs.
Proof.
  revert s c r. induction gs as [|g gs IH]; intros s c r Hw Hg; cbn [run_guards] in Hg.
  { injection Hg as <- <- <-. auto. }
  destruct (run_guard t jwtSecret g (s, c) r) as [[s1 c1] [r1|]] eqn:Hone; [|done].
  destruct (run_guard_sound _ _ _ _ _ _ _ Hw Hone) as (Hw1 & Hm1 & Hg1).
  destruct (IH _ _ _ Hw1 Hg) as (Hw2 & Hm2 & Hg2). eauto 10 using guard_holds_mono.
Qed.

Definition uses_hold (path : string) (uses : list (string * list guard)) (r : Request) : Prop :=
  ∀ prefix gs, (prefix, gs) ∈ uses → use_match prefix path = true → Forall (holds r) gs.

Lemma uses_hold_mono path uses r r' :
  (identified r → identified r') → uses_hold path uses r → uses_hold path uses r'.
Proof. intros Hm Hu p gs Hin Hp. eapply Forall_impl; [by eapply Hu|]. eauto using guard_holds_mono. Qed.

Lemma inherited_holds method pattern req path uses r :
  uses_hold path uses r → route_match method pattern req path = true → Forall (holds r) (inherited uses pattern).
Proof.
  intros Hu Hm. apply Forall_forall. intros g Hg. unfold inherited in Hg.
  apply list_elem_of_In, in_concat in Hg as (gs & Hgs & Hg).
  apply in_map_iff in Hgs as ([prefix gs'] & <- & Hin). apply list_elem_of_In, list_elem_of_filter in Hin as [Hp Hin].
  simpl in *. apply Is_true_true, andb_prop in Hp as [[Hl Hpre]%andb_prop Hne%negb_true_iff].
  apply String.eqb_neq in Hne.
  apply has_prefix_spec in Hpre as [suffix ->].
  assert (Hmatch : use_match prefix path = true).
  { eapply group_covers; [done| |done]. intros ->. by rewrite append_nil_r in Hne. }
  eapply Forall_forall; [by eapply Hu | by apply list_elem_of_In].
Qed.

Lemma guards_leb_holds gs gs' r : guards_leb gs gs' = true → Forall (holds r) gs' → Forall (holds r) gs.
Proof.
  intros Hl Ha. rewrite Forall_forall in Ha |- *. intros g Hg. apply Ha.
  unfold guards_leb in Hl. rewrite forallb_forall in Hl. apply (bool_decide_unpack _). apply Is_true_true.
  apply Hl. by apply list_elem_of_In.
Qed.

Lemma serve_sound regs uses req path s c s' c' r r' e :
  covered uses regs = true → walking s r → uses_hold path uses r →
  serve t jwtSecret regs req path (s, c) r = ((s', c'), Reached e r') →
  walking s' r' ∧ Forall (holds r') (required e).
Proof.
  revert uses s c r. induction regs as [|[prefix gs|method pattern gs e'] regs IH]; intros uses s c r Hcov Hw Hu Hs;
    simpl in *; [done| |].
  - destruct (use_match prefix path) eqn:Hm.
    + destruct (run_guards t jwtSecret gs (s, c) r) as [[s1 c1] [r1|]] eqn:Hg; [|done].
      destruct (run_guards_sound _ _ _ _ _ _ _ Hw Hg) as (Hw1 & Hm1 & Hg1).
      eapply IH; [done..| |done]. intros p gs' Hin Hp. apply elem_of_app in Hin as [Hin|Hin].
      * by eapply (uses_hold_mono path uses r).
      * apply list_elem_of_singleton in Hin as [= -> ->]. done.
    + eapply IH; [done..| |done]. intros p gs' Hin Hp. apply elem_of_app in Hin as [Hin|Hin]; [by eapply Hu|].
      apply list_elem_of_singleton in Hin as [= -> ->]. congruence.
  - apply andb_true_iff in Hcov as [Hle Hcov].
    destruct (route_match method pattern req path) eqn:Hm; [|by eapply IH].
    destruct (run_guards t jwtSecret gs (s, c) r) as [[s1 c1] [r1|]] eqn:Hg; [|done].
    injection Hs as <- <- <- <-.
    destruct (run_guards_sound _ _ _ _ _ _ _ Hw Hg) as (Hw1 & Hm1 & Hg1). split; [done|].
    eapply guards_leb_holds; [done|]. apply Forall_app. split; [|done].
    eapply inherited_holds; [|done]. by eapply uses_hold_mono.
Qed.

Lemma answered_guard gs (sc sc' : S * C) r resp :
  run_guards t jwtSecret gs sc r = (sc', Respond resp) → status resp ∈ [401; 403; 429; 500; 503].
Proof.
  revert sc r. induction gs as [|g gs IH]; intros [s c] r; cbn [run_guards]; [done|].
  destruct (run_guard t jwtSecret g (s, c) r) as [sc1 [r1|resp1]] eqn:Hg; [by apply IH|].
  intros [= -> ->]. revert Hg. destruct g; simpl; unfold RequirePermission, RequireRole, Auth, RateLimit, redis_Allow,
    authRequired, checkFailed; repeat case_match; intros; simplify_eq/=; set_solver.
Qed.

Lemma answered_serve regs req path (sc sc' : S * C) r resp :
  serve t jwtSecret regs req path sc r = (sc', Answered resp) → status resp ∈ [401; 403; 429; 500; 503].
Proof.
  revert sc r. induction regs as [|[prefix gs|method pattern gs e] regs IH]; intros sc r; simpl; [done| |];
    case_match; try apply IH;
    destruct (run_guards t jwtSecret gs sc r) as [sc1 []] eqn:Hg; intros; simplify_eq/=; eauto using answered_guard.
Qed.

(** The table hands a request to an endpoint only when everything the endpoint requires
    holds; otherwise it answers 401, 403, 429, 500 or 503, or finds no route. *)
Lemma serve_app_sound (req path : string) (c : C) :
  auth_inv s0 → GetUserID r0 = "" →
  match (serve t jwtSecret app_routes req path (s0, c) r0).2 with
  | Reached e r' => Forall fact (required e) ∧ (GAuth ∈ required e → identified r')
  | Answered resp => status resp ∈ [401; 403; 429; 500; 503]
  | NoRoute => True
  end.
Proof.
  intros Hinv Hid. destruct (serve t jwtSecret app_routes req path (s0, c) r0) as [[s' c'] []] eqn:Hs; simpl; [| |done].
  - destruct (serve_sound app_routes [] req path s0 c s' c' r0 r e) as [Hw Hh]; [apply app_routes_covered| | |done|].
    + split; auto.
    + intros p gs Hin. by apply elem_of_nil in Hin.
    + split; [eapply Forall_impl; [done|]; by intros g []|]. intros Hg.
      eapply Forall_forall in Hh; [|done]. by destruct Hh as [_ Ha]; apply Ha.
  - by apply answered_serve in Hs.
Qed.

End sound.

(** Facts depend on what the client sent only. *)
Section client.
Context `{JwtVerifier} {S C : Type} `{AuthorizerSpec S} `{Port.Cache C}.

Lemma fact_client t secret (s : S) r r1 g :
  headers r1 = headers r → cookies r1 = cookies r → ip r1 = ip r →
  fact (C := C) t secret s r1 g → fact (C := C) t secret s r g.
Proof.
  intros Hh Hc Hi. unfold fact. rewrite (token_user_client t secret r r1 Hh Hc), Hi. by destruct g.
Qed.

Lemma identified_client t secret r r1 r' :
  headers r1 = headers r → cookies r1 = cookies r → identified t secret r1 r' → identified t secret r r'.
Proof. intros Hh Hc. unfold identified. by rewrite (token_user_client t secret r r1 Hh Hc). Qed.
End client.

(** ** A concrete router *)

(** Literal characters match themselves, [:name] a non-empty segment, [*] the rest; a
    trailing slash is optional.  GET routes also answer HEAD. *)
Fixpoint match_path (pattern : string) (in_name : bool) (path : string) {struct pattern} : bool :=
  match pattern with
  | EmptyString => String.eqb path "" || String.eqb path "/"
  | String c pattern' =>
      if in_name && negb (Ascii.eqb c "/") then match_path pattern' true path
      else if Ascii.eqb c "*" then true
      else if Ascii.eqb c ":" then
        match cut "/" path with
        | Some ("", _) => false
        | Some (_, rest) => match_path pattern' true (String "/" rest)
        | None => negb (String.eqb path "") && match_path pattern' true ""
        end
      else match path with
           | String d path' => Ascii.eqb c d && match_path pattern' false path'
           | EmptyString => Ascii.eqb c "/" && String.eqb pattern' ""
           end
  end.

#[export] Instance SimpleRouter : Router := {
  route_match method pattern req path :=
    (String.eqb req method || String.eqb method "GET" && String.eqb req "HEAD") && match_path pattern false path;
  use_match := has_prefix
}.

Lemma match_path_literal prefix suffix path :
  literal prefix = true → suffix ≠ "" → match_path (prefix +:+ suffix) false path = true →
  has_prefix prefix path = true.
Proof.
  intros Hl Hs. revert path. induction prefix as [|c prefix IH]; intros path; [done|].
  unfold literal in Hl. cbn [String.list_ascii_of_string forallb] in Hl.
  apply andb_true_iff in Hl as [Hc Hl]. specialize (IH Hl).
  cbn [match_path String.append andb negb].
  assert (Hstar : Ascii.eqb c "*" = false ∧ Ascii.eqb c ":" = false).
  { revert Hc. unfold literal_char. simpl. by destruct (Ascii.eqb c "*"), (Ascii.eqb c ":"). }
  destruct Hstar as [-> ->]. destruct path as [|d path].
  - intros [_ Hbad]%andb_true_iff. apply String.eqb_eq in Hbad. by destruct prefix, suffix.
  - intros [Hcd Hm]%andb_true_iff. simpl. by rewrite Hcd, IH.
Qed.

#[export] Instance SimpleRouter_laws : RouterLaws.
Proof.
  constructor. simpl. intros prefix suffix method req path Hl Hs [_ Hm]%andb_true_iff.
  by eapply match_path_literal.
Qed.

(** ** Concrete runs *)

Import MemEnforcer CacheAdapter.

Module Samples.

Definition grants : gset (list string) :=
  list_to_set (map (λ oa, ["admin"; oa.1; oa.2]) [("users", "read"); ("users", "create"); ("users", "update"); ("users", "delete");
    ("roles", "read"); ("roles", "manage"); ("sse", "broadcast"); ("sse", "read")]).
Definition adapter : Adapter memEnforcer := NewAdapter (mkMem grants {[ ["alice"; "admin"] ]}) 100.
Definition cache : CacheAdapter.RedisCache CacheAdapter.MemRedis :=
  CacheAdapter.mkRedisCache (CacheAdapter.mkMemRedis ∅ ∅).

Definition run (auth req path : string) : served :=
  (serve (H := Middleware.Sample.verifier) 10000000000 "secret" app_routes req path (adapter, cache)
     (Middleware.Sample.request auth)).2.

Definition reached (s : served) : option endpoint := match s with Reached e _ => Some e | _ => None end.

(** One request per endpoint. *)
Definition calls : list (string * string * endpoint) :=
  [ ("GET", "/docs", DocsIndex); ("GET", "/docs/openapi.yaml", DocsSpec);
    ("GET", "/healthz/live", LivenessCheck); ("GET", "/healthz/ready", ReadinessCheck); ("HEAD", "/health", LivenessCheck);
    ("GET", "/users/me", UserGetMe); ("POST", "/users/me/password", UserChangePassword); ("GET", "/users", UserList);
    ("GET", "/users/7", UserGetByID); ("POST", "/users/", UserCreate); ("PUT", "/users/7", UserUpdate);
    ("DELETE", "/users/7", UserDelete); ("POST", "/users/7/activate", UserActivate);
    ("POST", "/users/7/deactivate", UserDeactivate);
    ("POST", "/auth/login", AuthLogin); ("POST", "/auth/refresh", AuthRefresh); ("POST", "/auth/logout", AuthLogout);
    ("GET", "/roles", RoleListRoles); ("GET", "/roles/permissions", RoleListAllPermissions);
    ("POST", "/roles/assign", RoleAssignRole); ("POST", "/roles/revoke", RoleRevokeRole);
    ("GET", "/roles/editor/users", RoleGetRoleUsers); ("GET", "/roles/editor/permissions", RoleGetRolePermissions);
    ("POST", "/roles/editor/permissions", RoleAddRolePermission);
    ("DELETE", "/roles/editor/permissions", RoleRemoveRolePermission);
    ("GET", "/users/7/roles", RoleGetUserRoles); ("GET", "/users/7/permissions", RoleGetUserPermissions);
    ("POST", "/users/7/permissions", RoleAddUserPermission); ("DELETE", "/users/7/permissions", RoleRemoveUserPermission);
    ("GET", "/users/7/permissions/check", RoleCheckUserPermission);
    ("POST", "/files/upload", FileUpload); ("GET", "/files", FileList); ("GET", "/files/url/a/b", FileGetURL);
    ("GET", "/files/download/a", FileDownload); ("DELETE", "/files/a/b", FileDelete);
    ("GET", "/sse/subscribe", SseSubscribe); ("POST", "/sse/broadcast", SseBroadcast); ("GET", "/sse/clients", SseClientCount);
    ("POST", "/jobs/dispatch", JobDispatch); ("GET", "/jobs/types", JobListTypes) ].

(** No route is shadowed by an earlier one: every endpoint is reached by its request, and
    without a token exactly the public ones are. *)
Example every_endpoint_reached :
  map (λ '(req, path, _), reached (run "Bearer tok" req path)) calls = map (λ x, Some x.2) calls ∧
  omap (λ '(req, path, _), reached (run "" req path)) calls
    = [DocsIndex; DocsSpec; LivenessCheck; ReadinessCheck; LivenessCheck; AuthLogin; AuthRefresh].
Proof. split; vm_compute; reflexivity. Qed.

End Samples.

End Routes.
