(* ===== verification/Server.v ===== *)
(** * The HTTP server and its global middleware

    Models [internal/platform/http/server.go] ([NewServer], the listen address),
    [middleware/cors.go], [middleware/logger.go] and the middleware chain that [New] of
    [internal/platform/app/app.go] puts in front of every route: request id, security
    headers, CORS, tracing, metrics, logging and the optional rate limiter.  Fiber's client
    address and its CORS handler are parameters with the documented behaviour as laws. *)
From S2P Require Import Prelude GoStr AppErr Config ConfigLoad Port DecisionCache Casbin Cache Auth Middleware RateLimit Routes.
Import GoStr AppErr Config ConfigLoad Auth Casbin CacheAdapter Middleware RateLimit Routes.

Module Server.

(** ** server.go *)

Record ServerConfig := mkServerConfig {
  srv_Host : string; srv_Port : Z; ReadTimeout : Z; WriteTimeout : Z; IdleTimeout : Z;
  TrustedProxies : list string; ProxyHeader : string
}.

Definition get_server (cfg : list field) : ServerConfig :=
  mkServerConfig (get_string ["server"; "host"] cfg) (get_int ["server"; "port"] cfg)
    (get_int ["server"; "read_timeout"] cfg) (get_int ["server"; "write_timeout"] cfg)
    (get_int ["server"; "idle_timeout"] cfg) (get_strings ["server"; "trusted_proxies"] cfg)
    (get_string ["server"; "proxy_header"] cfg).

(** What the server passes to [fiber.New] and [recover.New]. *)
Record fiberConfig := mkFiberConfig {
  fc_ReadTimeout : Z; fc_WriteTimeout : Z; fc_IdleTimeout : Z; fc_DisableStartupMessage : bool;
  fc_EnableTrustedProxyCheck : bool; fc_TrustedProxies : list string; fc_ProxyHeader : string;
  fc_EnableStackTrace : bool
}.

(** The configuration and the warnings logged. *)
Definition NewServer (cfg : ServerConfig) (isProduction : bool) : fiberConfig * list string :=
  let mk := mkFiberConfig (wrap64 (ReadTimeout cfg * Second)) (wrap64 (WriteTimeout cfg * Second))
              (wrap64 (IdleTimeout cfg * Second)) true in
  if (0 <? Z.of_nat (length (TrustedProxies cfg))) then
    let proxyHeader := if String.eqb (ProxyHeader cfg) "" then "X-Forwarded-For" else ProxyHeader cfg in
    (mk true (TrustedProxies cfg) proxyHeader (negb isProduction), [])
  else
    (mk false [] "" (negb isProduction),
     if negb (String.eqb (ProxyHeader cfg) "")
     then ["server.proxy_header is set but server.trusted_proxies is empty — X-Forwarded-For spoofing is possible; set SERVER_TRUSTED_PROXIES to the upstream proxy CIDRs"]
     else []).

(** The address [Start] listens on. *)
Definition listen_addr (cfg : ServerConfig) : string := srv_Host cfg +:+ ":" +:+ pretty (srv_Port cfg).

(** [c.IP()] of Fiber on the remote address and the request headers; [trusted] is its
    test of the remote address against the list.  The header counts only when one is
    configured and, with the check enabled, when the peer is trusted. *)
Class FiberIP := {
  ctx_IP : fiberConfig → string → gmap string string → string;
  trusted : list string → string → bool;
  ctx_IP_socket cfg remote hs :
    fc_ProxyHeader cfg = "" ∨ (fc_EnableTrustedProxyCheck cfg = true ∧ trusted (fc_TrustedProxies cfg) remote = false) →
    ctx_IP cfg remote hs = remote
}.

(** The client address cannot be spoofed.  With the configuration the server builds,
    the address the handlers and the limiter see differs from the socket's only when the
    peer is one of the configured proxies: with no proxy configured the headers are never
    looked at, whatever [proxy_header] says; a trusted list turns the check on, with
    X-Forwarded-For as the default header. *)
Theorem client_ip_trusted `{FiberIP} (cfg : ServerConfig) (isProduction : bool) (remote : string)
    (hs : gmap string string) :
  let fc := (NewServer cfg isProduction).1 in
  (ctx_IP fc remote hs = remote ∨ (TrustedProxies cfg ≠ [] ∧ trusted (TrustedProxies cfg) remote = true)) ∧
  (TrustedProxies cfg ≠ [] →
     fc_EnableTrustedProxyCheck fc = true ∧
     fc_ProxyHeader fc = (if String.eqb (ProxyHeader cfg) "" then "X-Forwarded-For" else ProxyHeader cfg)) ∧
  fc_EnableStackTrace fc = negb isProduction.
Proof.
  unfold NewServer. destruct (TrustedProxies cfg) as [|p ps] eqn:Htp; simpl.
  - split; [left; apply ctx_IP_socket; by left|done].
  - split; [|done]. destruct (trusted (p :: ps) remote) eqn:Ht; [by right|].
    left. apply ctx_IP_socket. by right.
Qed.

(** Without a peer in the list the address is the socket's. *)
Definition SocketIP : FiberIP.
Proof. refine {| ctx_IP _ remote _ := remote; trusted l remote := bool_decide (remote ∈ l) |}. done. Defined.

(** ** cors.go *)

Record CORSConfig := mkCORSConfig {
  AllowOrigins : string; AllowMethods : string; AllowHeaders : string; AllowCredentials : bool;
  ExposeHeaders : string; MaxAge : Z
}.

Definition DefaultCORSConfig : CORSConfig :=
  mkCORSConfig "*" "GET,POST,PUT,PATCH,DELETE,OPTIONS" "Origin,Content-Type,Accept,Authorization,X-Request-ID"
    false "X-Request-ID" 86400.

(** The configuration [New] derives (app.go), and whether it warns. *)
Definition corsConfig (cfg : list field) : CORSConfig * list string :=
  let d := DefaultCORSConfig in
  let origins :=
    if negb (String.eqb (get_string ["cors"; "allow_origins"] cfg) "") then get_string ["cors"; "allow_origins"] cfg
    else if IsDevelopment (get_app cfg) then "*" else AllowOrigins d in
  let methods :=
    if negb (String.eqb (get_string ["cors"; "allow_methods"] cfg) "") then get_string ["cors"; "allow_methods"] cfg
    else AllowMethods d in
  let hdrs :=
    if negb (String.eqb (get_string ["cors"; "allow_headers"] cfg) "") then get_string ["cors"; "allow_headers"] cfg
    else AllowHeaders d in
  (mkCORSConfig origins methods hdrs (get_bool ["cors"; "allow_credentials"] cfg) (ExposeHeaders d) (MaxAge d),
   if IsProduction (get_app cfg) && String.eqb origins "*"
   then ["CORS wildcard origin '*' is used in production - this is insecure, set explicit origins via CORS_ALLOW_ORIGINS"]
   else []).

(** The wildcard is the origin list of every environment that sets none: the branch on
    development has no effect. *)
Lemma cors_wildcard_default cfg :
  get_string ["cors"; "allow_origins"] cfg = "" → AllowOrigins (corsConfig cfg).1 = "*".
Proof. unfold corsConfig. intros ->. simpl. by destruct (IsDevelopment _). Qed.

(** [cors.New]: it panics on the wildcard with credentials; otherwise the handler answers
    a preflight or passes the request on with response headers set. *)
Class CorsHandler := {
  cors_panics : CORSConfig → bool;
  cors_panics_wildcard cfg : AllowCredentials cfg = true → AllowOrigins cfg = "*" → cors_panics cfg = true;
  cors_handle : CORSConfig → Request → outcome;
  cors_next cfg r r' : cors_handle cfg r = Next r' →
    headers r' = headers r ∧ cookies r' = cookies r ∧ ip r' = ip r ∧ locals r' = locals r
}.

(** Credentials without an explicit origin list keep the service from starting, in
    production too. *)
Lemma cors_credentials_panic `{CorsHandler} cfg :
  get_string ["cors"; "allow_origins"] cfg = "" → get_bool ["cors"; "allow_credentials"] cfg = true →
  cors_panics (corsConfig cfg).1 = true.
Proof. intros Ho Hc. apply cors_panics_wildcard; [done|]. by apply cors_wildcard_default. Qed.

(** ** logger.go *)

Inductive level := LevelInfo | LevelWarn | LevelError.

(** What the middleware logs once the chain returned [err] with [st] in the response:
    durations are left out. *)
Definition Logger (method path : string) (st : Z) (r : Request) (err : option error)
    : level * string * list (string * string) :=
  let fields := [("method", method); ("path", path); ("status", pretty st); ("ip", ip r);
                 ("user_agent", header r "User-Agent")] in
  let fields := if negb (String.eqb (GetRequestID r) "") then fields ++ [("request_id", GetRequestID r)] else fields in
  let fields := if negb (String.eqb (GetUserID r) "") then fields ++ [("user_id", GetUserID r)] else fields in
  let fields := match err with Some e => fields ++ [("error", ErrorText e)] | None => fields end in
  let '(l, m) := if 500 <=? st then (LevelError, "Server error")
                 else if 400 <=? st then (LevelWarn, "Client error") else (LevelInfo, "Request completed") in
  (l, m, fields).

(** An error returned up the chain is answered by the error handler after the logger ran:
    the response still has Fiber's initial status, and the request is logged as completed. *)
Lemma logger_before_error_handler method path r err :
  (Logger method path 200 r (Some err)).1.1 = LevelInfo ∧ (Logger method path 200 r (Some err)).1.2 = "Request completed".
Proof. done. Qed.

(** ** The global chain (app.go) *)

Inductive mw :=
| MRequestID
| MSecurityHeaders (isProduction : bool)
| MCORS (cfg : CORSConfig)
| MTracing (service : string)
| MMetrics
| MLogger
| MRateLimit (cfg : RateLimitConfig).

(** The limiter's settings with the defaults of [New]. *)
Definition global_rate_limit (cfg : list field) : RateLimitConfig :=
  let rlWindow := wrap64 (get_int ["rate_limit"; "window_sec"] cfg * Second) in
  let rlMax := get_int ["rate_limit"; "max"] cfg in
  mkRateLimitConfig (if rlMax <=? 0 then 100 else rlMax) (if rlWindow <=? 0 then 1 * Minute else rlWindow) None
    (get_bool ["redis"; "enabled"] cfg) false.

Definition middleware_chain (cfg : list field) : list mw :=
  [MRequestID; MSecurityHeaders (IsProduction (get_app cfg)); MCORS (corsConfig cfg).1]
  ++ (if get_bool ["observability"; "tracing"; "enabled"] cfg then [MTracing (app_Name (get_app cfg))] else [])
  ++ (if get_bool ["observability"; "metrics"; "enabled"] cfg then [MMetrics] else [])
  ++ [MLogger]
  ++ (if get_bool ["rate_limit"; "enabled"] cfg then [MRateLimit (global_rate_limit cfg)] else []).

Section pipeline.
Context `{JwtVerifier} `{CorsHandler} {S C : Type} `{Authorizer S} `{Port.Cache C} `{Router}.

(** What requests change: the authorizer, the cache and the limiter's own windows. *)
Record state := mkState { st_authz : S; st_cache : C; st_windows : memoryBackend }.

(** [t] is the clock and [fresh] the new request id.  Tracing, metrics and logging pass
    the request on and observe the answer. *)
Definition run_mw (t : Z) (fresh : string) (m : mw) (s : state) (r : Request) : state * outcome :=
  match m with
  | MRequestID => (s, RequestID fresh r)
  | MSecurityHeaders prod => (s, SecurityHeaders prod r)
  | MCORS cfg => (s, cors_handle cfg r)
  | MTracing _ | MMetrics | MLogger => (s, Next r)
  | MRateLimit cfg =>
      if UseRedis cfg then
        let '(c', o) := RateLimit redis_Allow cfg (st_cache s) t r in (mkState (st_authz s) c' (st_windows s), o)
      else
        let '(w', o) := RateLimit memory_allow cfg (st_windows s) t r in (mkState (st_authz s) (st_cache s) w', o)
  end.

Fixpoint run_chain (t : Z) (fresh : string) (ms : list mw) (s : state) (r : Request) : state * outcome :=
  match ms with
  | [] => (s, Next r)
  | m :: ms' =>
      match run_mw t fresh m s r with
      | (s', Next r') => run_chain t fresh ms' s' r'
      | (s', Respond resp) => (s', Respond resp)
      end
  end.

(** One request through the application. *)
Definition handle_request (cfg : list field) (t : Z) (fresh req path : string) (s : state) (r : Request)
    : state * served :=
  match run_chain t fresh (middleware_chain cfg) s r with
  | (s', Respond resp) => (s', Answered resp)
  | (s', Next r') =>
      let '((a, c), res) := serve t (Secret (get_jwt cfg)) app_routes req path (st_authz s', st_cache s') r' in
      (mkState a c (st_windows s'), res)
  end.

End pipeline.
Arguments state : clear implicits.

(** ** The access policy holds for the whole pipeline *)

Section policy.
Context `{JwtVerifier} `{CorsHandler} {S C : Type} `{AuthorizerSpec S} `{!EnforceKeepsRoles S} `{Port.Cache C} `{RouterLaws}.

Lemma rate_keeps {B : Type} (allow : B → Z → string → Z → Z → B * (verdict * option error)) cfg b b' t r r' :
  RateLimit allow cfg b t r = (b', Next r') →
  headers r' = headers r ∧ cookies r' = cookies r ∧ ip r' = ip r ∧ GetUserID r' = GetUserID r.
Proof. unfold RateLimit. repeat case_match; intros; simplify_eq/=; done. Qed.

(** The chain changes neither what the client sent nor who it is. *)
Lemma run_mw_keeps t fresh m (s s' : state S C) r r' :
  run_mw t fresh m s r = (s', Next r') →
  st_authz s' = st_authz s ∧ headers r' = headers r ∧ cookies r' = cookies r ∧ ip r' = ip r ∧ GetUserID r' = GetUserID r.
Proof.
  destruct m as [|prod|cfg|service| | |cfg]; simpl.
  - unfold RequestID. intros [= <- <-]. split_and!; try done. unfold GetUserID. simpl. by rewrite lookup_insert_ne.
  - unfold SecurityHeaders. destruct prod; intros [= <- <-]; done.
  - intros [= <- Hn]. apply cors_next in Hn as (? & ? & ? & Hl). split_and!; try done. unfold GetUserID. by rewrite Hl.
  - by intros [= <- <-].
  - by intros [= <- <-].
  - by intros [= <- <-].
  - destruct (UseRedis cfg).
    + destruct (RateLimit redis_Allow cfg (st_cache s) t r) as [c o] eqn:Hr. intros [= <- ->].
      split; [done|]. by eapply rate_keeps.
    + destruct (RateLimit memory_allow cfg (st_windows s) t r) as [w o] eqn:Hr. intros [= <- ->].
      split; [done|]. by eapply rate_keeps.
Qed.

Lemma run_chain_keeps t fresh ms (s s' : state S C) r r' :
  run_chain t fresh ms s r = (s', Next r') →
  st_authz s' = st_authz s ∧ headers r' = headers r ∧ cookies r' = cookies r ∧ ip r' = ip r ∧ GetUserID r' = GetUserID r.
Proof.
  revert s r. induction ms as [|m ms IH]; intros s r; simpl; [by intros [= <- <-]|].
  destruct (run_mw t fresh m s r) as [s1 [r1|]] eqn:Hm; [|done].
  intros Hc. apply run_mw_keeps in Hm as (? & ? & ? & ? & ?). apply IH in Hc as (? & ? & ? & ? & ?).
  split_and!; congruence.
Qed.


End policy.

(** ** A concrete request *)

Import MemEnforcer.

Definition OpenCors : CorsHandler.
Proof.
  refine {| cors_panics cfg := AllowCredentials cfg && String.eqb (AllowOrigins cfg) "*"; cors_handle _ r := Next r |}.
  - intros cfg Hc Ho. by rewrite Hc, Ho.
  - by intros cfg r r' [= <-].
Defined.

Definition sample_config : list field :=
  applyEnvOverrides (λ k, if String.eqb k "RATE_LIMIT_ENABLED" then "true" else
                          if String.eqb k "JWT_SECRET" then "secret" else "") Config_fields.
Definition sample_state : state (Adapter memEnforcer) (RedisCache MemRedis) :=
  mkState Routes.Samples.adapter Routes.Samples.cache newMemoryBackend.
Definition sample_run : served :=
  (@handle_request Middleware.Sample.verifier OpenCors _ _ _ _ _ sample_config 10000000000 "req-1" "POST" "/jobs/dispatch"
     sample_state (Middleware.Sample.request "Bearer tok")).2.


End Server.
