(* ===== verification/Seed.v ===== *)
(** * Seeding the database

    Models [scripts/seed/main.go]: the default users, role assignments and role permissions,
    inserted where they are missing.  The tables are explicit; each statement's failure, the
    generated ids and the password hash are inputs.  The seeded policy is evaluated against
    the route table of the application. *)
From S2P Require Import Prelude GoStr AppErr Config Port DecisionCache Casbin Cache Auth Middleware RateLimit Routes.
Import GoStr AppErr Casbin CacheAdapter Middleware Routes.

Module Seed.

(** ** The data *)

Record seedUser := mkSeedUser { su_Email : string; su_Password : string; su_Name : string; su_Role : string }.

Definition seedPermissions : list (string * string * string) :=
  [ ("superadmin", "*", "*"); ("admin", "users", "read"); ("admin", "users", "create");
    ("admin", "users", "update"); ("admin", "users", "delete"); ("admin", "roles", "read");
    ("admin", "roles", "assign"); ("admin", "roles", "manage"); ("admin", "files", "read");
    ("admin", "files", "upload"); ("admin", "files", "delete"); ("admin", "jobs", "dispatch");
    ("editor", "users", "read"); ("editor", "users", "update"); ("editor", "files", "read");
    ("editor", "files", "upload"); ("viewer", "users", "read"); ("viewer", "files", "read") ].

Definition seedUsers : list seedUser :=
  [ mkSeedUser "superadmin@example.com" "superadmin123" "Super Admin" "superadmin";
    mkSeedUser "admin@example.com" "admin123" "Admin User" "admin";
    mkSeedUser "user@example.com" "user123" "Normal User" "viewer";
    mkSeedUser "alice.johnson@example.com" "test123" "Alice Johnson" "viewer";
    mkSeedUser "bob.smith@example.com" "test123" "Bob Smith" "viewer";
    mkSeedUser "carol.williams@example.com" "test123" "Carol Williams" "viewer";
    mkSeedUser "david.brown@example.com" "test123" "David Brown" "viewer";
    mkSeedUser "emma.davis@example.com" "test123" "Emma Davis" "viewer";
    mkSeedUser "frank.miller@example.com" "test123" "Frank Miller" "viewer";
    mkSeedUser "grace.wilson@example.com" "test123" "Grace Wilson" "viewer";
    mkSeedUser "henry.moore@example.com" "test123" "Henry Moore" "viewer";
    mkSeedUser "irene.taylor@example.com" "test123" "Irene Taylor" "viewer";
    mkSeedUser "jack.anderson@example.com" "test123" "Jack Anderson" "viewer";
    mkSeedUser "kate.thomas@example.com" "test123" "Kate Thomas" "viewer";
    mkSeedUser "liam.jackson@example.com" "test123" "Liam Jackson" "viewer";
    mkSeedUser "mia.white@example.com" "test123" "Mia White" "viewer";
    mkSeedUser "noah.harris@example.com" "test123" "Noah Harris" "viewer";
    mkSeedUser "olivia.martin@example.com" "test123" "Olivia Martin" "viewer";
    mkSeedUser "peter.clark@example.com" "test123" "Peter Clark" "viewer";
    mkSeedUser "quinn.lewis@example.com" "test123" "Quinn Lewis" "viewer";
    mkSeedUser "rachel.walker@example.com" "test123" "Rachel Walker" "viewer";
    mkSeedUser "sam.hall@example.com" "test123" "Sam Hall" "viewer";
    mkSeedUser "tina.allen@example.com" "test123" "Tina Allen" "viewer";
    mkSeedUser "ulysses.young@example.com" "test123" "Ulysses Young" "viewer";
    mkSeedUser "victoria.king@example.com" "test123" "Victoria King" "viewer";
    mkSeedUser "william.wright@example.com" "test123" "William Wright" "viewer";
    mkSeedUser "xena.lopez@example.com" "test123" "Xena Lopez" "viewer";
    mkSeedUser "yusuf.hill@example.com" "test123" "Yusuf Hill" "viewer";
    mkSeedUser "zara.scott@example.com" "test123" "Zara Scott" "viewer" ].

(** ** The tables *)

Record row := mkRow { row_ID : string; row_Email : string; row_Hash : string; row_Name : string; row_Active : bool }.

(** [users] and [casbin_rules], a rule being p_type followed by its fields. *)
Record db := mkDb { users : list row; rules : list (list string) }.

Definition id_of (email : string) (d : db) : option string :=
  match List.find (λ r, String.eqb (row_Email r) email) (users d) with Some r => Some (row_ID r) | None => None end.
(** The [SELECT EXISTS] of a rule compares its own columns only. *)
Definition has_rule (rule : list string) (d : db) : bool := existsb (λ r, bool_decide (rule `prefix_of` r)) (rules d).

(** What the outside decides: the id the table generates, the hash, and which statements
    fail for an address or a rule. *)
Record World := mkWorld {
  w_newID : string → string;
  w_hash : string → option string;
  w_select_fails : string → bool;
  w_insert_fails : string → bool;
  w_check_fails : list string → bool;
  w_rule_fails : list string → bool
}.

(** ** The loops *)

(** Insert a rule unless it is there; a failed check or insert is logged and skipped. *)
Definition ensure_rule (w : World) (rule : list string) (d : db) : db :=
  if w_check_fails w rule then d
  else if has_rule rule d then d
  else if w_rule_fails w rule then d
  else mkDb (users d) (rules d ++ [rule]).

(** The user's id, created if the address is unknown; [None] when the loop continues. *)
Definition ensure_user (w : World) (u : seedUser) (d : db) : db * option string :=
  let found := if w_select_fails w (su_Email u) then None else id_of (su_Email u) d in
  match found with
  | Some userID => (d, Some userID)
  | None =>
      match w_hash w (su_Password u) with
      | None => (d, None)
      | Some passwordHash =>
          (* the unique index on the address *)
          if w_insert_fails w (su_Email u) || existsb (λ r, String.eqb (row_Email r) (su_Email u)) (users d) then (d, None)
          else let userID := w_newID w (su_Email u) in
               (mkDb (users d ++ [mkRow userID (su_Email u) passwordHash (su_Name u) true]) (rules d), Some userID)
      end
  end.

Definition seed_user (w : World) (d : db) (u : seedUser) : db :=
  match ensure_user w u d with
  | (d', None) => d'
  | (d', Some userID) =>
      if negb (String.eqb userID "") && negb (String.eqb (su_Role u) "")
      then ensure_rule w ["g"; userID; su_Role u] d' else d'
  end.

Definition seed_permission (w : World) (d : db) (p : string * string * string) : db :=
  ensure_rule w ["p"; p.1.1; p.1.2; p.2] d.

Definition seed (w : World) (d : db) : db :=
  fold_left (seed_permission w) seedPermissions (fold_left (seed_user w) seedUsers d).

(** ** Seeding is idempotent and monotone *)

Lemma has_rule_here rule d : rule ∈ rules d → has_rule rule d = true.
Proof.
  intros Hin. apply existsb_exists. exists rule. split; [by apply list_elem_of_In|]. by apply bool_decide_eq_true.
Qed.

(** A later database: it extends the tables and keeps every address's id. *)
Definition extends (d d' : db) : Prop :=
  users d `prefix_of` users d' ∧ rules d `prefix_of` rules d'.

#[export] Instance extends_preorder : PreOrder extends.
Proof.
  split; [by intros d; split|]. intros d1 d2 d3 [H1 H2] [H3 H4]. split; by etrans.
Qed.

Lemma extends_rule d d' rule : extends d d' → has_rule rule d = true → has_rule rule d' = true.
Proof. intros [_ [l Hl]] Hin. unfold has_rule in *. rewrite Hl, existsb_app. by rewrite Hin. Qed.

Lemma extends_id d d' email i : extends d d' → id_of email d = Some i → id_of email d' = Some i.
Proof.
  intros [[l Hl] _]. unfold id_of. rewrite Hl. clear Hl.
  induction (users d) as [|r rs IH]; simpl; [done|]. destruct (String.eqb (row_Email r) email); [done|]. apply IH.
Qed.

Lemma ensure_rule_extends w rule d : extends d (ensure_rule w rule d).
Proof. unfold ensure_rule. repeat case_match; split; simpl; try done; by eexists. Qed.

Lemma ensure_user_extends w u d : extends d (ensure_user w u d).1.
Proof. unfold ensure_user. repeat case_match; split; simpl; try done; by eexists. Qed.

Lemma seed_user_extends w d u : extends d (seed_user w d u).
Proof.
  unfold seed_user. pose proof (ensure_user_extends w u d) as He.
  destruct (ensure_user w u d) as [d' [i|]]; simpl in *; [|done].
  destruct (negb _ && negb _); [|done]. etrans; [exact He|]. apply ensure_rule_extends.
Qed.

Lemma fold_extends {A} (step : db → A → db) l d : (∀ d x, extends d (step d x)) → extends d (fold_left step l d).
Proof.
  intros Hs. revert d. induction l as [|x l IH]; intros d; simpl; [done|]. etrans; [apply Hs|apply IH].
Qed.

(** What the scripts' tables ask for. *)
Definition user_done (u : seedUser) (d : db) : Prop :=
  ∃ i, id_of (su_Email u) d = Some i ∧ i ≠ "" ∧ has_rule ["g"; i; su_Role u] d = true.
Definition permission_done (p : string * string * string) (d : db) : Prop := has_rule ["p"; p.1.1; p.1.2; p.2] d = true.

Definition healthy (w : World) : Prop :=
  (∀ e, w_newID w e ≠ "") ∧ (∀ p, is_Some (w_hash w p)) ∧ (∀ e, w_select_fails w e = false) ∧
  (∀ e, w_insert_fails w e = false) ∧ (∀ r, w_check_fails w r = false) ∧ (∀ r, w_rule_fails w r = false).

(** The ids in the table are not empty (they are UUIDs). *)
Definition ids_set (d : db) : Prop := Forall (λ r, row_ID r ≠ "") (users d).

Section healthy.
Variable w : World.
Hypothesis Hw : healthy w.

Lemma ensure_rule_done rule d : has_rule rule (ensure_rule w rule d) = true.
Proof.
  destruct Hw as (_ & _ & _ & _ & Hc & Hr). unfold ensure_rule. rewrite Hc, Hr.
  destruct (has_rule rule d) eqn:Hh; [done|]. apply has_rule_here. simpl. set_solver.
Qed.

Lemma ensure_rule_ids rule d : ids_set d → ids_set (ensure_rule w rule d).
Proof. unfold ensure_rule, ids_set. by repeat case_match. Qed.

Lemma id_of_set email d i : ids_set d → id_of email d = Some i → i ≠ "".
Proof.
  intros Hi. unfold id_of. destruct (List.find _ _) as [r|] eqn:Hf; [|done]. intros [= <-].
  apply find_some in Hf as [Hin%list_elem_of_In _]. by eapply Forall_forall in Hi.
Qed.

Lemma ensure_user_done u d :
  ids_set d → ∃ i, (ensure_user w u d).2 = Some i ∧ id_of (su_Email u) (ensure_user w u d).1 = Some i ∧
    ids_set (ensure_user w u d).1.
Proof.
  destruct Hw as (Hn & Hh & Hs & Hi & _). intros Hd. unfold ensure_user. rewrite Hs.
  destruct (id_of (su_Email u) d) as [i|] eqn:Hid; [by exists i|].
  destruct (Hh (su_Password u)) as [h ->]. rewrite Hi. simpl orb.
  assert (Hno : existsb (λ r, String.eqb (row_Email r) (su_Email u)) (users d) = false ∧
                List.find (λ r, String.eqb (row_Email r) (su_Email u)) (users d) = None).
  { unfold id_of in Hid. destruct (List.find _ _) eqn:Hf; [done|]. split; [|done].
    apply not_true_iff_false. intros (x & Hx & He)%existsb_exists. by rewrite (find_none _ _ Hf x Hx) in He. }
  destruct Hno as [-> Hf]. exists (w_newID w (su_Email u)). split_and!; [done| |].
  - unfold id_of. simpl. clear Hid Hd. induction (users d) as [|r rs IH]; simpl in *; [by rewrite String.eqb_refl|].
    destruct (String.eqb (row_Email r) (su_Email u)); [done|]. by apply IH.
  - apply Forall_app. split; [done|]. apply Forall_singleton. apply Hn.
Qed.

Lemma seed_user_done u d : su_Role u ≠ "" → ids_set d → user_done u (seed_user w d u) ∧ ids_set (seed_user w d u).
Proof.
  intros Hr Hd. destruct (ensure_user_done u d Hd) as (i & H2 & Hid & Hset). unfold seed_user.
  destruct (ensure_user w u d) as [d' o]; simpl in *. subst o. pose proof (id_of_set _ _ _ Hset Hid) as Hne.
  rewrite (proj2 (String.eqb_neq _ _) Hne), (proj2 (String.eqb_neq _ _) Hr). simpl. split; [|by apply ensure_rule_ids].
  exists i. split_and!; [|done|apply ensure_rule_done]. eapply extends_id; [apply ensure_rule_extends|done].
Qed.

Lemma user_done_extends u d d' : extends d d' → user_done u d → user_done u d'.
Proof. intros He (i & Hi & Hne & Hr). exists i. eauto using extends_id, extends_rule. Qed.

Lemma seed_users_done l d :
  Forall (λ u, su_Role u ≠ "") l → ids_set d →
  Forall (λ u, user_done u (fold_left (seed_user w) l d)) l ∧ ids_set (fold_left (seed_user w) l d).
Proof.
  intros Hl. revert d. induction Hl as [|u l Hu Hl IH]; intros d Hd; simpl; [done|].
  destruct (seed_user_done u d Hu Hd) as [Hdone Hset]. destruct (IH (seed_user w d u) Hset) as [H1 H2].
  split; [|done]. constructor; [|done]. eapply user_done_extends; [|exact Hdone].
  apply fold_extends. intros. apply seed_user_extends.
Qed.

Lemma seed_permissions_done l d : Forall (λ p, permission_done p (fold_left (seed_permission w) l d)) l.
Proof.
  revert d. induction l as [|p l IH]; intros d; simpl; [done|]. constructor; [|apply IH].
  eapply extends_rule; [apply fold_extends; intros; apply ensure_rule_extends|]. apply ensure_rule_done.
Qed.

(** What is done is left alone. *)
Lemma seed_user_fix u d : user_done u d → seed_user w d u = d.
Proof.
  destruct Hw as (_ & _ & Hs & _ & Hc & _). intros (i & Hi & Hne & Hr). unfold seed_user, ensure_user. rewrite Hs, Hi.
  destruct (negb _ && negb _); [|done]. unfold ensure_rule. rewrite Hc. by rewrite Hr.
Qed.

Lemma fold_fix {A} (step : db → A → db) (P : A → Prop) l d :
  (∀ x, P x → step d x = d) → Forall P l → fold_left step l d = d.
Proof. intros Hs Hl. induction Hl as [|x l Hx Hl IH]; simpl; [done|]. by rewrite Hs. Qed.

(** Seeding converges and is idempotent: whatever an earlier run, cut short anywhere or
    with failing statements, has left (it only ever appends), a run without failures ends
    with every seeded account, role assignment and permission in place, and running it
    again changes nothing. *)
Theorem seed_idempotent (d : db) (w0 : World) :
  ids_set d →
  extends d (seed w d) ∧
  Forall (λ u, user_done u (seed w d)) seedUsers ∧ Forall (λ p, permission_done p (seed w d)) seedPermissions ∧
  seed w (seed w d) = seed w d ∧ extends d (seed w0 d).
Proof.
  intros Hd.
  assert (Hext : ∀ w d, extends d (seed w d)).
  { intros w1 d1. unfold seed. etrans; [apply (fold_extends (seed_user w1)); intros; apply seed_user_extends|].
    apply fold_extends. intros. apply ensure_rule_extends. }
  assert (Hroles : Forall (λ u, su_Role u ≠ "") seedUsers) by (unfold seedUsers; repeat constructor; done).
  destruct (seed_users_done seedUsers d Hroles Hd) as [Hu _].
  assert (Husers : Forall (λ u, user_done u (seed w d)) seedUsers).
  { eapply Forall_impl; [exact Hu|]. intros u. apply user_done_extends.
    unfold seed. apply fold_extends. intros. apply ensure_rule_extends. }
  pose proof (seed_permissions_done seedPermissions (fold_left (seed_user w) seedUsers d)) as Hp.
  split_and!; [apply Hext|done|done| |apply Hext].
  unfold seed at 1. rewrite (fold_fix _ (λ u, user_done u (seed w d)));
    [|intros x Hx; by apply seed_user_fix|done].
  apply (fold_fix _ (λ p, permission_done p (seed w d))); [|done].
  intros x Hx. destruct Hw as (_ & _ & _ & _ & Hc & _). unfold seed_permission, ensure_rule. rewrite Hc.
  by rewrite Hx.
Qed.

End healthy.

(** ** The seeded policy at the routes *)

Import MemEnforcer.

(** The enforcer the adapter loads from the rules. *)
Definition loaded (d : db) : memEnforcer :=
  mkMem (list_to_set (omap (λ r, match r with "p" :: fs => Some fs | _ => None end) (rules d)))
        (list_to_set (omap (λ r, match r with "g" :: fs => Some fs | _ => None end) (rules d))).

Definition fresh_world : World :=
  mkWorld (λ e, e) (λ p, Some p) (λ _, false) (λ _, false) (λ _, false) (λ _, false).
Definition seeded : db := seed fresh_world (mkDb [] []).

(** The guards of an endpoint, decided for an authenticated user. *)
Definition may (e : memEnforcer) (user : string) (ep : endpoint) : bool :=
  forallb (λ g, match g with
                | GPermission o a => match enf_Enforce e user o a with Ok b => b | Err _ => false end
                | GRole r => match enf_HasRoleForUser e user r with Ok b => b | Err _ => false end
                | _ => true
                end) (required ep).

Definition guarded_endpoints : list endpoint :=
  [UserList; UserGetByID; UserCreate; UserUpdate; UserDelete; RoleListRoles; RoleAssignRole; RoleAddUserPermission;
   SseBroadcast; SseClientCount; JobDispatch; JobListTypes].

(** Who may do what after seeding.  The superadmin's wildcard grants every permission, but
    the job routes ask for the admin role itself, which the superadmin does not have; an
    admin may not broadcast; a viewer may only read users. *)
Example seeded_access :
  List.filter (may (loaded seeded) "superadmin@example.com") guarded_endpoints =
    [UserList; UserGetByID; UserCreate; UserUpdate; UserDelete; RoleListRoles; RoleAssignRole; RoleAddUserPermission;
     SseBroadcast; SseClientCount] ∧
  List.filter (may (loaded seeded) "admin@example.com") guarded_endpoints =
    [UserList; UserGetByID; UserCreate; UserUpdate; UserDelete; RoleListRoles; RoleAssignRole; RoleAddUserPermission;
     JobDispatch; JobListTypes] ∧
  List.filter (may (loaded seeded) "user@example.com") guarded_endpoints = [UserList; UserGetByID].
Proof. vm_compute. auto. Qed.

End Seed.
