(* ===== verification/Sse.v ===== *)
(** * Server-sent events

    Models [internal/adapter/sse/broker.go] (the broker), [noop.go], and the handlers of
    [internal/module/sse/handler/sse_handler.go] with the wire format they write.
    Channels live in a heap, because the broker, its callers and the readers share them:
    sending on a closed channel and closing one twice are Go panics, [None] here.  Every
    broker method runs under the broker's lock, so a run is a sequence of whole method
    calls interleaved with the readers' receives. *)
From S2P Require Import Prelude GoStr AppErr Port Middleware.
Import GoStr AppErr Middleware.

Module Sse.

Record Event := mkEvent { ev_ID : string; ev_Event : string; ev_Data : string; ev_Retry : Z }.
Definition NewEvent (eventType data : string) : Event := mkEvent "" eventType data 0.
Definition NewEventWithID (id eventType data : string) : Event := mkEvent id eventType data 0.

(** ** Channels *)

Record chan := mkChan { buf : list Event; cap : Z; closed : bool }.
Notation heap := (gmap positive chan).

Definition close_chan (h : heap) (c : positive) : option heap :=
  match h !! c with
  | Some ch => if closed ch then None else Some (<[c := mkChan (buf ch) (cap ch) true]> h)
  | None => None
  end.

(** [select { case c <- ev: default: }] *)
Definition try_send (h : heap) (c : positive) (ev : Event) : option heap :=
  match h !! c with
  | Some ch =>
      if closed ch then None
      else if Z.of_nat (length (buf ch)) <? cap ch
           then Some (<[c := mkChan (buf ch ++ [ev]) (cap ch) false]> h)
           else Some h
  | None => None
  end.

(** A receive of the reader that does not block: the event, or [None] on a closed and
    drained channel. *)
Definition recv (h : heap) (c : positive) : heap * option Event :=
  match h !! c with
  | Some (mkChan (ev :: rest) n cl) => (<[c := mkChan rest n cl]> h, Some ev)
  | _ => (h, None)
  end.

(** ** The broker *)

Record clientInfo := mkClientInfo { channel : positive; topics : gset string }.

Record Broker := mkBroker {
  clients : gmap string clientInfo;
  bufferSize : Z;
  chans : heap;
  next : positive            (* allocation: the next channel *)
}.

Definition with_chans (b : Broker) (h : heap) : Broker := mkBroker (clients b) (bufferSize b) h (next b).

Definition NewBroker (n : Z) : Broker := mkBroker ∅ (if n <=? 0 then 100 else n) ∅ 1.

Definition Subscribe (b : Broker) (clientID : string) (ts : list string) : option (Broker * positive) :=
  let h0 := match clients b !! clientID with
            | Some prior => close_chan (chans b) (channel prior)
            | None => Some (chans b)
            end in
  match h0 with
  | None => None
  | Some h =>
      let ch := next b in
      Some (mkBroker (<[clientID := mkClientInfo ch (list_to_set ts)]> (clients b)) (bufferSize b)
              (<[ch := mkChan [] (bufferSize b) false]> h) (Pos.succ ch), ch)
  end.

Definition Unsubscribe (b : Broker) (clientID : string) : option Broker :=
  match clients b !! clientID with
  | Some info =>
      match close_chan (chans b) (channel info) with
      | Some h => Some (mkBroker (delete clientID (clients b)) (bufferSize b) h (next b))
      | None => None
      end
  | None => Some b
  end.

(** Iteration over the client map; [wants] is the loop's guard. *)
Fixpoint send_all (wants : clientInfo → bool) (ev : Event) (l : list (string * clientInfo)) (h : heap) : option heap :=
  match l with
  | [] => Some h
  | (_, info) :: l' =>
      if wants info then
        match try_send h (channel info) ev with
        | Some h' => send_all wants ev l' h'
        | None => None
        end
      else send_all wants ev l' h
  end.

Definition Broadcast (b : Broker) (ev : Event) : option Broker :=
  with_chans b <$> send_all (λ _, true) ev (map_to_list (clients b)) (chans b).

Definition topic_wants (topic : string) (info : clientInfo) : bool :=
  if decide (topic ∈ topics info) then true
  else if 0 <? Z.of_nat (size (topics info)) then false else true.

Definition BroadcastToTopic (b : Broker) (topic : string) (ev : Event) : option Broker :=
  with_chans b <$> send_all (topic_wants topic) ev (map_to_list (clients b)) (chans b).

Definition SendTo (b : Broker) (clientID : string) (ev : Event) : option Broker :=
  match clients b !! clientID with
  | Some info => with_chans b <$> try_send (chans b) (channel info) ev
  | None => Some b
  end.

Definition ClientCount (b : Broker) : Z := Z.of_nat (size (clients b)).

Fixpoint close_all (l : list (string * clientInfo)) (h : heap) : option heap :=
  match l with
  | [] => Some h
  | (_, info) :: l' =>
      match close_chan h (channel info) with Some h' => close_all l' h' | None => None end
  end.

Definition Close (b : Broker) : option Broker :=
  match close_all (map_to_list (clients b)) (chans b) with
  | Some h => Some (mkBroker ∅ (bufferSize b) h (next b))
  | None => None
  end.

(** ** No panic *)

Inductive op :=
| OSubscribe (clientID : string) (ts : list string)
| OUnsubscribe (clientID : string)
| OBroadcast (ev : Event)
| OBroadcastToTopic (topic : string) (ev : Event)
| OSendTo (clientID : string) (ev : Event)
| OClose
| ORecv (c : positive).

Definition step (b : Broker) (o : op) : option Broker :=
  match o with
  | OSubscribe id ts => fst <$> Subscribe b id ts
  | OUnsubscribe id => Unsubscribe b id
  | OBroadcast ev => Broadcast b ev
  | OBroadcastToTopic t ev => BroadcastToTopic b t ev
  | OSendTo id ev => SendTo b id ev
  | OClose => Close b
  | ORecv c => Some (with_chans b (recv (chans b) c).1)
  end.

Fixpoint run (b : Broker) (ops : list op) : option Broker :=
  match ops with
  | [] => Some b
  | o :: ops' => match step b o with Some b' => run b' ops' | None => None end
  end.

(** The channel of a registered client is open, of the broker's capacity, and shared with
    no other client; buffers fit; allocated channels are below [next]. *)
Definition open_chan (h : heap) (n : Z) (c : positive) : Prop :=
  ∃ l, h !! c = Some (mkChan l n false) ∧ Z.of_nat (length l) ≤ n.

Record wf (b : Broker) : Prop := {
  wf_open : ∀ id info, clients b !! id = Some info → open_chan (chans b) (bufferSize b) (channel info);
  wf_inj : ∀ i j x y, clients b !! i = Some x → clients b !! j = Some y → channel x = channel y → i = j;
  wf_next : ∀ c ch, chans b !! c = Some ch → (c < next b)%positive;
  wf_size : 0 < bufferSize b
}.

Lemma try_send_open h n c ev :
  open_chan h n c →
  ∃ h', try_send h c ev = Some h' ∧ dom h' = dom h ∧
    (∀ c', c' ≠ c → h' !! c' = h !! c') ∧
    (∀ l, h !! c = Some (mkChan l n false) →
       h' !! c = Some (mkChan (if Z.of_nat (length l) <? n then l ++ [ev] else l) n false)) ∧
    (∀ c', open_chan h n c' → open_chan h' n c').
Proof.
  intros (l & Hl & Hn). unfold try_send. rewrite Hl. cbn.
  destruct (Z.ltb_spec (Z.of_nat (length l)) n) as [Hlt|Hge].
  - eexists. split; [done|]. split_and!.
    + rewrite dom_insert_L. apply elem_of_dom_2 in Hl. set_solver.
    + intros c' Hne. by rewrite lookup_insert_ne.
    + intros l' Hl'. simplify_eq. rewrite lookup_insert_eq.
      by rewrite (proj2 (Z.ltb_lt _ _)).
    + intros c' (l' & Hl' & Hn'). destruct (decide (c' = c)) as [->|Hne].
      * eexists. rewrite lookup_insert_eq. split; [done|]. rewrite length_app. simpl. lia.
      * exists l'. by rewrite lookup_insert_ne.
  - eexists. split; [done|]. split_and!; try done.
    intros l' Hl'. simplify_eq. by rewrite (proj2 (Z.ltb_ge _ _)).
Qed.

Lemma close_open h n c :
  open_chan h n c →
  ∃ h', close_chan h c = Some h' ∧ dom h' = dom h ∧ (∀ c', c' ≠ c → h' !! c' = h !! c').
Proof.
  intros (l & Hl & Hn). unfold close_chan. rewrite Hl. cbn. eexists. split; [done|]. split.
  - rewrite dom_insert_L. apply elem_of_dom_2 in Hl. set_solver.
  - intros c' Hne. by rewrite lookup_insert_ne.
Qed.

Lemma dom_next (h h' : heap) (p : positive) :
  dom h' = dom h → (∀ c ch, h !! c = Some ch → (c < p)%positive) →
  ∀ c ch, h' !! c = Some ch → (c < p)%positive.
Proof.
  intros Hd Hp c ch Hc. apply elem_of_dom_2 in Hc. rewrite Hd in Hc.
  apply elem_of_dom in Hc as [ch' Hc]. eauto.
Qed.

Lemma other_channel (l : list (string * clientInfo)) info id' info' :
  channel info ∉ (channel <$> l.*2) → (id', info') ∈ l → channel info' ≠ channel info.
Proof.
  intros Hni Hin Heq. apply Hni. rewrite <-Heq. apply list_elem_of_fmap. exists info'.
  split; [done|]. apply list_elem_of_fmap. by exists (id', info').
Qed.

(** The client loop sends to every wanted client and to nobody else. *)
Lemma send_all_spec wants ev n l h :
  NoDup (channel <$> l.*2) → Forall (λ x, open_chan h n (channel x.2)) l →
  ∃ h', send_all wants ev l h = Some h' ∧ dom h' = dom h ∧
    (∀ c, c ∉ (channel <$> l.*2) → h' !! c = h !! c) ∧
    (∀ id info q, (id, info) ∈ l → h !! channel info = Some (mkChan q n false) →
       h' !! channel info =
       Some (mkChan (if wants info && (Z.of_nat (length q) <? n) then q ++ [ev] else q) n false)) ∧
    (∀ c, open_chan h n c → open_chan h' n c).
Proof.
  revert h. induction l as [|[id info] l IH]; intros h Hnd Ho; simpl in *.
  - exists h. split_and!; try done. by intros ? ? ? ?%elem_of_nil.
  - apply NoDup_cons in Hnd as [Hni Hnd]. apply Forall_cons in Ho as [Hc Ho]; simpl in Hc.
    assert (∀ h1, (∀ c', open_chan h n c' → open_chan h1 n c') → Forall (λ x, open_chan h1 n (channel x.2)) l) as Hmono.
    { intros h1 Hm. eapply Forall_impl; [exact Ho|]. simpl. auto. }
    destruct (wants info) eqn:Hw.
    + destruct (try_send_open h n (channel info) ev Hc) as (h1 & -> & Hd1 & Ho1 & Hs1 & Hm1).
      destruct (IH h1 Hnd (Hmono h1 Hm1)) as (h' & -> & Hd & Hout & Hin & Hm).
      exists h'. split_and!; [done|congruence| | |auto].
      * intros c [Hne Hnin]%not_elem_of_cons. rewrite Hout by done. by apply Ho1.
      * intros id' info' q [[= -> ->]|Hin']%elem_of_cons Hq.
        -- rewrite Hout by done. rewrite (Hs1 q Hq), Hw. done.
        -- apply (Hin id' info' q Hin'). rewrite Ho1 by (by eapply other_channel). done.
    + destruct (IH h Hnd (Hmono h (λ _ x, x))) as (h' & -> & Hd & Hout & Hin & Hm).
      exists h'. split_and!; [done|done| | |done].
      * intros c [Hne Hnin]%not_elem_of_cons. by apply Hout.
      * intros id' info' q [[= -> ->]|Hin']%elem_of_cons Hq; [|by eapply Hin].
        rewrite Hout by done. by rewrite Hq, Hw.
Qed.

Lemma close_all_spec n l h :
  NoDup (channel <$> l.*2) → Forall (λ x, open_chan h n (channel x.2)) l →
  ∃ h', close_all l h = Some h' ∧ dom h' = dom h.
Proof.
  revert h. induction l as [|[id info] l IH]; intros h Hnd Ho; simpl in *; [eauto|].
  apply NoDup_cons in Hnd as [Hni Hnd]. apply Forall_cons in Ho as [Hc Ho]; simpl in Hc.
  destruct (close_open h n (channel info) Hc) as (h1 & -> & Hd1 & Hout).
  destruct (IH h1 Hnd) as (h' & -> & Hd); [|exists h'; split; [done|congruence]].
  apply Forall_forall. intros [id' info'] Hin. pose proof (proj1 (Forall_forall _ _) Ho _ Hin) as (q & Hq & Hn).
  simpl in *. exists q. rewrite Hout; [done|]. by eapply other_channel.
Qed.

Lemma wf_channels b : wf b → NoDup (channel <$> (map_to_list (clients b)).*2).
Proof.
  intros [_ Hinj _ _]. rewrite <-list_fmap_compose.
  apply NoDup_fmap_2_strong; [|apply NoDup_map_to_list].
  intros [i x] [j y] Hi Hj Heq. apply elem_of_map_to_list in Hi, Hj. simpl in Heq.
  pose proof (Hinj _ _ _ _ Hi Hj Heq) as ->. congruence.
Qed.

Lemma wf_all_open b : wf b → Forall (λ x, open_chan (chans b) (bufferSize b) (channel x.2)) (map_to_list (clients b)).
Proof.
  intros [Hop _ _ _]. apply Forall_forall. intros [i x] Hi. apply elem_of_map_to_list in Hi. by eapply Hop.
Qed.

Lemma wf_with_chans b h :
  wf b → dom h = dom (chans b) → (∀ c, open_chan (chans b) (bufferSize b) c → open_chan h (bufferSize b) c) →
  wf (with_chans b h).
Proof.
  intros [H1 H2 H3 H4] Hd Hm. split; simpl; [by eauto|done| |done]. by eapply dom_next.
Qed.

Lemma wf_broadcast b wants ev :
  wf b → ∃ h, send_all wants ev (map_to_list (clients b)) (chans b) = Some h ∧ wf (with_chans b h).
Proof.
  intros Hwf. destruct (send_all_spec wants ev (bufferSize b) _ _ (wf_channels b Hwf) (wf_all_open b Hwf))
    as (h & Heq & Hd & _ & _ & Hm). exists h. split; [done|]. by apply wf_with_chans.
Qed.

(** Closing the channel of one client leaves the others' open. *)
Lemma wf_close_one b id info :
  wf b → clients b !! id = Some info →
  ∃ h, close_chan (chans b) (channel info) = Some h ∧
    wf (mkBroker (delete id (clients b)) (bufferSize b) h (next b)).
Proof.
  intros [H1 H2 H3 H4] Hi. destruct (close_open _ _ _ (H1 _ _ Hi)) as (h & -> & Hd & Hout).
  exists h. split; [done|]. split; simpl; [| |by eapply dom_next|done].
  - intros j y Hj. apply lookup_delete_Some in Hj as [Hne Hj]. destruct (H1 _ _ Hj) as (q & Hq & Hn).
    exists q. split; [|done]. rewrite Hout; [done|]. intros Heq. apply Hne. by eapply H2.
  - intros i j x y Hx Hy. apply lookup_delete_Some in Hx as [_ Hx], Hy as [_ Hy]. by eapply H2.
Qed.

(** Registering a fresh channel. *)
Lemma wf_register b id ts :
  wf b → clients b !! id = None →
  wf (mkBroker (<[id := mkClientInfo (next b) ts]> (clients b)) (bufferSize b)
        (<[next b := mkChan [] (bufferSize b) false]> (chans b)) (Pos.succ (next b))).
Proof.
  intros [H1 H2 H3 H4] Hnew.
  assert (∀ j y, clients b !! j = Some y → channel y ≠ next b) as Hfresh.
  { intros j y Hj Heq. destruct (H1 _ _ Hj) as (q & Hq & _). apply H3 in Hq. lia. }
  split; simpl; [| | |done].
  - intros j y Hj. apply lookup_insert_Some in Hj as [[<- <-]|[Hne Hj]]; simpl.
    + exists []. rewrite lookup_insert_eq. simpl. split; [done | lia].
    + destruct (H1 _ _ Hj) as (q & Hq & Hn). exists q. rewrite lookup_insert_ne; [done|].
      intros Heq. by apply (Hfresh _ _ Hj).
  - intros i j x y Hx Hy Heq.
    apply lookup_insert_Some in Hx as [[<- <-]|[Hnx Hx]], Hy as [[<- <-]|[Hny Hy]]; simpl in *; [done| | |by eapply H2].
    + by destruct (Hfresh _ _ Hy).
    + by destruct (Hfresh _ _ Hx).
  - intros c ch Hc. apply lookup_insert_Some in Hc as [[<- _]|[_ Hc]]; [lia|]. apply H3 in Hc. lia.
Qed.

Lemma step_wf b o : wf b → ∃ b', step b o = Some b' ∧ wf b'.
Proof.
  intros Hwf. destruct o as [id ts|id|ev|t ev|id ev| |c]; simpl.
  - unfold Subscribe. destruct (clients b !! id) as [prior|] eqn:Hi.
    + destruct (wf_close_one b id prior Hwf Hi) as (h & -> & Hw). eexists. split; [reflexivity|].
      rewrite <-insert_delete_eq. apply (wf_register _ id (list_to_set ts) Hw). apply lookup_delete_eq.
    + eexists. split; [reflexivity|]. by apply (wf_register b id (list_to_set ts)).
  - unfold Unsubscribe. destruct (clients b !! id) as [info|] eqn:Hi; [|eauto].
    destruct (wf_close_one b id info Hwf Hi) as (h & -> & Hw). eauto.
  - unfold Broadcast. destruct (wf_broadcast b (λ _, true) ev Hwf) as (h & -> & Hw). simpl. eauto.
  - unfold BroadcastToTopic. destruct (wf_broadcast b (topic_wants t) ev Hwf) as (h & -> & Hw). simpl. eauto.
  - unfold SendTo. destruct (clients b !! id) as [info|] eqn:Hi; [|eauto].
    destruct (try_send_open _ _ _ ev (wf_open b Hwf _ _ Hi)) as (h & -> & Hd & _ & _ & Hm). simpl.
    eexists. split; [reflexivity|]. by apply wf_with_chans.
  - unfold Close.
    destruct (close_all_spec _ _ _ (wf_channels b Hwf) (wf_all_open b Hwf)) as (h & -> & Hd).
    eexists. split; [reflexivity|]. destruct Hwf as [H1 H2 H3 H4]. split; simpl; [done|done| |done].
    by eapply dom_next.
  - eexists. split; [reflexivity|]. unfold recv.
    destruct (chans b !! c) as [[[|ev rest] n cl]|] eqn:Hc; simpl; try (by destruct b).
    apply wf_with_chans; [done| |].
    + rewrite dom_insert_L. apply elem_of_dom_2 in Hc. set_solver.
    + intros c' (l & Hl & Hn). destruct (decide (c' = c)) as [->|Hne].
      * simplify_eq. exists rest. rewrite lookup_insert_eq. simpl in Hn. split; [done|lia].
      * exists l. by rewrite lookup_insert_ne.
Qed.

Lemma wf_new n : wf (NewBroker n).
Proof. split; simpl; try done. destruct (Z.leb_spec n 0); lia. Qed.

Lemma run_wf b ops : wf b → ∃ b', run b ops = Some b' ∧ wf b'.
Proof.
  revert b. induction ops as [|o ops IH]; intros b Hwf; simpl; [eauto|].
  destruct (step_wf b o Hwf) as (b' & -> & Hwf'). by apply IH.
Qed.

(** C24: the broker never panics.  Whatever buffer size it was created with and whatever
    methods run afterwards, in any order and interleaved with any receives of the readers
    (subscribing an existing id again, unsubscribing twice, closing and going on), no
    method sends on a closed channel or closes a channel twice. *)
Theorem broker_never_panics (n : Z) (ops : list op) : is_Some (run (NewBroker n) ops).
Proof. destruct (run_wf (NewBroker n) ops (wf_new n)) as (b & -> & _). eauto. Qed.

(** ** Delivery *)

Lemma topic_wants_spec t info : topic_wants t info = true ↔ t ∈ topics info ∨ topics info = ∅.
Proof.
  unfold topic_wants. case_decide as Ht; [by split; auto|].
  destruct (Z.ltb_spec 0 (Z.of_nat (size (topics info)))) as [Hs|Hs].
  - split; [done|]. intros [?|He]; [done|]. rewrite He, size_empty in Hs. lia.
  - split; [intros _; right; apply leibniz_equiv, size_empty_inv; lia | done].
Qed.

(** Topic delivery is exact.  After any run, a broadcast to a topic appends the event
    at the end of the buffer of each client that subscribed to the topic or to no topic
    at all, unless its buffer is full, and changes nothing else: not the other buffers,
    not the set of clients. *)
Theorem topic_broadcast_exact (n : Z) (ops : list op) (b : Broker) (topic : string) (ev : Event) :
  run (NewBroker n) ops = Some b →
  ∃ b', BroadcastToTopic b topic ev = Some b' ∧ clients b' = clients b ∧
    ∀ id info, clients b !! id = Some info →
      ∃ q, chans b !! channel info = Some (mkChan q (bufferSize b) false) ∧
        ((topic ∈ topics info ∨ topics info = ∅) ∧ Z.of_nat (length q) < bufferSize b →
           chans b' !! channel info = Some (mkChan (q ++ [ev]) (bufferSize b) false)) ∧
        (¬ (topic ∈ topics info ∨ topics info = ∅) ∨ Z.of_nat (length q) = bufferSize b →
           chans b' !! channel info = Some (mkChan q (bufferSize b) false)).
Proof.
  intros Hrun. destruct (run_wf _ ops (wf_new n)) as (b1 & Heq & Hwf). rewrite Hrun in Heq. simplify_eq.
  destruct (send_all_spec (topic_wants topic) ev (bufferSize b1) _ _ (wf_channels b1 Hwf) (wf_all_open b1 Hwf))
    as (h & Hs & _ & _ & Hin & _).
  exists (with_chans b1 h). unfold BroadcastToTopic. rewrite Hs. split; [done|]. split; [done|].
  intros id info Hi. destruct (wf_open b1 Hwf _ _ Hi) as (q & Hq & Hn). exists q. split; [done|].
  specialize (Hin id info q (proj2 (elem_of_map_to_list _ _ _) Hi) Hq). simpl. rewrite Hin.
  split.
  - intros [Hw Hlt]. by rewrite (proj2 (topic_wants_spec _ _) Hw), (proj2 (Z.ltb_lt _ _) Hlt).
  - intros [Hw|Hfull].
    + destruct (topic_wants topic info) eqn:Ht; [|done]. by apply topic_wants_spec in Ht.
    + rewrite (proj2 (Z.ltb_ge _ _)) by lia. by rewrite andb_false_r.
Qed.

Definition sample_ops : list op := [OSubscribe "a" ["x"]; OSubscribe "b" []; OSubscribe "c" ["y"]].
Definition sample : Broker := default (NewBroker 1) (run (NewBroker 1) sample_ops).

Lemma topic_broadcast_exact_witness :
  ∃ b', BroadcastToTopic sample "x" (NewEvent "e" "d") = Some b' ∧
    chans b' !! 1%positive = Some (mkChan [NewEvent "e" "d"] 1 false) ∧
    chans b' !! 3%positive = Some (mkChan [] 1 false).
Proof.
  destruct (topic_broadcast_exact 1 sample_ops sample "x" (NewEvent "e" "d") eq_refl) as (b' & Hb & _ & Hall).
  exists b'. split; [exact Hb|]. split.
  - destruct (Hall "a" (mkClientInfo 1 (list_to_set ["x"])) eq_refl) as (q & Hq & Hyes & _).
    assert (q = []) as -> by (vm_compute in Hq; by injection Hq).
    apply Hyes. split; [left; simpl; set_solver | done].
  - destruct (Hall "c" (mkClientInfo 3 (list_to_set ["y"])) eq_refl) as (q & Hq & _ & Hno).
    assert (q = []) as -> by (vm_compute in Hq; by injection Hq).
    apply Hno. left. intros [Hx|Hx]; [simpl in Hx; set_solver | vm_compute in Hx; discriminate Hx].
Defined.

(** ** The handlers *)

Definition LF : ascii := "010"%char.
Definition CR : ascii := "013"%char.

Definition line (name value : string) : string := name +:+ ": " +:+ value +:+ String LF "".
#[local] Arguments line : simpl never.

(** What the stream writer prints for one event. *)
Definition writeEvent (ev : Event) : string :=
  (if String.eqb (ev_ID ev) "" then "" else line "id" (ev_ID ev)) +:+
  (if String.eqb (ev_Event ev) "" then "" else line "event" (ev_Event ev)) +:+
  (if String.eqb (ev_Data ev) "" then "" else line "data" (ev_Data ev)) +:+
  (if 0 <? ev_Retry ev then line "retry" (pretty (ev_Retry ev)) else "") +:+
  String LF "".

(** The body stream: events read from the channel, each with the outcome of its flush; the
    loop ends with the channel or at the first failed flush, then unsubscribes. *)
Fixpoint stream (reads : list (Event * bool)) : string :=
  match reads with
  | [] => ""
  | (ev, flushed) :: reads' => writeEvent ev +:+ (if flushed then stream reads' else "")
  end.

Definition streamWriter (b : Broker) (connID : string) (reads : list (Event * bool)) : option Broker * string :=
  (Unsubscribe b connID, stream reads).

Definition parse_topics (param : string) : list string :=
  if String.eqb param "" then [] else filter (λ t, t ≠ "") (TrimSpace <$> Split "," param).

(** [connID] is [uuid.NewString()]; [None] in front is a panic. *)
Definition h_Subscribe (b : Broker) (r : Request) (topicsParam connID : string)
    : option (Broker * (outcome * option positive)) :=
  if String.eqb (GetUserID r) "" then
    Some (b, (Respond (Resp.Unauthorized "Authentication required"), None))
  else
    match Subscribe b connID (parse_topics topicsParam) with
    | None => None
    | Some (b', ch) =>
        let r := SetHeader r "Content-Type" "text/event-stream" in
        let r := SetHeader r "Cache-Control" "no-cache" in
        let r := SetHeader r "Connection" "keep-alive" in
        Some (b', (Next r, Some ch))
    end.

(** [body] is what [BodyParser] decoded: event, data, topic *)
Definition h_Broadcast (b : Broker) (body : option (string * string * string)) : option (Broker * Response unit) :=
  match body with
  | None => Some (b, Resp.Fail (BadRequestf "Invalid request body"))
  | Some (event, data, topic) =>
      if String.eqb event "" then Some (b, Resp.Fail (BadRequestf "Event type is required"))
      else
        let ev := NewEvent event data in
        match (if String.eqb topic "" then Broadcast b ev else BroadcastToTopic b topic ev) with
        | Some b' => Some (b', Resp.Message "Event broadcast successfully")
        | None => None
        end
  end.

Definition h_ClientCount (b : Broker) : Response Z := Resp.Success (ClientCount b).

(** ** The stream as a reader sees it *)

(** The EventSource line protocol on LF-terminated lines: fields accumulate until an empty
    line dispatches an event, if it has data. *)
Record reader := mkReader { r_type : string; r_data : list string }.

Definition strip_space (v : string) : string :=
  match v with String c v' => if Ascii.eqb c " " then v' else v | EmptyString => "" end.

Definition read_line (st : reader) (l : string) : reader * option (string * string) :=
  if String.eqb l "" then
    (mkReader "" [],
     match r_data st with
     | [] => None
     | ds => Some (if String.eqb (r_type st) "" then "message" else r_type st, Join LF ds)
     end)
  else
    let '(name, v) := match cut ":" l with Some (n, v) => (n, strip_space v) | None => (l, "") end in
    (if String.eqb name "event" then mkReader v (r_data st)
     else if String.eqb name "data" then mkReader (r_type st) (r_data st ++ [v])
     else st, None).

Fixpoint read_lines (st : reader) (ls : list string) : list (string * string) :=
  match ls with
  | [] | [_] => []         (* the last fragment is not terminated *)
  | l :: ls' =>
      let '(st', out) := read_line st l in
      match out with Some e => e :: read_lines st' ls' | None => read_lines st' ls' end
  end.

Definition read_stream (s : string) : list (string * string) := read_lines (mkReader "" []) (Split LF s).

Definition clean (s : string) : Prop := contains_byte LF s = false ∧ contains_byte CR s = false.
Definition clean_event (ev : Event) : Prop := clean (ev_ID ev) ∧ clean (ev_Event ev) ∧ clean (ev_Data ev).

Definition as_message (ev : Event) : option (string * string) :=
  if String.eqb (ev_Data ev) "" then None
  else Some (if String.eqb (ev_Event ev) "" then "message" else ev_Event ev, ev_Data ev).

Lemma read_lines_cons st l ls :
  ls ≠ [] →
  read_lines st (l :: ls) =
  (match (read_line st l).2 with Some e => [e] | None => [] end) ++ read_lines (read_line st l).1 ls.
Proof. destruct ls as [|l' ls]; [done|]. intros _. cbn [read_lines]. by destruct (read_line st l) as [st' [e|]]. Qed.

Lemma read_field st name v rest :
  contains_byte LF name = false → contains_byte ":" name = false → contains_byte LF v = false → name ≠ "" →
  read_lines st (Split LF (line name v +:+ rest)) =
  read_lines (if String.eqb name "event" then mkReader v (r_data st)
              else if String.eqb name "data" then mkReader (r_type st) (r_data st ++ [v]) else st)
             (Split LF rest).
Proof.
  intros Hn Hc Hv Hne. unfold line. rewrite !append_assoc. simpl.
  replace (name +:+ String ":" (String " " (v +:+ String LF rest)))
    with ((name +:+ ": " +:+ v) +:+ String LF rest) by (by rewrite !append_assoc).
  rewrite Split_append by (by rewrite !contains_byte_append, Hn, Hv).
  rewrite read_lines_cons by apply Split_nonempty.
  unfold read_line. destruct (String.eqb_spec (name +:+ ": " +:+ v) "") as [He|_]; [by destruct name|].
  assert (cut ":" (name +:+ ": " +:+ v) = Some (name, " " +:+ v)) as -> by (by apply cut_Some). done.
Qed.

Lemma read_end st rest :
  read_lines st (Split LF (String LF rest)) =
  (match r_data st with [] => [] | ds => [(if String.eqb (r_type st) "" then "message" else r_type st, Join LF ds)] end)
  ++ read_lines (mkReader "" []) (Split LF rest).
Proof.
  change (String LF rest) with ("" +:+ String LF rest). rewrite Split_append by done.
  rewrite read_lines_cons by apply Split_nonempty. unfold read_line; simpl. by destruct (r_data st).
Qed.

Lemma digits_clean (n : Z) : contains_byte LF (pretty n) = false.
Proof.
  assert (∀ x s, contains_byte LF s = false → contains_byte LF (pretty_N_go x s) = false) as Hgo.
  { intros x. induction (N.lt_wf_0 x) as [x _ IH]. intros s Hs. destruct (decide (0 < x)%N) as [Hx|Hx].
    - rewrite pretty_N_go_step by done. apply IH; [by apply N.div_lt|].
      cbn. rewrite Hs, orb_false_r. unfold pretty_N_char. by repeat case_match.
    - assert (x = 0%N) as -> by lia. by rewrite pretty_N_go_0. }
  unfold pretty, pretty_Z. destruct n as [|p|p]; [done| |]; unfold pretty, pretty_positive, pretty_N.
  all: try rewrite decide_False by done; try apply Hgo; try done.
Qed.

Lemma read_event ev rest :
  clean_event ev →
  read_lines (mkReader "" []) (Split LF (writeEvent ev +:+ rest)) =
  option_list (as_message ev) ++ read_lines (mkReader "" []) (Split LF rest).
Proof.
  intros ((Hi & _) & (He & _) & (Hd & _)). unfold writeEvent, as_message. rewrite !append_assoc.
  assert (∀ (c : bool) name v st r, contains_byte LF v = false → name ∈ ["id"; "retry"] →
    read_lines st (Split LF ((if c then line name v else "") +:+ r)) = read_lines st (Split LF r)) as Hskip.
  { intros [] name v st r Hv Hn; [|done]. rewrite !elem_of_cons in Hn.
    destruct Hn as [->|[->|Hn]]; [..|by apply elem_of_nil in Hn]; by rewrite read_field. }
  replace (if String.eqb (ev_ID ev) "" then "" else line "id" (ev_ID ev))
    with (if negb (String.eqb (ev_ID ev) "") then line "id" (ev_ID ev) else "") by (by destruct (String.eqb _ _)).
  rewrite Hskip by (done || set_solver).
  assert (∀ t, "" +:+ t = t) as Hnil by done.
  assert (String LF "" +:+ rest = String LF rest) as Hlf by done.
  destruct (String.eqb_spec (ev_Event ev) "") as [He0|He0], (String.eqb_spec (ev_Data ev) "") as [Hd0|Hd0];
    rewrite ?Hnil, ?read_field by done; cbn -[Split Join line pretty String.append Z.ltb];
    rewrite Hskip by (apply digits_clean || set_solver); rewrite Hlf, read_end; cbn -[Split];
    try done.
  by rewrite (proj2 (String.eqb_neq _ _) He0).
Qed.

(** The event stream round-trips.  For events whose id, type and data hold no line
    break, the bytes the stream writer produces are read back, by the EventSource line
    protocol, as exactly the events with data, in order, with their type and data. *)
Theorem sse_stream_roundtrip (evs : list Event) :
  Forall clean_event evs →
  read_stream (stream ((λ ev, (ev, true)) <$> evs)) = omap as_message evs.
Proof.
  unfold read_stream. induction 1 as [|ev evs Hc _ IH]; [done|].
  cbn -[writeEvent Split]. rewrite read_event by done. fold stream. rewrite IH.
  by destruct (as_message ev).
Qed.

Lemma sse_stream_roundtrip_witness :
  read_stream (stream [(NewEventWithID "7" "tick" "a:b", true); (NewEvent "" "", true); (NewEvent "" "x", true)])
  = [("tick", "a:b"); ("message", "x")].
Proof.
  apply (sse_stream_roundtrip [NewEventWithID "7" "tick" "a:b"; NewEvent "" ""; NewEvent "" "x"]).
  repeat constructor.
Defined.

(** The condition is needed.  Data with line breaks is written unescaped: one broadcast
    whose data holds an empty line is read as two events, the second of a type and with
    data of the sender's choosing, and data over two lines loses its second line. *)
Theorem sse_data_injection :
  let nl := String LF "" in
  read_stream (writeEvent (NewEvent "note" ("hi" +:+ nl +:+ nl +:+ "event: admin" +:+ nl +:+ "data: wipe")))
    = [("note", "hi"); ("admin", "wipe")] ∧
  read_stream (writeEvent (NewEvent "note" ("line1" +:+ nl +:+ "line2"))) = [("note", "line1")].
Proof. vm_compute. done. Qed.

End Sse.
