(* ===== verification/SseStreams.v ===== *)
(** * Event streams end to end

    The broker of [Sse] and the body streams its handler starts
    ([internal/module/sse/handler/sse_handler.go]) as one system: a subscription registers a
    channel and starts a writer that reads it, broadcasts fill the channels, a failed flush
    or the closed channel ends the writer, which then unsubscribes.  The system refines a
    specification in which every stream is a bounded queue of its own. *)
From S2P Require Import Prelude GoStr AppErr Port Middleware Sse.
Import GoStr AppErr Middleware Sse.

Module SseStreams.

(** ** The system *)

(** A running body stream: its channel, and the events it has written and flushed. *)
Record writer := mkWriter { w_chan : positive; w_out : list Event }.

Record Sys := mkSys {
  broker : Broker;
  writers : gmap string writer;              (* by connection id *)
  ended : list (string * list Event)         (* streams that are over, with what they sent *)
}.

Inductive event :=
| ESubscribe (r : Request) (topicsParam connID : string)       (* GET /sse/subscribe *)
| EBroadcast (body : option (string * string * string))        (* POST /sse/broadcast *)
| EWrite (connID : string) (flushed : bool)                    (* one turn of a writer's loop *)
| EClose.                                                      (* the broker's Close, at shutdown *)

Definition with_broker (s : Sys) (b : Broker) : Sys := mkSys b (writers s) (ended s).

(** The writer's function returns: it unsubscribes. *)
Definition finish (s : Sys) (b : Broker) (connID : string) (out : list Event) : option Sys :=
  match Unsubscribe b connID with
  | None => None
  | Some b' => Some (mkSys b' (delete connID (writers s)) (ended s ++ [(connID, out)]))
  end.

(** One turn: an event is received, written and flushed; the loop ends at a failed flush or
    at the end of a closed channel, and waits on an open empty one. *)
Definition write_turn (s : Sys) (connID : string) (flushed : bool) : option Sys :=
  match writers s !! connID with
  | None => Some s
  | Some w =>
      match recv (chans (broker s)) (w_chan w) with
      | (h, Some ev) =>
          let b := with_chans (broker s) h in
          if flushed then Some (mkSys b (<[connID := mkWriter (w_chan w) (w_out w ++ [ev])]> (writers s)) (ended s))
          else finish s b connID (w_out w)
      | (_, None) =>
          match chans (broker s) !! w_chan w with
          | Some ch => if closed ch then finish s (broker s) connID (w_out w) else Some s
          | None => Some s
          end
      end
  end.

(** [None] is a panic. *)
Definition step (s : Sys) (e : event) : option Sys :=
  match e with
  | ESubscribe r topicsParam connID =>
      match h_Subscribe (broker s) r topicsParam connID with
      | None => None
      | Some (b, (_, None)) => Some (with_broker s b)
      | Some (b, (_, Some ch)) => Some (mkSys b (<[connID := mkWriter ch []]> (writers s)) (ended s))
      end
  | EBroadcast body =>
      match h_Broadcast (broker s) body with None => None | Some (b, _) => Some (with_broker s b) end
  | EWrite connID flushed => write_turn s connID flushed
  | EClose => with_broker s <$> Close (broker s)
  end.

Fixpoint run (s : Sys) (evs : list event) : option Sys :=
  match evs with
  | [] => Some s
  | e :: evs' => match step s e with Some s' => run s' evs' | None => None end
  end.

Definition init (bufferSize : Z) : Sys := mkSys (NewBroker bufferSize) ∅ [].

(** ** The specification: streams as bounded queues *)

Record stream := mkStream { topics : gset string; queue : list Event; open : bool; out : list Event }.

Record Spec := mkSpec { capacity : Z; live : gmap string stream; over : list (string * list Event) }.

Definition spec_init (bufferSize : Z) : Spec := mkSpec (if bufferSize <=? 0 then 100 else bufferSize) ∅ [].

Definition wants (topic : string) (st : stream) : bool :=
  String.eqb topic "" || topic_wants topic (mkClientInfo 1 (topics st)).

(** An event is queued by an open stream that wants it and has room, and lost otherwise. *)
Definition offer (cap : Z) (topic : string) (ev : Event) (st : stream) : stream :=
  if open st && wants topic st && (Z.of_nat (length (queue st)) <? cap)
  then mkStream (topics st) (queue st ++ [ev]) (open st) (out st) else st.

Definition spec_end (a : Spec) (id : string) (st : stream) : Spec :=
  mkSpec (capacity a) (delete id (live a)) (over a ++ [(id, out st)]).

Definition spec_step (a : Spec) (e : event) : Spec :=
  match e with
  | ESubscribe r topicsParam connID =>
      if String.eqb (GetUserID r) "" then a
      else mkSpec (capacity a) (<[connID := mkStream (list_to_set (parse_topics topicsParam)) [] true []]> (live a)) (over a)
  | EBroadcast (Some (event, data, topic)) =>
      if String.eqb event "" then a
      else mkSpec (capacity a) (offer (capacity a) topic (NewEvent event data) <$> live a) (over a)
  | EBroadcast None => a
  | EWrite id flushed =>
      match live a !! id with
      | None => a
      | Some st =>
          match queue st with
          | ev :: rest =>
              if flushed then mkSpec (capacity a) (<[id := mkStream (topics st) rest (open st) (out st ++ [ev])]> (live a)) (over a)
              else spec_end a id st
          | [] => if open st then a else spec_end a id st
          end
      end
  | EClose => mkSpec (capacity a) ((λ st, mkStream (topics st) (queue st) false (out st)) <$> live a) (over a)
  end.

Definition spec_run (a : Spec) (evs : list event) : Spec := fold_left spec_step evs a.

(** ** The refinement *)

(** What corresponds at one connection id: a writer and its queue, registered with the broker
    while the queue is open, or nothing. *)
Definition corr (b : Broker) (cap : Z) (id : string) (w : option writer) (st : option stream) : Prop :=
  match w, st with
  | Some w, Some st =>
      w_out w = out st ∧ chans b !! w_chan w = Some (mkChan (queue st) cap (negb (open st))) ∧
      clients b !! id = (if open st then Some (mkClientInfo (w_chan w) (topics st)) else None)
  | None, None => clients b !! id = None
  | _, _ => False
  end.

Record rel (s : Sys) (a : Spec) : Prop := {
  rel_wf : wf (broker s);
  rel_cap : bufferSize (broker s) = capacity a;
  rel_over : ended s = over a;
  rel_corr : ∀ id, corr (broker s) (capacity a) id (writers s !! id) (live a !! id);
  rel_inj : ∀ i j w w', writers s !! i = Some w → writers s !! j = Some w' → w_chan w = w_chan w' → i = j
}.

Lemma rel_some s a id st : rel s a → live a !! id = Some st →
  ∃ w, writers s !! id = Some w ∧ w_out w = out st ∧
    chans (broker s) !! w_chan w = Some (mkChan (queue st) (capacity a) (negb (open st))) ∧
    clients (broker s) !! id = (if open st then Some (mkClientInfo (w_chan w) (topics st)) else None).
Proof.
  intros Hr Hst. pose proof (rel_corr s a Hr id) as Hc. rewrite Hst in Hc.
  destruct (writers s !! id) as [w|]; [|done]. destruct Hc as (? & ? & ?). by exists w.
Qed.

Lemma rel_none s a id : rel s a → live a !! id = None → writers s !! id = None ∧ clients (broker s) !! id = None.
Proof.
  intros Hr Hst. pose proof (rel_corr s a Hr id) as Hc. rewrite Hst in Hc. by destruct (writers s !! id).
Qed.

(** The channel of a registered client is its writer's. *)
Lemma rel_client s a id info : rel s a → clients (broker s) !! id = Some info →
  ∃ w, writers s !! id = Some w ∧ channel info = w_chan w.
Proof.
  intros Hr Hi. pose proof (rel_corr s a Hr id) as Hc.
  destruct (writers s !! id) as [w|], (live a !! id) as [st|]; try done; [|simpl in Hc; congruence].
  destruct Hc as (_ & _ & Hc). exists w. split; [done|]. destruct (open st); [|congruence]. rewrite Hi in Hc. by injection Hc as ->.
Qed.

Lemma closed_not_client s a id w : rel s a → writers s !! id = Some w → clients (broker s) !! id = None →
  w_chan w ∉ channel <$> (map_to_list (clients (broker s))).*2.
Proof.
  intros Hr Hw Hn (info & Heq & [[j info'] [-> Hj]]%list_elem_of_fmap)%list_elem_of_fmap.
  apply elem_of_map_to_list in Hj. cbn in Heq. destruct (rel_client s a j info' Hr Hj) as (w' & Hw' & Hc').
  rewrite Hc' in Heq. pose proof (rel_inj s a Hr id j w w' Hw Hw' Heq) as ->. congruence.
Qed.

(** A change of the heap that touches only the channel of one writer leaves the others in
    correspondence. *)
Lemma corr_frame s a id b' :
  rel s a →
  (∀ j, j ≠ id → clients b' !! j = clients (broker s) !! j) →
  (∀ j w, j ≠ id → writers s !! j = Some w → chans b' !! w_chan w = chans (broker s) !! w_chan w) →
  ∀ j, j ≠ id → corr b' (capacity a) j (writers s !! j) (live a !! j).
Proof.
  intros Hr Hcl Hch j Hj. pose proof (rel_corr s a Hr j) as Hc. unfold corr in *.
  destruct (writers s !! j) as [w|] eqn:Hw, (live a !! j) as [st|]; try done; [|by rewrite Hcl].
  by rewrite Hcl, (Hch j w Hj Hw).
Qed.

Lemma rel_init n : rel (init n) (spec_init n).
Proof. split; try done. apply wf_new. Qed.

Lemma rel_subscribe s a r ts id :
  rel s a → live a !! id = None →
  ∃ s', step s (ESubscribe r ts id) = Some s' ∧ rel s' (spec_step a (ESubscribe r ts id)).
Proof.
  intros Hr Hnew. destruct (rel_none s a id Hr Hnew) as [Hw Hc]. cbn [step spec_step]. unfold h_Subscribe.
  destruct (String.eqb (GetUserID r) ""); [by eexists; split; [done|]; destruct s, Hr|].
  pose proof (step_wf (broker s) (OSubscribe id (parse_topics ts)) (rel_wf s a Hr)) as (b' & Hb & Hwf).
  cbn [Sse.step] in Hb. unfold Subscribe in *. rewrite Hc in *. cbn in Hb. injection Hb as <-. eexists. split; [reflexivity|].
  assert (Hlt : ∀ j w, writers s !! j = Some w → w_chan w ≠ next (broker s)).
  { intros j w Hj Heq. pose proof (rel_corr s a Hr j) as Hcj. rewrite Hj in Hcj. destruct (live a !! j) as [st|]; [|done].
    destruct Hcj as (_ & Hch & _). apply (wf_next _ (rel_wf s a Hr)) in Hch. lia. }
  split; [exact Hwf|exact (rel_cap s a Hr)|exact (rel_over s a Hr)| |].
  - intros j. cbn [broker writers live capacity]. destruct (decide (j = id)) as [->|Hj].
    + rewrite !lookup_insert_eq. cbn. rewrite !lookup_insert_eq. by rewrite (rel_cap s a Hr).
    + rewrite !lookup_insert_ne by done. apply (corr_frame s a id); [exact Hr| | |exact Hj]; cbn.
      * intros i Hi. by rewrite lookup_insert_ne.
      * intros i w Hi Hiw. rewrite lookup_insert_ne; [done|]. intros Heq. by apply (Hlt i w Hiw).
  - cbn [writers]. intros i j w w' Hi Hj Heq.
    apply lookup_insert_Some in Hi as [[<- <-]|[Hni Hi]], Hj as [[<- <-]|[Hnj Hj]]; cbn in Heq; try done.
    + by destruct (Hlt j w' Hj).
    + by destruct (Hlt i w Hi).
    + by apply (rel_inj s a Hr i j w w').
Qed.

Lemma rel_broadcast s a topic ev f :
  (∀ info st, Sse.topics info = topics st → f info = wants topic st) → rel s a →
  ∃ h, send_all f ev (map_to_list (clients (broker s))) (chans (broker s)) = Some h ∧
    rel (with_broker s (with_chans (broker s) h)) (mkSpec (capacity a) (offer (capacity a) topic ev <$> live a) (over a)).
Proof.
  intros Hf Hr. pose proof (rel_wf s a Hr) as Hwf.
  destruct (send_all_spec f ev (bufferSize (broker s)) _ _ (wf_channels _ Hwf) (wf_all_open _ Hwf)) as (h & Hs & Hd & Hout & Hin & Hm).
  exists h. split; [done|]. split; [by apply wf_with_chans|exact (rel_cap s a Hr)|exact (rel_over s a Hr)| |exact (rel_inj s a Hr)].
  intros id. cbn. rewrite lookup_fmap. destruct (live a !! id) as [st|] eqn:Hst.
  - destruct (rel_some s a id st Hr Hst) as (w & Hw & Ho & Hch & Hcl). rewrite Hw. cbn. unfold offer. destruct (open st) eqn:Hopen; cbn [andb].
    + rewrite <-(rel_cap s a Hr) in Hch |- *. specialize (Hin id _ (queue st) (proj2 (elem_of_map_to_list _ _ _) Hcl) Hch). cbn in Hin.
      rewrite (Hf (mkClientInfo (w_chan w) (topics st)) st eq_refl) in Hin. rewrite Hin. by destruct (wants topic st && _); cbn; rewrite ?Hopen.
    + rewrite Hopen. split_and!; [done| |done]. rewrite Hout; [done|]. by eapply closed_not_client.
  - destruct (rel_none s a id Hr Hst) as [-> Hn]. exact Hn.
Qed.

(** The broker's loop closes the channel of every client and keeps what they hold. *)
Lemma close_all_exact n l h :
  NoDup (channel <$> l.*2) → Forall (λ x, open_chan h n (channel x.2)) l →
  ∃ h', close_all l h = Some h' ∧
    (∀ c, c ∉ (channel <$> l.*2) → h' !! c = h !! c) ∧
    (∀ c q, c ∈ (channel <$> l.*2) → h !! c = Some (mkChan q n false) → h' !! c = Some (mkChan q n true)).
Proof.
  revert h. induction l as [|[id info] l IH]; intros h Hnd Ho; simpl in *; [exists h; split_and!; [done|done|set_solver]|].
  apply NoDup_cons in Hnd as [Hni Hnd]. apply Forall_cons in Ho as [(q0 & Hq0 & Hn0) Ho]; simpl in Hq0.
  unfold close_chan. rewrite Hq0. cbn.
  set (h1 := <[channel info := mkChan q0 n true]> h).
  destruct (IH h1 Hnd) as (h' & Hh & Hout & Hin).
  { apply Forall_forall. intros [id' info'] Hin. pose proof (proj1 (Forall_forall _ _) Ho _ Hin) as (q & Hq & Hn).
    exists q. unfold h1. rewrite lookup_insert_ne; [done|]. by apply not_eq_sym, (other_channel l info id'). }
  exists h'. split; [exact Hh|]. split.
  - intros c [Hne Hc]%not_elem_of_cons. rewrite Hout by done. unfold h1. by rewrite lookup_insert_ne.
  - intros c q [->|Hc]%elem_of_cons Hq.
    + rewrite Hout by done. unfold h1. rewrite lookup_insert_eq. congruence.
    + apply Hin; [done|]. unfold h1. rewrite lookup_insert_ne; [done|]. intros <-. done.
Qed.

Lemma rel_close s a : rel s a → ∃ s', step s EClose = Some s' ∧ rel s' (spec_step a EClose).
Proof.
  intros Hr. pose proof (rel_wf s a Hr) as Hwf.
  pose proof (step_wf (broker s) OClose Hwf) as (b' & Hb & Hwf'). cbn [Sse.step] in Hb. cbn [step].
  rewrite Hb. eexists. split; [reflexivity|]. unfold Close in Hb.
  destruct (close_all_exact (bufferSize (broker s)) _ _ (wf_channels _ Hwf) (wf_all_open _ Hwf)) as (h & Hc & Hout & Hin).
  rewrite Hc in Hb. injection Hb as <-.
  split; [exact Hwf'|exact (rel_cap s a Hr)|exact (rel_over s a Hr)| |exact (rel_inj s a Hr)].
  intros id. cbn. rewrite lookup_fmap. destruct (live a !! id) as [st|] eqn:Hst.
  - destruct (rel_some s a id st Hr Hst) as (w & Hw & Ho & Hch & Hcl). rewrite Hw. cbn. rewrite lookup_empty.
    split_and!; [done| |done]. rewrite <-(rel_cap s a Hr) in Hch |- *. destruct (open st) eqn:Hopen.
    + apply Hin; [|exact Hch]. apply list_elem_of_fmap. eexists. split; [|apply list_elem_of_fmap; eexists (id, _); split; [reflexivity|]].
      2: by apply elem_of_map_to_list. done.
    + rewrite Hout; [exact Hch|]. by eapply closed_not_client.
  - destruct (rel_none s a id Hr Hst) as [-> _]. apply lookup_empty.
Qed.

(** Ending a stream after a change [b1] of the broker that concerns its channel only. *)
Lemma rel_finish s a id w st b1 :
  rel s a → writers s !! id = Some w → live a !! id = Some st → wf b1 → bufferSize b1 = bufferSize (broker s) →
  clients b1 = clients (broker s) → (∀ c, c ≠ w_chan w → chans b1 !! c = chans (broker s) !! c) →
  ∃ s', finish s b1 id (w_out w) = Some s' ∧ rel s' (spec_end a id st).
Proof.
  intros Hr Hw Hst Hwf1 Hbs Hcl Hch. destruct (rel_some s a id st Hr Hst) as (w0 & Hw0 & Ho & _ & Hc). simplify_eq.
  assert (Hothers : ∀ j w', j ≠ id → writers s !! j = Some w' → w_chan w' ≠ w_chan w).
  { intros j w' Hj Hw' Heq. apply Hj. by eapply (rel_inj s a Hr). }
  unfold finish. assert (Hu : ∃ b', Unsubscribe b1 id = Some b' ∧ wf b' ∧ bufferSize b' = bufferSize b1 ∧
    clients b' = delete id (clients b1) ∧ (∀ c, c ≠ w_chan w → chans b' !! c = chans b1 !! c)).
  { unfold Unsubscribe. rewrite Hcl, Hc. destruct (open st).
    - rewrite <-Hcl in Hc. destruct (wf_close_one b1 id _ Hwf1 Hc) as (h & Hh & Hwf'). rewrite Hh. eexists. split; [reflexivity|].
      rewrite Hcl in *. split_and!; [done..|]. cbn in *. intros c Hne. unfold close_chan in Hh.
      destruct (chans b1 !! w_chan w) as [ch|]; [|done]. destruct (closed ch); [done|]. injection Hh as <-. by apply lookup_insert_ne.
    - exists b1. split_and!; [done..| |done]. rewrite Hcl. by rewrite delete_id. }
  destruct Hu as (b' & -> & Hwf' & Hbs' & Hcl' & Hch'). eexists. split; [reflexivity|].
  split; cbn; [exact Hwf'|rewrite Hbs', Hbs; exact (rel_cap s a Hr)|by rewrite (rel_over s a Hr), Ho| |].
  - intros j. destruct (decide (j = id)) as [->|Hj].
    + rewrite !lookup_delete_eq. cbn. by rewrite Hcl', lookup_delete_eq.
    + rewrite !lookup_delete_ne by done. apply (corr_frame s a id); [exact Hr| | |exact Hj].
      * intros i Hi. by rewrite Hcl', lookup_delete_ne, Hcl.
      * intros i w' Hi Hw'. rewrite Hch', Hch by (by eapply Hothers). done.
  - intros i j wi wj [_ Hi]%lookup_delete_Some [_ Hj]%lookup_delete_Some. by apply (rel_inj s a Hr i j wi wj).
Qed.

Lemma rel_write s a id flushed :
  rel s a → ∃ s', step s (EWrite id flushed) = Some s' ∧ rel s' (spec_step a (EWrite id flushed)).
Proof.
  intros Hr. cbn [step spec_step]. unfold write_turn. destruct (live a !! id) as [st|] eqn:Hst.
  2: { destruct (rel_none s a id Hr Hst) as [-> _]. by eexists. }
  destruct (rel_some s a id st Hr Hst) as (w & Hw & Ho & Hch & Hcl). rewrite Hw.
  pose proof (step_wf (broker s) (ORecv (w_chan w)) (rel_wf s a Hr)) as (b1 & Hb1 & Hwf1). cbn [Sse.step] in Hb1. injection Hb1 as <-.
  unfold recv in *. rewrite Hch in *. destruct (queue st) as [|ev rest] eqn:Hq; cbn in Hwf1.
  - cbn. destruct (open st) eqn:Hopen; cbn; [by eexists|]. eapply rel_finish; eauto using rel_wf.
  - destruct flushed.
    + eexists. split; [reflexivity|]. split; [exact Hwf1|exact (rel_cap s a Hr)|exact (rel_over s a Hr)| |].
      * intros j. cbn [broker writers live capacity]. destruct (decide (j = id)) as [->|Hj].
        -- rewrite !lookup_insert_eq. cbn. rewrite lookup_insert_eq. by rewrite Ho.
        -- rewrite !lookup_insert_ne by done. apply (corr_frame s a id); [exact Hr|done| |exact Hj].
           intros i w' Hi Hw'. cbn. rewrite lookup_insert_ne; [done|]. intros Heq. apply Hi. by eapply (rel_inj s a Hr).
      * cbn [writers]. intros i j wi wj Hi Hj Heq.
        apply lookup_insert_Some in Hi as [[<- <-]|[_ Hi]], Hj as [[<- <-]|[_ Hj]]; cbn in Heq; try done;
          eapply (rel_inj s a Hr); eauto.
    + eapply rel_finish; eauto. intros c Hne. cbn. by rewrite lookup_insert_ne.
Qed.

(** Connection ids are UUIDs drawn for each subscription: none comes twice. *)
Definition conn_id (e : event) : option string := match e with ESubscribe _ _ id => Some id | _ => None end.

Lemma spec_live_grows a e id : live a !! id = None → conn_id e ≠ Some id → live (spec_step a e) !! id = None.
Proof.
  intros Hn He. destruct e as [r ts j|[[[ev d] t]|]|j fl|]; cbn in *; try done.
  - destruct (String.eqb _ _); [done|]. cbn. rewrite lookup_insert_ne; [done|]. congruence.
  - destruct (String.eqb _ _); [done|]. cbn. by rewrite lookup_fmap, Hn.
  - destruct (live a !! j) as [st|] eqn:Hj; [|done]. assert (j ≠ id) by congruence.
    destruct (queue st), fl, (open st); cbn; rewrite ?lookup_insert_ne, ?lookup_delete_ne by done; done.
  - by rewrite lookup_fmap, Hn.
Qed.

Lemma rel_step s a e :
  rel s a → (∀ id, conn_id e = Some id → live a !! id = None) →
  ∃ s', step s e = Some s' ∧ rel s' (spec_step a e).
Proof.
  intros Hr Hf. destruct e as [r ts id|body|id fl|].
  - apply rel_subscribe; [done|]. by apply Hf.
  - cbn [step spec_step]. unfold h_Broadcast. destruct body as [[[ev d] t]|]; [|by eexists; split; [done|]; destruct s].
    destruct (String.eqb ev ""); [by eexists; split; [done|]; destruct s|].
    unfold Broadcast, BroadcastToTopic. destruct (String.eqb t "") eqn:Ht.
    + destruct (rel_broadcast s a t (NewEvent ev d) (λ _, true)) as (h & -> & Hr'); [|done|by eexists].
      intros info st _. unfold wants. by rewrite Ht.
    + destruct (rel_broadcast s a t (NewEvent ev d) (topic_wants t)) as (h & -> & Hr'); [|done|by eexists].
      intros info st Heq. unfold wants. rewrite Ht. unfold topic_wants. cbn. by rewrite Heq.
  - by apply rel_write.
  - by apply rel_close.
Qed.

Lemma rel_run s a evs :
  rel s a → NoDup (omap conn_id evs) → (∀ id, id ∈ omap conn_id evs → live a !! id = None) →
  ∃ s', run s evs = Some s' ∧ rel s' (spec_run a evs).
Proof.
  revert s a. induction evs as [|e evs IH]; intros s a Hr Hnd Hf; [by exists s|].
  assert (Hhd : ∀ id, conn_id e = Some id → live a !! id = None ∧ id ∉ omap conn_id evs).
  { intros id He. cbn in Hnd, Hf. rewrite He in Hnd, Hf. apply NoDup_cons in Hnd as [? ?]. split; [|done]. apply Hf. by left. }
  destruct (rel_step s a e Hr (λ id He, proj1 (Hhd id He))) as (s1 & Hs & Hr1). cbn [run]. rewrite Hs.
  apply (IH s1 (spec_step a e) Hr1).
  - cbn in Hnd. destruct (conn_id e); [by apply NoDup_cons in Hnd as [_ ?]|done].
  - intros id Hid. apply spec_live_grows; [|intros He; by destruct (Hhd id He)].
    apply Hf. cbn. destruct (conn_id e); [by right|done].
Qed.

(** From the start, every sequence of events runs, in correspondence. *)
Lemma init_run n evs : NoDup (omap conn_id evs) → ∃ s, run (init n) evs = Some s ∧ rel s (spec_run (spec_init n) evs).
Proof. intros Hnd. apply rel_run; [apply rel_init|done|]. intros. apply lookup_empty. Qed.

(** C25: The broker with its channels and the running writers behave as independent bounded
    queues: whatever buffer size was configured and in whatever order requests, writers,
    failures and the shutdown come, nothing panics, and the state corresponds to that of the
    specification after the same events - each stream has sent what its queue gave out, its
    channel holds the queue, and the broker knows exactly the open ones. *)
Theorem streams_refine (n : Z) (evs : list event) :
  NoDup (omap conn_id evs) → ∃ s, run (init n) evs = Some s ∧ rel s (spec_run (spec_init n) evs).
Proof. apply init_run. Qed.

Definition as_user (u : string) : Request := mkRequest ∅ ∅ "" {["user_id" := LString u]} (mkContext None None None None None) ∅.

Definition sample : list event :=
  [ESubscribe (as_user "u") "news" "c1"; EBroadcast (Some ("m", "1", "news")); EWrite "c1" true; EWrite "c1" false; EClose].

Lemma streams_refine_witness : ∃ s, run (init 2) sample = Some s ∧ rel s (spec_run (spec_init 2) sample).
Proof. apply streams_refine. repeat constructor. set_solver. Defined.

(** ** One stream *)

(** What an event does to the stream of a connection: it goes on, or is over with what it
    has sent. *)
Definition stream_step (cap : Z) (id : string) (st : stream) (e : event) : stream + list Event :=
  match e with
  | EBroadcast (Some (event, data, topic)) =>
      inl (if String.eqb event "" then st else offer cap topic (NewEvent event data) st)
  | EWrite j flushed =>
      if String.eqb j id then
        match queue st with
        | ev :: rest => if flushed then inl (mkStream (topics st) rest (open st) (out st ++ [ev])) else inr (out st)
        | [] => if open st then inl st else inr (out st)
        end
      else inl st
  | EClose => inl (mkStream (topics st) (queue st) false (out st))
  | _ => inl st
  end.

Lemma spec_step_stream a e id st :
  live a !! id = Some st → conn_id e ≠ Some id →
  match stream_step (capacity a) id st e with
  | inl st' => live (spec_step a e) !! id = Some st'
  | inr o => live (spec_step a e) !! id = None ∧ (id, o) ∈ over (spec_step a e)
  end.
Proof.
  intros Hst He. destruct e as [r ts j|[[[ev d] t]|]|j fl|]; cbn in *; try done.
  - destruct (String.eqb _ _); [done|]. cbn. rewrite lookup_insert_ne; [done|]. congruence.
  - destruct (String.eqb _ _); [done|]. cbn. by rewrite lookup_fmap, Hst.
  - destruct (String.eqb_spec j id) as [->|Hj].
    + rewrite Hst. destruct (queue st), fl, (open st); cbn; rewrite ?lookup_insert_eq, ?lookup_delete_eq; try done;
        (split; [done|set_solver]).
    + destruct (live a !! j) as [st'|]; [|done].
      destruct (queue st'), fl, (open st'); cbn; rewrite ?lookup_insert_ne, ?lookup_delete_ne by done; done.
  - by rewrite lookup_fmap, Hst.
Qed.

Lemma over_grows a e : over a `prefix_of` over (spec_step a e).
Proof.
  destruct e as [r ts j|[[[ev d] t]|]|j fl|]; cbn; try done; try by case_match.
  repeat case_match; try done; by eexists.
Qed.

Lemma over_run a evs x : x ∈ over a → x ∈ over (spec_run a evs).
Proof.
  revert a. induction evs as [|e evs IH]; intros a Hx; [done|]. cbn. apply IH.
  destruct (over_grows a e) as [l ->]. set_solver.
Qed.

Lemma capacity_step a e : capacity (spec_step a e) = capacity a.
Proof. destruct e as [r ts j|[[[ev d] t]|]|j fl|]; cbn; repeat case_match; done. Qed.

Lemma capacity_run a evs : capacity (spec_run a evs) = capacity a.
Proof.
  revert a. induction evs as [|e evs IH]; intros a; [done|].
  change (spec_run a (e :: evs)) with (spec_run (spec_step a e) evs). by rewrite IH, capacity_step.
Qed.

(** *** What a connected client receives *)

(** The events of a run that a stream with these topics asks for. *)
Definition wanted (ts : gset string) (evs : list event) : list Event :=
  omap (λ e, match e with
             | EBroadcast (Some (event, data, topic)) =>
                 if negb (String.eqb event "") && wants topic (mkStream ts [] true []) then Some (NewEvent event data) else None
             | _ => None
             end) evs.

(** The client stays: none of its flushes fails, its id is not subscribed again, and the
    broker is not closed. *)
Definition undisturbed (id : string) (e : event) : Prop :=
  conn_id e ≠ Some id ∧ e ≠ EClose ∧ e ≠ EWrite id false.

(** No event that is asked for finds the queue full. *)
Fixpoint has_room (cap : Z) (id : string) (st : stream) (evs : list event) : Prop :=
  match evs with
  | [] => True
  | e :: evs' =>
      (wanted (topics st) [e] = [] ∨ Z.of_nat (length (queue st)) < cap) ∧
      match stream_step cap id st e with inl st' => has_room cap id st' evs' | inr _ => True end
  end.

Lemma offer_shape cap t ev st :
  topics (offer cap t ev st) = topics st ∧ open (offer cap t ev st) = open st ∧ out (offer cap t ev st) = out st ∧
  queue (offer cap t ev st) = (if open st && wants t st && (Z.of_nat (length (queue st)) <? cap) then queue st ++ [ev] else queue st).
Proof. unfold offer. by destruct (open st && wants t st && _). Qed.

Lemma undisturbed_step cap id st e :
  undisturbed id e → open st = true →
  ∃ st', stream_step cap id st e = inl st' ∧ topics st' = topics st ∧ open st' = true ∧
    ∃ got, out st' ++ queue st' = out st ++ queue st ++ got ∧ got `sublist_of` wanted (topics st) [e] ∧
      (wanted (topics st) [e] = [] ∨ Z.of_nat (length (queue st)) < cap → got = wanted (topics st) [e]).
Proof.
  intros (Hid & Hcl & Hfl) Ho. destruct e as [r ts j|[[[ev d] t]|]|j fl|]; cbn [stream_step]; try done.
  - eexists. split_and!; [done..|]. exists []. by rewrite !app_nil_r.
  - destruct (String.eqb ev "") eqn:Hev; [eexists; split_and!; [done..|]; exists []; cbn; rewrite Hev, !app_nil_r; by split|].
    destruct (offer_shape cap t (NewEvent ev d) st) as (Ht & Hop & Hout & Hq).
    eexists. split; [reflexivity|]. split; [done|]. split; [congruence|].
    exists (if wants t st && (Z.of_nat (length (queue st)) <? cap) then [NewEvent ev d] else []).
    rewrite Hout, Hq, Ho. cbn [wanted omap list_omap]. rewrite Hev.
    change (wants t (mkStream (topics st) [] true [])) with (wants t st). cbn [negb andb].
    destruct (wants t st); cbn [andb]; [|rewrite !app_nil_r; by split].
    destruct (Z.ltb_spec (Z.of_nat (length (queue st))) cap); [by split|]. rewrite !app_nil_r.
    split; [done|]. split; [apply sublist_nil_l|by intros [|]; [|lia]].
  - eexists. split_and!; [done..|]. exists []. by rewrite !app_nil_r.
  - destruct (String.eqb_spec j id) as [->|Hj]; [|eexists; split_and!; [done..|]; exists []; by rewrite !app_nil_r].
    destruct fl; [|done]. destruct (queue st) as [|ev rest] eqn:Hq.
    + rewrite Ho. eexists. split_and!; [done..|]. exists []. by rewrite Hq, !app_nil_r.
    + eexists. split; [reflexivity|]. split_and!; [done..|]. exists []. cbn. by rewrite app_nil_r, <-app_assoc.
Qed.

(** A client that stays connected has sent, or still holds, a part in order of the events
    broadcast for it since it subscribed, and all of them when its buffer was never full. *)
Lemma stream_complete a id st evs :
  live a !! id = Some st → open st = true → Forall (undisturbed id) evs →
  ∃ st', live (spec_run a evs) !! id = Some st' ∧ open st' = true ∧
    ∃ got, out st' ++ queue st' = out st ++ queue st ++ got ∧ got `sublist_of` wanted (topics st) evs ∧
      (has_room (capacity a) id st evs → got = wanted (topics st) evs).
Proof.
  intros Hst Ho Hev. revert a st Hst Ho. induction Hev as [|e evs He _ IH]; intros a st Hst Ho.
  { exists st. split_and!; [done..|]. exists []. by rewrite !app_nil_r. }
  destruct (undisturbed_step (capacity a) id st e He Ho) as (st1 & Hs & Ht & Ho1 & got1 & Hg1 & Hsub1 & Hall1).
  pose proof (spec_step_stream a e id st Hst (proj1 He)) as Hl. rewrite Hs in Hl.
  destruct (IH (spec_step a e) st1 Hl Ho1) as (st' & Hl' & Ho' & got & Hg & Hsub & Hall).
  exists st'. split_and!; [done..|]. exists (got1 ++ got).
  assert (Hw : wanted (topics st) (e :: evs) = wanted (topics st) [e] ++ wanted (topics st1) evs).
  { rewrite Ht. unfold wanted. change (e :: evs) with ([e] ++ evs). by rewrite omap_app. }
  split; [|split].
  - rewrite Hg, app_assoc, Hg1, <-!app_assoc. done.
  - rewrite Hw. by apply sublist_app.
  - cbn [has_room]. rewrite Hs. intros [Hr Hr']. rewrite Hw, (Hall1 Hr). f_equal. apply Hall. by rewrite capacity_step.
Qed.

Lemma few_has_room cap id st evs :
  Forall (undisturbed id) evs → open st = true →
  Z.of_nat (length (queue st)) + Z.of_nat (length (wanted (topics st) evs)) ≤ cap → has_room cap id st evs.
Proof.
  intros Hev. revert st. induction Hev as [|e evs He _ IH]; intros st Ho Hn; [done|]. cbn [has_room].
  assert (Hw : wanted (topics st) (e :: evs) = wanted (topics st) [e] ++ wanted (topics st) evs).
  { unfold wanted. change (e :: evs) with ([e] ++ evs). by rewrite omap_app. }
  rewrite Hw, length_app in Hn. split.
  - destruct (wanted (topics st) [e]); [by left|right; simpl in Hn; lia].
  - destruct (undisturbed_step cap id st e He Ho) as (st1 & Hs & Ht & Ho1 & got & Hg & Hsub & _). rewrite Hs. apply IH; [done|].
    rewrite Ht. apply sublist_length in Hsub. pose proof (f_equal length Hg) as Hlen. rewrite !length_app in Hlen.
    assert (length (out st) ≤ length (out st1))%nat.
    { destruct e as [r ts j|[[[ev d] t]|]|j fl|]; cbn in Hs; try (injection Hs as <-; cbn; lia).
      - destruct (String.eqb ev ""); injection Hs as <-; [lia|]. by destruct (offer_shape cap t (NewEvent ev d) st) as (_ & _ & -> & _).
      - destruct (String.eqb j id); [|injection Hs as <-; lia]. destruct (queue st), fl, (open st); try done; injection Hs as <-; simpl; rewrite ?length_app; lia. }
    lia.
Qed.

(** C26: The stream of a client that stays connected carries the events broadcast for it since its
    subscription, in their order: what the writer has flushed and what the channel still
    holds are a part of them in order, and all of them when no more than the buffer's
    capacity were broadcast - or, in general, when none came while the buffer was full. *)
Theorem stream_delivery (n : Z) evs1 r ts id evs2 :
  NoDup (omap conn_id (evs1 ++ ESubscribe r ts id :: evs2)) → GetUserID r ≠ "" → Forall (undisturbed id) evs2 →
  let topics := list_to_set (parse_topics ts) in
  let cap := capacity (spec_init n) in
  ∃ s w q, run (init n) (evs1 ++ ESubscribe r ts id :: evs2) = Some s ∧
    writers s !! id = Some w ∧ chans (broker s) !! w_chan w = Some (mkChan q cap false) ∧
    (w_out w ++ q) `sublist_of` wanted topics evs2 ∧
    (has_room cap id (mkStream topics [] true []) evs2 → w_out w ++ q = wanted topics evs2) ∧
    (Z.of_nat (length (wanted topics evs2)) ≤ cap → w_out w ++ q = wanted topics evs2).
Proof.
  intros Hnd Hu Hev topics cap. destruct (init_run n _ Hnd) as (s & Hs & Hr).
  set (a1 := spec_run (spec_init n) evs1). set (st0 := mkStream topics [] true []).
  assert (Hlive : live (spec_step a1 (ESubscribe r ts id)) !! id = Some st0).
  { cbn. apply String.eqb_neq in Hu. rewrite Hu. apply lookup_insert_eq. }
  destruct (stream_complete _ id st0 evs2 Hlive eq_refl Hev) as (st & Hst & Ho & got & Hg & Hsub & Hall).
  unfold spec_run in Hr, Hst. rewrite fold_left_app in Hr. cbn [fold_left] in Hr. fold (spec_run (spec_init n) evs1) in Hr. fold a1 in Hr.
  destruct (rel_some s _ id st Hr Hst) as (w & Hw & Hout & Hch & _). rewrite Ho in Hch.
  assert (Hc : capacity (spec_step a1 (ESubscribe r ts id)) = cap) by (unfold a1; rewrite capacity_step; apply capacity_run).
  fold (spec_run (spec_step a1 (ESubscribe r ts id)) evs2) in Hch. rewrite capacity_run, Hc in Hch. rewrite Hc in Hall.
  exists s, w, (queue st). cbn in Hg. rewrite Hout, Hg. split_and!; [done|done|exact Hch|done|exact Hall|].
  intros Hn. apply Hall, few_has_room; [done|done|]. simpl. lia.
Qed.

Lemma stream_delivery_witness :
  ∃ s w q, run (init 2) [ESubscribe (as_user "u") "news, sport" "c1"; EBroadcast (Some ("m", "1", "news"));
                          EBroadcast (Some ("m", "2", "jobs")); EWrite "c1" true; EBroadcast (Some ("m", "3", ""))] = Some s ∧
    writers s !! "c1" = Some w ∧ w_out w ++ q = [NewEvent "m" "1"; NewEvent "m" "3"].
Proof.
  destruct (stream_delivery 2 [] (as_user "u") "news, sport" "c1"
    [EBroadcast (Some ("m", "1", "news")); EBroadcast (Some ("m", "2", "jobs")); EWrite "c1" true; EBroadcast (Some ("m", "3", ""))])
    as (s & w & q & Hr & Hw & _ & _ & _ & Hfew).
  - repeat constructor. set_solver.
  - done.
  - repeat constructor; done.
  - exists s, w, q. split; [exact Hr|]. split; [exact Hw|]. rewrite Hfew; vm_compute; [reflexivity|discriminate].
Defined.

(** *** How streams end *)

(** A stream is over only when an event reaches its writer and the flush fails, or when its
    channel is closed and empty. *)
Lemma stream_ends_only cap id st e o :
  stream_step cap id st e = inr o →
  ∃ flushed, e = EWrite id flushed ∧ (queue st ≠ [] ∧ flushed = false ∨ queue st = [] ∧ open st = false).
Proof.
  destruct e as [r ts j|[[[ev d] t]|]|j fl|]; cbn; try done. destruct (String.eqb_spec j id) as [->|]; [|done].
  destruct (queue st) eqn:Hq, fl, (open st) eqn:Ho; try done; eexists; (split; [done|]); naive_solver.
Qed.

(** A client that has gone away is not noticed while no event comes for it: without a
    keep-alive the writer waits on its open, empty channel, and the registration stays,
    whatever else happens short of the broker's Close. *)
Theorem idle_stream_stays a id st evs :
  live a !! id = Some st → open st = true → queue st = [] → wanted (topics st) evs = [] →
  Forall (λ e, conn_id e ≠ Some id ∧ e ≠ EClose) evs →
  live (spec_run a evs) !! id = Some st.
Proof.
  intros Hst Ho Hq Hw Hev. revert a Hst Hw. induction Hev as [|e evs [He Hc] _ IH]; intros a Hst Hw; [done|].
  assert (Hw2 : wanted (topics st) [e] = [] ∧ wanted (topics st) evs = []).
  { unfold wanted in *. change (e :: evs) with ([e] ++ evs) in Hw. rewrite omap_app in Hw. by apply app_eq_nil in Hw. }
  destruct Hw2 as [Hw1 Hw2]. change (spec_run a (e :: evs)) with (spec_run (spec_step a e) evs). apply IH; [|done].
  pose proof (spec_step_stream a e id st Hst He) as Hl.
  assert (stream_step (capacity a) id st e = inl st) as Hs; [|by rewrite Hs in Hl].
  destruct e as [r ts j|[[[ev d] t]|]|j fl|]; cbn in *; try done.
  - destruct (String.eqb ev ""); [done|]. unfold offer. cbn in Hw1.
    change (wants t (mkStream (topics st) [] true [])) with (wants t st) in Hw1.
    destruct (wants t st); [done|]. by rewrite andb_false_r.
  - rewrite Hq, Ho. by destruct (String.eqb j id).
Qed.

(** The turns the schedule gives the writer of a connection. *)
Definition turn_of (id : string) (e : event) : nat :=
  match e with EWrite j _ => if String.eqb j id then 1 else 0 | _ => 0 end.
Definition turns (id : string) (evs : list event) : nat := foldr (λ e n, turn_of id e + n)%nat 0%nat evs.

(** A closed stream: every turn of its writer sends one event of what is left, and the turn
    after the last one ends it. *)
Lemma closed_stream_drains a id st evs :
  live a !! id = Some st → open st = false → Forall (λ e, conn_id e = None) evs →
  (length (queue st) < turns id evs)%nat →
  live (spec_run a evs) !! id = None ∧
  (EWrite id false ∉ evs → (id, out st ++ queue st) ∈ over (spec_run a evs)).
Proof.
  intros Hst Ho Hev. revert a st Hst Ho. induction Hev as [|e evs He Hev IH]; intros a st Hst Ho Ht; [cbn in Ht; lia|].
  change (spec_run a (e :: evs)) with (spec_run (spec_step a e) evs). cbn [turns foldr] in Ht. fold (turns id evs) in Ht.
  pose proof (spec_step_stream a e id st Hst ltac:(congruence)) as Hl.
  assert (Hgone : ∀ o, live (spec_step a e) !! id = None ∧ (id, o) ∈ over (spec_step a e) →
    live (spec_run (spec_step a e) evs) !! id = None ∧ (id, o) ∈ over (spec_run (spec_step a e) evs)).
  { intros o [Hn Hin]. split; [|by apply over_run]. clear -Hn Hev. generalize dependent (spec_step a e). intros b.
    revert b. induction Hev as [|x l Hx _ IHl]; intros b Hb; [done|]. apply (IHl (spec_step b x)).
    apply spec_live_grows; [done|congruence]. }
  assert (Hsame : stream_step (capacity a) id st e = inl st → (length (queue st) < turns id evs)%nat →
    live (spec_run (spec_step a e) evs) !! id = None ∧
    (EWrite id false ∉ e :: evs → (id, out st ++ queue st) ∈ over (spec_run (spec_step a e) evs))).
  { intros Hs Ht'. rewrite Hs in Hl. destruct (IH _ st Hl Ho Ht') as [H1 H2]. split; [done|]. intros Hn. apply H2. set_solver. }
  destruct e as [r ts j|[[[ev d] t]|]|j fl|]; try done; cbn [stream_step turn_of] in *.
  - apply Hsame; [|lia]. destruct (String.eqb ev ""); [done|]. unfold offer. by rewrite Ho.
  - apply Hsame; [done|lia].
  - destruct (String.eqb_spec j id) as [->|Hj]; [|apply Hsame; [done|lia]].
    destruct (queue st) as [|ev rest] eqn:Hq.
    + rewrite Ho in Hl. destruct (Hgone _ Hl). split; [done|]. by rewrite app_nil_r.
    + destruct fl; [|destruct (Hgone _ Hl); split; [done|]; set_solver].
      destruct (IH _ _ Hl Ho) as [H1 H2]; [simpl in *; lia|]. split; [done|]. intros Hn. cbn in H2.
      rewrite <-app_assoc in H2. apply H2. set_solver.
  - apply Hsame; [|lia]. destruct st; simpl in *; by subst.
Qed.

(** Queues never outgrow the configured buffer. *)
Definition bounded (a : Spec) : Prop := 0 < capacity a ∧ map_Forall (λ _ st, Z.of_nat (length (queue st)) ≤ capacity a) (live a).

Lemma bounded_step a e : bounded a → bounded (spec_step a e).
Proof.
  intros [Hc Hb]. split; [by rewrite capacity_step|]. rewrite capacity_step.
  destruct e as [r ts j|[[[ev d] t]|]|j fl|]; cbn; try done.
  - case_match; [done|]. apply map_Forall_insert_2; [cbn; lia|done].
  - case_match; [done|]. cbn. intros id st Hst. rewrite lookup_fmap in Hst. destruct (live a !! id) as [st0|] eqn:H0; [|done].
    injection Hst as <-. destruct (offer_shape (capacity a) t (NewEvent ev d) st0) as (_ & _ & _ & ->). specialize (Hb id st0 H0). cbn in Hb.
    destruct (open st0 && wants t st0); cbn [andb]; [|done]. destruct (Z.ltb_spec (Z.of_nat (length (queue st0))) (capacity a)); [|done].
    rewrite length_app. simpl. lia.
  - destruct (live a !! j) as [st|] eqn:Hj; [|done]. pose proof (Hb j st Hj) as Hq. cbn in Hq.
    destruct (queue st), fl, (open st); cbn; try done; try (by apply map_Forall_delete);
      (apply map_Forall_insert_2; [cbn in *; lia|done]).
  - intros id st Hst. rewrite lookup_fmap in Hst. destruct (live a !! id) as [st0|] eqn:H0; [|done]. injection Hst as <-. by apply (Hb id st0).
Qed.

Lemma bounded_run n evs : bounded (spec_run (spec_init n) evs).
Proof.
  assert (bounded (spec_init n)) as Hi by (split; [cbn; destruct (Z.leb_spec n 0); lia|apply map_Forall_empty]).
  revert Hi. generalize (spec_init n). induction evs as [|e evs IH]; intros a Ha; [done|]. by apply IH, bounded_step.
Qed.

(** C27: The broker's Close releases every stream.  Once it has run and no request subscribes any
    more, a schedule that gives each running writer one turn more than the buffer holds ends
    all of them: no writer and no registration is left, and a stream whose flushes succeed
    has sent everything its channel held. *)
Theorem streams_drain (n : Z) (evs evs' : list event) :
  NoDup (omap conn_id evs) → Forall (λ e, conn_id e = None) evs' →
  ∃ s1 s, run (init n) (evs ++ [EClose]) = Some s1 ∧ run s1 evs' = Some s ∧
    ((∀ id, id ∈ dom (writers s1) → bufferSize (broker s1) < Z.of_nat (turns id evs')) →
     writers s = ∅ ∧ clients (broker s) = ∅ ∧
     ∀ id w, writers s1 !! id = Some w → EWrite id false ∉ evs' →
       ∃ q, chans (broker s1) !! w_chan w = Some (mkChan q (bufferSize (broker s1)) true) ∧ (id, w_out w ++ q) ∈ ended s).
Proof.
  intros Hnd Hev. destruct (init_run n (evs ++ [EClose])) as (s1 & Hs1 & Hr1); [by rewrite omap_app, app_nil_r|].
  set (a1 := spec_run (spec_init n) (evs ++ [EClose])) in *. pose proof (bounded_run n (evs ++ [EClose])) as [_ Hb]. fold a1 in Hb.
  assert (Hclosed : map_Forall (λ _ st, open st = false) (live a1)).
  { unfold a1, spec_run. rewrite fold_left_app. cbn. intros id st Hst. rewrite lookup_fmap in Hst.
    destruct (live _ !! id); [|done]. by injection Hst as <-. }
  assert (Hno : omap conn_id evs' = []) by (clear -Hev; induction Hev as [|e l He _ IH]; [done|]; cbn; by rewrite He).
  destruct (rel_run s1 a1 evs' Hr1) as (s & Hs & Hr); [rewrite Hno; constructor|rewrite Hno; by intros ? ?%elem_of_nil|].
  exists s1, s. split_and!; [done..|]. intros Hturns. rewrite (rel_cap s1 a1 Hr1) in *.
  assert (Hdrain : ∀ id st, live a1 !! id = Some st → live (spec_run a1 evs') !! id = None ∧
    (EWrite id false ∉ evs' → (id, out st ++ queue st) ∈ over (spec_run a1 evs'))).
  { intros id st Hst. apply closed_stream_drains; [done|by apply (Hclosed id st)|done|].
    destruct (rel_some s1 a1 id st Hr1 Hst) as (w & Hw & _). specialize (Hturns id (elem_of_dom_2 _ _ _ Hw)).
    specialize (Hb id st Hst). cbn in Hb. lia. }
  assert (Hgone : ∀ id, live (spec_run a1 evs') !! id = None).
  { intros id. destruct (live a1 !! id) as [st|] eqn:Hst; [by apply (Hdrain id st)|]. clear -Hst Hev. revert Hst. generalize a1.
    induction Hev as [|e l He _ IH]; intros b Hb; [done|]. apply (IH (spec_step b e)). apply spec_live_grows; [done|congruence]. }
  split; [|split].
  - apply map_empty. intros id. by apply (rel_none s _ id Hr).
  - apply map_empty. intros id. by apply (rel_none s _ id Hr).
  - intros id w Hw Hfl. pose proof (rel_corr s1 a1 Hr1 id) as Hc. rewrite Hw in Hc. destruct (live a1 !! id) as [st|] eqn:Hst; [|done].
    destruct Hc as (Ho & Hch & _). pose proof (Hclosed id st Hst) as Hop. cbn in Hop. rewrite Hop in Hch. exists (queue st). split; [exact Hch|].
    rewrite (rel_over s _ Hr), Ho. by apply (Hdrain id st).
Qed.

(** [streams_drain] asks for no later subscription, and needs it: a request that subscribes
    after the Close starts a writer that nothing ends. *)
Example late_subscriber_stays :
  match run (init 2) [EClose; ESubscribe (as_user "u") "" "late"; EWrite "late" true; EWrite "late" true] with
  | Some s => map_to_list (writers s) = [("late", mkWriter 1 [])]
  | None => False
  end.
Proof. vm_compute. reflexivity. Qed.

Lemma streams_drain_witness :
  ∃ s, run (init 2) [ESubscribe (as_user "u") "" "c1"; EBroadcast (Some ("m", "1", "")); EClose; EWrite "c1" true; EWrite "c1" true; EWrite "c1" true] = Some s ∧
    writers s = ∅ ∧ ("c1", [NewEvent "m" "1"]) ∈ ended s.
Proof.
  destruct (streams_drain 2 [ESubscribe (as_user "u") "" "c1"; EBroadcast (Some ("m", "1", ""))] [EWrite "c1" true; EWrite "c1" true; EWrite "c1" true])
    as (s1 & s & Hs1 & Hs & Hd).
  - repeat constructor. set_solver.
  - repeat constructor.
  - vm_compute in Hs1. injection Hs1 as <-. exists s. split; [exact Hs|]. destruct Hd as (Hw & _ & Hall).
    + intros id Hid. match type of Hid with _ ∈ ?d => assert (d = {["c1"]}) as Hd by (vm_compute; reflexivity) end.
      rewrite Hd in Hid. apply elem_of_singleton in Hid as ->. vm_compute. reflexivity.
    + split; [exact Hw|]. destruct (Hall "c1" (mkWriter 1 []) eq_refl) as (q & Hq & Hin); [set_solver|].
      vm_compute in Hq. injection Hq as <-. exact Hin.
Defined.

End SseStreams.
