(* ===== verification/Storage.v ===== *)
(** * File storage

    Models [internal/port/storage.go] (the port), [internal/adapter/storage/local.go] (the
    local adapter, over a parameter file system), and [internal/module/storage]: the use
    case with its path sanitizer, the audit decorator and the handlers.  Content sniffing
    ([http.DetectContentType]) is a parameter of the use case; file contents are byte
    strings. *)
From S2P Require Import Prelude GoStr FilePath AppErr Config Port.
Import GoStr FilePath AppErr Config.

Module Storage.

(** ** port/storage.go *)

Record UploadConfig := mkUploadConfig { uc_ContentType : string; uc_Metadata : gmap string string; uc_Public : bool }.
Definition UploadOption := UploadConfig → UploadConfig.

Definition WithContentType (ct : string) : UploadOption := λ c, mkUploadConfig ct (uc_Metadata c) (uc_Public c).
Definition WithMetadata (m : gmap string string) : UploadOption := λ c, mkUploadConfig (uc_ContentType c) m (uc_Public c).
Definition WithPublic (p : bool) : UploadOption := λ c, mkUploadConfig (uc_ContentType c) (uc_Metadata c) p.

Definition ApplyOptions (opts : list UploadOption) : UploadConfig :=
  foldl (λ c opt, opt c) (mkUploadConfig "application/octet-stream" ∅ false) opts.

Record FileInfo := mkFileInfo { fi_Path : string; fi_Size : Z; fi_ContentType : string; fi_ModifiedAt : Z }.

Class Storage (S : Type) := {
  st_Upload : S → string → string → list UploadOption → S * result error string;
  st_Download : S → string → result error string;
  st_Delete : S → string → S * option error;
  st_Exists : S → string → result error bool;
  st_GetURL : S → string → Z → result error string;
  st_List : S → string → result error (list FileInfo)
}.

(** ** The file system under the local adapter *)

Inductive os_error := NotExist | OsError (e : error).

Definition os_wrap (text : string) (e : os_error) : error :=
  match e with
  | NotExist => FmtError text (PlainError "file does not exist") ""
  | OsError e => FmtError text e ""
  end.

Class FS (F : Type) := {
  fs_MkdirAll : F → string → F * option os_error;
  fs_Create : F → string → F * option os_error;
  fs_Copy : F → string → string → F * option os_error;    (* io.Copy into the created file *)
  fs_Remove : F → string → F * option os_error;
  fs_Open : F → string → result os_error string;
  fs_Stat : F → string → result os_error unit;
  fs_Walk : F → string → result os_error (list FileInfo)  (* the files filepath.Walk reports, paths relative to the base *)
}.

(** ** adapter/storage/local.go *)

Definition ErrPathEscapesBase : error := PlainError "storage: path escapes base directory".

Definition resolveWithinBase (basePath key : string) : result error string :=
  let fullPath := Join2 basePath key in
  let cleanedFull := Clean fullPath in
  let cleanedBase := Clean basePath in
  if String.eqb cleanedFull cleanedBase then Ok cleanedFull
  else if negb (has_prefix (cleanedBase +:+ "/") cleanedFull) then Err ErrPathEscapesBase
  else Ok cleanedFull.

Record LocalStorage (F : Type) := mkLocalStorage { basePath : string; baseURL : string; fs : F }.
Arguments mkLocalStorage {F}.
Arguments basePath {F}.
Arguments baseURL {F}.
Arguments fs {F}.

(** [filepath.Dir] of a cleaned path: the path without its last element *)
Definition Dir (p : string) : string :=
  Clean (render (rooted p) (removelast (elems p))).

Section local.
Context {F : Type} `{FS F}.
Implicit Types (s : LocalStorage F).

Definition with_fs s (f : F) : LocalStorage F := mkLocalStorage (basePath s) (baseURL s) f.

Definition NewLocalStorage (f : F) (path url : string) : F * result error (LocalStorage F) :=
  match fs_MkdirAll f path with
  | (f', Some e) => (f', Err (os_wrap "failed to create storage directory: " e))
  | (f', None) => (f', Ok (mkLocalStorage path (TrimSuffixByte url "/") f'))
  end.

Definition local_Upload s (path data : string) (opts : list UploadOption) : LocalStorage F * result error string :=
  let _ := ApplyOptions opts in
  match resolveWithinBase (basePath s) path with
  | Err e => (s, Err e)
  | Ok fullPath =>
      match fs_MkdirAll (fs s) (Dir fullPath) with
      | (f1, Some e) => (with_fs s f1, Err (os_wrap "failed to create directory: " e))
      | (f1, None) =>
          match fs_Create f1 fullPath with
          | (f2, Some e) => (with_fs s f2, Err (os_wrap "failed to create file: " e))
          | (f2, None) =>
              match fs_Copy f2 fullPath data with
              | (f3, Some e) => (with_fs s (fs_Remove f3 fullPath).1, Err (os_wrap "failed to write file: " e))
              | (f3, None) => (with_fs s f3, Ok path)
              end
          end
      end
  end.

Definition local_Download s (path : string) : result error string :=
  match resolveWithinBase (basePath s) path with
  | Err e => Err e
  | Ok fullPath =>
      match fs_Open (fs s) fullPath with
      | Err NotExist => Err (PlainError ("file not found: " +:+ path))
      | Err e => Err (os_wrap "failed to open file: " e)
      | Ok data => Ok data
      end
  end.

Definition local_Delete s (path : string) : LocalStorage F * option error :=
  match resolveWithinBase (basePath s) path with
  | Err e => (s, Some e)
  | Ok fullPath =>
      match fs_Remove (fs s) fullPath with
      | (f', Some NotExist) => (with_fs s f', None)
      | (f', Some e) => (with_fs s f', Some (os_wrap "failed to delete file: " e))
      | (f', None) => (with_fs s f', None)
      end
  end.

Definition local_Exists s (path : string) : result error bool :=
  match resolveWithinBase (basePath s) path with
  | Err e => Err e
  | Ok fullPath =>
      match fs_Stat (fs s) fullPath with
      | Err NotExist => Ok false
      | Err e => Err (os_wrap "failed to check file: " e)
      | Ok _ => Ok true
      end
  end.

Definition local_GetURL s (path : string) : string :=
  if String.eqb (baseURL s) "" then "/uploads/" +:+ path else baseURL s +:+ "/" +:+ path.

Definition local_List s (prefix : string) : result error (list FileInfo) :=
  match resolveWithinBase (basePath s) prefix with
  | Err e => Err e
  | Ok searchPath =>
      match fs_Walk (fs s) searchPath with
      | Err NotExist => Ok []
      | Err e => Err (os_wrap "failed to list files: " e)
      | Ok files => Ok files
      end
  end.

#[export] Instance Local_Storage : Storage (LocalStorage F) := {
  st_Upload := local_Upload;
  st_Download := local_Download;
  st_Delete := local_Delete;
  st_Exists := local_Exists;
  st_GetURL s p _ := Ok (local_GetURL s p);
  st_List := local_List
}.

End local.

(** ** module/storage: domain and use case *)

Definition DefaultMaxFileSize : Z := 10 * 1024 * 1024.
Definition DefaultAllowedContentTypes (ct : string) : bool :=
  existsb (String.eqb ct) ["image/jpeg"; "image/png"; "image/gif"; "image/webp"; "application/pdf"].

Record UploadResponse := mkUploadResponse { up_Path : string; up_URL : string; up_Size : Z }.

(** The final loop of [sanitizePath]. *)
Definition keep_part (p : string) : bool :=
  negb (String.eqb p ".." || String.eqb p "." || String.eqb p "").

Definition sanitizePath (path : string) : string :=
  let path := remove_byte NUL path in
  let path := Clean path in
  let path := TrimLeft ["/"; "."]%char path in
  Join slash (filter (λ p, keep_part p = true) (Split slash path)).

Definition baseContentType (contentType : string) : string :=
  match cut ";" contentType with Some (x, _) => TrimSpace x | None => contentType end.

(** The content type [Download] derives from the extension. *)
Definition contentTypeOf (path : string) : string :=
  let ext := ToLower (Ext path) in
  if String.eqb ext ".jpg" || String.eqb ext ".jpeg" then "image/jpeg"
  else if String.eqb ext ".png" then "image/png"
  else if String.eqb ext ".gif" then "image/gif"
  else if String.eqb ext ".webp" then "image/webp"
  else if String.eqb ext ".pdf" then "application/pdf"
  else "application/octet-stream".

Record Config := mkConfig { MaxFileSize : Z; AllowedContentTypes : string → bool; allowed_count : Z }.
Record storageUseCase := mkUseCase { maxFileSize : Z; allowedContentTypes : string → bool }.

(** [NewUseCase]; [allowed_count] is [len(cfg.AllowedContentTypes)]. *)
Definition NewUseCase (cfg : option Config) : storageUseCase :=
  match cfg with
  | None => mkUseCase DefaultMaxFileSize DefaultAllowedContentTypes
  | Some c => mkUseCase
      (if 0 <? MaxFileSize c then MaxFileSize c else DefaultMaxFileSize)
      (if 0 <? allowed_count c then AllowedContentTypes c else DefaultAllowedContentTypes)
  end.

Definition sniffSize : nat := 512.
Definition Hour : Z := 60 * Minute.

Section usecase.
Context {S : Type} `{Storage S}.
Variable DetectContentType : string → string.
Variable uc : storageUseCase.

(** The file is its content; [peekErr] is a read error of the peek other than end of file,
    [size] the declared size, [newUUID] the printed [uuid.New()]. *)
Definition Upload (s : S) (file : string) (peekErr : option error) (size : Z) (filename directory newUUID : string)
    : S * result error UploadResponse :=
  if maxFileSize uc <? size then
    (s, Err (BadRequestf ("file size " +:+ pretty size +:+ " exceeds maximum allowed size " +:+ pretty (maxFileSize uc))))
  else match peekErr with
  | Some e => (s, Err (Internalf ("failed to inspect uploaded file: " +:+ ErrorText e)))
  | None =>
      let ct := baseContentType (DetectContentType (String.substring 0 sniffSize file)) in
      if negb (allowedContentTypes uc ct) then
        (s, Err (UnsupportedMediaTypef ("content type " +:+ quote ct +:+ " is not allowed")))
      else
        let uniqueName := newUUID +:+ Ext filename in
        let directory := sanitizePath directory in
        let storagePath := if String.eqb directory "" then uniqueName else directory +:+ "/" +:+ uniqueName in
        match st_Upload s storagePath file [WithContentType ct] with
        | (s', Err e) => (s', Err (Internalf ("failed to upload file: " +:+ ErrorText e)))
        | (s', Ok path) =>
            let url := match st_GetURL s' path (24 * Hour) with Ok u => u | Err _ => "" end in
            (s', Ok (mkUploadResponse path url size))
        end
  end.

(** The shared beginning of [Download], [Delete] and [GetURL]. *)
Definition locate (s : S) (path0 : string) : result error string :=
  let path := sanitizePath path0 in
  if String.eqb path "" then Err (BadRequestf "invalid file path")
  else match st_Exists s path with
       | Err e => Err (Internalf ("failed to check file existence: " +:+ ErrorText e))
       | Ok false => Err (NotFoundf ("file not found: " +:+ path))
       | Ok true => Ok path
       end.

Definition Download (s : S) (path0 : string) : result error (string * string) :=
  match locate s path0 with
  | Err e => Err e
  | Ok path =>
      match st_Download s path with
      | Err e => Err (Internalf ("failed to download file: " +:+ ErrorText e))
      | Ok data => Ok (data, contentTypeOf path)
      end
  end.

Definition Delete (s : S) (path0 : string) : S * option error :=
  match locate s path0 with
  | Err e => (s, Some e)
  | Ok path =>
      match st_Delete s path with
      | (s', Some e) => (s', Some (Internalf ("failed to delete file: " +:+ ErrorText e)))
      | (s', None) => (s', None)
      end
  end.

Definition GetURL (s : S) (path0 : string) (expires : Z) : result error (string * string) :=
  match locate s path0 with
  | Err e => Err e
  | Ok path =>
      let expires := if expires <=? 0 then Hour else expires in
      match st_GetURL s path expires with
      | Err e => Err (Internalf ("failed to generate URL: " +:+ ErrorText e))
      | Ok url => Ok (path, url)
      end
  end.

Definition List (s : S) (prefix : string) : result error (list FileInfo) :=
  match st_List s (sanitizePath prefix) with
  | Err e => Err (Internalf ("failed to list files: " +:+ ErrorText e))
  | Ok files => Ok files
  end.

(** *** The audit decorator *)

Section audit.
Context {L : Type} `{Auditor L}.

Definition Audited_Upload (ctx : Context) (t : Z) (sl : S * L) (file : string) (peekErr : option error)
    (size : Z) (filename directory newUUID : string) : (S * L) * result error UploadResponse :=
  match Upload sl.1 file peekErr size filename directory newUUID with
  | (s', Err e) => ((s', sl.2), Err e)
  | (s', Ok resp) =>
      let e := NewAuditEntry ctx t ActionCreate "file" (up_Path resp) in
      let e := mkAuditEntry (ae_UserID e) (ae_Action e) (ae_Resource e) (ae_ResourceID e) None
                 (Some (AnyMap [("size", AnyInt (up_Size resp)); ("original_filename", AnyString filename)]))
                 None (ae_IPAddress e) (ae_UserAgent e) (ae_Timestamp e) in
      ((s', (auditor_Log sl.2 e).1), Ok resp)
  end.

Definition Audited_Delete (ctx : Context) (t : Z) (sl : S * L) (path : string) : (S * L) * option error :=
  match Delete sl.1 path with
  | (s', Some e) => ((s', sl.2), Some e)
  | (s', None) => ((s', (auditor_Log sl.2 (NewAuditEntry ctx t ActionDelete "file" path)).1), None)
  end.

End audit.

(** *** The handlers *)

Fixpoint sanitizeHeaderValue (v : string) : string :=
  match v with
  | EmptyString => ""
  | String c v' =>
      if negb (Ascii.eqb c "013") && negb (Ascii.eqb c "010") && negb (Ascii.eqb c "034")
      then String c (sanitizeHeaderValue v') else sanitizeHeaderValue v'
  end.

Inductive download_reply := Sent (contentType disposition body : string) | Failed (r : Response unit).

Definition h_Download (s : S) (path : string) : download_reply :=
  if String.eqb path "" then Failed (Resp.Fail (BadRequestf "file path is required"))
  else match Download s path with
       | Err e => Failed (Resp.Fail e)
       | Ok (data, contentType) =>
           let filename := Base path in
           Sent contentType ("attachment; filename=" +:+ dquote +:+ sanitizeHeaderValue filename +:+ dquote) data
       end.

Definition h_Delete (s : S) (path : string) : S * Response unit :=
  if String.eqb path "" then (s, Resp.Fail (BadRequestf "file path is required"))
  else match Delete s path with
       | (s', Some e) => (s', Resp.Fail e)
       | (s', None) => (s', Resp.NoContent)
       end.

Definition h_GetURL (s : S) (path expiresParam : string) : Response (string * string) :=
  if String.eqb path "" then Resp.Fail (BadRequestf "file path is required")
  else
    let parsed := if String.eqb expiresParam "" then Some 0
                  else match ParseInt expiresParam with
                       | Some seconds => if seconds <=? 0 then None else Some (wrap64 (seconds * Second))
                       | None => None
                       end in
    match parsed with
    | None => Resp.Fail (BadRequestf "invalid expires value: must be a positive integer (seconds)")
    | Some expires =>
        match GetURL s path expires with Err e => Resp.Fail e | Ok r => Resp.Success r end
    end.

Definition h_List (s : S) (prefix : string) : Response (list FileInfo) :=
  match List s prefix with Err e => Resp.Fail e | Ok r => Resp.Success r end.

(** [form] is the part named file (declared size and name) and [opened] what opening it
    gives: its content and the error of the first read, if any. *)
Definition h_Upload (s : S) (form : result error (Z * string)) (opened : result error (string * option error))
    (directory newUUID : string) : S * Response UploadResponse :=
  match form with
  | Err err => (s, Resp.Fail (BadRequestf ("file is required: " +:+ ErrorText err)))
  | Ok (size, filename) =>
      match opened with
      | Err _ => (s, Resp.Fail (Internalf "failed to open uploaded file"))
      | Ok (file, peekErr) =>
          match Upload s file peekErr size filename directory newUUID with
          | (s', Err err) => (s', Resp.Fail err)
          | (s', Ok result) => (s', Resp.Created result)
          end
      end
  end.

End usecase.

(** ** The sanitizer *)

(** What a sanitized path is made of: ordinary names without NUL, the first of which does
    not begin with a dot. *)
Definition safe_names (l : list string) : Prop :=
  Forall normal l ∧ Forall (λ x, contains_byte NUL x = false) l ∧
  match l with String c _ :: _ => c ≠ "."%char | _ => True end.

Lemma keep_part_true x : keep_part x = true ↔ x ≠ ".." ∧ x ≠ "." ∧ x ≠ "".
Proof. unfold keep_part. rewrite negb_true_iff, !orb_false_iff, !String.eqb_neq. tauto. Qed.

Lemma sanitize_names p : ∃ l, sanitizePath p = Join slash l ∧ safe_names l.
Proof.
  unfold sanitizePath. set (q := TrimLeft _ _). eexists. split; [reflexivity|].
  assert (contains_byte NUL q = false) as Hq.
  { apply contains_TrimLeft, contains_Clean; [done|done|apply contains_remove_byte]. }
  split_and!.
  - apply Forall_forall. intros x [Hk Hx]%list_elem_of_filter. apply keep_part_true in Hk as (? & ? & ?).
    split_and!; try done. by eapply Split_no_sep.
  - apply Forall_forall. intros x [_ Hx]%list_elem_of_filter. destruct (contains_byte NUL x) eqn:Hn; [|done].
    by rewrite (contains_Split _ _ _ _ Hx Hn) in Hq.
  - pose proof (TrimLeft_head ["/"; "."]%char (Clean (remove_byte NUL p))) as Hh. fold q in Hh.
    destruct q as [|c q]; [done|]. cbn [existsb] in Hh. apply orb_false_iff in Hh as [H1 H2].
    apply orb_false_iff in H2 as [H2 _]. apply Ascii.eqb_neq in H2.
    cbn [Split]. rewrite (H1 : Ascii.eqb c slash = false).
    destruct (Split slash q) as [|y l]; rewrite filter_cons_True.
    all: try done; apply keep_part_true; split_and!; congruence.
Qed.

Lemma safe_head l : safe_names l → l ≠ [] →
  ∃ c r, Join slash l = String c r ∧ c ≠ "."%char ∧ c ≠ slash.
Proof.
  intros (Hn & _ & Hd) Hne. destruct Hn as [|x l (H1 & _ & _ & H4) _]; [done|].
  destruct x as [|c x]; [done|]. simpl in H4. apply orb_false_iff in H4 as [H4 _]. apply Ascii.eqb_neq in H4.
  destruct l as [|y l]; [eauto|]. rewrite Join_cons by done. simpl. eauto.
Qed.

Lemma safe_Clean l : safe_names l → l ≠ [] → Clean (Join slash l) = Join slash l.
Proof.
  intros Hs Hne. assert (Hc : cleaned false l) by (exists 0%nat, l; by destruct Hs).
  destruct (elems_render false l Hc (or_intror Hne)) as (Hr & He & Hj). unfold render in *; simpl in *.
  rewrite Clean_render; rewrite ?Hr, ?He; auto.
Qed.

Lemma sanitize_safe l : safe_names l → sanitizePath (Join slash l) = Join slash l.
Proof.
  intros Hs. destruct (decide (l = [])) as [->|Hne]; [done|].
  destruct (safe_head l Hs Hne) as (c & r & Hj & Hd & Hsl).
  pose proof Hs as (Hn & Hz & _). unfold sanitizePath.
  rewrite remove_byte_id.
  2: { rewrite contains_Join by done. clear -Hz. induction Hz as [|x l Hx _ IH]; cbn; [done|]. by rewrite Hx. }
  rewrite safe_Clean by done. rewrite TrimLeft_id.
  2: { rewrite Hj. cbn [existsb]. rewrite (proj2 (Ascii.eqb_neq c "/")), (proj2 (Ascii.eqb_neq c ".")) by done. done. }
  rewrite Split_Join; [|done|by eapply Forall_impl; [exact Hn|]; intros x (_ & _ & _ & ?)].
  rewrite filter_all; [done|]. eapply Forall_impl; [exact Hn|].
  intros x (H1 & H2 & H3 & _). by apply keep_part_true.
Qed.

(** The path sanitizer.  Whatever bytes a client sends, the result is a relative path
    of ordinary names: no element is empty, [.] or [..], none contains a NUL, and the first
    does not begin with a dot; sanitizing again changes nothing. *)
Theorem sanitize_path_safe (p : string) :
  (∃ l, sanitizePath p = Join slash l ∧ Forall normal l ∧ Forall (λ x, contains_byte NUL x = false) l) ∧
  rooted (sanitizePath p) = false ∧
  sanitizePath (sanitizePath p) = sanitizePath p.
Proof.
  destruct (sanitize_names p) as (l & -> & Hs). pose proof Hs as (Hn & Hz & _). split; [eauto|]. split.
  - destruct (decide (l = [])) as [->|Hne]; [done|].
    by apply (Join_nonempty false); [exists 0%nat, l|].
  - by apply sanitize_safe.
Qed.

(** ** Containment *)

(** A base directory that names something: at least one element, no [..]. *)
Definition ordinary_base (base : string) : Prop := Forall normal (elems base) ∧ elems base ≠ [].

#[export] Instance ordinary_base_dec base : Decision (ordinary_base base).
Proof. unfold ordinary_base. apply _. Defined.

Lemma ordinary_nonempty base : ordinary_base base → base ≠ "".
Proof. intros [_ Hne] ->. done. Qed.

Lemma Join2_elems base key :
  base ≠ "" → Join2 base key = Clean (base +:+ String slash key).
Proof. intros Hb. unfold Join2. by rewrite (proj2 (String.eqb_neq _ _) Hb). Qed.

Lemma render_inj root l l' :
  cleaned root l → cleaned root l' → (root = true ∨ l ≠ []) → (root = true ∨ l' ≠ []) →
  render root l = render root l' → l = l'.
Proof.
  intros Hc Hc' Hn Hn' Heq. destruct (elems_render root l Hc Hn) as (_ & He & _).
  destruct (elems_render root l' Hc' Hn') as (_ & He' & _). by rewrite <-He, <-He', Heq.
Qed.

(** A directory prefix of the text is a prefix of the element list. *)
Lemma prefix_elems root b l :
  cleaned root b → cleaned root l → b ≠ [] → l ≠ [] →
  has_prefix (render root b +:+ "/") (render root l) = true ↔ ∃ rest, rest ≠ [] ∧ l = b ++ rest.
Proof.
  intros Hb Hl Hbn Hln. rewrite has_prefix_spec. unfold render. split.
  - intros [t Heq]. exists (Split slash t). split; [apply Split_nonempty|].
    rewrite <-(Split_Join slash l), <-(Split_Join slash b) by (done || by eapply cleaned_no_slash).
    rewrite <-Split_app. f_equal. rewrite !append_assoc in Heq. by apply append_cancel_l in Heq.
  - intros (rest & Hr & ->). exists (Join slash rest). rewrite !append_assoc. f_equal. clear -Hbn Hr.
    induction b as [|x b IH]; [done|]. destruct b as [|y b].
    + by rewrite <-app_comm_cons, Join_cons by (by destruct rest).
    + rewrite <-app_comm_cons, !Join_cons by done. rewrite IH by done. by rewrite append_assoc.
Qed.

(** The elements the joined path has. *)
Definition joined (base key : string) : list string :=
  clean_elems (rooted base) (rev (elems base)) (Split slash key).

Lemma joined_cleaned base key : cleaned (rooted base) (joined base key).
Proof.
  apply clean_elems_cleaned.
  - apply Forall_forall. intros x. apply Split_no_sep.
  - rewrite rev_involutive. apply elems_cleaned.
Qed.

Lemma full_path base key :
  ordinary_base base →
  let p := Clean (Join2 base key) in rooted p = rooted base ∧ elems p = joined base key.
Proof.
  intros Hb. pose proof (ordinary_nonempty _ Hb) as Hne. simpl.
  rewrite Join2_elems, Clean_idem by done.
  destruct (Clean_elems (base +:+ String slash key)) as (Hr & He & _).
  by rewrite Hr, He, elems_join, rooted_app.
Qed.

Lemma resolve_exact base key p :
  ordinary_base base →
  resolveWithinBase base key = Ok p ↔
  p = Clean (Join2 base key) ∧ ∃ rest, joined base key = elems base ++ rest.
Proof.
  intros Hb. pose proof (ordinary_nonempty _ Hb) as Hne. destruct (full_path base key Hb) as [Hr He].
  unfold resolveWithinBase. set (full := Clean (Join2 base key)) in *.
  assert (full ≠ "") as Hfne by apply Clean_elems.
  assert (Clean full = full) as Hfix by apply Clean_idem.
  destruct Hb as [Hbn Hbe].
  assert (Clean base = render (rooted base) (elems base)) as Hcb by (apply Clean_render; auto).
  destruct (String.eqb_spec full (Clean base)) as [Heq|Hdiff].
  - split; [|by intros [-> _]]. intros [= <-]. split; [done|]. exists []. rewrite app_nil_r.
    rewrite <-He, Heq. apply Clean_elems.
  - destruct (decide (elems full = [])) as [Hfe|Hfe].
    + split; [|intros [_ [rest Hrest]]; rewrite <-He, Hfe in Hrest; by destruct (elems base)].
      destruct (has_prefix (Clean base +:+ "/") full) eqn:Hp; [|done]. exfalso.
      rewrite <-Hfix in Hp. unfold Clean at 2 in Hp. rewrite Hfe, Hr in Hp.
      apply has_prefix_spec in Hp as [t Hp]. rewrite Hcb, (proj2 (String.eqb_neq _ _) Hfne) in Hp.
      destruct (Join_nonempty _ _ (elems_cleaned base) Hbe) as [Hj _]. unfold render in Hp.
      destruct (Join slash (elems base)) as [|c j] eqn:Hjs; [done|].
      destruct (rooted base); simpl in Hp; [done|]. injection Hp as <- Hp. by destruct j.
    + assert (full = render (rooted base) (joined base key)) as Hfull.
      { rewrite <-Hfix, Clean_render, Hr, He; auto. }
      rewrite He in Hfe. rewrite Hcb, Hfull.
      pose proof (prefix_elems (rooted base) (elems base) (joined base key) (elems_cleaned base)
                    (joined_cleaned base key) Hbe Hfe) as Hpre.
      destruct (has_prefix _ _); simpl.
      * destruct (proj1 Hpre eq_refl) as (rest & _ & Hrest). split; [intros [= <-]; eauto | by intros [-> _]].
      * split; [done|]. intros [_ [rest Hrest]]. exfalso.
        destruct (decide (rest = [])) as [->|Hrn]; [|by assert (false = true) by (apply Hpre; eauto)].
        rewrite app_nil_r in Hrest. by rewrite Hfull, Hrest, Hcb in Hdiff.
Qed.

Lemma resolve_safe base l :
  ordinary_base base → safe_names l →
  resolveWithinBase base (Join slash l) = Ok (Clean (Join2 base (Join slash l))) ∧
  joined base (Join slash l) = elems base ++ l.
Proof.
  intros Hb (Hn & _ & _). assert (joined base (Join slash l) = elems base ++ l) as Hj.
  { unfold joined. destruct (decide (l = [])) as [->|Hne]; [simpl; by rewrite rev_involutive, app_nil_r|].
    rewrite Split_Join; [|done|by eapply Forall_impl; [exact Hn|]; intros x (_ & _ & _ & ?)].
    rewrite clean_elems_normal by done. by rewrite rev_involutive. }
  split; [|done]. apply resolve_exact; [done|]. split; [done|]. eauto.
Qed.

(** C22: no key escapes the storage root.  For a base directory that names something (at
    least one element and no [..], as [./uploads]), a path the local adapter accepts lies
    under the base: its elements are those of the base followed by ordinary names, for any
    key, also one that bypassed the sanitizer.  Every sanitized key is accepted. *)
Theorem local_paths_contained (base key p : string) :
  ordinary_base base →
  (resolveWithinBase base key = Ok p →
     rooted p = rooted base ∧ ∃ names, elems p = elems base ++ names ∧ Forall normal names) ∧
  is_Some (match resolveWithinBase base (sanitizePath key) with Ok q => Some q | Err _ => None end).
Proof.
  intros Hb. split.
  - intros (-> & rest & Hrest)%resolve_exact; [|done]. destruct (full_path base key Hb) as [Hr He].
    split; [done|]. exists rest. rewrite He. split; [done|].
    destruct (joined_cleaned base key) as (k & names & Hj & Hn & _). rewrite Hrest in Hj.
    destruct Hb as [Hbn Hbe]. destruct (elems base) as [|x b]; [done|].
    destruct k as [|k]; simpl in Hj.
    + subst names. by apply (Forall_app normal (x :: b)) in Hn as [_ ?].
    + injection Hj as -> _. by apply Forall_cons in Hbn as [(_ & _ & ? & _) _].
  - destruct (sanitize_names key) as (l & -> & Hs). destruct (resolve_safe base l Hb Hs) as [-> _]. eauto.
Qed.

Lemma local_paths_contained_witness :
  ordinary_base "./uploads" ∧ resolveWithinBase "./uploads" "../etc/passwd" = Err ErrPathEscapesBase ∧
  rooted "uploads/a/b" = rooted "./uploads" ∧
  (∃ names, elems "uploads/a/b" = elems "./uploads" ++ names ∧ Forall normal names).
Proof.
  assert (ordinary_base "./uploads") as Hb by (split; [repeat constructor; done | done]).
  split; [exact Hb|]. split; [vm_compute; reflexivity|].
  apply (proj1 (local_paths_contained "./uploads" "a/x/../b" "uploads/a/b" Hb)). vm_compute. reflexivity.
Defined.

(** The side condition is needed: with [..] as base directory the check lets a key
    leave the base, and with [.] or [/] it refuses every key. *)
Theorem local_base_degenerate :
  resolveWithinBase ".." "../etc/passwd" = Ok "../../etc/passwd" ∧
  resolveWithinBase "." "a.png" = Err ErrPathEscapesBase ∧
  resolveWithinBase "/" "a.png" = Err ErrPathEscapesBase.
Proof. vm_compute. done. Qed.

(** ** Upload, then download *)

(** What the adapter relies on of the file system. *)
Class FSLaws (F : Type) `{FS F} := {
  files : F → gmap string string;
  MkdirAll_files f p : files (fs_MkdirAll f p).1 = files f;
  Create_files f p f' : fs_Create f p = (f', None) → files f' = <[p := ""]> (files f);
  Copy_files f p d f' : fs_Copy f p d = (f', None) → files f' = <[p := d]> (files f);
  Remove_files f p f' : fs_Remove f p = (f', None) → files f' = delete p (files f) ∧ fs_Stat f' p = Err NotExist;
  Remove_absent f p f' : fs_Remove f p = (f', Some NotExist) → fs_Stat f' p = Err NotExist;
  Open_file f p d : files f !! p = Some d → fs_Open f p = Ok d;
  Stat_file f p d : files f !! p = Some d → fs_Stat f p = Ok tt
}.

(** What the use case needs of an adapter: under the keys it builds (sanitized, not empty)
    a successful upload stores the bytes and touches no other key, what is stored is found
    and read back, and a successful deletion makes it absent.  [storable] is what the
    adapter needs of its own configuration. *)
Class StorageSpec (S : Type) `{Storage S} := {
  storable : S → Prop;
  object : S → string → option string;
  Upload_spec s s' l data opts q :
    storable s → safe_names l → l ≠ [] → st_Upload s (Join slash l) data opts = (s', Ok q) →
    q = Join slash l ∧ storable s' ∧ object s' (Join slash l) = Some data ∧
    ∀ l', safe_names l' → l' ≠ [] → l' ≠ l → object s' (Join slash l') = object s (Join slash l');
  object_found s l d :
    storable s → safe_names l → l ≠ [] → object s (Join slash l) = Some d →
    st_Exists s (Join slash l) = Ok true ∧ st_Download s (Join slash l) = Ok d;
  Delete_spec s s' l :
    storable s → safe_names l → l ≠ [] → st_Delete s (Join slash l) = (s', None) →
    st_Exists s' (Join slash l) = Ok false
}.

(** *** The local adapter keeps the contract *)

Section local_spec.
Context {F : Type} `{FSLaws F}.

Lemma local_upload_ok (s s' : LocalStorage F) path data opts q :
  local_Upload s path data opts = (s', Ok q) →
  q = path ∧ basePath s' = basePath s ∧
  ∃ full, resolveWithinBase (basePath s) path = Ok full ∧ files (fs s') = <[full := data]> (files (fs s)).
Proof.
  unfold local_Upload. destruct (resolveWithinBase (basePath s) path) as [full|]; [|done].
  pose proof (MkdirAll_files (fs s) (Dir full)) as Hm.
  destruct (fs_MkdirAll (fs s) (Dir full)) as [f1 [e|]]; [done|].
  destruct (fs_Create f1 full) as [f2 [e|]] eqn:Hc; [done|].
  destruct (fs_Copy f2 full data) as [f3 [e|]] eqn:Hp; [done|]. intros [= <- <-].
  split; [done|]. split; [done|]. exists full. split; [done|]. simpl in *.
  by rewrite (Copy_files _ _ _ _ Hp), (Create_files _ _ _ Hc), Hm, insert_insert_eq.
Qed.

Lemma resolve_inj base l l' full :
  ordinary_base base → safe_names l → safe_names l' →
  resolveWithinBase base (Join slash l) = Ok full → resolveWithinBase base (Join slash l') = Ok full → l = l'.
Proof.
  intros Hb Hl Hl' [Hf _]%resolve_exact [Hf' _]%resolve_exact; [|done..].
  destruct (full_path base (Join slash l) Hb) as [_ He]. destruct (full_path base (Join slash l') Hb) as [_ He'].
  destruct (resolve_safe base l Hb Hl) as [_ Hj]. destruct (resolve_safe base l' Hb Hl') as [_ Hj'].
  rewrite <-Hf, Hj in He. rewrite <-Hf', Hj' in He'. rewrite He in He'. by apply app_inv_head in He'.
Qed.

Definition local_object (s : LocalStorage F) (key : string) : option string :=
  match resolveWithinBase (basePath s) key with Ok full => files (fs s) !! full | Err _ => None end.

#[export] Instance Local_spec : StorageSpec (LocalStorage F).
Proof.
  refine {| storable s := ordinary_base (basePath s); object := local_object |}.
  - intros s s' l data opts q Hb Hs _ Hup. cbn [st_Upload Local_Storage] in Hup.
    apply local_upload_ok in Hup as (-> & Hbase & full & Hr & Hfiles).
    split; [done|]. rewrite Hbase. split; [done|]. unfold local_object. rewrite Hbase, Hr, Hfiles.
    split; [apply lookup_insert_eq|]. intros l' Hs' _ Hne. destruct (resolve_safe _ l' Hb Hs') as [Hr' _].
    rewrite Hr'. rewrite lookup_insert_ne; [done|]. intros Heq. apply Hne.
    rewrite Heq in Hr. by eapply resolve_inj.
  - intros s l d Hb Hs _. unfold local_object. simpl. unfold local_Exists, local_Download.
    destruct (resolveWithinBase _ _) as [full|]; [|done]. intros Hd. by rewrite (Stat_file _ _ _ Hd), (Open_file _ _ _ Hd).
  - intros s s' l Hb Hs _. destruct (resolve_safe _ l Hb Hs) as [Hr _]. simpl. unfold local_Delete, local_Exists. rewrite Hr.
    destruct (fs_Remove (fs s) _) as [f' e] eqn:Hrm.
    destruct e as [[|e]|]; [|done|]; intros [= <-]; simpl; rewrite Hr.
    + by rewrite (Remove_absent _ _ _ Hrm).
    + by rewrite (proj2 (Remove_files _ _ _ Hrm)).
Defined.

End local_spec.

(** *** The round trip, for every adapter *)

Section roundtrip.
Context {U S : Type} `{Uuid U} `{StorageSpec S}.
Variable DetectContentType : string → string.
Variable uc : storageUseCase.

Lemma unique_name_safe (u : U) filename l :
  contains_byte NUL filename = false → safe_names l →
  safe_names (l ++ [uuid_String u +:+ Ext filename]).
Proof.
  intros Hf (Hn & Hz & Hd).
  assert (contains_byte NUL (uuid_String u) = false) as Hu by (by apply uuid_no_byte).
  assert (contains_byte slash (uuid_String u) = false) as Hsl by (by apply uuid_no_byte).
  assert (contains_byte "." (uuid_String u) = false) as Hdot by (by apply uuid_no_byte).
  pose proof (uuid_length u) as Hlen.
  split_and!.
  - apply Forall_app. split; [done|]. apply Forall_singleton.
    assert (∀ t, (String.length t < 36)%nat → uuid_String u +:+ Ext filename ≠ t) as Hlong.
    { intros t Ht Heq. rewrite <-Heq, length_append in Ht. lia. }
    split_and!; try (apply Hlong; simpl; lia). by rewrite contains_byte_append, Hsl, Ext_no_slash.
  - apply Forall_app. split; [done|]. apply Forall_singleton.
    rewrite contains_byte_append, Hu. by apply contains_Ext.
  - destruct l as [|x l]; [|done]. simpl. destruct (uuid_String u) as [|c r]; [done|].
    simpl in *. apply orb_false_iff in Hdot as [Hdot _]. by apply Ascii.eqb_neq.
Qed.

(** The key [Upload] builds. *)
Lemma storage_path_safe (u : U) filename directory :
  contains_byte NUL filename = false →
  ∃ l, safe_names l ∧ l ≠ [] ∧
    (let d := sanitizePath directory in
     if String.eqb d "" then uuid_String u +:+ Ext filename else d +:+ "/" +:+ uuid_String u +:+ Ext filename)
    = Join slash l.
Proof.
  intros Hf. destruct (sanitize_names directory) as (l & -> & Hs). simpl.
  exists (l ++ [uuid_String u +:+ Ext filename]). split; [by apply unique_name_safe|].
  split; [by destruct l|]. destruct (decide (l = [])) as [->|Hne]; [done|].
  rewrite Join_app by done. destruct (safe_head l Hs Hne) as (c & r & -> & _). done.
Qed.

Lemma safe_nonempty l : safe_names l → l ≠ [] → String.eqb (Join slash l) "" = false.
Proof. intros Hs Hne. destruct (safe_head l Hs Hne) as (c & r & Hj & _). by rewrite Hj. Qed.

Lemma locate_stored (s : S) l d :
  storable s → safe_names l → l ≠ [] → object s (Join slash l) = Some d → locate s (Join slash l) = Ok (Join slash l).
Proof.
  intros Hst Hs Hne Hd. unfold locate. rewrite sanitize_safe, safe_nonempty by done.
  by destruct (object_found _ _ _ Hst Hs Hne Hd) as [-> _].
Qed.

(** C23: an uploaded file can be fetched and removed under the path the API returned.  On
    any adapter that keeps the storage contract, and for a file name without NUL, after a
    successful [Upload] the file is stored under the returned path, nothing changed under
    any other key the API can name, [Download] of the returned path gives the uploaded
    bytes, and after a successful [Delete] of that path it is reported as not found.  The
    local adapter over an ordinary base directory and the S3 adapter keep the contract. *)
Theorem upload_download_roundtrip (s s1 : S) (file : string) (peekErr : option error) (size : Z)
    (filename directory : string) (u : U) (resp : UploadResponse) :
  storable s →
  contains_byte NUL filename = false →
  Upload DetectContentType uc s file peekErr size filename directory (uuid_String u) = (s1, Ok resp) →
  object s1 (up_Path resp) = Some file ∧
  (∀ key, sanitizePath key ≠ "" → sanitizePath key ≠ up_Path resp →
     object s1 (sanitizePath key) = object s (sanitizePath key)) ∧
  Download s1 (up_Path resp) = Ok (file, contentTypeOf (up_Path resp)) ∧
  (∀ s2, Delete s1 (up_Path resp) = (s2, None) →
     Download s2 (up_Path resp) = Err (NotFoundf ("file not found: " +:+ up_Path resp))).
Proof.
  intros Hst Hf. unfold Upload. destruct (maxFileSize uc <? size); [done|]. destruct peekErr; [done|].
  destruct (allowedContentTypes uc _); simpl negb; cbn iota; [|done].
  destruct (storage_path_safe u filename directory Hf) as (l & Hs & Hne & Hpath). cbv zeta in *. rewrite Hpath.
  destruct (st_Upload s (Join slash l) file _) as [s' [q|]] eqn:Hup; [|done].
  apply Upload_spec in Hup as (-> & Hst' & Hobj & Hother); [|done..]. intros [= <- <-]. cbn [up_Path].
  pose proof (locate_stored s' l file Hst' Hs Hne Hobj) as Hloc. split_and!; [done| | |].
  - intros key Hk Hdiff. destruct (sanitize_names key) as (l' & Hl' & Hs'). rewrite Hl' in Hk, Hdiff |- *.
    apply Hother; [done|by intros ->|by intros ->].
  - unfold Download. rewrite Hloc. by destruct (object_found _ _ _ Hst' Hs Hne Hobj) as [_ ->].
  - intros s2. unfold Delete. rewrite Hloc. destruct (st_Delete s' (Join slash l)) as [s3 [e|]] eqn:Hd; [done|].
    intros [= <-]. unfold Download, locate. rewrite sanitize_safe, safe_nonempty by done.
    by rewrite (Delete_spec _ _ _ Hst' Hs Hne Hd).
Qed.

End roundtrip.

(** A file system of whole files. *)
#[export] Instance MapFS : FS (gmap string string) := {
  fs_MkdirAll f _ := (f, None);
  fs_Create f p := (<[p := ""]> f, None);
  fs_Copy f p d := (<[p := d]> f, None);
  fs_Remove f p := match f !! p with Some _ => (delete p f, None) | None => (f, Some NotExist) end;
  fs_Open f p := match f !! p with Some d => Ok d | None => Err NotExist end;
  fs_Stat f p := match f !! p with Some _ => Ok tt | None => Err NotExist end;
  fs_Walk f _ := Ok []
}.

#[export] Instance MapFS_laws : FSLaws (gmap string string).
Proof.
  refine {| files := λ f, f |}; simpl; intros; simplify_eq; try done.
  - destruct (f !! p) eqn:Hp; simplify_eq. by rewrite lookup_delete_eq.
  - destruct (f !! p) eqn:Hp; simplify_eq. by rewrite Hp.
  - by rewrite H.
  - by rewrite H.
Qed.

Lemma upload_download_roundtrip_witness :
  let s0 := mkLocalStorage "./uploads" "" (∅ : gmap string string) in
  let up := Upload (λ _, "image/png") (NewUseCase None) s0 "PNGDATA" None 7 "cat.PNG" "../pets" (two_uuid_String true) in
  up.2 = Ok (mkUploadResponse "pets/00000000-0000-0000-0000-000000000001.PNG"
               "/uploads/pets/00000000-0000-0000-0000-000000000001.PNG" 7) ∧
  Download up.1 "pets/00000000-0000-0000-0000-000000000001.PNG" = Ok ("PNGDATA", "image/png").
Proof.
  intros s0 up. split; [vm_compute; reflexivity|].
  apply (@upload_download_roundtrip bool (LocalStorage (gmap string string)) BoolUuid _ _ (λ _, "image/png") (NewUseCase None)
    s0 up.1 "PNGDATA" None 7 "cat.PNG" "../pets" true
    (mkUploadResponse "pets/00000000-0000-0000-0000-000000000001.PNG"
       "/uploads/pets/00000000-0000-0000-0000-000000000001.PNG" 7)).
  - split; [repeat constructor; done | done].
  - reflexivity.
  - vm_compute. reflexivity.
Defined.

(** ** The download header *)

(** The Content-Disposition header cannot be broken out of: whatever path was asked
    for, the quoted file name has no quote, carriage return or line feed, so the header is
    one line with one quoted string. *)
Theorem disposition_safe {S : Type} `{Storage S} (s : S) (path ct disp body : string) :
  h_Download s path = Sent ct disp body →
  ∃ name, disp = "attachment; filename=" +:+ dquote +:+ name +:+ dquote ∧
    contains_byte "034" name = false ∧ contains_byte "013" name = false ∧ contains_byte "010" name = false.
Proof.
  assert (∀ v b, b ∈ ["034"; "013"; "010"]%char → contains_byte b (sanitizeHeaderValue v) = false) as Hclean.
  { intros v b Hb. induction v as [|c v IH]; [done|]. cbn [sanitizeHeaderValue].
    destruct (Ascii.eqb_spec c "013"), (Ascii.eqb_spec c "010"), (Ascii.eqb_spec c "034"); cbn [negb andb]; try done.
    cbn [contains_byte]. rewrite IH, orb_false_r. apply Ascii.eqb_neq. set_solver. }
  unfold h_Download. destruct (String.eqb path ""); [done|].
  destruct (Download s path) as [[data c]|]; [|done]. intros [= <- <- <-].
  eexists. split; [reflexivity|]. split_and!; apply Hclean; set_solver.
Qed.

Lemma disposition_safe_witness :
  let s0 := mkLocalStorage "./up" "" ({[ "up/a" := "x" ]} : gmap string string) in
  ∃ name, "attachment; filename=" +:+ dquote +:+ "a" +:+ dquote = "attachment; filename=" +:+ dquote +:+ name +:+ dquote ∧
    contains_byte "034" name = false ∧ contains_byte "013" name = false ∧ contains_byte "010" name = false.
Proof.
  intros s0. apply (disposition_safe s0 "a" "application/octet-stream" _ "x"). vm_compute. reflexivity.
Defined.

End Storage.
