(* ===== verification/S3.v ===== *)
(** * The S3 storage adapter

    Models [internal/adapter/storage/s3.go] over the object store of the AWS client (class
    [S3Client], with its documented behaviour as [S3Laws]): every method, the paginated
    listing included.  The adapter keeps the storage contract of [Storage], so the use
    case's theorems hold for it as for the local adapter. *)
From S2P Require Import Prelude GoStr FilePath AppErr Config Port Storage.
Import GoStr FilePath AppErr Config Storage.

Module S3.

(** ** The client (third party) *)

Record PutObjectInput := mkPutObjectInput {
  po_Key : string; po_Body : string; po_ContentType : string;
  po_Metadata : option (gmap string string); po_ACL : string
}.

(** An entry of a listing page. *)
Record s3_object := mkObject { ob_Key : string; ob_Size : Z; ob_LastModified : Z }.

Class S3Client (C : Type) := {
  PutObject : C → string → PutObjectInput → C * option error;
  GetObject : C → string → string → result error string;
  DeleteObject : C → string → string → C * option error;
  HeadObject : C → string → string → option error;
  PresignGetObject : C → string → string → Z → result error string;
  (* bucket, prefix and continuation token; a page and the next token, if it is truncated *)
  ListObjectsV2 : C → string → string → option string → result error (list s3_object * option string)
}.

(** ** The adapter *)

Record S3Config := mkS3Config {
  Endpoint : string; Bucket : string; Region : string; AccessKey : string; SecretKey : string
}.

(** [list_fuel] bounds the pages a listing reads; it is not part of the code. *)
Record S3Storage (C : Type) := mkS3Storage { client : C; bucket : string; list_fuel : nat }.
Arguments mkS3Storage {C}.
Arguments client {C}.
Arguments bucket {C}.
Arguments list_fuel {C}.

(** [load] is the outcome of [LoadDefaultConfig]; [connect] makes the client from the
    endpoint, if one is configured (then path-style addressing is used). *)
Definition NewS3Storage {C} (load : string → option error) (connect : option (string * bool) → C) (fuel : nat)
    (cfg : S3Config) : result error (S3Storage C) :=
  match load (Region cfg) with
  | Some err => Err (FmtError "failed to load aws config: " err "")
  | None =>
      let c := if negb (String.eqb (Endpoint cfg) "") then connect (Some (Endpoint cfg, true)) else connect None in
      Ok (mkS3Storage c (Bucket cfg) fuel)
  end.

Section adapter.
Context {C : Type} `{S3Client C}.
Implicit Type s : S3Storage C.

Definition with_client s (c : C) : S3Storage C := mkS3Storage c (bucket s) (list_fuel s).

Definition put_input (path body : string) (cfg : UploadConfig) : PutObjectInput :=
  mkPutObjectInput path body (uc_ContentType cfg)
    (if 0 <? Z.of_nat (size (uc_Metadata cfg)) then Some (uc_Metadata cfg) else None)
    (if uc_Public cfg then "public-read" else "").

(** [data] is what [io.ReadAll] read. *)
Definition s3_Upload s (path data : string) (opts : list UploadOption) : S3Storage C * result error string :=
  let cfg := ApplyOptions opts in
  match PutObject (client s) (bucket s) (put_input path data cfg) with
  | (c', Some err) => (with_client s c', Err (FmtError "failed to upload to s3: " err ""))
  | (c', None) => (with_client s c', Ok path)
  end.

Definition s3_Download s (path : string) : result error string :=
  match GetObject (client s) (bucket s) path with
  | Err err => Err (FmtError "failed to download from s3: " err "")
  | Ok body => Ok body
  end.

Definition s3_Delete s (path : string) : S3Storage C * option error :=
  match DeleteObject (client s) (bucket s) path with
  | (c', Some err) => (with_client s c', Some (FmtError "failed to delete from s3: " err ""))
  | (c', None) => (with_client s c', None)
  end.

(** Every error is taken for absence. *)
Definition s3_Exists s (path : string) : result error bool :=
  match HeadObject (client s) (bucket s) path with Some _ => Ok false | None => Ok true end.

Definition s3_GetURL s (path : string) (expires : Z) : result error string :=
  match PresignGetObject (client s) (bucket s) path expires with
  | Err err => Err (FmtError "failed to generate presigned url: " err "")
  | Ok url => Ok url
  end.

Definition file_of (o : s3_object) : FileInfo := mkFileInfo (ob_Key o) (ob_Size o) "" (ob_LastModified o).

(** The paginator: it has more pages while the last one gave a non-empty token. *)
Fixpoint list_loop (fuel : nat) s (prefix : string) (token : option string) (files : list FileInfo)
    : option (result error (list FileInfo)) :=
  match fuel with
  | O => None
  | S fuel' =>
      match ListObjectsV2 (client s) (bucket s) prefix token with
      | Err err => Some (Err (FmtError "failed to list objects: " err ""))
      | Ok (objs, next) =>
          let files := files ++ map file_of objs in
          match next with
          | Some (String ch t) => list_loop fuel' s prefix (Some (String ch t)) files
          | _ => Some (Ok files)
          end
      end
  end.

Definition s3_List s (prefix : string) : option (result error (list FileInfo)) :=
  list_loop (list_fuel s) s prefix None [].

#[export] Instance S3_Storage : Storage (S3Storage C) := {
  st_Upload := s3_Upload;
  st_Download := s3_Download;
  st_Delete := s3_Delete;
  st_Exists := s3_Exists;
  st_GetURL := s3_GetURL;
  st_List s prefix := default (Err (PlainError "out of fuel")) (s3_List s prefix)
}.

End adapter.

(** ** What the store promises *)

(** Reads see the last acknowledged write; a listing is cut into pages, each of which
    starts where the token says ([position]) and makes progress. *)
Class S3Laws (C : Type) `{S3Client C} := {
  contents : C → string → gmap string string;
  listing : C → string → string → list s3_object;
  position : C → string → string → option string → nat;
  Put_contents c b i c' : PutObject c b i = (c', None) → contents c' b = <[po_Key i := po_Body i]> (contents c b);
  Get_contents c b k d : contents c b !! k = Some d → GetObject c b k = Ok d ∧ HeadObject c b k = None;
  Head_absent c b k : contents c b !! k = None → HeadObject c b k ≠ None;
  Delete_contents c b k c' : DeleteObject c b k = (c', None) → contents c' b = delete k (contents c b);
  position_first c b p : position c b p None = 0%nat;
  page_at c b p tok objs next :
    ListObjectsV2 c b p tok = Ok (objs, next) →
    ∃ rest, drop (position c b p tok) (listing c b p) = objs ++ rest ∧
      match next with
      | None => rest = []
      | Some t => t ≠ "" ∧ objs ≠ [] ∧ position c b p (Some t) = (position c b p tok + length objs)%nat
      end
}.

Section laws.
Context {C : Type} `{S3Laws C}.

(** The contract of the use case. *)
#[export] Instance S3_spec : StorageSpec (S3Storage C).
Proof.
  refine {| storable _ := True; object s k := contents (client s) (bucket s) !! k |}.
  - intros s s' l data opts q _ Hs Hne. cbn [st_Upload S3_Storage]. unfold s3_Upload.
    destruct (PutObject _ _ _) as [c' [err|]] eqn:Hp; [done|]. intros [= <- <-]. apply Put_contents in Hp.
    split; [done|]. split; [done|]. cbn [client bucket with_client put_input]. rewrite Hp. cbn [po_Key po_Body put_input].
    split; [apply lookup_insert_eq|]. intros l' Hs' Hne' Hd. rewrite lookup_insert_ne; [done|].
    intros Heq. apply Hd. destruct Hs as [Hn _], Hs' as [Hn' _].
    rewrite <-(Split_Join slash l), <-(Split_Join slash l'), Heq; try done.
    all: eapply Forall_impl; [eassumption|]; by intros x (_ & _ & _ & ?).
  - intros s l d _ _ _ Hd. apply Get_contents in Hd as [Hg Hh]. simpl. unfold s3_Exists, s3_Download. by rewrite Hh, Hg.
  - intros s s' l _ _ _. cbn [st_Delete st_Exists S3_Storage]. unfold s3_Delete, s3_Exists.
    destruct (DeleteObject _ _ _) as [c' [err|]] eqn:Hd; [done|]. intros [= <-]. cbn [client bucket with_client].
    apply Delete_contents in Hd. destruct (HeadObject c' (bucket s) (Join slash l)) eqn:Hh; [done|].
    exfalso. apply (Head_absent c' (bucket s) (Join slash l)); [|done]. rewrite Hd. apply lookup_delete_eq.
Defined.

Lemma list_loop_exact s prefix tok files fuel :
  (length (drop (position (client s) (bucket s) prefix tok) (listing (client s) (bucket s) prefix)) < fuel)%nat →
  ∃ r, list_loop fuel s prefix tok files = Some r ∧
    match r with
    | Ok fs => fs = files ++ map file_of (drop (position (client s) (bucket s) prefix tok)
                                            (listing (client s) (bucket s) prefix))
    | Err e => ∃ err, e = FmtError "failed to list objects: " err ""
    end.
Proof.
  revert tok files. induction fuel as [|fuel IH]; intros tok files Hf; [lia|]. cbn [list_loop].
  destruct (ListObjectsV2 _ _ _ _) as [[objs next]|err] eqn:Hp;
    [|by eexists; split; [reflexivity|]; eexists].
  apply page_at in Hp as (rest & Hd & Hnext). destruct next as [t|].
  - destruct Hnext as (Ht & Hne & Hpos). destruct t as [|ch t]; [done|].
    assert (Hrest : drop (position (client s) (bucket s) prefix (Some (String ch t))) (listing (client s) (bucket s) prefix) = rest).
    { rewrite Hpos, <-drop_drop, Hd. apply drop_app_length. }
    destruct (IH (Some (String ch t)) (files ++ map file_of objs)) as (r & -> & Hr).
    + rewrite Hrest. rewrite Hd, length_app in Hf. destruct objs; [done|]. simpl in Hf. lia.
    + exists r. split; [done|]. destruct r; [|done]. by rewrite Hr, Hrest, Hd, map_app, app_assoc.
  - subst rest. eexists. split; [done|]. by rewrite Hd, app_nil_r.
Qed.

(** The listing ends, and when no page fails it is the whole listing of the prefix, in
    order, however the server cuts it into pages. *)
Theorem s3_list_exact s prefix :
  (length (listing (client s) (bucket s) prefix) < list_fuel s)%nat →
  ∃ r, s3_List s prefix = Some r ∧
    match r with
    | Ok fs => fs = map file_of (listing (client s) (bucket s) prefix)
    | Err e => ∃ err, e = FmtError "failed to list objects: " err ""
    end.
Proof.
  intros Hf. destruct (list_loop_exact s prefix None [] (list_fuel s)) as (r & Hl & Hr); rewrite position_first in *.
  - by rewrite drop_0.
  - exists r. split; [done|]. by destruct r; rewrite ?drop_0 in Hr.
Qed.

End laws.

(** During an outage of the store every file is reported as not found (404), not as a
    failure. *)
Theorem s3_outage_not_found {C} `{S3Client C} (s : S3Storage C) path err :
  HeadObject (client s) (bucket s) (sanitizePath path) = Some err → sanitizePath path ≠ "" →
  Download s path = Err (NotFoundf ("file not found: " +:+ sanitizePath path)).
Proof.
  intros Hh Hne. unfold Download, locate. simpl. unfold s3_Exists. rewrite Hh.
  by rewrite (proj2 (String.eqb_neq _ _) Hne).
Qed.

(** ** A concrete store: one object per page *)

#[export] Instance MapS3 : S3Client (gmap string string) := {
  PutObject c _ i := (<[po_Key i := po_Body i]> c, None);
  GetObject c _ k := match c !! k with Some d => Ok d | None => Err (PlainError "NoSuchKey") end;
  DeleteObject c _ k := (delete k c, None);
  HeadObject c _ k := match c !! k with Some _ => None | None => Some (PlainError "NotFound") end;
  PresignGetObject _ b k _ := Ok ("https://" +:+ b +:+ "/" +:+ k);
  ListObjectsV2 c _ p tok :=
    let l := map (λ kv, mkObject kv.1 (Z.of_nat (String.length kv.2)) 0)
               (filter (λ kv, has_prefix p kv.1 = true) (map_to_list c)) in
    let pos := match tok with None => O | Some t => Nat.pred (String.length t) end in
    match drop pos l with
    | [] => Ok ([], None)
    | [o] => Ok ([o], None)
    | o :: _ => Ok ([o], Some (String "t" (string_of_list_ascii (replicate (S pos) "t"%char))))
    end
}.

#[export] Instance MapS3_laws : S3Laws (gmap string string).
Proof.
  refine {| contents c _ := c;
            listing c _ p := map (λ kv, mkObject kv.1 (Z.of_nat (String.length kv.2)) 0)
                               (filter (λ kv, has_prefix p kv.1 = true) (map_to_list c));
            position _ _ _ tok := match tok with None => O | Some t => Nat.pred (String.length t) end |}.
  - by intros c b i c' [= <-].
  - intros c b k d Hk. simpl. by rewrite Hk.
  - intros c b k Hk. simpl. by rewrite Hk.
  - by intros c b k c' [= <-].
  - done.
  - intros c b p tok objs next. simpl. set (pos := match tok with None => O | Some t => _ end).
    set (l := map _ _). destruct (drop pos l) as [|o [|o' rest]]; intros [= <- <-].
    + by exists [].
    + by exists [].
    + exists (o' :: rest). split; [done|]. split; [done|]. split; [done|].
      simpl. clear. replace (pos + 1)%nat with (S pos) by lia. f_equal.
      induction pos as [|n IH]; [done|]. cbn [replicate]. simpl. f_equal. exact IH.
Qed.

Lemma s3_roundtrip_sample :
  let s0 := mkS3Storage (∅ : gmap string string) "bkt" 10 in
  let up := Upload (λ _, "image/png") (NewUseCase None) s0 "PNGDATA" None 7 "cat.PNG" "../pets" (two_uuid_String true) in
  up.2 = Ok (mkUploadResponse "pets/00000000-0000-0000-0000-000000000001.PNG"
               "https://bkt/pets/00000000-0000-0000-0000-000000000001.PNG" 7) ∧
  Download up.1 "pets/00000000-0000-0000-0000-000000000001.PNG" = Ok ("PNGDATA", "image/png") ∧
  s3_List up.1 "pets/" = Some (Ok [mkFileInfo "pets/00000000-0000-0000-0000-000000000001.PNG" 7 "" 0]).
Proof. vm_compute. auto. Qed.

End S3.
