(* ===== verification/Template.v ===== *)
(** * The text templates of the module generator

    Models what [cmd/scaffold] uses of Go's [text/template] - text with field actions - and
    the six templates embedded from [cmd/scaffold/templates/module].  Every other action is
    outside the fragment and rejected; the messages of the engine are abbreviated. *)
From S2P Require Import Prelude GoStr AppErr.
Import GoStr.

Module Template.

(** ** The engine *)

Inductive piece := Text (t : string) | Field (name : string).

Definition ident_char (c : ascii) : bool :=
  let n := nat_of_ascii c in
  ((48 <=? n) && (n <=? 57) || (65 <=? n) && (n <=? 90) || (97 <=? n) && (n <=? 122) || (n =? 95))%nat.

(** The longest identifier at the start of a string. *)
Fixpoint ident (s : string) : string :=
  match s with String c s' => if ident_char c then String c (ident s') else "" | EmptyString => "" end.

(** What an action between the delimiters says: white space, a dot and a field name. *)
Definition action (a : string) : result error piece :=
  match TrimSpace a with
  | String "." f => if negb (String.eqb f "") && String.eqb (ident f) f then Ok (Field f) else Err (PlainError "unexpected token")
  | _ => Err (PlainError "unexpected token")
  end.

(** The lexer: text up to [{{], then an action up to [}}]; [acc] is read backwards. *)
Fixpoint parse_from (inside : bool) (acc s : string) : result error (list piece) :=
  match s with
  | EmptyString => if inside then Err (PlainError "unclosed action") else Ok [Text (rev_string acc "")]
  | String c s1 =>
      match s1 with
      | String d s2 =>
          if negb inside && Ascii.eqb c "{" && Ascii.eqb d "{" then
            match parse_from true "" s2 with Ok l => Ok (Text (rev_string acc "") :: l) | Err e => Err e end
          else if inside && Ascii.eqb c "}" && Ascii.eqb d "}" then
            match action (rev_string acc "") with
            | Err e => Err e
            | Ok p => match parse_from false "" s2 with Ok l => Ok (p :: l) | Err e => Err e end
            end
          else parse_from inside (String c acc) s1
      | EmptyString => parse_from inside (String c acc) s1
      end
  end.

(** [template.New(name).Parse(text)] *)
Definition Parse (text : string) : result error (list piece) := parse_from false "" text.

(** [t.Execute(&buf, data)], [data] being a struct of string fields. *)
Fixpoint Execute (data : string → option string) (t : list piece) : result error string :=
  match t with
  | [] => Ok ""
  | Text x :: t' => match Execute data t' with Ok r => Ok (x +:+ r) | Err e => Err e end
  | Field f :: t' =>
      match data f with
      | None => Err (PlainError ("can't evaluate field " +:+ f))
      | Some v => match Execute data t' with Ok r => Ok (v +:+ r) | Err e => Err e end
      end
  end.

(** ** The embedded templates *)

(** The texts are quoted with [^] standing for the double quote. *)
Fixpoint quoted (s : string) : string :=
  match s with
  | EmptyString => ""
  | String c s' => String (if Ascii.eqb c "^" then "034"%char else c) (quoted s')
  end.

Definition domain_tmpl : string := quoted "package domain

import ^time^

// {{ .Title }} represents the {{ .Name }} entity.
//
// TODO(scaffold): add fields that belong to the {{ .Name }} domain model.
type {{ .Title }} struct {
	ID        string    `json:^id^`
	CreatedAt time.Time `json:^created_at^`
	UpdatedAt time.Time `json:^updated_at^`
}
".

Definition port_tmpl : string := quoted "package usecase

import ^context^

// UseCase defines the interface for {{ .Name }} business logic operations.
// Handlers and decorators depend on this interface rather than on the
// concrete *useCase struct, enabling testability and extensibility.
//
// TODO(scaffold): wire {{ .Title }}UseCase into internal/platform/app/app.go:
//
//	uc := {{ .Name }}usecase.NewUseCase(repo)
//	h  := {{ .Name }}handler.NewHandler(uc)
//	// register routes on the fiber app
type UseCase interface {
	// TODO(scaffold): add method signatures matching {{ .Name }} business operations.
	GetByID(ctx context.Context, id string) (*{{ .Title }}, error)
}

// {{ .Title }} is a minimal return type placeholder.
// TODO(scaffold): replace with the real domain or DTO type once the domain model is defined.
type {{ .Title }} struct {
	ID string `json:^id^`
}
".

Definition usecase_tmpl : string := quoted "package usecase

import ^context^

// {{ .Name }}UseCase implements the UseCase interface for the {{ .Name }} module.
//
// TODO(scaffold): inject repository and any platform dependencies via NewUseCase.
type {{ .Name }}UseCase struct{}

// NewUseCase creates a new {{ .Name }} use case.
//
// TODO(scaffold): add repository / transactor / cache parameters as needed and
// wire this constructor in internal/platform/app/app.go.
func NewUseCase() UseCase {
	return &{{ .Name }}UseCase{}
}

// GetByID retrieves a {{ .Name }} record by ID.
//
// TODO(scaffold): implement real lookup via the injected repository.
func (uc *{{ .Name }}UseCase) GetByID(_ context.Context, id string) (*{{ .Title }}, error) {
	return &{{ .Title }}{ID: id}, nil
}
".

Definition handler_tmpl : string := quoted "package handler

import (
	^{{ .ModulePath }}/internal/module/{{ .Name }}/usecase^

	^github.com/gofiber/fiber/v2^
)

// Handler handles {{ .Name }} HTTP requests.
//
// TODO(scaffold): register routes on the fiber router in internal/platform/app/app.go:
//
//	h := {{ .Name }}handler.NewHandler(uc)
//	api.Get(^/{{ .Name }}/:id^, h.GetByID)
type Handler struct {
	useCase usecase.UseCase
}

// NewHandler creates a new {{ .Name }} handler.
func NewHandler(useCase usecase.UseCase) *Handler {
	return &Handler{useCase: useCase}
}

// GetByID retrieves a {{ .Name }} record by ID.
//
// TODO(scaffold): implement full handler logic — validation, error mapping, pagination.
func (h *Handler) GetByID(c *fiber.Ctx) error {
	id := c.Params(^id^)
	result, err := h.useCase.GetByID(c.UserContext(), id)
	if err != nil {
		return c.Status(fiber.StatusInternalServerError).JSON(fiber.Map{
			^success^: false,
			^error^:   fiber.Map{^message^: err.Error()},
		})
	}
	return c.JSON(fiber.Map{^success^: true, ^data^: result})
}
".

Definition handler_test_tmpl : string := quoted "package handler

import (
	^net/http^
	^net/http/httptest^
	^testing^

	^github.com/gofiber/fiber/v2^
	^github.com/stretchr/testify/assert^
)

func TestSmoke_NewHandler(t *testing.T) {
	h := NewHandler(nil)
	assert.NotNil(t, h)
}

func TestSmoke_GetByID(t *testing.T) {
	tests := []struct {
		name       string
		id         string
		wantStatus int
	}{
		{
			name:       ^returns record^,
			id:         ^test-id^,
			wantStatus: http.StatusOK,
		},
	}

	for _, tc := range tests {
		t.Run(tc.name, func(t *testing.T) {
			app := fiber.New()
			app.Get(^/{{ .Name }}/:id^, func(c *fiber.Ctx) error {
				return c.JSON(fiber.Map{^success^: true, ^data^: fiber.Map{^id^: c.Params(^id^)}})
			})

			req := httptest.NewRequest(http.MethodGet, ^/{{ .Name }}/^+tc.id, nil)
			resp, err := app.Test(req)
			assert.NoError(t, err)
			assert.Equal(t, tc.wantStatus, resp.StatusCode)
		})
	}
}
".

Definition usecase_test_tmpl : string := quoted "package usecase

import (
	^context^
	^testing^

	^github.com/stretchr/testify/assert^
	^github.com/stretchr/testify/require^
)

func TestSmoke_NewUseCase(t *testing.T) {
	uc := NewUseCase()
	assert.NotNil(t, uc)
}

func TestSmoke_GetByID(t *testing.T) {
	tests := []struct {
		name    string
		id      string
		wantID  string
		wantErr bool
	}{
		{
			name:    ^returns stub record^,
			id:      ^abc-123^,
			wantID:  ^abc-123^,
			wantErr: false,
		},
	}

	uc := NewUseCase()
	for _, tc := range tests {
		t.Run(tc.name, func(t *testing.T) {
			result, err := uc.GetByID(context.Background(), tc.id)
			if tc.wantErr {
				require.Error(t, err)
				return
			}
			require.NoError(t, err)
			assert.Equal(t, tc.wantID, result.ID)
		})
	}
}
".

(** [moduleTemplates.ReadFile(tmplPath)]: the embedded files. *)
Definition moduleTemplates (tmplPath : string) : option string :=
  if String.eqb tmplPath "templates/module/domain.go.tmpl" then Some domain_tmpl
  else if String.eqb tmplPath "templates/module/port.go.tmpl" then Some port_tmpl
  else if String.eqb tmplPath "templates/module/usecase.go.tmpl" then Some usecase_tmpl
  else if String.eqb tmplPath "templates/module/handler.go.tmpl" then Some handler_tmpl
  else if String.eqb tmplPath "templates/module/handler_test.go.tmpl" then Some handler_test_tmpl
  else if String.eqb tmplPath "templates/module/usecase_test.go.tmpl" then Some usecase_test_tmpl
  else None.

(** ** Laws of the engine *)

(** What a piece becomes, when its field exists. *)
Definition piece_text (data : string → option string) (p : piece) : string :=
  match p with Text t => t | Field f => default "" (data f) end.

Definition known (data : string → option string) (p : piece) : Prop :=
  match p with Text _ => True | Field f => is_Some (data f) end.

#[export] Instance known_dec data p : Decision (known data p).
Proof. destruct p; apply _. Defined.

Definition rendering (data : string → option string) (t : list piece) : string :=
  foldr String.append "" (map (piece_text data) t).

Lemma Execute_known data t : Forall (known data) t → Execute data t = Ok (rendering data t).
Proof.
  induction 1 as [|[x|f] t Hk Ht IH]; [done| |]; cbn [Execute]; rewrite IH; [done|].
  unfold rendering. simpl. by destruct Hk as [v ->].
Qed.

Lemma Execute_fails data t e : Execute data t = Err e → ¬ Forall (known data) t.
Proof. by intros He Hk; rewrite Execute_known in He. Qed.

Lemma rev_string_acc s acc : rev_string s acc = rev_string s "" +:+ acc.
Proof.
  revert acc. induction s as [|c s IH]; intros acc; [done|]. simpl. rewrite IH, (IH (String c "")).
  by rewrite append_assoc.
Qed.

(** A text without delimiters is itself. *)
Lemma parse_plain acc s :
  contains_byte "{" s = false → parse_from false acc s = Ok [Text (rev_string acc "" +:+ s)].
Proof.
  revert acc. induction s as [|c s IH]; intros acc Hs; [by cbn; rewrite append_nil_r|].
  simpl in Hs. apply orb_false_iff in Hs as [Hc Hs]. cbn [parse_from].
  assert (Hstep : rev_string (String c acc) "" +:+ s = rev_string acc "" +:+ String c s).
  { simpl. rewrite (rev_string_acc acc (String c "")), append_assoc. done. }
  destruct s as [|d s2]; [by rewrite IH, Hstep|]. rewrite Hc. simpl andb. cbn iota. by rewrite IH, Hstep.
Qed.

Lemma Parse_plain s : contains_byte "{" s = false → Parse s = Ok [Text s].
Proof. intros Hs. unfold Parse. by rewrite parse_plain. Qed.

(** ** Lines *)

Definition LF : ascii := "010".
Definition lines (s : string) : list string := Split LF s.

(** Two blocks of lines written one after the other: the seam is one line. *)
Fixpoint glue {A} (join : A → A → A) (l r : list A) : list A :=
  match l with
  | [] => r
  | x :: l' =>
      match l' with
      | [] => match r with y :: r' => join x y :: r' | [] => [x] end
      | _ => x :: glue join l' r
      end
  end.

Lemma map_glue {A B} (f : A → B) join join' l r :
  (∀ x y, f (join x y) = join' (f x) (f y)) → map f (glue join l r) = glue join' (map f l) (map f r).
Proof.
  intros Hf. induction l as [|x l IH]; [done|]. destruct l as [|x' l]; [|by cbn in *; f_equal].
  destruct r as [|y r]; [done|]. simpl. by rewrite Hf.
Qed.

Lemma lines_append a b : lines (a +:+ b) = glue String.append (lines a) (lines b).
Proof.
  unfold lines. induction a as [|c a IH]; simpl.
  - by destruct (Split LF b) as [|y l] eqn:Hb; [apply Split_nonempty in Hb|].
  - destruct (Ascii.eqb c LF).
    + rewrite IH. by destruct (Split LF a) as [|x l] eqn:Ha; [apply Split_nonempty in Ha|].
    + rewrite IH. destruct (Split LF a) as [|x l] eqn:Ha; [by apply Split_nonempty in Ha|].
      destruct l as [|x' l]; [|done]. simpl.
      by destruct (Split LF b) as [|y r] eqn:Hb; [apply Split_nonempty in Hb|].
Qed.

(** The lines of a template, and of what it renders when no field breaks a line. *)
Definition piece_lines (p : piece) : list (list piece) :=
  match p with Text t => map (λ x, [Text x]) (lines t) | Field f => [[Field f]] end.

Definition template_lines (t : list piece) : list (list piece) := foldr (glue (++)) [[]] (map piece_lines t).

Definition one_line (data : string → option string) : Prop :=
  ∀ f v, data f = Some v → contains_byte LF v = false.

Lemma rendering_app data t1 t2 : rendering data (t1 ++ t2) = rendering data t1 +:+ rendering data t2.
Proof.
  induction t1 as [|p t1 IH]; [done|]. unfold rendering in *. simpl. by rewrite IH, append_assoc.
Qed.

Lemma lines_piece data p :
  one_line data → lines (piece_text data p) = map (rendering data) (piece_lines p).
Proof.
  intros H1. destruct p as [t|f]; simpl.
  - rewrite map_map. rewrite <-(map_id (lines t)) at 1. apply map_ext. intros x. unfold rendering. simpl.
    by rewrite append_nil_r.
  - unfold rendering. simpl. rewrite append_nil_r. apply Split_single.
    destruct (data f) as [v|] eqn:Hf; [by eapply H1 | done].
Qed.

Lemma lines_rendering data t : one_line data → lines (rendering data t) = map (rendering data) (template_lines t).
Proof.
  intros H1. induction t as [|p t IH]; [done|]. unfold template_lines in *. cbn [foldr map].
  rewrite (map_glue _ _ String.append) by apply rendering_app. rewrite <-IH, <-lines_piece by done.
  by rewrite <-lines_append.
Qed.

Lemma ident_app a b : forallb ident_char (list_ascii_of_string a) = true → ident (a +:+ b) = a +:+ ident b.
Proof. induction a as [|c a IH]; simpl; [done|]. destruct (ident_char c); [|done]. intros Ha. by rewrite IH. Qed.

End Template.
