(* ===== verification/Scaffold.v ===== *)
(** * The module generator

    Models [cmd/scaffold/scaffold.go]: name validation, title casing, the search for the
    repository root, the module path of go.mod, the rendering of the embedded templates and
    the files written.  The file system's answers are inputs. *)
From S2P Require Import Prelude GoStr FilePath AppErr Storage Template.
Import GoStr FilePath Storage Template.

Module Scaffold.

(** ** Names *)

Definition goReservedWords : list string :=
  ["break"; "case"; "chan"; "const"; "continue"; "default"; "defer"; "else"; "fallthrough"; "for";
   "func"; "go"; "goto"; "if"; "import"; "interface"; "map"; "package"; "range"; "return";
   "select"; "struct"; "switch"; "type"; "var"].

Definition in_range (lo hi : nat) (c : ascii) : bool := ((lo <=? nat_of_ascii c) && (nat_of_ascii c <=? hi))%nat.
Definition is_lower : ascii → bool := in_range 97 122.
Definition is_upper : ascii → bool := in_range 65 90.
Definition is_num : ascii → bool := in_range 48 57.

Fixpoint all_chars (p : ascii → bool) (s : string) : bool :=
  match s with EmptyString => true | String c s' => p c && all_chars p s' end.

Definition name_char (c : ascii) : bool := is_lower c || is_num c || Ascii.eqb c "_".

(** [^[a-z][a-z0-9_]*$] *)
Definition namePattern (s : string) : bool :=
  match s with EmptyString => false | String c s' => is_lower c && all_chars name_char s' end.

Definition validateName (name : string) : option error :=
  if String.eqb name "" then Some (PlainError "module name must not be empty")
  else if negb (namePattern name) then
    Some (PlainError ("module name " +:+ quote name +:+ " is invalid: must match ^[a-z][a-z0-9_]*$"))
  else if existsb (String.eqb name) goReservedWords then
    Some (PlainError ("module name " +:+ quote name +:+ " is a Go reserved word"))
  else None.

Definition upper (c : ascii) : ascii := if is_lower c then ascii_of_nat (nat_of_ascii c - 32) else c.

(** [strings.ToUpper(p[:1]) + p[1:]] of a part *)
Definition capitalize (p : string) : string :=
  match p with EmptyString => "" | String c p' => String (upper c) p' end.

Definition titleCase (s : string) : string := foldr String.append "" (map capitalize (Split "_" s)).

(** ** The repository *)

(** [stat] tells whether a path exists. *)
Fixpoint findRepoRoot (fuel : nat) (stat : string → bool) (dir : string) : option (result error string) :=
  match fuel with
  | O => None
  | S fuel' =>
      if stat (Join2 dir "go.mod") then Some (Ok dir)
      else let parent := Dir dir in
           if String.eqb parent dir then Some (Err (PlainError "go.mod not found in any ancestor directory"))
           else findRepoRoot fuel' stat parent
  end.

(** [lines] are the lines the scanner yields. *)
Fixpoint readModulePath (goModPath : string) (lines : list string) : result error string :=
  match lines with
  | [] => Err (PlainError ("module directive not found in " +:+ goModPath))
  | l :: lines' =>
      let line := TrimSpace l in
      if has_prefix "module " line then Ok (TrimSpace (TrimPrefix line "module ")) else readModulePath goModPath lines'
  end.

(** ** The files *)

Record templateData := mkTemplateData { td_Name : string; td_Title : string; td_ModulePath : string }.

Definition specs (name : string) : list (string * string * string) :=
  [ ("domain.go.tmpl", "domain", name +:+ "_domain.go");
    ("port.go.tmpl", "usecase", "port.go");
    ("usecase.go.tmpl", "usecase", name +:+ "_usecase.go");
    ("handler.go.tmpl", "handler", name +:+ "_handler.go");
    ("handler_test.go.tmpl", "handler", name +:+ "_handler_test.go");
    ("usecase_test.go.tmpl", "usecase", name +:+ "_usecase_test.go") ].

(** The struct's fields, by the names an action uses. *)
Definition field_of (data : templateData) (f : string) : option string :=
  if String.eqb f "Name" then Some (td_Name data)
  else if String.eqb f "Title" then Some (td_Title data)
  else if String.eqb f "ModulePath" then Some (td_ModulePath data)
  else None.

Definition renderTemplate (tmplName : string) (data : templateData) : result error string :=
  let tmplPath := "templates/module/" +:+ tmplName in
  match moduleTemplates tmplPath with
  | None => Err (FmtError ("read embedded template " +:+ tmplPath +:+ ": ") (PlainError "file does not exist") "")
  | Some content =>
      match Parse content with
      | Err err => Err (FmtError ("parse template " +:+ tmplName +:+ ": ") err "")
      | Ok t =>
          match Execute (field_of data) t with
          | Err err => Err (FmtError ("execute template " +:+ tmplName +:+ ": ") err "")
          | Ok r => Ok r
          end
      end
  end.

(** What the outside answers. *)
Record World := mkWorld {
  w_Getwd : result error string;
  w_stat : string → bool;
  w_open : string → result error (list string);
  w_MkdirAll : string → option error;
  w_WriteFile : string → option error
}.

(** The files written so far, with their contents. *)
Fixpoint write_all (w : World) (destRoot : string) (data : templateData) (l : list (string * string * string))
    (written : list (string * string)) : list (string * string) * option error :=
  match l with
  | [] => (written, None)
  | (tmpl, subDir, outName) :: l' =>
      let outDir := Join2 destRoot subDir in
      let outPath := Join2 outDir outName in
      match renderTemplate tmpl data with
      | Err err => (written, Some (FmtError ("render " +:+ tmpl +:+ ": ") err ""))
      | Ok rendered =>
          match w_MkdirAll w outDir with
          | Some err => (written, Some (FmtError ("mkdir " +:+ outDir +:+ ": ") err ""))
          | None =>
              match w_WriteFile w outPath with
              | Some err => (written, Some (FmtError ("write " +:+ outPath +:+ ": ") err ""))
              | None => write_all w destRoot data l' (written ++ [(outPath, rendered)])
              end
          end
      end
  end.

Definition dest_root (repoRoot name : string) : string := Join2 (Join2 (Join2 repoRoot "internal") "module") name.

Definition runModule (w : World) (fuel : nat) (name : string) : list (string * string) * option error :=
  match validateName name with
  | Some err => ([], Some err)
  | None =>
      match (match w_Getwd w with Err err => Some (Err err) | Ok dir => findRepoRoot fuel (w_stat w) dir end) with
      | None => ([], Some (PlainError "out of fuel"))
      | Some (Err err) => ([], Some (FmtError "cannot find repo root (go.mod): " err ""))
      | Some (Ok repoRoot) =>
          let goMod := Join2 repoRoot "go.mod" in
          match (match w_open w goMod with Err err => Err err | Ok lines => readModulePath goMod lines end) with
          | Err err => ([], Some (FmtError "cannot read module path from go.mod: " err ""))
          | Ok modulePath =>
              let destRoot := dest_root repoRoot name in
              if w_stat w destRoot then
                ([], Some (PlainError ("directory " +:+ destRoot +:+ " already exists; delete it first if you want to regenerate")))
              else write_all w destRoot (mkTemplateData name (titleCase name) modulePath) (specs name) []
          end
      end
  end.

(** [main] after [flag.Parse]: what was written, and whether the process exits with status 1. *)
Definition main (w : World) (fuel : nat) (args : list string) : list (string * string) * bool :=
  match args with
  | [] => ([], true)
  | "module" :: [] => ([], true)
  | "module" :: name :: _ =>
      let '(written, err) := runModule w fuel name in (written, match err with Some _ => true | None => false end)
  | _ => ([], true)
  end.

(** ** Names are safe *)

Lemma all_chars_app p a b : all_chars p (a +:+ b) = all_chars p a && all_chars p b.
Proof. induction a as [|c a IH]; simpl; [done|]. by rewrite IH, andb_assoc. Qed.

Lemma all_chars_no p b s : all_chars p s = true → p b = false → contains_byte b s = false.
Proof.
  intros Ha Hb. induction s as [|c s IH]; simpl in *; [done|]. apply andb_true_iff in Ha as [Hc Ha].
  rewrite IH by done. rewrite orb_false_r. apply Ascii.eqb_neq. intros <-. congruence.
Qed.

Lemma valid_chars name :
  validateName name = None → ∃ c s, name = String c s ∧ is_lower c = true ∧ all_chars name_char name = true.
Proof.
  unfold validateName, namePattern. destruct name as [|c s]; [done|]. simpl String.eqb. cbn iota.
  destruct (is_lower c) eqn:Hc; [|done]. destruct (all_chars name_char s) eqn:Hs; [|done]. intros _.
  exists c, s. split; [done|]. split; [done|]. simpl. rewrite Hs. unfold name_char. by rewrite Hc.
Qed.

(** What is built from a valid name with a suffix of ordinary characters is one path element. *)
Lemma valid_normal name suffix :
  validateName name = None → contains_byte slash suffix = false → normal (name +:+ suffix).
Proof.
  intros Hv Hs. destruct (valid_chars name Hv) as (c & s & Hn & Hc & Ha).
  assert (c ≠ "."%char) as Hdot by (by intros ->). split_and!.
  - by rewrite Hn.
  - rewrite Hn. intros [= -> _]. done.
  - rewrite Hn. intros [= -> _]. done.
  - rewrite contains_byte_append, Hs, orb_false_r. by eapply all_chars_no.
Qed.

Definition title_char (c : ascii) : bool := is_upper c || is_lower c || is_num c.

Lemma upper_lower c : is_lower c = true → is_upper (upper c) = true.
Proof.
  intros Hc. unfold upper. rewrite Hc. revert Hc. unfold is_lower, is_upper, in_range.
  intros [H1 H2]%andb_true_iff. apply Nat.leb_le in H1, H2.
  rewrite nat_ascii_embedding by lia. apply andb_true_iff. split; apply Nat.leb_le; lia.
Qed.

Lemma title_of_lower c : is_lower c = true → title_char (upper c) = true.
Proof. intros Hc. unfold title_char. by rewrite upper_lower. Qed.

Lemma capitalize_title p : all_chars name_char p = true → contains_byte "_" p = false → all_chars title_char (capitalize p) = true.
Proof.
  assert (Hchar : ∀ c, name_char c = true → Ascii.eqb c "_" = false → is_lower c = true ∨ is_num c = true).
  { intros c. unfold name_char. destruct (is_lower c), (is_num c), (Ascii.eqb c "_"); auto. }
  assert (Hall : ∀ s, all_chars name_char s = true → contains_byte "_" s = false → all_chars title_char s = true).
  { induction s as [|c s IH]; simpl; [done|]. intros [Hc Hs]%andb_true_iff [Hu Hs']%orb_false_iff. rewrite IH by done.
    rewrite andb_true_r. unfold title_char. rewrite Ascii.eqb_sym in Hu.
    destruct (Hchar c Hc Hu) as [-> | ->]; [by rewrite orb_true_r|apply orb_true_r]. }
  destruct p as [|c p]; simpl; [done|]. intros [Hc Hs]%andb_true_iff [Hu Hs']%orb_false_iff. rewrite Hall by done.
  rewrite andb_true_r. rewrite Ascii.eqb_sym in Hu. destruct (Hchar c Hc Hu) as [Hl|Hn]; [by apply title_of_lower|].
  unfold upper. destruct (is_lower c) eqn:Hl; [|unfold title_char; rewrite Hn; apply orb_true_r].
  by rewrite <-(title_of_lower c Hl); unfold upper; rewrite Hl.
Qed.

Lemma all_chars_split p sep s x : x ∈ Split sep s → all_chars p s = true → all_chars p x = true.
Proof.
  revert x. induction s as [|c s IH]; intros x Hx Ha.
  - by apply list_elem_of_singleton in Hx as ->.
  - simpl in Hx, Ha. apply andb_true_iff in Ha as [Hc Ha]. destruct (Ascii.eqb c sep).
    + apply elem_of_cons in Hx as [->|Hx]; [done|]. by apply IH.
    + destruct (Split sep s) as [|y l]; [by apply list_elem_of_singleton in Hx as ->; simpl; rewrite Hc|].
      apply elem_of_cons in Hx as [->|Hx]; [simpl; rewrite Hc; apply (IH y); [left|done]|]. apply IH; [by right|done].
Qed.

(** The type name made of a valid module name is an exported Go identifier of letters and
    digits. *)
Lemma titleCase_exported name :
  validateName name = None →
  ∃ c rest, titleCase name = String c rest ∧ is_upper c = true ∧ all_chars title_char rest = true.
Proof.
  intros Hv. destruct (valid_chars name Hv) as (c & s & Hn & Hc & Ha).
  assert (Hall : ∀ l, (∀ x, x ∈ l → all_chars title_char (capitalize x) = true) →
    all_chars title_char (foldr String.append "" (map capitalize l)) = true).
  { induction l as [|x l IH]; intros Hx; simpl; [done|]. rewrite all_chars_app, Hx by left. apply IH. intros. apply Hx. by right. }
  unfold titleCase. rewrite Hn in *. simpl Split.
  assert (Ascii.eqb c "_" = false) as Hu by (apply Ascii.eqb_neq; by intros ->). rewrite Hu.
  pose proof (λ x, Split_no_sep "_"%char s x) as Hno. pose proof (λ x, all_chars_split name_char "_"%char s x) as Hch.
  simpl in Ha. apply andb_true_iff in Ha as [_ Ha].
  destruct (Split "_" s) as [|y l] eqn:Hsp; [by apply Split_nonempty in Hsp|]. simpl.
  eexists _, _. split; [reflexivity|]. split; [by apply upper_lower|].
  rewrite all_chars_app. apply andb_true_iff. split.
  - assert (all_chars title_char (capitalize (String "a" y)) = true) as Hy.
    { apply capitalize_title; [|simpl; apply Hno; left]. simpl. apply (Hch y); [left|done]. }
    exact Hy.
  - apply Hall. intros x Hx. apply capitalize_title; [apply Hch; [by right|done]|apply Hno; by right].
Qed.

(** ** The root is the nearest one *)

Lemma Join2_normal p q :
  p ≠ "" → normal q → Join2 p q ≠ "" ∧ rooted (Join2 p q) = rooted p ∧ elems (Join2 p q) = elems p ++ [q].
Proof.
  intros Hp Hq. unfold Join2. rewrite (proj2 (String.eqb_neq _ _) Hp).
  destruct (Clean_elems (p +:+ String slash q)) as (Hr & He & Hne). split; [done|].
  rewrite Hr, He, rooted_app, elems_join by done. split; [done|].
  rewrite Split_single by apply Hq. rewrite clean_elems_normal by (by apply Forall_singleton).
  by rewrite rev_involutive.
Qed.

(** An absolute directory by its elements. *)
Definition abs (l : list string) : string := render true l.

Lemma abs_facts l : Forall normal l → rooted (abs l) = true ∧ elems (abs l) = l ∧ abs l ≠ "".
Proof. intros Hl. apply elems_render; [|by left]. exists 0%nat, l. auto. Qed.

Lemma Dir_abs l : Forall normal l → Dir (abs l) = abs (removelast l).
Proof.
  intros Hl. assert (Forall normal (removelast l)) as Hr.
  { rewrite removelast_firstn_len. by apply Forall_take. }
  destruct (abs_facts l Hl) as (H1 & H2 & _). destruct (abs_facts (removelast l) Hr) as (H3 & H4 & H5).
  unfold Dir. rewrite H1, H2. fold (abs (removelast l)). rewrite Clean_render; [by rewrite H3, H4|done|by left].
Qed.

Lemma Dir_fix l : Forall normal l → Dir (abs l) = abs l ↔ l = [].
Proof.
  intros Hl. rewrite Dir_abs by done. assert (Forall normal (removelast l)) as Hr.
  { rewrite removelast_firstn_len. by apply Forall_take. }
  destruct (abs_facts l Hl) as (_ & H2 & _), (abs_facts _ Hr) as (_ & H4 & _). split.
  - intros Heq. rewrite Heq, H2 in H4. destruct l as [|x l] using rev_ind; [done|].
    rewrite removelast_last in H4. apply (f_equal length) in H4. rewrite length_app in H4. simpl in H4. lia.
  - by intros ->.
Qed.

(** The walk ends within the depth of the directory; it returns the nearest ancestor with a
    go.mod, and fails exactly when there is none. *)
Theorem repo_root_nearest (stat : string → bool) (l : list string) (fuel : nat) :
  Forall normal l → (length l < fuel)%nat →
  match findRepoRoot fuel stat (abs l) with
  | None => False
  | Some (Ok root) => ∃ k, root = abs (take k l) ∧ (k ≤ length l)%nat ∧ stat (Join2 root "go.mod") = true ∧
      ∀ j, (k < j ≤ length l)%nat → stat (Join2 (abs (take j l)) "go.mod") = false
  | Some (Err _) => ∀ j, (j ≤ length l)%nat → stat (Join2 (abs (take j l)) "go.mod") = false
  end.
Proof.
  revert l. induction fuel as [|fuel IH]; intros l Hl Hf; [lia|]. cbn [findRepoRoot].
  destruct (stat (Join2 (abs l) "go.mod")) eqn:Hs.
  { exists (length l). rewrite firstn_all. split_and!; [done..|]. intros j. lia. }
  destruct (String.eqb_spec (Dir (abs l)) (abs l)) as [Hd|Hd].
  - apply Dir_fix in Hd as ->; [|done]. intros j _. by rewrite take_nil.
  - rewrite Dir_abs by done. destruct l as [|x l _] using rev_ind; [by rewrite Dir_fix in Hd|].
    rewrite removelast_last. apply Forall_app in Hl as [Hl Hx]. rewrite length_app in Hf. simpl in Hf.
    specialize (IH l Hl ltac:(lia)).
    assert (Htake : ∀ j, (j ≤ length l)%nat → take j (l ++ [x]) = take j l) by (intros; by apply take_app_le).
    assert (Hlast : ∀ j, (length l < j ≤ length (l ++ [x]))%nat → stat (Join2 (abs (take j (l ++ [x]))) "go.mod") = false).
    { intros j Hj. rewrite length_app in Hj. simpl in Hj. rewrite take_ge; [done|]. rewrite length_app. simpl. lia. }
    destruct (findRepoRoot fuel stat (abs l)) as [[root|]|]; [| |done].
    + destruct IH as (k & -> & Hk & Hst & Hj). exists k. rewrite Htake by done. split_and!; [done| |done|].
      { rewrite length_app. lia. }
      intros j Hkj. destruct (decide (j ≤ length l)%nat); [rewrite Htake by done; apply Hj; lia | apply Hlast; lia].
    + intros j Hj. destruct (decide (j ≤ length l)%nat); [rewrite Htake by done; by apply IH | apply Hlast; lia].
Qed.

(** ** What a run writes *)

Definition out_path (destRoot : string) (spec : string * string * string) : string :=
  Join2 (Join2 destRoot spec.1.2) spec.2.

Lemma write_all_spec w dest data l written :
  ∃ k, (write_all w dest data l written).1.*1 = written.*1 ++ map (out_path dest) (take k l) ∧
       ((write_all w dest data l written).2 = None → k = length l ∧
          (write_all w dest data l written).1.*2 = written.*2 ++ omap (λ x, match renderTemplate x.1.1 data with
                                                                       | Ok t => Some t | Err _ => None end) l).
Proof.
  revert written. induction l as [|[[tmpl sub] out] l IH]; intros written.
  { exists 0%nat. simpl. by rewrite !app_nil_r. }
  cbn [write_all]. destruct (renderTemplate tmpl data) as [t|] eqn:Hr; [|by exists 0%nat; simpl; rewrite app_nil_r].
  destruct (w_MkdirAll w _); [by exists 0%nat; simpl; rewrite app_nil_r|].
  destruct (w_WriteFile w _); [by exists 0%nat; simpl; rewrite app_nil_r|].
  destruct (IH (written ++ [(Join2 (Join2 dest sub) out, t)])) as (k & Hk & Hok).
  exists (S k). simpl. rewrite Hk, fmap_app, <-app_assoc. split; [done|]. intros Hn.
  destruct (Hok Hn) as [-> H2]. split; [done|]. rewrite H2, fmap_app, <-app_assoc. by rewrite Hr.
Qed.

Lemma specs_normal name : validateName name = None → Forall (λ x, normal x.1.2 ∧ normal x.2) (specs name).
Proof.
  intros Hv. unfold specs. repeat constructor; try done; simpl;
    by apply (λ H, valid_normal name _ Hv H).
Qed.

Lemma specs_distinct name : NoDup (map (λ x : string * string * string, (x.1.2, x.2)) (specs name)).
Proof.
  assert (Hport : ∀ t, (7 < String.length t)%nat → "port.go" ≠ name +:+ t).
  { intros t Ht Heq. apply (f_equal String.length) in Heq. rewrite length_append in Heq. simpl in Heq. lia. }
  repeat apply NoDup_cons_2; try apply NoDup_nil_2; simpl; rewrite ?elem_of_cons, ?elem_of_nil; intros Hin;
    destruct_or? Hin; try done; apply (f_equal snd) in Hin; simpl in Hin;
    first [by apply append_cancel_l in Hin | by eapply Hport; [|exact Hin]; simpl; lia
          | by eapply Hport; [|symmetry; exact Hin]; simpl; lia].
Qed.

(** Where the files go. *)
Lemma out_path_elems pre name x :
  Forall normal pre → validateName name = None → x ∈ specs name →
  elems (out_path (dest_root (abs pre) name) x) = (pre ++ ["internal"; "module"; name]) ++ [x.1.2; x.2].
Proof.
  intros Hpre Hv Hx. destruct (abs_facts pre Hpre) as (_ & He & Hne). unfold out_path, dest_root.
  pose proof (specs_normal name Hv) as Hn. rewrite Forall_forall in Hn. destruct (Hn x Hx) as [Hn1 Hn2].
  destruct (Join2_normal (abs pre) "internal" Hne) as (N1 & _ & E1); [done|].
  destruct (Join2_normal _ "module" N1) as (N2 & _ & E2); [done|].
  destruct (Join2_normal _ name N2) as (N3 & _ & E3); [rewrite <-(append_nil_r name); by apply valid_normal|].
  destruct (Join2_normal _ x.1.2 N3 Hn1) as (N4 & _ & E4). destruct (Join2_normal _ x.2 N4 Hn2) as (_ & _ & E5).
  by rewrite E5, E4, E3, E2, E1, He, <-!app_assoc.
Qed.

Lemma in_take {A} (x : A) k l : x ∈ take k l → x ∈ l.
Proof. intros (i & Hx & _)%elem_of_take. by eapply list_elem_of_lookup_2. Qed.

Lemma out_paths_distinct pre name k :
  Forall normal pre → validateName name = None →
  NoDup (map (out_path (dest_root (abs pre) name)) (take k (specs name))).
Proof.
  intros Hpre Hv. set (skip := length (pre ++ ["internal"; "module"; name])).
  apply (NoDup_fmap_1 (λ p, (default "" (drop skip (elems p) !! 0%nat), default "" (drop skip (elems p) !! 1%nat)))).
  rewrite <-list_fmap_compose.
  assert (Hsame : ((λ p, (default "" (drop skip (elems p) !! 0%nat), default "" (drop skip (elems p) !! 1%nat)))
                     ∘ out_path (dest_root (abs pre) name)) <$> take k (specs name)
                  = (λ x : string * string * string, (x.1.2, x.2)) <$> take k (specs name)).
  { apply list_fmap_ext. intros i x Hx%list_elem_of_lookup_2%in_take. simpl.
    rewrite out_path_elems by done. unfold skip. by rewrite drop_app_length. }
  rewrite Hsame, fmap_take. eapply sublist_NoDup; [|apply sublist_take]. exact (specs_distinct name).
Qed.

(** A successful run on a valid name creates exactly the six files of the new module: all
    below internal/module/<name> of the repository, no two the same, in a directory that
    did not exist; a failed run has completed some of the first of them and no other file.  An
    invalid name touches nothing. *)
Theorem scaffold_writes (w : World) (fuel : nat) (name : string) (l : list string) :
  w_Getwd w = Ok (abs l) → Forall normal l → (length l < fuel)%nat →
  let '(written, err) := runModule w fuel name in
  (validateName name ≠ None → written = [] ∧ err = validateName name) ∧
  (written = [] ∨ ∃ j k, validateName name = None ∧
     let root := abs (take j l) in
     w_stat w (dest_root root name) = false ∧
     written.*1 = map (out_path (dest_root root name)) (take k (specs name)) ∧ NoDup (written.*1) ∧
     Forall (λ p, ∃ sub out, elems p = take j l ++ ["internal"; "module"; name; sub; out]) (written.*1) ∧
     (err = None → length written = 6%nat)) ∧
  (err = None → written ≠ []).
Proof.
  intros Hwd Hl Hf. unfold runModule. destruct (validateName name) as [e|] eqn:Hv; [naive_solver|].
  rewrite Hwd. pose proof (repo_root_nearest (w_stat w) l fuel Hl Hf) as Hroot.
  destruct (findRepoRoot fuel (w_stat w) (abs l)) as [[root|]|]; [|naive_solver|done].
  destruct Hroot as (j & -> & _ & _ & _).
  destruct (match w_open w _ with Ok _ => _ | Err _ => _ end) as [mp|]; [|naive_solver].
  destruct (w_stat w (dest_root (abs (take j l)) name)) eqn:Hst; [naive_solver|].
  set (data := mkTemplateData name (titleCase name) mp). set (dest := dest_root (abs (take j l)) name) in *.
  destruct (write_all_spec w dest data (specs name) []) as (k & Hp & Hok).
  destruct (write_all w dest data (specs name) []) as [written err]. simpl in Hp, Hok.
  pose proof (Forall_take _ j _ Hl) as Hpre.
  split; [done|]. split.
  - right. exists j, k. split_and!; [done..| | |].
    + rewrite Hp. by apply out_paths_distinct.
    + rewrite Hp. apply Forall_forall. intros q (x & -> & Hx)%list_elem_of_fmap. exists x.1.2, x.2.
      unfold dest. rewrite out_path_elems by (done || by eapply in_take). by rewrite <-app_assoc.
    + intros Hn. destruct (Hok Hn) as [-> _]. apply (f_equal length) in Hp.
      rewrite length_fmap, length_map, length_take in Hp. exact Hp.
  - intros Hn ->. destruct (Hok Hn) as [-> _]. done.
Qed.

End Scaffold.
