(* ===== verification/Generated.v ===== *)
(** * The generated module

    What the package of a scaffolded module looks like: the six files render, carry the
    package clause of their directory, the handler imports the directory of the use case, and
    the package-level names a directory declares.  A Go package that declares a name twice
    does not compile, which happens for exactly the module names whose title is a name the
    templates declare themselves. *)
From S2P Require Import Prelude GoStr FilePath AppErr Storage Template Scaffold.
Import GoStr FilePath Storage Template Scaffold.

Module Generated.

(** ** Declarations of a Go file *)

(** The name a line declares at package level: a type or a function; a method declares none. *)
Fixpoint after (p s : string) : option string :=
  match p, s with
  | EmptyString, _ => Some s
  | String a p', String b s' => if Ascii.eqb a b then after p' s' else None
  | String _ _, EmptyString => None
  end.

Definition declared (rest : string) : option string :=
  match ident rest with EmptyString => None | x => Some x end.

Definition decl (line : string) : option string :=
  match after "type " line with
  | Some rest => declared rest
  | None => match after "func " line with Some rest => declared rest | None => None end
  end.

Definition decls (text : string) : list string := omap decl (lines text).

(** The names the generated files of one directory declare. *)
Definition package_decls (data : templateData) (dir : string) : list string :=
  flat_map (λ x : string * string * string,
    if String.eqb x.1.2 dir then
      match renderTemplate x.1.1 data with Ok t => decls t | Err _ => [] end
    else []) (specs (td_Name data)).

(** ** Rendering *)

(** A template that is embedded, parses and uses known fields only renders for all data. *)
Lemma renderTemplate_ok tmpl data content t :
  moduleTemplates ("templates/module/" +:+ tmpl) = Some content → Parse content = Ok t →
  Forall (known (field_of data)) t → renderTemplate tmpl data = Ok (rendering (field_of data) t).
Proof. intros Hc Hp Hk. unfold renderTemplate. by rewrite Hc, Hp, Execute_known. Qed.

Definition parsed (tmpl : string) : list piece :=
  match moduleTemplates ("templates/module/" +:+ tmpl) with
  | Some c => match Parse c with Ok t => t | Err _ => [] end
  | None => []
  end.

(** Whether a piece only names fields of [templateData]. *)
Definition plain_piece (p : piece) : bool :=
  match p with Text _ => true | Field f => existsb (String.eqb f) ["Name"; "Title"; "ModulePath"] end.

Lemma plain_known data p : plain_piece p = true → known (field_of data) p.
Proof.
  destruct p as [t|f]; [done|]. simpl. rewrite !orb_true_iff. unfold field_of.
  intros [->%String.eqb_eq|[->%String.eqb_eq|[->%String.eqb_eq|]]]; done || by eexists.
Qed.

Lemma renderTemplate_spec name data x :
  x ∈ specs name → renderTemplate x.1.1 data = Ok (rendering (field_of data) (parsed x.1.1)).
Proof.
  intros Hx. unfold specs in Hx. rewrite !elem_of_cons, elem_of_nil in Hx.
  destruct_or! Hx; try done; subst x; simpl;
    (eapply renderTemplate_ok; [reflexivity | vm_compute; reflexivity |]);
    apply Forall_forall; intros p Hp; apply plain_known; revert p Hp; apply Forall_forall;
    vm_compute; repeat constructor.
Qed.

(** ** Which lines declare *)

(** A line whose known beginning can still become a declaration. *)
Definition compatible (p x : string) : bool := has_prefix p x || has_prefix x p.

Definition interesting (l : list piece) : bool :=
  match l with
  | Text x :: _ => compatible "type " x || compatible "func " x
  | Field _ :: _ => true
  | [] => false
  end.

Lemma after_incompatible p x r : compatible p x = false → after p (x +:+ r) = None.
Proof.
  revert x. induction p as [|a p IH]; intros [|b x]; unfold compatible; simpl; try done.
  destruct (Ascii.eqb a b) eqn:Hab; [|done]. apply Ascii.eqb_eq in Hab as ->. rewrite Ascii.eqb_refl. simpl. apply IH.
Qed.

Lemma decl_boring data l : interesting l = false → decl (rendering data l) = None.
Proof.
  destruct l as [|[x|f] l]; [done| |done]. simpl. intros [Ht Hf]%orb_false_iff.
  unfold decl, rendering. cbn [map piece_text foldr]. by rewrite !after_incompatible.
Qed.

Lemma decls_rendering data t :
  one_line data →
  decls (rendering data t) = omap (λ l, decl (rendering data l)) (List.filter interesting (template_lines t)).
Proof.
  intros H1. unfold decls. rewrite lines_rendering by done.
  induction (template_lines t) as [|l ls IH]; [done|]. cbn [map List.filter].
  destruct (interesting l) eqn:Hi; cbn [omap list_omap]; [by rewrite IH|]. by rewrite (decl_boring _ _ Hi).
Qed.

(** The names a template declares, as pieces. *)
Definition declarations (tmpl : string) : list (list piece) := List.filter interesting (template_lines (parsed tmpl)).

(** ** The package of a valid name *)

Section Module_of.
Context (name modulePath : string) (Hname : validateName name = None) (Hpath : contains_byte LF modulePath = false).

Let data := mkTemplateData name (titleCase name) modulePath.

Lemma ident_all p s : (∀ c, p c = true → ident_char c = true) → all_chars p s = true →
  forallb ident_char (list_ascii_of_string s) = true.
Proof.
  intros Hp. induction s as [|c s IH]; simpl; [done|]. intros [Hc Hs]%andb_true_iff. by rewrite (Hp c Hc), IH.
Qed.

Lemma title_ident_char c : title_char c = true → ident_char c = true.
Proof.
  unfold title_char, ident_char, is_upper, is_lower, is_num, in_range.
  destruct (48 <=? nat_of_ascii c)%nat, (nat_of_ascii c <=? 57)%nat, (65 <=? nat_of_ascii c)%nat,
    (nat_of_ascii c <=? 90)%nat, (97 <=? nat_of_ascii c)%nat, (nat_of_ascii c <=? 122)%nat; done.
Qed.

Lemma name_ident_char c : name_char c = true → ident_char c = true.
Proof.
  unfold name_char. rewrite !orb_true_iff. intros [[Hl|Hn]|Hu].
  - apply title_ident_char. unfold title_char. by rewrite Hl, orb_true_r.
  - apply title_ident_char. unfold title_char. by rewrite Hn, orb_true_r.
  - by apply Ascii.eqb_eq in Hu as ->.
Qed.

Lemma name_shape : name ≠ "" ∧ all_chars name_char name = true.
Proof. destruct (valid_chars name Hname) as (c & s & -> & _ & Ha). done. Qed.

Lemma title_shape : titleCase name ≠ "" ∧ all_chars title_char (titleCase name) = true.
Proof.
  destruct (titleCase_exported name Hname) as (c & s & -> & Hc & Hs). split; [done|]. simpl.
  unfold title_char at 1. by rewrite Hc.
Qed.

Lemma data_one_line : one_line (field_of data).
Proof.
  intros f v. unfold field_of. repeat case_match; intros [= <-].
  - by eapply all_chars_no; [apply name_shape|].
  - by eapply all_chars_no; [apply title_shape|].
  - done.
Qed.

Lemma declared_title r : ident r = "" → declared (titleCase name +:+ r) = Some (titleCase name).
Proof.
  intros Hr. destruct title_shape as [Hne Ha]. unfold declared.
  rewrite ident_app by (by eapply ident_all, Ha; apply title_ident_char). rewrite Hr, append_nil_r.
  by destruct (titleCase name).
Qed.

Lemma declared_name s r : ident (s +:+ r) = s → declared (name +:+ s +:+ r) = Some (name +:+ s).
Proof.
  intros Hr. destruct name_shape as [Hne Ha]. unfold declared.
  rewrite ident_app by (by eapply ident_all, Ha; apply name_ident_char). rewrite Hr.
  by destruct name.
Qed.

Lemma decls_template tmpl :
  decls (rendering (field_of data) (parsed tmpl)) = omap (λ l, decl (rendering (field_of data) l)) (declarations tmpl).
Proof. apply decls_rendering, data_one_line. Qed.

Lemma decl_type_title r : ident r = "" → decl ("type " +:+ titleCase name +:+ r) = Some (titleCase name).
Proof. intros Hr. unfold decl. exact (declared_title r Hr). Qed.

Lemma decl_type_name s r : ident (s +:+ r) = s → decl ("type " +:+ name +:+ s +:+ r) = Some (name +:+ s).
Proof. intros Hr. unfold decl. exact (declared_name s r Hr). Qed.

(** Computes the lines that can declare, and names the fields in them. *)
Ltac declares tmpl :=
  rewrite decls_template;
  let L := eval vm_compute in (declarations tmpl) in replace (declarations tmpl) with L by reflexivity;
  cbn [omap list_omap]; unfold rendering; cbn [map piece_text foldr];
  change (default "" (field_of data "Title")) with (titleCase name);
  change (default "" (field_of data "Name")) with name;
  rewrite ?decl_type_title, ?append_nil_r by done; try done.

Lemma domain_decls : decls (rendering (field_of data) (parsed "domain.go.tmpl")) = [titleCase name].
Proof. declares "domain.go.tmpl". Qed.

Lemma port_decls : decls (rendering (field_of data) (parsed "port.go.tmpl")) = ["UseCase"; titleCase name].
Proof. declares "port.go.tmpl". Qed.

Lemma usecase_decls : decls (rendering (field_of data) (parsed "usecase.go.tmpl")) = [name +:+ "UseCase"; "NewUseCase"].
Proof.
  declares "usecase.go.tmpl". change "UseCase struct{}" with ("UseCase" +:+ " struct{}").
  by rewrite decl_type_name.
Qed.

Lemma usecase_test_decls : decls (rendering (field_of data) (parsed "usecase_test.go.tmpl")) = ["TestSmoke_NewUseCase"; "TestSmoke_GetByID"].
Proof. declares "usecase_test.go.tmpl". Qed.

Lemma handler_decls : decls (rendering (field_of data) (parsed "handler.go.tmpl")) = ["Handler"; "NewHandler"].
Proof. declares "handler.go.tmpl". Qed.

Lemma handler_test_decls : decls (rendering (field_of data) (parsed "handler_test.go.tmpl")) = ["TestSmoke_NewHandler"; "TestSmoke_GetByID"].
Proof. declares "handler_test.go.tmpl". Qed.

Lemma package_decls_dir dir :
  package_decls data dir = flat_map (λ x : string * string * string,
    if String.eqb x.1.2 dir then decls (rendering (field_of data) (parsed x.1.1)) else []) (specs name).
Proof.
  unfold package_decls. cbn [td_Name data]. pose proof (λ x, renderTemplate_spec name data x) as Hr.
  induction (specs name) as [|x l IH]; [done|]. cbn [flat_map].
  rewrite Hr by left. f_equal. apply IH. intros y Hy. apply Hr. by right.
Qed.

(** The title is a letter-and-digit word that starts with an upper case letter. *)
Lemma title_not_name s : titleCase name ≠ name +:+ s.
Proof.
  destruct (valid_chars name Hname) as (c & s' & Hn & Hc & _).
  destruct (titleCase_exported name Hname) as (d & r & Ht & Hd & _). rewrite Ht. rewrite Hn at 1. intros [= -> _].
  revert Hc Hd. unfold is_lower, is_upper, in_range. rewrite !andb_true_iff, !Nat.leb_le. lia.
Qed.

Lemma title_no_underscore s : contains_byte "_" s = true → titleCase name ≠ s.
Proof. intros Hs <-. by rewrite (all_chars_no title_char "_" _ (proj2 title_shape)) in Hs. Qed.

Lemma name_not_upper s c r : is_upper c = true → name +:+ s ≠ String c r.
Proof.
  destruct (valid_chars name Hname) as (d & s' & -> & Hd & _). intros Hc [= -> _].
  revert Hc Hd. unfold is_lower, is_upper, in_range. rewrite !andb_true_iff, !Nat.leb_le. lia.
Qed.

End Module_of.

(** The line with which the handler imports the use case. *)
Definition import_line (modulePath name : string) : string :=
  String "009" (String "034" (modulePath +:+ "/internal/module/" +:+ name +:+ "/usecase" +:+ String "034" "")).

Lemma handler_import name modulePath :
  validateName name = None → contains_byte LF modulePath = false →
  let data := mkTemplateData name (titleCase name) modulePath in
  import_line modulePath name ∈ lines (rendering (field_of data) (parsed "handler.go.tmpl")).
Proof.
  intros Hv Hp data. rewrite lines_rendering by by apply data_one_line.
  apply list_elem_of_In, in_map_iff. eexists. split; [|apply (nth_In _ [] (n := 3)); vm_compute; lia].
  let L := eval vm_compute in (nth 3 (template_lines (parsed "handler.go.tmpl")) []) in
    replace (nth 3 (template_lines (parsed "handler.go.tmpl")) []) with L by reflexivity.
  done.
Qed.

(** Scaffolding a valid name: each of the six files renders and opens with the package clause
    of its directory; the handler's import names the directory below the module path in which
    the use case is written; and the directories declare the names below.  So each directory
    is a package without a name declared twice, unless the title of the module is a name of
    the use-case template itself. *)
Theorem generated_module (name modulePath : string) :
  validateName name = None → contains_byte LF modulePath = false →
  let data := mkTemplateData name (titleCase name) modulePath in
  Forall (λ x, ∃ text, renderTemplate x.1.1 data = Ok text ∧ has_prefix ("package " +:+ x.1.2 +:+ String LF "") text = true)
    (specs name) ∧
  (∃ text, renderTemplate "handler.go.tmpl" data = Ok text ∧ import_line modulePath name ∈ lines text) ∧
  package_decls data "domain" = [titleCase name] ∧
  package_decls data "usecase" =
    ["UseCase"; titleCase name; name +:+ "UseCase"; "NewUseCase"; "TestSmoke_NewUseCase"; "TestSmoke_GetByID"] ∧
  package_decls data "handler" = ["Handler"; "NewHandler"; "TestSmoke_NewHandler"; "TestSmoke_GetByID"] ∧
  (NoDup (package_decls data "usecase") ↔ titleCase name ≠ "UseCase" ∧ titleCase name ≠ "NewUseCase").
Proof.
  intros Hv Hp. cbv zeta. set (data := mkTemplateData name (titleCase name) modulePath).
  assert (Huse : package_decls data "usecase" =
    ["UseCase"; titleCase name; name +:+ "UseCase"; "NewUseCase"; "TestSmoke_NewUseCase"; "TestSmoke_GetByID"]).
  { unfold data. rewrite package_decls_dir by done. cbn [specs flat_map fst snd String.eqb Ascii.eqb Bool.eqb].
    by rewrite port_decls, usecase_decls, usecase_test_decls. }
  split_and!.
  - apply Forall_forall. intros x Hx. rewrite (renderTemplate_spec name data x Hx). eexists. split; [done|].
    unfold specs in Hx. rewrite !elem_of_cons, elem_of_nil in Hx. by destruct_or! Hx; subst x.
  - eexists. split; [|by apply (handler_import name modulePath)].
    apply (renderTemplate_spec name data ("handler.go.tmpl", "handler", name +:+ "_handler.go")). unfold specs. set_solver.
  - unfold data. rewrite package_decls_dir by done. cbn [specs flat_map fst snd String.eqb Ascii.eqb Bool.eqb]. by rewrite domain_decls.
  - done.
  - unfold data. rewrite package_decls_dir by done. cbn [specs flat_map fst snd String.eqb Ascii.eqb Bool.eqb].
    by rewrite handler_decls, handler_test_decls.
  - rewrite Huse. pose proof (title_not_name name Hv "UseCase") as H1.
    pose proof (λ s, title_no_underscore name Hv s) as H2. pose proof (name_not_upper name modulePath Hv "UseCase") as H3.
    rewrite !NoDup_cons, !elem_of_cons. split.
    + intros (Hu & Ht & _). split; intros Heq; [apply Hu | apply Ht]; rewrite Heq; [by left | right; by left].
    + intros [Hu Hn]. pose proof (H2 "TestSmoke_NewUseCase" eq_refl). pose proof (H2 "TestSmoke_GetByID" eq_refl).
      pose proof (λ c r, H3 c r) as H4. clear Huse H2 H3 data. generalize dependent (titleCase name).
      revert H4. generalize (name +:+ "UseCase"). intros n Hc t H1 Hu Hn Ht1 Ht2.
      split_and!; rewrite ?elem_of_nil; try apply NoDup_nil_2; intros Hin; destruct_or? Hin;
        solve [congruence | done | by eapply Hc in Hin | by symmetry in Hin; eapply Hc in Hin].
Qed.

Lemma generated_module_witness :
  let data := mkTemplateData "invoice" "Invoice" "github.com/14mdzk/goscratch" in
  package_decls data "domain" = ["Invoice"] ∧ NoDup (package_decls data "usecase").
Proof.
  destruct (generated_module "invoice" "github.com/14mdzk/goscratch" eq_refl eq_refl) as (_ & _ & Hd & _ & _ & Hn).
  split; [exact Hd|]. apply Hn. by split.
Defined.

(** The validated name use_case generates a package that declares [UseCase] twice: once as the
    interface of the port, once as the placeholder type. *)
Example use_case_declared_twice :
  validateName "use_case" = None ∧
  package_decls (mkTemplateData "use_case" (titleCase "use_case") "m") "usecase" =
    ["UseCase"; "UseCase"; "use_caseUseCase"; "NewUseCase"; "TestSmoke_NewUseCase"; "TestSmoke_GetByID"].
Proof. split; vm_compute; reflexivity. Qed.

End Generated.
