(* ===== verification/Worker.v ===== *)
(** * Background jobs

    Models [internal/worker]: jobs ([job.go]), the publisher ([publisher.go]) and the
    worker with its retry policy ([worker.go]), and [internal/module/job] (use case, audit
    decorator, handler).  The JSON of a job is the interface [JobCodec] with a round-trip law,
    which [JobJson] discharges; the broker keeps the queue, handlers' outcomes and the moments at
    which retry timers fire are inputs, so a run is any interleaving of deliveries, timers,
    publications and shutdown. *)
From S2P Require Import Prelude AppErr Config Port Validator.
Import AppErr Config Validator.

Module Worker.

(** ** job.go *)

Record Job := mkJob {
  job_ID : string;
  job_Type : string;
  Payload : string;
  Attempts : Z;
  MaxRetry : Z;
  CreatedAt : Z
}.

Definition JobTypeEmailSend := "email.send".
Definition JobTypeAuditCleanup := "audit.cleanup".
Definition JobTypeNotification := "notification.send".

(** [payload] is the outcome of [json.Marshal], [id] a fresh UUID, [now] the clock. *)
Definition NewJob (id : string) (now : Z) (jobType : string) (payload : result error string) : result error Job :=
  match payload with
  | Err e => Err e
  | Ok data => Ok (mkJob id jobType data 0 3 now)
  end.

Definition NewJobWithRetry (id : string) (now : Z) (jobType : string) (payload : result error string) (maxRetry : Z)
    : result error Job :=
  match NewJob id now jobType payload with
  | Err e => Err e
  | Ok job => Ok (mkJob (job_ID job) (job_Type job) (Payload job) (Attempts job) maxRetry (CreatedAt job))
  end.

Definition CanRetry (j : Job) : bool := Attempts j <? MaxRetry j.

Definition IncrementAttempts (j : Job) : Job :=
  mkJob (job_ID j) (job_Type j) (Payload j) (wrap64 (Attempts j + 1)) (MaxRetry j) (CreatedAt j).

(** [encoding/json] on jobs: a job with valid texts, nested no deeper than the decoder
    follows, decodes to the same identity and counters.  [JobJson] gives the instance. *)
Class JobCodec := {
  Encode : Job → result error string;
  DecodeJob : string → result error Job;
  job_ok : Job → Prop;
  decode_encode j s : job_ok j → Encode j = Ok s →
    ∃ j', DecodeJob s = Ok j' ∧ job_ok j' ∧ job_ID j' = job_ID j ∧ job_Type j' = job_Type j ∧
          Attempts j' = Attempts j ∧ MaxRetry j' = MaxRetry j;
  job_ok_increment j : job_ok j → job_ok (IncrementAttempts j);
  encode_retry j s j' : job_ok j → Encode j = Ok s → DecodeJob s = Ok j' → CanRetry (IncrementAttempts j') = true →
    is_ok (Encode (IncrementAttempts j')) = true
}.

(** ** publisher.go *)

Class Queue (Q : Type) := {
  queue_Publish : Q → string → string → string → Q * option error   (* exchange, routing key, body *)
}.

Record Publisher := mkPublisher { pub_queueName : string; pub_exchange : string }.

Definition NewPublisher (queueName exchange : string) : Publisher :=
  mkPublisher (if String.eqb queueName "" then "jobs" else queueName) exchange.

Section publisher.
Context {Q : Type} `{Queue Q} `{JobCodec}.

Definition PublishRaw (p : Publisher) (q : Q) (job : Job) : Q * option error :=
  match Encode job with
  | Err e => (q, Some (FmtError "failed to encode job: " e ""))
  | Ok data =>
      match queue_Publish q (pub_exchange p) (pub_queueName p) data with
      | (q', Some e) => (q', Some (FmtError "failed to publish job: " e ""))
      | (q', None) => (q', None)
      end
  end.

Definition Publish (p : Publisher) (q : Q) (id : string) (now : Z) (jobType : string) (payload : result error string)
    : Q * option error :=
  match NewJob id now jobType payload with
  | Err e => (q, Some (FmtError "failed to create job: " e ""))
  | Ok job => PublishRaw p q job
  end.

Definition PublishWithRetry (p : Publisher) (q : Q) (id : string) (now : Z) (jobType : string)
    (payload : result error string) (maxRetry : Z) : Q * option error :=
  match NewJobWithRetry id now jobType payload maxRetry with
  | Err e => (q, Some (FmtError "failed to create job: " e ""))
  | Ok job => PublishRaw p q job
  end.

(** ** module/job *)

Definition validJobTypes : list (string * string) :=
  [(JobTypeEmailSend, "Send an email to a recipient");
   (JobTypeAuditCleanup, "Clean up old audit log entries");
   (JobTypeNotification, "Send a notification to a user")].

Record JobResponse := mkJobResponse { resp_ID : string; resp_Type : string; resp_Status : string; resp_CreatedAt : Z }.

(** [jobID] and [respID] are the two UUIDs drawn: one by [NewJob], one for the response. *)
Definition Dispatch (p : Publisher) (q : Q) (jobID respID : string) (now : Z) (jobType : string)
    (payload : result error string) (maxRetry : Z) : Q * result error JobResponse :=
  if negb (existsb (λ kv, String.eqb kv.1 jobType) validJobTypes)
  then (q, Err (BadRequestf ("invalid job type: " +:+ jobType)))
  else match PublishWithRetry p q jobID now jobType payload maxRetry with
       | (q', Some err) => (q', Err (Internalf ("failed to dispatch job: " +:+ ErrorText err)))
       | (q', None) => (q', Ok (mkJobResponse respID jobType "queued" now))
       end.

Definition ListJobTypes : list (string * string) := validJobTypes.

Definition Audited_Dispatch {L} `{Auditor L} (ctx : Context) (p : Publisher) (ql : Q * L) (jobID respID : string)
    (now : Z) (jobType : string) (payload : result error string) (maxRetry : Z) : (Q * L) * result error JobResponse :=
  match Dispatch p ql.1 jobID respID now jobType payload maxRetry with
  | (q', Err e) => ((q', ql.2), Err e)
  | (q', Ok resp) =>
      let e := NewAuditEntry ctx now ActionCreate "job" (resp_ID resp) in
      let e := mkAuditEntry (ae_UserID e) (ae_Action e) (ae_Resource e) (ae_ResourceID e) None None
                 (Some [("job_type", AnyString jobType); ("max_retry", AnyInt maxRetry)])
                 (ae_IPAddress e) (ae_UserAgent e) (ae_Timestamp e) in
      ((q', (auditor_Log ql.2 e).1), Ok resp)
  end.

(** [bound] is the validated request: type, payload, optional max_retry *)
Definition h_Dispatch (p : Publisher) (q : Q) (jobID respID : string) (now : Z)
    (bound : result error (string * result error string * option Z)) : Q * Response JobResponse :=
  match bound with
  | Err err => (q, HandleValidationError err)
  | Ok (jobType, payload, mr) =>
      let maxRetry := default 3 mr in
      match Dispatch p q jobID respID now jobType payload maxRetry with
      | (q', Err err) => (q', Resp.Fail err)
      | (q', Ok job) => (q', Resp.Created job)
      end
  end.

End publisher.

(** ** worker.go *)

Record WorkerConfig := mkWorkerConfig { QueueName : string; Exchange : string; Concurrency : Z }.

(** The normalisation [New] applies. *)
Definition New (cfg : WorkerConfig) : WorkerConfig :=
  mkWorkerConfig (if String.eqb (QueueName cfg) "" then "jobs" else QueueName cfg) (Exchange cfg)
    (if Concurrency cfg <=? 0 then 1 else Concurrency cfg).

(** The worker with its queue: messages waiting, retries waiting for their timer, the
    context's cancellation, and the log of handler executions. *)
Record Worker := mkWorker {
  handlers : gset string;
  queue : list string;
  pending : list (Z * string);     (* delay, encoded job *)
  cancelled : bool;
  executed : list Job
}.

Definition RegisterHandler (w : Worker) (t : string) : Worker :=
  mkWorker ({[t]} ∪ handlers w) (queue w) (pending w) (cancelled w) (executed w).

Section worker.
Context `{JobCodec}.

Definition retryDelay (j : Job) : Z := wrap64 (wrap64 (Attempts j * Attempts j) * Second).

(** Starts the goroutine that waits for the timer. *)
Definition retryJob (w : Worker) (job : Job) : Worker :=
  match Encode job with
  | Err _ => w
  | Ok data => mkWorker (handlers w) (queue w) (pending w ++ [(retryDelay job, data)]) (cancelled w) (executed w)
  end.

(** [outcome] is what the handler returns; the method itself always returns nil, so the
    message is acknowledged. *)
Definition handleMessage (w : Worker) (msg : string) (outcome : option error) : Worker :=
  match DecodeJob msg with
  | Err _ => w
  | Ok job0 =>
      let job := IncrementAttempts job0 in
      if decide (job_Type job ∈ handlers w) then
        let w := mkWorker (handlers w) (queue w) (pending w) (cancelled w) (executed w ++ [job]) in
        match outcome with
        | None => w
        | Some _ => if CanRetry job then retryJob w job else w
        end
      else w
  end.

(** What the retry goroutine does once its select returns. *)
Definition retryFire (w : Worker) (i : nat) (publishOk : bool) : Worker :=
  match pending w !! i with
  | None => w
  | Some (_, data) =>
      let rest := take i (pending w) ++ drop (S i) (pending w) in
      if cancelled w then mkWorker (handlers w) (queue w) rest (cancelled w) (executed w)
      else mkWorker (handlers w) (if publishOk then queue w ++ [data] else queue w) rest (cancelled w) (executed w)
  end.

Definition Shutdown (w : Worker) : Worker :=
  mkWorker (handlers w) (queue w) (pending w) true (executed w).

(** *** Runs *)

Inductive event :=
| Deliver (outcome : option error)      (* the broker delivers the head message once *)
| Fire (i : nat) (publishOk : bool)     (* the timer of the i-th pending retry, or ctx.Done *)
| Arrive (j : Job)                      (* a publisher queues a job *)
| Stop.

Definition step (w : Worker) (e : event) : Worker :=
  match e with
  | Deliver o =>
      match queue w with
      | [] => w
      | m :: q => handleMessage (mkWorker (handlers w) q (pending w) (cancelled w) (executed w)) m o
      end
  | Fire i ok => retryFire w i ok
  | Arrive j =>
      match Encode j with
      | Ok s => mkWorker (handlers w) (queue w ++ [s]) (pending w) (cancelled w) (executed w)
      | Err _ => w
      end
  | Stop => Shutdown w
  end.

Definition run (w : Worker) (evs : list event) : Worker := foldl step w evs.

(** *** The retry budget *)

(** How often a queued job may still be executed. *)
Definition budget (j : Job) : Z := Z.max 1 (MaxRetry j - Attempts j).

Definition msg_budget (id : string) (m : string) : Z :=
  match DecodeJob m with Ok j => if String.eqb (job_ID j) id then budget j else 0 | Err _ => 0 end.

Definition sum_budget (id : string) (ms : list string) : Z := foldr (λ m acc, msg_budget id m + acc) 0 ms.

Definition potential (id : string) (w : Worker) : Z :=
  sum_budget id (queue w) + sum_budget id (pending w).*2.

Definition executions (id : string) (w : Worker) : Z :=
  Z.of_nat (length (filter (λ j, job_ID j = id) (executed w))).

(** Counters of queued messages below the int64 limit, so that [Attempts++] cannot wrap. *)
Definition sane (m : string) : Prop :=
  ∀ j, DecodeJob m = Ok j → job_ok j ∧ 0 ≤ Attempts j < max_int64 ∧ MaxRetry j ≤ max_int64.

Definition sane_worker (w : Worker) : Prop := Forall sane (queue w) ∧ Forall sane (pending w).*2.

Lemma msg_budget_nonneg id m : 0 ≤ msg_budget id m.
Proof. unfold msg_budget, budget. repeat case_match; lia. Qed.

Lemma sum_budget_app id l1 l2 : sum_budget id (l1 ++ l2) = sum_budget id l1 + sum_budget id l2.
Proof. unfold sum_budget. induction l1 as [|m l IH]; simpl; lia. Qed.

Lemma sum_budget_cons id m l : sum_budget id (m :: l) = msg_budget id m + sum_budget id l.
Proof. reflexivity. Qed.

Lemma sum_budget_nil id : sum_budget id [] = 0.
Proof. reflexivity. Qed.

Lemma sum_budget_nonneg id l : 0 ≤ sum_budget id l.
Proof. unfold sum_budget. induction l as [|m l IH]; simpl; [lia|]. pose proof (msg_budget_nonneg id m). lia. Qed.

Lemma msg_budget_encode id j s :
  job_ok j → Encode j = Ok s → msg_budget id s = if String.eqb (job_ID j) id then budget j else 0.
Proof.
  intros Hok (j' & Hd & _ & Hi & _ & Ha & Hm)%decode_encode; [|done]. unfold msg_budget. rewrite Hd.
  unfold budget. by rewrite Hi, Ha, Hm.
Qed.

Lemma increment_attempts j : 0 ≤ Attempts j < max_int64 → Attempts (IncrementAttempts j) = Attempts j + 1.
Proof. intros Ha. simpl. apply wrap64_id. unfold in_int64, min_int64, max_int64 in *. lia. Qed.

Lemma sane_encode j s :
  job_ok j → Encode j = Ok s → 0 ≤ Attempts j < max_int64 → MaxRetry j ≤ max_int64 → sane s.
Proof.
  intros Hok (j' & Hd & Hok' & _ & _ & Ha & Hm)%decode_encode H1 H2 j'' Hj''; [|done].
  rewrite Hd in Hj''. injection Hj'' as <-. by rewrite Ha, Hm.
Qed.

(** One delivery spends one execution of the message's budget. *)
Lemma handle_spends id w m o :
  sane m →
  executions id (handleMessage w m o) + potential id (handleMessage w m o)
    ≤ executions id w + potential id w + msg_budget id m.
Proof.
  intros Hs. unfold handleMessage, msg_budget. destruct (DecodeJob m) as [j|] eqn:Hd; [|lia].
  destruct (Hs j Hd) as (Hok%job_ok_increment & Ha & Hm). pose proof (increment_attempts j Ha) as Hinc.
  set (job := IncrementAttempts j) in *.
  assert (job_ID job = job_ID j) as Hid by done. assert (MaxRetry job = MaxRetry j) as Hmr by done.
  case_decide as Ht; [|unfold budget; destruct (String.eqb (job_ID j) id); lia].
  assert (∀ q p c, executions id (mkWorker (handlers w) q p c (executed w ++ [job]))
                   = executions id w + if String.eqb (job_ID j) id then 1 else 0) as Hex.
  { intros q p c. unfold executions; cbn. rewrite filter_app, length_app, filter_cons, filter_nil, Hid.
    destruct (String.eqb_spec (job_ID j) id); [rewrite decide_True by done | rewrite decide_False by done];
      cbn [length]; lia. }
  destruct o as [e|]; [|rewrite Hex; unfold potential, budget; cbn [queue pending]; destruct (String.eqb (job_ID j) id); lia].
  destruct (CanRetry job) eqn:Hcr; [|rewrite Hex; unfold potential, budget; cbn [queue pending]; destruct (String.eqb (job_ID j) id); lia].
  unfold retryJob. destruct (Encode job) as [s|] eqn:He; [|rewrite Hex; unfold potential, budget; cbn [queue pending]; destruct (String.eqb (job_ID j) id); lia].
  cbn [handlers queue pending cancelled executed]. rewrite Hex. unfold potential; cbn [queue pending].
  rewrite fmap_app, sum_budget_app. cbn [fmap list_fmap snd sum_budget foldr]. rewrite (msg_budget_encode id _ _ Hok He), Hid.
  unfold CanRetry in Hcr. to_prop. unfold budget. destruct (String.eqb (job_ID j) id); lia.
Qed.

Lemma handle_sane w m o : sane m → sane_worker w → sane_worker (handleMessage w m o).
Proof.
  intros Hs [Hq Hp]. unfold handleMessage. destruct (DecodeJob m) as [j|] eqn:Hd; [|done].
  destruct (Hs j Hd) as (Hok%job_ok_increment & Ha & Hm). pose proof (increment_attempts j Ha) as Hinc.
  set (job := IncrementAttempts j) in *. assert (MaxRetry job = MaxRetry j) as Hmr by done.
  repeat case_match; try done. unfold retryJob. case_match eqn:He; [|done]. split; [done|]. cbn.
  rewrite fmap_app. apply Forall_app. split; [done|]. apply Forall_singleton.
  unfold CanRetry in *. to_prop. eapply sane_encode; [done|done|..]; lia.
Qed.

(** The budget a publication brings in. *)
Definition arrives (id : string) (e : event) : Z :=
  match e with Arrive j => if String.eqb (job_ID j) id then budget j else 0 | _ => 0 end.
Definition total_arrivals (id : string) (evs : list event) : Z := foldr (λ e acc, arrives id e + acc) 0 evs.

Definition sane_event (e : event) : Prop :=
  match e with Arrive j => job_ok j ∧ 0 ≤ Attempts j < max_int64 ∧ MaxRetry j ≤ max_int64 | _ => True end.

Lemma fire_split w i d s :
  pending w !! i = Some (d, s) →
  ∀ id, sum_budget id (pending w).*2 = msg_budget id s + sum_budget id (take i (pending w) ++ drop (S i) (pending w)).*2.
Proof.
  intros Hi id. rewrite <-(take_drop_middle _ _ _ Hi) at 1.
  rewrite !fmap_app, fmap_cons, !sum_budget_app, sum_budget_cons. cbn [snd]. lia.
Qed.

Lemma step_spends id w e :
  sane_worker w → sane_event e →
  sane_worker (step w e) ∧
  executions id (step w e) + potential id (step w e) ≤ executions id w + potential id w + arrives id e.
Proof.
  intros [Hq Hp] He. destruct e as [o|i ok|j|]; cbn [step arrives].
  - destruct (queue w) as [|m q] eqn:Hqw; [split; [split; by rewrite ?Hqw | lia]|].
    apply Forall_cons in Hq as [Hm Hq]. split; [by apply handle_sane|].
    pose proof (handle_spends id (mkWorker (handlers w) q (pending w) (cancelled w) (executed w)) m o Hm) as Hh.
    unfold executions, potential in *. cbn [queue pending executed] in *. rewrite Hqw, sum_budget_cons. lia.
  - unfold retryFire. destruct (pending w !! i) as [[d s]|] eqn:Hi; [|split; [done | lia]].
    assert (Forall sane (take i (pending w) ++ drop (S i) (pending w)).*2 ∧ sane s) as [Hrest Hs].
    { rewrite <-(take_drop_middle _ _ _ Hi), fmap_app, fmap_cons in Hp.
      apply Forall_app in Hp as [H1 H2]. apply Forall_cons in H2 as [H2 H3].
      rewrite fmap_app. split; [by apply Forall_app | done]. }
    pose proof (fire_split w i d s Hi id) as Hsplit. pose proof (msg_budget_nonneg id s).
    destruct (cancelled w); [|destruct ok]; unfold sane_worker, potential, executions;
      cbn [queue pending executed]; (split; [split; [|exact Hrest]|]); try done; try lia.
    + apply Forall_app. split; [done | by apply Forall_singleton].
    + rewrite sum_budget_app, sum_budget_cons, sum_budget_nil. lia.
  - destruct (Encode j) as [s|] eqn:Hej.
    + unfold sane_worker, potential, executions; cbn [queue pending executed]. split; [split; [|done]|].
      * apply Forall_app. split; [done|]. apply Forall_singleton. eapply sane_encode; [apply He|done|apply He..].
      * rewrite sum_budget_app, sum_budget_cons, sum_budget_nil, (msg_budget_encode id _ _ (proj1 He) Hej). lia.
    + split; [done|]. unfold budget. destruct (String.eqb (job_ID j) id); lia.
  - split; [done|]. unfold potential, executions, Shutdown. cbn [queue pending executed]. lia.
Qed.

Lemma run_spends id w evs :
  sane_worker w → Forall sane_event evs →
  executions id (run w evs) + potential id (run w evs) ≤ executions id w + potential id w + total_arrivals id evs.
Proof.
  intros Hw Hev. revert w Hw. induction Hev as [|e evs He _ IH]; intros w Hw; [cbn; lia|].
  change (total_arrivals id (e :: evs)) with (arrives id e + total_arrivals id evs).
  change (run w (e :: evs)) with (run (step w e) evs).
  destruct (step_spends id w e Hw He) as [Hw' Hle]. specialize (IH _ Hw'). lia.
Qed.

(** A job is retried a bounded number of times.  Start from an empty worker; let
    publishers, deliveries with any handler outcomes, retry timers, publish failures and
    shutdown interleave in any way.  If the job with some id is published once, fresh,
    with retry limit [m], then it is executed at most [max 1 m] times, whatever other jobs
    do. *)
Theorem retries_bounded (hs : gset string) (evs1 evs2 : list event) (j : Job) :
  let w0 := mkWorker hs [] [] false [] in
  job_ok j → Attempts j = 0 → MaxRetry j ≤ max_int64 →
  Forall sane_event (evs1 ++ evs2) →
  (∀ j', Arrive j' ∈ evs1 ++ evs2 → job_ID j' ≠ job_ID j) →
  executions (job_ID j) (run w0 (evs1 ++ Arrive j :: evs2)) ≤ Z.max 1 (MaxRetry j).
Proof.
  intros w0 Hok Ha Hm Hsane Hother.
  assert (∀ evs, (∀ j', Arrive j' ∈ evs → job_ID j' ≠ job_ID j) → total_arrivals (job_ID j) evs = 0) as Hzero.
  { induction evs as [|e evs IH]; intros Ho; [done|].
    change (arrives (job_ID j) e + total_arrivals (job_ID j) evs = 0).
    rewrite IH by (intros; apply Ho; by right). destruct e as [| |j'|]; cbn [arrives]; try done.
    by rewrite (proj2 (String.eqb_neq _ _) (Ho j' ltac:(by left))). }
  assert (total_arrivals (job_ID j) (evs1 ++ Arrive j :: evs2) = Z.max 1 (MaxRetry j)) as Htot.
  { assert (∀ l1 l2, total_arrivals (job_ID j) (l1 ++ l2) = total_arrivals (job_ID j) l1 + total_arrivals (job_ID j) l2) as Happ.
    { unfold total_arrivals. intros l1 l2. induction l1 as [|e l1 IH]; simpl; lia. }
    rewrite Happ. change (total_arrivals (job_ID j) (Arrive j :: evs2))
      with (arrives (job_ID j) (Arrive j) + total_arrivals (job_ID j) evs2).
    cbn [arrives]. rewrite String.eqb_refl.
    rewrite (Hzero evs1), (Hzero evs2) by (intros; apply Hother; apply elem_of_app; auto).
    unfold budget. rewrite Ha. lia. }
  pose proof (run_spends (job_ID j) w0 (evs1 ++ Arrive j :: evs2)) as Hrun.
  assert (sane_worker w0) as Hw0 by done.
  specialize (Hrun Hw0). rewrite Htot in Hrun. change (executions (job_ID j) w0) with 0 in Hrun.
  change (potential (job_ID j) w0) with 0 in Hrun.
  pose proof (sum_budget_nonneg (job_ID j) (queue (run w0 (evs1 ++ Arrive j :: evs2)))).
  pose proof (sum_budget_nonneg (job_ID j) (pending (run w0 (evs1 ++ Arrive j :: evs2))).*2).
  unfold potential in Hrun. apply Forall_app in Hsane as [Hs1 Hs2].
  assert (Forall sane_event (evs1 ++ Arrive j :: evs2)) as Hs.
  { apply Forall_app. split; [done|]. constructor; [|done]. unfold sane_event, max_int64 in *. split; [done|lia]. }
  specialize (Hrun Hs). lia.
Qed.

(** After shutdown nothing is published any more: once the context is cancelled, no
    interleaving of timers and deliveries adds a message to the queue (publications of
    others apart), and every retry goroutine that fires ends. *)
Theorem shutdown_stops_retries (w : Worker) (evs : list event) :
  (∀ j, Arrive j ∉ evs) →
  let w' := run (Shutdown w) evs in
  cancelled w' = true ∧ (∃ k, queue w' = drop k (queue w)) ∧
  ∀ i d s, pending w' !! i = Some (d, s) → ∀ ok,
    queue (retryFire w' i ok) = queue w' ∧ S (length (pending (retryFire w' i ok))) = length (pending w').
Proof.
  intros Hna w'.
  assert (∀ w1 k, cancelled w1 = true → queue w1 = drop k (queue w) →
    cancelled (run w1 evs) = true ∧ ∃ k', queue (run w1 evs) = drop k' (queue w)) as Hinv.
  { clear w'. induction evs as [|e evs IH]; intros w1 k Hc Hk; [eauto|]. cbn.
    assert (∀ j, Arrive j ∉ evs) as Hna' by (intros j Hj; apply (Hna j); by right).
    destruct e as [o|i ok|j|].
    - cbn. destruct (queue w1) as [|m q] eqn:Hq; [by eapply IH; rewrite ?Hq|].
      apply (IH Hna' _ (S k)).
      + unfold handleMessage, retryJob. by repeat case_match.
      + assert (queue (handleMessage (mkWorker (handlers w1) q (pending w1) (cancelled w1) (executed w1)) m o) = q) as ->.
        { unfold handleMessage, retryJob. by repeat case_match. }
        change (drop 1 (m :: q) = drop (S k) (queue w)). rewrite Hk, drop_drop. f_equal. lia.
    - apply (IH Hna' _ k); cbn; unfold retryFire; repeat case_match; cbn; congruence.
    - exfalso. apply (Hna j). by left.
    - by apply (IH Hna' _ k). }
  destruct (Hinv (Shutdown w) 0%nat eq_refl eq_refl) as [Hc [k Hk]].
  split; [done|]. split; [eauto|]. intros i d s Hi ok. unfold retryFire. fold w' in Hc. rewrite Hi, Hc. cbn.
  split; [done|]. rewrite length_app, length_take, length_drop.
  apply lookup_lt_Some in Hi. lia.
Qed.

End worker.

(** The id in the response of a dispatch is not the id of the queued job: the use case
    draws a second UUID for the response, so whenever the two draws differ, the queued
    message decodes to a job with another id than the client was given. *)
Theorem dispatch_id_mismatch {Q} `{Queue Q} `{JobCodec} (p : Publisher) (q q' : Q) (jobID respID : string) (now : Z)
    (jobType payload : string) (maxRetry : Z) (resp : JobResponse) :
  Dispatch p q jobID respID now jobType (Ok payload) maxRetry = (q', Ok resp) →
  job_ok (mkJob jobID jobType payload 0 maxRetry now) → jobID ≠ respID →
  ∃ body j, queue_Publish q (pub_exchange p) (pub_queueName p) body = (q', None) ∧
    DecodeJob body = Ok j ∧ job_ID j = jobID ∧ resp_ID resp = respID ∧ job_ID j ≠ resp_ID resp.
Proof.
  unfold Dispatch. destruct (negb _); [done|]. unfold PublishWithRetry, PublishRaw. cbn.
  destruct (Encode _) as [body|] eqn:He; [|done].
  destruct (queue_Publish q _ _ body) as [q1 [e|]] eqn:Hp; [done|]. intros [= -> <-] Hok Hne.
  apply decode_encode in He as (j & Hd & _ & Hi & _); [|done]. exists body, j. cbn in *. by rewrite Hi.
Qed.

(** ** Concrete runs *)

(** A codec that can write the two messages of the runs below. *)
#[export] Instance Job_eq_dec : EqDecision Job.
Proof. solve_decision. Defined.

Definition sample_job : Job := mkJob "j1" "email.send" "{}" 0 2 0.
Definition sample_retry : Job := mkJob "j1" "email.send" "{}" 1 2 0.

Definition sample_codec : JobCodec.
Proof.
  refine {| Encode j := if decide (j = sample_job) then Ok "first"
                        else if decide (j = sample_retry) then Ok "second" else Err (PlainError "unsupported");
            DecodeJob s := if String.eqb s "first" then Ok sample_job
                           else if String.eqb s "second" then Ok sample_retry else Err (PlainError "bad");
            job_ok _ := True |}.
  - intros j s _ Hs. repeat case_decide; simplify_eq/=; eauto 10.
  - done.
  - intros j s j' _ Hs Hd Hr. repeat case_decide; simplify_eq/=; done.
Defined.

Lemma retries_bounded_witness :
  let w := @run sample_codec (mkWorker {["email.send"]} [] [] false [])
             ([] ++ Arrive sample_job :: [Deliver (Some ErrInternal); Fire 0 true; Deliver (Some ErrInternal); Deliver None]) in
  executions "j1" w ≤ 2 ∧ executions "j1" w = 2.
Proof.
  split; [|vm_compute; reflexivity].
  apply (@retries_bounded sample_codec {["email.send"]} []
    [Deliver (Some ErrInternal); Fire 0 true; Deliver (Some ErrInternal); Deliver None] sample_job).
  - exact I.
  - reflexivity.
  - vm_compute. discriminate.
  - repeat constructor.
  - intros j' Hj'. cbn [app] in Hj'. rewrite !elem_of_cons in Hj'. destruct Hj' as [Hj'|[Hj'|[Hj'|[Hj'|Hj']]]]; try discriminate Hj'.
    by apply elem_of_nil in Hj'.
Defined.

Lemma shutdown_stops_retries_witness :
  let w := mkWorker {["email.send"]} ["first"] [(1, "second")] false [] in
  cancelled (@run sample_codec (@Shutdown w) [Deliver (Some ErrInternal); Fire 0 true]) = true ∧
  ∃ k, queue (@run sample_codec (@Shutdown w) [Deliver (Some ErrInternal); Fire 0 true]) = drop k ["first"].
Proof.
  intros w. destruct (@shutdown_stops_retries sample_codec w [Deliver (Some ErrInternal); Fire 0 true]) as (H1 & H2 & _).
  - intros j Hj. rewrite !elem_of_cons in Hj. destruct Hj as [Hj|[Hj|Hj]]; try discriminate Hj.
    by apply elem_of_nil in Hj.
  - split; [exact H1 | exact H2].
Defined.

#[export] Instance ListQueue : Queue (list string) := { queue_Publish q _ _ b := (q ++ [b], None) }.

Lemma dispatch_id_mismatch_witness :
  ∃ body j, @queue_Publish _ ListQueue [] "" "jobs" body = (["first"], None) ∧
    @DecodeJob sample_codec body = Ok j ∧ job_ID j = "j1" ∧ "r1" = "r1" ∧ job_ID j ≠ "r1".
Proof.
  apply (@dispatch_id_mismatch _ ListQueue sample_codec (NewPublisher "" "") [] ["first"] "j1" "r1" 0
    "email.send" "{}" 2 (mkJobResponse "r1" "email.send" "queued" 0)); [vm_compute; reflexivity | exact I | discriminate].
Defined.

End Worker.
