(* ===== verification/JobJson.v ===== *)
(** * The wire format of jobs

    The JSON of [internal/worker/job.go] and of the dispatch request: the payload is a
    [json.RawMessage], so its text is captured from the request, compacted when the job is made
    and again when it is encoded, and handed to the handler's decoder.  This gives the [JobCodec]
    the worker's theorems are about, and what a client sends is the value a handler decodes. *)
From S2P Require Import Prelude Json RawJson JsonDecode AppErr Validator Worker.
Import Validator Json RawJson JsonDecode AppErr Worker.

Module JobJson.

(** ** Structs with raw fields *)

(** A setter sees the member's text and its value. *)
Definition raw_setter (S : Type) : Type := S → string → json → option S.

Section raw.
Context {S : Type}.

Definition plain_field (f : setter S) : raw_setter S := λ x _ v, f x v.
(** [RawMessage.UnmarshalJSON]: the text as it is, [null] included. *)
Definition raw_field (set : S → string → S) : raw_setter S := λ x raw _, Some (set x raw).
(** A [*int] field. *)
Definition int_ptr_field (set : S → option Z → S) : raw_setter S := λ x _ v,
  match v with JNum lit => (λ z, set x (Some z)) <$> int_literal lit | JNull => Some (set x None) | _ => None end.

Definition set_raw_member (fields : list (string * raw_setter S)) (st : S * bool) (m : string * (string * json)) : S * bool :=
  match List.find (λ f, field_is f.1 m.1) fields with
  | None => st
  | Some f => match f.2 st.1 m.2.1 m.2.2 with Some x => (x, st.2) | None => (st.1, true) end
  end.

Definition Unmarshal_raw (fields : list (string * raw_setter S)) (zero : S) (data : string) : option S :=
  match parse data with
  | Some JNull => Some zero
  | Some (JObj _) =>
      match raw_object data with
      | Some ms => let '(x, bad) := fold_left (set_raw_member fields) ms (zero, false) in if bad then None else Some x
      | None => None
      end
  | _ => None
  end.

Lemma Unmarshal_raw_write fields zero ms : ms ≠ [] → Forall (λ m, valid_utf8 m.1 = true ∧ text m.2.2 m.2.1) ms →
  Unmarshal_raw fields zero (write_object (map (λ m, (m.1, m.2.1)) ms)) =
    let '(x, bad) := fold_left (set_raw_member fields) ms (zero, false) in if bad then None else Some x.
Proof.
  intros Hne Hms. unfold Unmarshal_raw. pose proof (raw_object_parse (write_object (map (λ m, (m.1, m.2.1)) ms))) as Hp.
  rewrite raw_object_write in Hp by done. rewrite Hp. by rewrite raw_object_write.
Qed.
End raw.

(** ** [time.Time] *)

(** The characters of RFC 3339. *)
Definition time_char (c : ascii) : bool :=
  is_digit c || existsb (Ascii.eqb c) ["-"%char; ":"%char; "T"%char; "Z"%char; "."%char; "+"%char].
Fixpoint time_chars (s : string) : bool :=
  match s with EmptyString => true | String c s' => time_char c && time_chars s' end.

(** [Time.MarshalJSON] between the quotes (it fails outside the years 0 to 9999), and what
    [Time.UnmarshalJSON] makes of that text: the instants are nanoseconds. *)
Class TimeText := {
  time_format : Z → option string;
  time_parse : string → option Z;
  time_format_chars t s : time_format t = Some s → time_chars s = true;
  time_roundtrip t s : time_format t = Some s → time_parse s = Some t
}.

Definition quoted (s : string) : string := String q (s +:+ String q "").

Lemma time_char_facts c : time_char c = true → bval c <? 128 = true ∧ enc_ascii c = String c "" ∧ Ascii.eqb c q = false.
Proof. destruct c as [[] [] [] [] [] [] [] []]; intros Hc; try discriminate Hc; done. Qed.

Lemma time_enc s : time_chars s = true → enc_from true 0 s = s ∧ valid_utf8 s = true.
Proof.
  induction s as [|c s IH]; [done|]. cbn [time_chars]. rewrite andb_true_iff. intros [Hc Hs].
  destruct (time_char_facts c Hc) as (Hb & He & _). destruct (IH Hs) as [H1 H2]. split.
  - cbn [enc_from]. rewrite Hb, He, H1. done.
  - unfold valid_utf8 in *. cbn. rewrite ?Hb. done.
Qed.

Lemma quoted_encode s : time_chars s = true → quoted s = encode (JStr s) ∧ wf 1 (JStr s) = true.
Proof. intros [H1 H2]%time_enc. cbn [encode wf]. unfold quoted, enc_string. by rewrite H1. Qed.

Section jobs.
Context `{TimeText}.

(** [Time.UnmarshalJSON] on the member's text. *)
Definition time_field {S} (set : S → Z → S) : raw_setter S := λ x raw _,
  if String.eqb raw "null" then Some x
  else match raw with
       | String c t =>
           if Ascii.eqb c q && (2 <=? Z.of_nat (String.length raw)) then
             (let body := String.substring 0 (String.length t - 1) t in
              if String.eqb (body +:+ String q "") t then set x <$> time_parse body else None)
           else None
       | EmptyString => None
       end.

(** ** Encode, DecodeJob *)

(** The text of the errors [encoding/json] returns, for the text they are about. *)
Variable json_error : string → error.

Definition zero_job : Job := mkJob "" "" "" 0 0 0.

Definition job_fields : list (string * raw_setter Job) :=
  [("id", plain_field (string_field (λ j s, mkJob s (job_Type j) (Payload j) (Attempts j) (MaxRetry j) (CreatedAt j))));
   ("type", plain_field (string_field (λ j s, mkJob (job_ID j) s (Payload j) (Attempts j) (MaxRetry j) (CreatedAt j))));
   ("payload", raw_field (λ j s, mkJob (job_ID j) (job_Type j) s (Attempts j) (MaxRetry j) (CreatedAt j)));
   ("attempts", plain_field (int_field (λ j z, mkJob (job_ID j) (job_Type j) (Payload j) z (MaxRetry j) (CreatedAt j))));
   ("max_retry", plain_field (int_field (λ j z, mkJob (job_ID j) (job_Type j) (Payload j) (Attempts j) z (CreatedAt j))));
   ("created_at", time_field (λ j t, mkJob (job_ID j) (job_Type j) (Payload j) (Attempts j) (MaxRetry j) t))].

(** A payload of no bytes is the nil slice, which is written as [null]. *)
Definition payload_text (p : string) : option string :=
  if String.eqb p "" then Some "null" else marshal_raw p.

Definition Encode (j : Job) : result error string :=
  match payload_text (Payload j) with
  | None => Err (json_error (Payload j))
  | Some p =>
      match time_format (CreatedAt j) with
      | None => Err (json_error "created_at")
      | Some t => Ok (write_object
          [("id", encode (JStr (job_ID j))); ("type", encode (JStr (job_Type j))); ("payload", p);
           ("attempts", encode (JNum (pretty (Attempts j)))); ("max_retry", encode (JNum (pretty (MaxRetry j))));
           ("created_at", quoted t)])
      end
  end.

Definition DecodeJob (data : string) : result error Job :=
  match Unmarshal_raw job_fields zero_job data with
  | Some job => Ok job
  | None => Err (json_error data)
  end.

Definition UnmarshalPayload {A} (fields : list (string * setter A)) (zero : A) (j : Job) : option A :=
  Unmarshal fields zero (Payload j).

(** The value of a payload, as deep as a job's member may be. *)
Definition payload_value (p : string) : option json := if String.eqb p "" then Some JNull else parse_at 1 p.

(** A job whose encoding its decoder accepts. *)
Definition job_ok (j : Job) : Prop :=
  valid_utf8 (job_ID j) = true ∧ valid_utf8 (job_Type j) = true ∧ is_Some (payload_value (Payload j)) ∧
  in_int64 (Attempts j) ∧ in_int64 (MaxRetry j).

(** *** The round trip *)

(** The members [json.Marshal] writes, with the values they stand for. *)
Definition job_members (j : Job) (payload : string) (v : json) (created : string) : list (string * (string * json)) :=
  [("id", (encode (JStr (job_ID j)), JStr (job_ID j)));
   ("type", (encode (JStr (job_Type j)), JStr (job_Type j)));
   ("payload", (payload, v));
   ("attempts", (encode (JNum (pretty (Attempts j))), JNum (pretty (Attempts j))));
   ("max_retry", (encode (JNum (pretty (MaxRetry j))), JNum (pretty (MaxRetry j))));
   ("created_at", (quoted created, JStr created))].

Lemma payload_text_value p v : payload_value p = Some v → ∃ t, payload_text p = Some t ∧ text v t.
Proof.
  unfold payload_value, payload_text. destruct (String.eqb_spec p "") as [->|_].
  - intros [= <-]. exists "null". split; [done|]. by apply (text_encode JNull).
  - intros Hp. exists (compact Out p). split; [|by apply text_document].
    unfold marshal_raw. rewrite parse_parse_at. by rewrite (parse_shallower 0 _ v).
Qed.

Lemma text_payload v t : text v t → payload_value t = Some v.
Proof.
  intros [(c & t' & -> & Hop) Ht]. unfold payload_value. change (String.eqb (String c t') "") with false. cbv iota.
  unfold parse_at. rewrite skip_ws_opens by done. specialize (Ht (2 * String.length (String c t') + 2)%nat "").
  rewrite append_nil_r in Ht. rewrite Ht by (done || lia). done.
Qed.

Lemma time_field_quoted {S} (set : S → Z → S) x s t v : time_chars s = true → time_parse s = Some t →
  time_field set x (quoted s) v = Some (set x t).
Proof.
  intros Hc Ht. unfold time_field, quoted. change (String.eqb (String q _) "null") with false. cbv iota.
  rewrite Ascii.eqb_refl. replace (2 <=? _) with true by (symmetry; apply Z.leb_le; simpl; rewrite length_append; simpl; lia).
  cbn [andb]. assert (String.substring 0 (String.length (s +:+ String q "") - 1) (s +:+ String q "") = s) as ->.
  { pose proof (taken_app s (String q "")) as Hx. exact Hx. }
  by rewrite String.eqb_refl, Ht.
Qed.

Lemma set_raw_member_at {S} (fields : list (string * raw_setter S)) f st k raw v :
  List.find (λ f, field_is f.1 k) fields = Some f →
  set_raw_member fields st (k, (raw, v)) = match f.2 st.1 raw v with Some x => (x, st.2) | None => (st.1, true) end.
Proof. unfold set_raw_member. cbn [fst snd]. by intros ->. Qed.

Lemma job_members_set j p v s : in_int64 (Attempts j) → in_int64 (MaxRetry j) → time_format (CreatedAt j) = Some s →
  fold_left (set_raw_member job_fields) (job_members j p v s) (zero_job, false) =
    (mkJob (job_ID j) (job_Type j) p (Attempts j) (MaxRetry j) (CreatedAt j), false).
Proof.
  intros Ha Hm Hs. unfold job_members. cbn [fold_left].
  do 6 (erewrite set_raw_member_at; [|reflexivity]; cbn [fst snd plain_field string_field int_field raw_field];
    rewrite ?int_literal_pretty by done; cbn [fmap option_fmap option_map fst snd]).
  rewrite (time_field_quoted _ _ _ (CreatedAt j)) by (by eapply time_format_chars || by apply time_roundtrip). done.
Qed.

(** An encoded job is decoded with its identity, counters and time, and with a payload that
    stands for the same value. *)
Lemma encode_decodes j s : job_ok j → Encode j = Ok s → ∃ p v,
  DecodeJob s = Ok (mkJob (job_ID j) (job_Type j) p (Attempts j) (MaxRetry j) (CreatedAt j)) ∧
  payload_value (Payload j) = Some v ∧ text v p.
Proof.
  intros (Hi & Ht & [v Hv] & Ha & Hm). unfold Encode. destruct (payload_text_value _ _ Hv) as (p & -> & Hp).
  destruct (time_format (CreatedAt j)) as [t|] eqn:Htime; [|done]. intros [= <-].
  destruct (quoted_encode t) as [Hq Hw]; [by eapply time_format_chars|].
  exists p, v. split; [|by split]. unfold DecodeJob.
  pose proof (Unmarshal_raw_write job_fields zero_job (job_members j p v t)) as Hu.
  cbn [map fst snd job_members encode] in Hu. rewrite Hu; [by rewrite (job_members_set j p v t)|done|].
  assert (text (JStr t) (quoted t)) by (rewrite Hq; by apply text_encode).
  unfold job_members. repeat (apply Forall_cons; split; [split; [reflexivity|cbn [fst snd]]|]); [..|apply Forall_nil];
    first [done | apply text_encode; first [done | apply number_pretty]].
Qed.

#[export] Program Instance job_codec : JobCodec := {
  Worker.Encode := Encode; Worker.DecodeJob := DecodeJob; Worker.job_ok := job_ok
}.
Next Obligation.
  intros j s Hok Hs. destruct (encode_decodes j s Hok Hs) as (p & v & Hd & _ & Hv%text_payload). destruct Hok as (Hi & Ht & _ & Ha & Hm).
  eexists. split; [exact Hd|]. split; [|done]. split_and!; done.
Qed.
Next Obligation.
  intros j (Hi & Ht & Hv & Ha & Hm). split_and!; try done. cbn [IncrementAttempts Attempts]. apply wrap64_range.
Qed.
Next Obligation.
  intros j s j' Hok Hs Hd _. destruct (encode_decodes j s Hok Hs) as (p & v & Hd' & _ & Hv%text_payload).
  rewrite Hd in Hd'. injection Hd' as ->. revert Hs. unfold Encode. cbn [IncrementAttempts Payload CreatedAt].
  destruct (payload_text (Payload j)); [|done]. destruct (time_format (CreatedAt j)); [|done]. intros _.
  by destruct (payload_text_value p v Hv) as (t & -> & _).
Qed.

(** ** The dispatch request *)

(** [dto.DispatchJobRequest]; a nil payload is [None]. *)
Record DispatchJobRequest := mkRequest { req_Type : string; req_Payload : option string; req_MaxRetry : option Z }.

Definition request_fields : list (string * raw_setter DispatchJobRequest) :=
  [("type", plain_field (string_field (λ r s, mkRequest s (req_Payload r) (req_MaxRetry r))));
   ("payload", raw_field (λ r s, mkRequest (req_Type r) (Some s) (req_MaxRetry r)));
   ("max_retry", int_ptr_field (λ r z, mkRequest (req_Type r) (req_Payload r) z))].

Definition zero_request : DispatchJobRequest := mkRequest "" None None.

(** The request as [reflect] presents it; the payload is a slice of bytes. *)
Definition request_value (r : DispatchJobRequest) : rvalue :=
  RPtr (Some (RStruct
    [mkRField "Type" true (RString (req_Type r));
     mkRField "Payload" true (RSlice (match req_Payload r with
                                      | Some raw => map (λ c, ROther (bval c)) (list_ascii_of_string raw)
                                      | None => []
                                      end));
     mkRField "MaxRetry" true (RPtr (ROther <$> req_MaxRetry r))])).

(** The [validate] tags: the type and the payload are required. *)
Definition dispatch_rules (v : rvalue) : list FieldError :=
  match v with
  | RPtr (Some (RStruct (mkRField _ _ (RString t) :: mkRField _ _ (RSlice p) :: _))) =>
      (if String.eqb t "" then [mkFieldError "type" "required" ""] else []) ++
      match p with [] => [mkFieldError "payload" "required" ""] | _ => [] end
  | _ => []
  end.

(** [ValidateAndBind] on a JSON body, and [json.Marshal] of the payload it hands on. *)
Definition bind_dispatch (Sanitize : string → string) (body : string)
    : result error (string * result error string * option Z) :=
  match Unmarshal_raw request_fields zero_request body with
  | None => match (ValidateAndBind Sanitize dispatch_rules None).2 with Some e => Err e | None => Err (json_error body) end
  | Some r =>
      match ValidateAndBind Sanitize dispatch_rules (Some (request_value r)) with
      | (_, Some e) => Err e
      | (RPtr (Some (RStruct (mkRField _ _ (RString t) :: _))), None) =>
          let raw := default "" (req_Payload r) in
          Ok (t, match payload_text raw with Some p => Ok p | None => Err (json_error raw) end, req_MaxRetry r)
      | (_, None) => Err (json_error body)
      end
  end.

(** The JSON value a client sent as payload: the last member of that name. *)
Definition sent_payload (body : string) : option json :=
  match parse body with
  | Some (JObj m) => snd <$> last (filter (λ kv, Is_true (field_is "payload" kv.1)) m)
  | _ => None
  end.

(** What the fold over the members leaves in the payload: the text of the last one, and a
    retry limit in range. *)
Definition request_inv (m : list (string * (string * json))) (r : DispatchJobRequest) : Prop :=
  req_Payload r = (λ x, x.2.1) <$> last (filter (λ x, Is_true (field_is "payload" x.1)) m) ∧
  (∀ z, req_MaxRetry r = Some z → in_int64 z).

Lemma int_literal_range lit z : int_literal lit = Some z → in_int64 z.
Proof.
  unfold int_literal, in_int64. destruct (sign _ lit) as [neg ds]. destruct (digits ds) as [d [|]]; [|done].
  cbv zeta. destruct (String.eqb d ""); [done|]. destruct (_ && _) eqn:Hr; [|done]. intros [= <-]. to_prop. lia.
Qed.

Lemma field_is_one k a b : field_is a k = true → field_is b k = true → fold_name a = fold_name b.
Proof. unfold field_is. rewrite !String.eqb_eq. congruence. Qed.

Lemma request_step m x st : request_inv m st.1 → request_inv (m ++ [x]) (set_raw_member request_fields st x).1.
Proof.
  intros [Hp Hm]. unfold request_inv. rewrite filter_app, filter_cons, filter_nil. destruct x as [k [raw v]].
  unfold set_raw_member, request_fields. cbn [List.find fst snd].
  destruct (field_is "type" k) eqn:H1.
  { rewrite decide_False by (intros H2%Is_true_true; by pose proof (field_is_one _ _ _ H1 H2)). rewrite app_nil_r.
    unfold plain_field, string_field. by destruct v. }
  destruct (field_is "payload" k) eqn:H2.
  { rewrite decide_True by done. rewrite last_snoc. by split. }
  rewrite decide_False, app_nil_r by auto. destruct (field_is "max_retry" k); [|done].
  unfold int_ptr_field. destruct v as [| |lit| | |]; try done. cbn [fst snd req_Payload req_MaxRetry].
  destruct (int_literal lit) as [z|] eqn:Hz; [|done]. cbn. split; [done|]. intros z' [= <-]. by eapply int_literal_range.
Qed.

Lemma request_fold ms : request_inv ms (fold_left (set_raw_member request_fields) ms (zero_request, false)).1.
Proof.
  induction ms as [|x ms IH] using rev_ind; [by split|]. rewrite fold_left_app. by apply request_step.
Qed.

Lemma sent_payload_raw body ms : raw_object body = Some ms →
  sent_payload body = (λ x, x.2.2) <$> last (filter (λ x, Is_true (field_is "payload" x.1)) ms).
Proof.
  intros Hr. pose proof (raw_object_parse body) as Hp. rewrite Hr in Hp. unfold sent_payload. rewrite Hp. clear.
  induction ms as [|x ms IH] using rev_ind; [done|]. unfold erase in *. rewrite map_app. cbn [map].
  rewrite !filter_app, !filter_cons, !filter_nil. cbn [fst]. case_decide; [by rewrite !last_snoc|].
  by rewrite !app_nil_r.
Qed.

(** What binding a request gives. *)
Lemma bind_dispatch_ok Sanitize body t p mr : bind_dispatch Sanitize body = Ok (t, Ok p, mr) →
  (∃ v, sent_payload body = Some v ∧ text v p) ∧ (∀ z, mr = Some z → in_int64 z) ∧
  ∃ r, Unmarshal_raw request_fields zero_request body = Some r ∧ t = Sanitize (req_Type r) ∧ mr = req_MaxRetry r.
Proof.
  unfold bind_dispatch. destruct (Unmarshal_raw _ _ _) as [r|] eqn:Hr; [|done].
  cbn [ValidateAndBind request_value SanitizeStruct sanitizeValue].
  destruct (Validate _ _) as [e|] eqn:Hval; [done|]. intros Hb. injection Hb as Ht Hp Hm.
  destruct (payload_text (default "" (req_Payload r))) as [p'|] eqn:Hpt; [|done]. injection Hp as ->.
  assert (req_Payload r ≠ None) as Hne.
  { intros Hn. rewrite Hn in Hval. apply Validate_None in Hval. revert Hval. cbn [dispatch_rules]. by destruct (String.eqb _ ""). }
  assert (∃ ms, raw_object body = Some ms ∧ request_inv ms r) as (ms & Hraw & Hpay & Hmr).
  { unfold Unmarshal_raw in Hr. destruct (parse body) as [[]|]; try done; [injection Hr as <-; done|].
    destruct (raw_object body) as [ms|]; [|done]. exists ms. split; [done|]. pose proof (request_fold ms) as Hf.
    destruct (fold_left _ _ _) as [x []]; [done|]. by injection Hr as <-. }
  split; [|split; [by subst|eauto]]. rewrite (sent_payload_raw _ _ Hraw). rewrite Hpay in Hne, Hpt.
  destruct (last _) as [[k [raw v]]|] eqn:Hl; [|done]. exists v. split; [done|]. cbn in Hpt.
  apply raw_object_text in Hraw. apply last_Some_elem_of in Hl. apply list_elem_of_filter in Hl as [_ Hin].
  eapply Forall_forall in Hraw; [|exact Hin]. cbn [fst snd] in Hraw. unfold payload_text, marshal_raw in Hpt.
  destruct (String.eqb_spec raw "") as [->|_]; [by destruct Hraw as [(c & t' & [=] & _) _]|].
  destruct (parse raw); [|done]. by injection Hpt as <-.
Qed.

Lemma valid_type t : existsb (λ kv, String.eqb kv.1 t) validJobTypes = true → valid_utf8 t = true.
Proof. cbn [existsb validJobTypes fst]. rewrite !orb_true_iff, !String.eqb_eq. intros [<-|[<-|[<-|]]]; done. Qed.

(** C9: what a client sends is what the handler gets.  When the dispatch endpoint answers 201
    to a JSON request, the message it published decodes to a job of the requested type, with
    no attempts and the requested retry limit (3 when absent), whose payload decodes into any
    struct exactly as the JSON value the client sent under "payload" does: compacting the raw
    text twice and escaping it for HTML changes nothing a handler can see. *)
Theorem dispatch_payload_delivered {Q} `{Queue Q} (Sanitize : string → string) (p : Publisher) (qu qu' : Q)
    (jobID respID body : string) (now : Z) (resp : JobResponse) :
  valid_utf8 jobID = true →
  h_Dispatch p qu jobID respID now (bind_dispatch Sanitize body) = (qu', Resp.Created resp) →
  ∃ r v msg j, Unmarshal_raw request_fields zero_request body = Some r ∧ sent_payload body = Some v ∧
    queue_Publish qu (pub_exchange p) (pub_queueName p) msg = (qu', None) ∧ DecodeJob msg = Ok j ∧
    job_ID j = jobID ∧ job_Type j = Sanitize (req_Type r) ∧ Attempts j = 0 ∧
    MaxRetry j = default 3 (req_MaxRetry r) ∧ CreatedAt j = now ∧
    ∀ A (fields : list (string * setter A)) zero, UnmarshalPayload fields zero j = decode_struct fields zero v.
Proof.
  intros Hid. unfold h_Dispatch. destruct (bind_dispatch Sanitize body) as [[[t [pay|e]] mr]|err] eqn:Hb;
    [|unfold Dispatch; by destruct (negb _)|unfold HandleValidationError; by destruct (IsValidationError err)].
  apply bind_dispatch_ok in Hb as ((v & Hv & Htext) & Hmr & r & Hr & -> & ->).
  unfold Dispatch. destruct (negb (existsb _ validJobTypes)) eqn:Hty; [done|]. apply negb_false_iff, valid_type in Hty.
  unfold PublishWithRetry, PublishRaw. cbn [NewJobWithRetry NewJob job_ID job_Type Payload Attempts CreatedAt].
  set (j0 := mkJob _ _ _ _ _ _). destruct (Worker.Encode j0) as [msg|] eqn:He; [|done].
  destruct (queue_Publish qu _ _ msg) as [q1 [e|]] eqn:Hp; [done|]. intros [= <- <-].
  destruct (encode_decodes j0 msg) as (p2 & v2 & Hd & Hv2 & Ht2); [|exact He|].
  { split_and!; [done|done|exists v; by apply text_payload|done|]. cbn.
    destruct (req_MaxRetry r) as [z|]; [by apply Hmr|done]. }
  cbn [j0 Payload] in Hv2. rewrite (text_payload _ _ Htext) in Hv2. injection Hv2 as <-.
  eexists r, v, msg, _. split_and!; [done|done|done|exact Hd|done..|]. intros A fields zero. unfold UnmarshalPayload, Unmarshal.
  cbn [Payload]. by rewrite (text_parse _ _ Ht2).
Qed.

End jobs.

(** ** A concrete run *)

(** Instants written as their number of nanoseconds: an instance that satisfies the laws. *)
Lemma time_chars_digits s : all_digits s = true → time_chars s = true.
Proof. induction s as [|c s IH]; [done|]. cbn [all_digits time_chars]. unfold time_char. rewrite !andb_true_iff. intros [-> Hs]. auto. Qed.

Lemma time_chars_pretty (z : Z) : time_chars (pretty z) = true.
Proof.
  destruct (pretty_Z_cases z) as [[-> ->]|(c & t & Hc & _ & Ht & _ & [[_ ->]|[_ ->]])]; [done| |];
    cbn [time_chars]; unfold time_char; rewrite Hc; by rewrite (time_chars_digits t Ht).
Qed.

#[local] Program Instance nanoseconds : TimeText := {
  time_format z := if (min_int64 <=? z) && (z <=? max_int64) then Some (pretty z) else None;
  time_parse := int_literal
}.
Next Obligation. intros t s. cbn. case_match; [|done]. intros [= <-]. apply time_chars_pretty. Qed.
Next Obligation.
  intros t s. cbn. destruct (_ && _) eqn:Ht; [|done]. intros [= <-]. apply int_literal_pretty.
  to_prop. by split.
Qed.

Definition sample_body : string :=
  encode (JObj [("type", JStr "email.send"); ("payload", JObj [("body", JStr "a < b")]); ("max_retry", JNum "5")]).
Definition spaced_body : string :=
  String.concat (String q "") ["{ "; "type"; " : "; "email.send"; ", "; "payload"; " : { "; "body"; " : "; "a < b"; " } , "; "max_retry"; " : 5 }"].

Example spaced_request :
  bind_dispatch (λ s, PlainError s) id spaced_body = bind_dispatch (λ s, PlainError s) id sample_body ∧
  sent_payload spaced_body = Some (JObj [("body", JStr "a < b")]).
Proof. vm_compute. by split. Qed.

Definition sample_dispatch : list string * Response JobResponse :=
  h_Dispatch (H0 := job_codec (λ s, PlainError s)) (NewPublisher "" "") ([] : list string) "j1" "r1" 7 (bind_dispatch (λ s, PlainError s) id spaced_body).

Lemma dispatch_payload_delivered_witness :
  ∃ msg j, sample_dispatch.1 = [msg] ∧ DecodeJob (λ s, PlainError s) msg = Ok j ∧ MaxRetry j = 5 ∧
    UnmarshalPayload [("body", string_field (λ _ s, s))] "" j = Some "a < b".
Proof.
  destruct (dispatch_payload_delivered (λ s, PlainError s) id (NewPublisher "" "") ([] : list string)
    sample_dispatch.1 "j1" "r1" spaced_body 7 (mkJobResponse "r1" "email.send" "queued" 7))
    as (r & v & msg & j & Hr & Hv & Hq & Hd & _ & _ & _ & Hm & _ & Hp); [reflexivity|vm_compute; reflexivity|].
  exists msg, j. split; [symmetry; exact (f_equal fst Hq)|]. split; [exact Hd|].
  vm_compute in Hr. injection Hr as <-. vm_compute in Hv. injection Hv as <-. split; [exact Hm|].
  rewrite (Hp string). reflexivity.
Defined.

End JobJson.
