(* ===== verification/NoOp.v ===== *)
(** * The no-op queue and event broker

    Models [internal/adapter/queue/noop.go] and [internal/adapter/sse/noop.go]: what the
    application uses when RabbitMQ or SSE is disabled, or when RabbitMQ cannot be reached at
    start-up. *)
From S2P Require Import Prelude GoStr AppErr Config Port Validator Sse Worker.
Import GoStr AppErr Config Validator.

Module NoOp.

(** ** queue/noop.go *)

Inductive NoOpQueue := mkNoOpQueue.

Definition Publish (q : NoOpQueue) (exchange routingKey body : string) : option error := None.
Definition PublishJSON (q : NoOpQueue) (exchange routingKey : string) (message : any) : option error := None.

(** It blocks until the context is done: [None] while it is not. *)
Definition Consume (ctx : Context) (q : NoOpQueue) (queue : string) : option (option error) :=
  match ctx_err ctx with Some err => Some (Some err) | None => None end.
Definition Ping (q : NoOpQueue) : option error := None.
Definition DeclareQueue (q : NoOpQueue) (name : string) (durable : bool) : option error := None.
Definition DeclareExchange (q : NoOpQueue) (name kind : string) (durable : bool) : option error := None.
Definition BindQueue (q : NoOpQueue) (queue exchange routingKey : string) : option error := None.
Definition queue_Close (q : NoOpQueue) : option error := None.

#[export] Instance NoOp_Queue : Worker.Queue NoOpQueue := {
  Worker.queue_Publish q exchange routingKey body := (q, Publish q exchange routingKey body)
}.

(** A dispatched job is answered 201 "queued" although nothing holds it: with the no-op
    queue in place of an unreachable broker, accepted jobs are lost without a trace. *)
Theorem noop_dispatch_accepted `{Worker.JobCodec} (p : Worker.Publisher) (q : NoOpQueue) (jobID respID : string) (now : Z)
    (jobType payload : string) (mr : option Z) :
  existsb (λ kv, String.eqb kv.1 jobType) Worker.validJobTypes = true →
  (∀ j, is_Some (match Worker.Encode j with Ok d => Some d | Err _ => None end)) →
  Worker.h_Dispatch p q jobID respID now (Ok (jobType, Ok payload, mr)) =
    (q, Resp.Created (Worker.mkJobResponse respID jobType "queued" now)).
Proof.
  intros Ht Hc. unfold Worker.h_Dispatch, Worker.Dispatch. rewrite Ht. simpl negb. cbn iota.
  unfold Worker.PublishWithRetry, Worker.PublishRaw. simpl.
  destruct (Hc (Worker.mkJob jobID jobType payload 0 (default 3 mr) now)) as [d Hd].
  destruct (Worker.Encode _) as [d'|]; [|done]. by destruct q.
Qed.

(** ** sse/noop.go *)

Inductive NoOpBroker := mkNoOpBroker.

(** A closed channel: the reader sees the end of the stream at once. *)
Definition Subscribe (b : NoOpBroker) (clientID : string) (topics : list string) : Sse.chan := Sse.mkChan [] 0 true.
Definition Unsubscribe (b : NoOpBroker) (clientID : string) : NoOpBroker := b.
Definition Broadcast (b : NoOpBroker) (e : Sse.Event) : NoOpBroker := b.
Definition BroadcastToTopic (b : NoOpBroker) (topic : string) (e : Sse.Event) : NoOpBroker := b.
Definition SendTo (b : NoOpBroker) (clientID : string) (e : Sse.Event) : NoOpBroker := b.
Definition ClientCount (b : NoOpBroker) : Z := 0.
Definition broker_Close (b : NoOpBroker) : option error := None.

End NoOp.
