(* ===== verification/AuditStore.v ===== *)
(** * The audit log store

    Models [internal/adapter/audit] (the PostgreSQL and the no-op auditor) and the clean-up job
    of [internal/worker/handlers/audit_cleanup_handler.go].  The server is third party: its
    input conversions, its choice of rows under LIMIT and its order among equal sort keys are
    the class [AuditPg], with the documented laws in [AuditPgLaws]; refusals, lost connections
    and rows written by others are inputs.  Statements are kept as their clauses with the
    numbers of their placeholders, so that a misnumbered placeholder reads the wrong argument. *)
From stdpp Require Import sorting.
From S2P Require Import Prelude AppErr Port Json JsonDecode Worker.
Import AppErr Json JsonDecode.
#[local] Open Scope Z_scope.

Module AuditStore.

(** ** Data *)

Definition action_text (a : AuditAction) : string :=
  match a with
  | ActionCreate => "CREATE" | ActionRead => "READ" | ActionUpdate => "UPDATE"
  | ActionDelete => "DELETE" | ActionLogin => "LOGIN" | ActionLogout => "LOGOUT"
  end.

(** A row of [audit_logs]; [None] is NULL. *)
Record AuditRow := mkRow {
  row_id : string;
  row_user_id : option string;
  row_action : string;
  row_resource : string;
  row_resource_id : option string;
  row_old_value : option string;
  row_new_value : option string;
  row_ip_address : option string;
  row_user_agent : option string;
  row_created_at : Z
}.

Record AuditFilter := mkAuditFilter {
  f_UserID : string;
  f_Action : string;
  f_Resource : string;
  f_ResourceID : string;
  f_StartTime : option Z;
  f_EndTime : option Z;
  f_Limit : Z;
  f_Cursor : string
}.

(** An entry [Query] returns: the stored values are what [json.Unmarshal] makes of the column. *)
Record QueriedEntry := mkQueried {
  q_ID : string;
  q_UserID : string;
  q_Action : string;
  q_Resource : string;
  q_ResourceID : string;
  q_OldValue : option json;
  q_NewValue : option json;
  q_Metadata : option (list (string * json));
  q_IPAddress : string;
  q_UserAgent : string;
  q_Timestamp : Z
}.

(** ** The server *)

Class AuditPg := {
  pg_uuid : string → option string;              (* text to uuid and back: canonical form *)
  pg_inet : string → option string;
  pg_jsonb : string → option string;
  pg_time : Z → Z;                               (* timestamptz keeps microseconds *)
  pg_desc : list AuditRow → list AuditRow;       (* ORDER BY created_at DESC *)
  pg_pick : nat → list AuditRow → list AuditRow  (* LIMIT n without an order *)
}.

Definition newer (r1 r2 : AuditRow) : Prop := row_created_at r2 ≤ row_created_at r1.

Class AuditPgLaws `{AuditPg} := {
  pg_uuid_idem s t : pg_uuid s = Some t → pg_uuid t = Some t;
  pg_time_idem z : pg_time (pg_time z) = pg_time z;
  pg_time_mono z z' : z ≤ z' → pg_time z ≤ pg_time z';
  pg_desc_perm l : pg_desc l ≡ₚ l;
  pg_desc_sorted l : StronglySorted newer (pg_desc l);
  pg_pick_sub n l : sublist (pg_pick n l) l;
  pg_pick_length n l : length (pg_pick n l) = (n `min` length l)%nat
}.

(** ** Log *)

Definition nullString (s : string) : option string := if String.eqb s "" then None else Some s.

Definition member_le (x y : string * json) : Prop := String.leb x.1 y.1 = true.
#[export] Instance member_le_dec x y : Decision (member_le x y).
Proof. unfold member_le. apply _. Defined.

(** [json.Marshal]: maps are written with their keys sorted. *)
Fixpoint any_json (v : any) : json :=
  match v with
  | AnyString s => JStr s
  | AnyInt z => JNum (pretty z)
  | AnyBool b => JBool b
  | AnyMap m => JObj (merge_sort member_le (map (λ kv, (kv.1, any_json kv.2)) m))
  end.
Definition json_Marshal (v : any) : result error string := Ok (encode (any_json v)).

(** The value columns: [Ok None] when the field is nil. *)
Definition marshal_value (msg : string) (v : option any) : result error (option string) :=
  match v with
  | None => Ok None
  | Some v => match json_Marshal v with
              | Ok s => Ok (Some s)
              | Err err => Err (FmtError msg err "")
              end
  end.

Section store.
Context `{AuditPg}.
Open Scope go_scope.

(** A nullable column through an input conversion of the server. *)
Definition column (conv : string → option string) (what : string) (v : option string) : result error (option string) :=
  match v with
  | None => Ok None
  | Some s => match conv s with
              | Some t => Ok (Some t)
              | None => Err (PgError "22P02" ("invalid input syntax for type " +:+ what))
              end
  end.

(** The server executes the INSERT: [id] is the default of the column, [refused] any other
    reason (column width, foreign key, connection). *)
Definition pg_insert (id : string) (refused : option error) (user_id : option string) (action resource : string)
    (resource_id old_value new_value ip_address user_agent : option string) (created_at : Z)
    (table : list AuditRow) : result error (list AuditRow) :=
  let? u := column pg_uuid "uuid" user_id in
  let? o := column pg_jsonb "json" old_value in
  let? n := column pg_jsonb "json" new_value in
  let? ip := column pg_inet "inet" ip_address in
  match refused with
  | Some err => Err err
  | None => Ok (table ++ [mkRow id u action resource resource_id o n ip user_agent (pg_time created_at)])
  end.

Definition Log (id : string) (refused : option error) (table : list AuditRow) (entry : AuditEntry)
    : list AuditRow * option error :=
  match marshal_value "failed to marshal old value: " (ae_OldValue entry) with
  | Err err => (table, Some err)
  | Ok oldValueJSON =>
      match marshal_value "failed to marshal new value: " (ae_NewValue entry) with
      | Err err => (table, Some err)
      | Ok newValueJSON =>
          let userID := if String.eqb (ae_UserID entry) "" then None else Some (ae_UserID entry) in
          match pg_insert id refused userID (action_text (ae_Action entry)) (ae_Resource entry)
                  (Some (ae_ResourceID entry)) oldValueJSON newValueJSON (nullString (ae_IPAddress entry))
                  (nullString (ae_UserAgent entry)) (ae_Timestamp entry) table with
          | Err err => (table, Some (FmtError "failed to insert audit log: " err ""))
          | Ok table' => (table', None)
          end
      end
  end.

(** ** Query *)

Inductive arg := ArgText (s : string) | ArgTime (t : Z) | ArgInt (n : Z).
Inductive col := ColUserID | ColAction | ColResource | ColResourceID | ColCreatedAt.
Inductive cmp := CmpEq | CmpGe | CmpLe.

(** [AND <column> <operator> $<index>] *)
Record clause := mkClause { cl_col : col; cl_cmp : cmp; cl_index : Z }.

(** The variables of the builder: the WHERE clauses, the arguments, the next index. *)
Record builder := mkBuilder { b_where : list clause; b_args : list arg; b_argIndex : Z }.

Definition add_clause (guard : bool) (c : col) (o : cmp) (a : arg) (b : builder) : builder :=
  if guard
  then mkBuilder (b_where b ++ [mkClause c o (b_argIndex b)]) (b_args b ++ [a]) (b_argIndex b + 1)
  else b.

Definition add_time (t : option Z) (o : cmp) (b : builder) : builder :=
  match t with Some t => add_clause true ColCreatedAt o (ArgTime t) b | None => b end.

Definition query_limit (f : AuditFilter) : Z := if f_Limit f <=? 0 then 50 else f_Limit f.

(** The statement, as its WHERE clauses and the index of the LIMIT placeholder, and the
    arguments. *)
Definition build_query (f : AuditFilter) : list clause * Z * list arg :=
  let b := mkBuilder [] [] 1 in
  let b := add_clause (negb (String.eqb (f_UserID f) "")) ColUserID CmpEq (ArgText (f_UserID f)) b in
  let b := add_clause (negb (String.eqb (f_Action f) "")) ColAction CmpEq (ArgText (f_Action f)) b in
  let b := add_clause (negb (String.eqb (f_Resource f) "")) ColResource CmpEq (ArgText (f_Resource f)) b in
  let b := add_clause (negb (String.eqb (f_ResourceID f) "")) ColResourceID CmpEq (ArgText (f_ResourceID f)) b in
  let b := add_time (f_StartTime f) CmpGe b in
  let b := add_time (f_EndTime f) CmpLe b in
  (b_where b, b_argIndex b, b_args b ++ [ArgInt (query_limit f)]).

(** The text of the statement, up to white space. *)
Definition col_text (c : col) : string :=
  match c with
  | ColUserID => "user_id" | ColAction => "action" | ColResource => "resource"
  | ColResourceID => "resource_id" | ColCreatedAt => "created_at"
  end.
Definition cmp_text (o : cmp) : string := match o with CmpEq => "=" | CmpGe => ">=" | CmpLe => "<=" end.
Definition clause_text (c : clause) : string :=
  " AND " +:+ col_text (cl_col c) +:+ " " +:+ cmp_text (cl_cmp c) +:+ " $" +:+ pretty (cl_index c).
Definition query_text (q : list clause * Z * list arg) : string :=
  "SELECT id, user_id, action, resource, resource_id, old_value, new_value, ip_address, user_agent, created_at"
  +:+ " FROM audit_logs WHERE 1=1" +:+ foldr (λ c s, clause_text c +:+ s) "" q.1.1
  +:+ " ORDER BY created_at DESC LIMIT $" +:+ pretty q.1.2.

(** *** The server executes it *)

Definition param (args : list arg) (i : Z) : option arg := if i <? 1 then None else args !! Z.to_nat (i - 1).

(** A comparison with NULL is unknown, which WHERE treats as false. *)
Definition text_eq (v : option string) (s : string) : bool :=
  match v with Some t => String.eqb t s | None => false end.

(** A clause as a test on rows, or the error of its parameter. *)
Definition clause_test (args : list arg) (c : clause) : result error (AuditRow → bool) :=
  match cl_col c, cl_cmp c, param args (cl_index c) with
  | ColUserID, CmpEq, Some (ArgText s) =>
      match pg_uuid s with
      | Some u => Ok (λ r, text_eq (row_user_id r) u)
      | None => Err (PgError "22P02" "invalid input syntax for type uuid")
      end
  | ColAction, CmpEq, Some (ArgText s) => Ok (λ r, String.eqb (row_action r) s)
  | ColResource, CmpEq, Some (ArgText s) => Ok (λ r, String.eqb (row_resource r) s)
  | ColResourceID, CmpEq, Some (ArgText s) => Ok (λ r, text_eq (row_resource_id r) s)
  | ColCreatedAt, CmpGe, Some (ArgTime t) => Ok (λ r, pg_time t <=? row_created_at r)
  | ColCreatedAt, CmpLe, Some (ArgTime t) => Ok (λ r, row_created_at r <=? pg_time t)
  | _, _, _ => Err (PgError "42804" "argument does not fit")
  end.

Fixpoint where_test (args : list arg) (cs : list clause) : result error (AuditRow → bool) :=
  match cs with
  | [] => Ok (λ _, true)
  | c :: cs' =>
      let? p := clause_test args c in
      let? q := where_test args cs' in
      Ok (λ r, p r && q r)
  end.

Definition pg_select (q : list clause * Z * list arg) (table : list AuditRow) : result error (list AuditRow) :=
  let '(cs, lim, args) := q in
  let? p := where_test args cs in
  match param args lim with
  | Some (ArgInt n) =>
      if n <? 0 then Err (PgError "2201W" "LIMIT must not be negative")
      else Ok (take (Z.to_nat n) (pg_desc (filter (λ r, p r = true) table)))
  | _ => Err (PgError "42804" "argument does not fit")
  end.

(** [json.Unmarshal] into an [any]; its error is dropped and the field stays nil. *)
Definition stored_value (v : option string) : option json :=
  match v with
  | None => None
  | Some s => match parse s with Some JNull | None => None | Some j => Some j end
  end.

(** [rows.Scan]: a NULL resource id does not fit a string. *)
Definition scan_entry (r : AuditRow) : result error QueriedEntry :=
  match row_resource_id r with
  | None => Err (FmtError "failed to scan audit log: " (PlainError "cannot scan NULL into *string") "")
  | Some rid => Ok (mkQueried (row_id r) (default "" (row_user_id r)) (row_action r) (row_resource r) rid
                      (stored_value (row_old_value r)) (stored_value (row_new_value r)) None
                      (default "" (row_ip_address r)) (default "" (row_user_agent r)) (row_created_at r))
  end.

Fixpoint scan_all (rows : list AuditRow) : result error (list QueriedEntry) :=
  match rows with
  | [] => Ok []
  | r :: rows' =>
      let? e := scan_entry r in
      let? es := scan_all rows' in
      Ok (e :: es)
  end.

(** [query_err] is an error of the connection; [received] the number of rows that arrive
    before it breaks off, after which [rows.Next] reports false. *)
Definition Query (query_err : option error) (received : option nat) (table : list AuditRow) (f : AuditFilter)
    : result error (list QueriedEntry) :=
  match (match query_err with Some err => Err err | None => pg_select (build_query f) table end) with
  | Err err => Err (FmtError "failed to query audit logs: " err "")
  | Ok rows => scan_all (match received with Some n => take n rows | None => rows end)
  end.

(** The pool is not the auditor's. *)
Definition Close : option error := None.

End store.

(** ** The no-op auditor *)

Definition NoOp_Log (entry : AuditEntry) : option error := None.
Definition NoOp_Query (f : AuditFilter) : result error (list QueriedEntry) := Ok [].
Definition NoOp_Close : option error := None.

(** ** The clean-up job *)

Section cleanup.
Context `{AuditPg}.

Record AuditCleanupPayload := mkCleanup { RetentionDays : Z }.

Definition cleanup_fields : list (string * setter AuditCleanupPayload) :=
  [("retention_days", int_field (λ _ n, mkCleanup n))].

Definition retentionDays (p : AuditCleanupPayload) : Z := if RetentionDays p <=? 0 then 90 else RetentionDays p.

Definition SecondNs : Z := 1000000000.
Definition DaySec : Z := 24 * 60 * 60.
Definition Day : Z := DaySec * SecondNs.

(** The local time zone of the host: for an instant (in seconds) the offset that holds, and the
    instants between which it does. *)
Definition Zone : Type := Z → Z * Z * Z.
Definition offset_at (zone : Zone) (sec : Z) : Z := (zone sec).1.1.

(** The instant of a wall-clock time, as [time.Date] finds it. *)
Definition from_wall (zone : Zone) (wall : Z) : Z :=
  let '(offset, start, stop) := zone wall in
  if offset =? 0 then wall else
  let utc := wrap64 (wall - offset) in
  let offset := if (utc <? start) || (stop <=? utc) then offset_at zone utc else offset in
  wrap64 (wall - offset).

(** [t.AddDate(0, 0, days)]: the same time of day on another calendar day; seconds wrap around
    at sixty-four bits. *)
Definition AddDate (zone : Zone) (t days : Z) : Z :=
  let sec := t / SecondNs in
  let wall := wrap64 (sec + offset_at zone sec) in
  from_wall zone (wrap64 (wall + days * DaySec)) * SecondNs + t mod SecondNs.

Definition cutoff_of (zone : Zone) (now n : Z) : Z := AddDate zone now (- n).

Definition batchSize : nat := 1000.

Definition old (cutoff : Z) (r : AuditRow) : bool := row_created_at r <? pg_time cutoff.

(** The DELETE with its sub-select, and the number of rows it reports. *)
Definition delete_batch (cutoff : Z) (table : list AuditRow) : list AuditRow * nat :=
  let ids := map row_id (pg_pick batchSize (filter (λ r, old cutoff r = true) table)) in
  (filter (λ r, row_id r ∉ ids) table, length (filter (λ r, row_id r ∈ ids) table)).

(** The loop.  Before the [i]-th statement other programs have added [arrivals i], and the
    statement fails with [fails i]; [None] when the fuel is used up. *)
Fixpoint cleanup_loop (fuel i : nat) (arrivals : nat → list AuditRow) (fails : nat → option error)
    (cutoff : Z) (table : list AuditRow) (totalDeleted : Z) : option (list AuditRow * result error Z) :=
  match fuel with
  | O => None
  | S fuel' =>
      let table := table ++ arrivals i in
      match fails i with
      | Some err => Some (table, Err (FmtError "failed to delete old audit logs: " err ""))
      | None =>
          let '(table', deletedInBatch) := delete_batch cutoff table in
          if (deletedInBatch =? 0)%nat then Some (table', Ok totalDeleted)
          else cleanup_loop fuel' (S i) arrivals fails cutoff table' (totalDeleted + Z.of_nat deletedInBatch)
      end
  end.

Definition JobType : string := Worker.JobTypeAuditCleanup.

Definition Handle (fuel : nat) (arrivals : nat → list AuditRow) (fails : nat → option error) (zone : Zone) (now : Z)
    (table : list AuditRow) (job : Worker.Job) : option (list AuditRow * option error) :=
  match Unmarshal cleanup_fields (mkCleanup 0) (Worker.Payload job) with
  | None => Some (table, Some (FmtError "failed to unmarshal audit cleanup payload: " (PlainError "invalid JSON") ""))
  | Some payload =>
      match cleanup_loop fuel 0 arrivals fails (cutoff_of zone now (retentionDays payload)) table 0 with
      | None => None
      | Some (table', Err err) => Some (table', Some err)
      | Some (table', Ok _) => Some (table', None)
      end
  end.

End cleanup.

(** ** The query builder against its meaning *)

Section builder.
Context `{AuditPgLaws}.

(** What the filter asks for, on one row; [u] is the canonical form of its user id. *)
Definition selected (f : AuditFilter) (u : string) (r : AuditRow) : bool :=
  (String.eqb (f_UserID f) "" || text_eq (row_user_id r) u) &&
  (String.eqb (f_Action f) "" || String.eqb (row_action r) (f_Action f)) &&
  (String.eqb (f_Resource f) "" || String.eqb (row_resource r) (f_Resource f)) &&
  (String.eqb (f_ResourceID f) "" || text_eq (row_resource_id r) (f_ResourceID f)) &&
  (match f_StartTime f with Some t => pg_time t <=? row_created_at r | None => true end) &&
  (match f_EndTime f with Some t => row_created_at r <=? pg_time t | None => true end).

(** The numbering is right and the clauses so far denote [p], whatever arguments follow. *)
Definition built (b : builder) (p : AuditRow → bool) : Prop :=
  b_argIndex b = Z.of_nat (length (b_args b)) + 1 ∧
  ∀ extra, ∃ q, where_test (b_args b ++ extra) (b_where b) = Ok q ∧ ∀ r, q r = p r.

Lemma where_test_app args cs1 cs2 p q :
  where_test args cs1 = Ok p → where_test args cs2 = Ok q →
  ∃ pq, where_test args (cs1 ++ cs2) = Ok pq ∧ ∀ r, pq r = p r && q r.
Proof.
  revert p. induction cs1 as [|c cs1 IH]; simpl; intros p Hp Hq.
  - injection Hp as <-. eauto.
  - destruct (clause_test args c) as [pc|]; [|done]. simpl in *.
    destruct (where_test args cs1) as [p1|]; [|done]. simpl in *. injection Hp as <-.
    destruct (IH p1 eq_refl Hq) as (pq & -> & Hpq). simpl. eexists; split; [done|].
    intros r. simpl. by rewrite Hpq, andb_assoc.
Qed.

Lemma param_middle args a extra : param (args ++ a :: extra) (Z.of_nat (length args) + 1) = Some a.
Proof.
  unfold param. destruct (Z.ltb_spec (Z.of_nat (length args) + 1) 1); [lia|].
  replace (Z.to_nat _) with (length args) by lia. by rewrite lookup_app_r, Nat.sub_diag.
Qed.

Lemma built_clause (guard : bool) c o a b p (t : AuditRow → bool) :
  (guard = true → ∀ args i, param args i = Some a →
     ∃ q, clause_test args (mkClause c o i) = Ok q ∧ ∀ r, q r = t r) →
  built b p → built (add_clause guard c o a b) (λ r, p r && (negb guard || t r)).
Proof.
  intros Ht [Hi Hb]. unfold add_clause, built. destruct guard; cbn [b_where b_args b_argIndex negb orb].
  - split; [rewrite Hi, length_app; simpl; lia|]. intros extra. rewrite <-app_assoc. simpl.
    destruct (Hb (a :: extra)) as (q & Hq & Hqp).
    destruct (Ht eq_refl (b_args b ++ a :: extra) (b_argIndex b)) as (q' & Hq' & Hqt); [by rewrite Hi, param_middle|].
    destruct (where_test_app (b_args b ++ a :: extra) (b_where b) [mkClause c o (b_argIndex b)] q (λ r, q' r && true))
      as (pq & Hpq & Hr); [done|simpl; by rewrite Hq'|].
    exists pq. split; [done|]. intros r. by rewrite Hr, Hqp, Hqt, andb_true_r.
  - split; [done|]. intros extra. destruct (Hb extra) as (q & Hq & Hqp). exists q. split; [done|].
    intros r. by rewrite Hqp, andb_true_r.
Qed.

Lemma built_time t o b p (test : Z → AuditRow → bool) :
  (∀ args i z, param args i = Some (ArgTime z) → clause_test args (mkClause ColCreatedAt o i) = Ok (test z)) →
  built b p → built (add_time t o b) (λ r, p r && match t with Some z => test z r | None => true end).
Proof.
  intros Ht Hb. destruct t as [z|]; simpl.
  - apply (built_clause true ColCreatedAt o (ArgTime z) b p (test z)); [|done]. intros _ args i Ha. eauto.
  - destruct Hb as [Hi Hb]. split; [done|]. intros extra. destruct (Hb extra) as (q & Hq & Hqp).
    exists q. split; [done|]. intros r. by rewrite Hqp, andb_true_r.
Qed.

Lemma query_limit_pos f : 0 < query_limit f.
Proof. unfold query_limit. case_match; to_prop; lia. Qed.

Lemma build_query_select f u table :
  f_UserID f = "" ∨ pg_uuid (f_UserID f) = Some u →
  pg_select (build_query f) table =
  Ok (take (Z.to_nat (query_limit f)) (pg_desc (filter (λ r, selected f u r = true) table))).
Proof.
  intros Hu. unfold build_query.
  set (b0 := mkBuilder [] [] 1).
  assert (Hb0 : built b0 (λ _, true)) by (split; [done|]; simpl; eauto).
  eapply (built_clause (negb (String.eqb (f_UserID f) "")) ColUserID CmpEq (ArgText (f_UserID f)) b0 _
            (λ r, text_eq (row_user_id r) u)) in Hb0 as Hb1.
  2:{ intros Hg args i Ha. unfold clause_test; simpl. rewrite Ha. to_prop. destruct Hu as [Hu|Hu]; [done|]. rewrite Hu. eauto. }
  eapply (built_clause (negb (String.eqb (f_Action f) "")) ColAction CmpEq (ArgText (f_Action f)) _ _
            (λ r, String.eqb (row_action r) (f_Action f))) in Hb1 as Hb2.
  2:{ intros Hg args i Ha. unfold clause_test; simpl. rewrite Ha. eauto. }
  eapply (built_clause (negb (String.eqb (f_Resource f) "")) ColResource CmpEq (ArgText (f_Resource f)) _ _
            (λ r, String.eqb (row_resource r) (f_Resource f))) in Hb2 as Hb3.
  2:{ intros Hg args i Ha. unfold clause_test; simpl. rewrite Ha. eauto. }
  eapply (built_clause (negb (String.eqb (f_ResourceID f) "")) ColResourceID CmpEq (ArgText (f_ResourceID f)) _ _
            (λ r, text_eq (row_resource_id r) (f_ResourceID f))) in Hb3 as Hb4.
  2:{ intros Hg args i Ha. unfold clause_test; simpl. rewrite Ha. eauto. }
  eapply (built_time (f_StartTime f) CmpGe _ _ (λ t r, pg_time t <=? row_created_at r)) in Hb4 as Hb5.
  2:{ intros args i z Ha. unfold clause_test; simpl. by rewrite Ha. }
  eapply (built_time (f_EndTime f) CmpLe _ _ (λ t r, row_created_at r <=? pg_time t)) in Hb5 as [Hi Hb6].
  2:{ intros args i z Ha. unfold clause_test; simpl. by rewrite Ha. }
  clear Hb0 Hb1 Hb2 Hb3 Hb4. fold b0. revert Hi Hb6.
  set (b := add_time (f_EndTime f) _ _). intros Hi Hb. unfold pg_select.
  destruct (Hb [ArgInt (query_limit f)]) as (q & -> & Hq). simpl.
  rewrite Hi, param_middle. pose proof (query_limit_pos f).
  destruct (Z.ltb_spec (query_limit f) 0); [lia|]. do 3 f_equal.
  apply filter_iff_in. intros r _. rewrite Hq. unfold selected. by rewrite !negb_involutive.
Qed.

(** C32: the query builder means its filter.  With the numbered placeholders bound to the argument
    list as the server binds them, [Query] returns the scanned rows that satisfy exactly the
    conditions set in the filter (a condition on a NULL column fails), newest first, at most
    the limit, fifty when no positive limit is set.  The cursor is not consulted. *)
Theorem audit_query_exact (f : AuditFilter) (u : string) (table : list AuditRow) :
  f_UserID f = "" ∨ pg_uuid (f_UserID f) = Some u →
  Query None None table f =
  scan_all (take (Z.to_nat (query_limit f)) (pg_desc (filter (λ r, selected f u r = true) table))).
Proof. intros Hu. unfold Query. by rewrite (build_query_select f u table Hu). Qed.

End builder.

(** ** What was logged is found again *)

Section roundtrip.
Context `{AuditPgLaws}.

(** Tables the auditor has written, with failed calls in between. *)
Inductive logged : list AuditRow → Prop :=
| logged_nil : logged []
| logged_log table id refused entry : logged table → logged (Log id refused table entry).1.

Lemma column_inv conv what v w : column conv what v = Ok w → w = match v with Some s => conv s | None => None end.
Proof. unfold column. destruct v as [s|]; [|by intros [= <-]]. by destruct (conv s); intros [= <-]. Qed.

(** The row a successful call adds. *)
Lemma Log_row id refused table entry table' :
  Log id refused table entry = (table', None) →
  ∃ o n, table' = table ++ [mkRow id (if String.eqb (ae_UserID entry) "" then None else pg_uuid (ae_UserID entry))
    (action_text (ae_Action entry)) (ae_Resource entry) (Some (ae_ResourceID entry)) o n
    (match nullString (ae_IPAddress entry) with Some s => pg_inet s | None => None end)
    (nullString (ae_UserAgent entry)) (pg_time (ae_Timestamp entry))].
Proof.
  unfold Log. destruct (marshal_value _ (ae_OldValue entry)) as [o|]; [|done].
  destruct (marshal_value _ (ae_NewValue entry)) as [n|]; [|done]. unfold pg_insert.
  destruct (column pg_uuid "uuid" _) as [u|] eqn:Hu; simpl; [|done].
  destruct (column pg_jsonb "json" o) as [o'|]; simpl; [|done].
  destruct (column pg_jsonb "json" n) as [n'|]; simpl; [|done].
  destruct (column pg_inet "inet" _) as [ip|] eqn:Hip; simpl; [|done].
  destruct refused; [done|]. intros [= <-]. apply column_inv in Hu, Hip. subst u ip.
  exists o', n'. by destruct (String.eqb (ae_UserID entry) "").
Qed.

Lemma Log_fails id refused table entry table' err : Log id refused table entry = (table', Some err) → table' = table.
Proof. unfold Log. repeat case_match; naive_solver. Qed.

Lemma logged_scannable table : logged table → Forall (λ r, is_Some (row_resource_id r)) table.
Proof.
  induction 1 as [|table id refused entry _ IH]; [done|].
  destruct (Log id refused table entry) as [table' [err|]] eqn:Hl; simpl.
  - by apply Log_fails in Hl as ->.
  - apply Log_row in Hl as (o & n & ->). apply Forall_app. split; [done|]. by repeat constructor.
Qed.

Lemma scan_all_ok rows :
  Forall (λ r, is_Some (row_resource_id r)) rows →
  ∃ es, scan_all rows = Ok es ∧ Forall2 (λ r e, scan_entry r = Ok e) rows es.
Proof.
  induction 1 as [|r rows [rid Hr] _ (es & He & Hf)]; simpl; [eauto|].
  destruct (scan_entry r) as [e|err] eqn:Hs; [|unfold scan_entry in Hs; by rewrite Hr in Hs].
  rewrite He. simpl. eauto using Forall2_cons.
Qed.

(** The filter describes the entry: what it sets is what the entry has. *)
Definition describes (f : AuditFilter) (entry : AuditEntry) : bool :=
  (String.eqb (f_UserID f) "" || String.eqb (f_UserID f) (ae_UserID entry)) &&
  (String.eqb (f_Action f) "" || String.eqb (f_Action f) (action_text (ae_Action entry))) &&
  (String.eqb (f_Resource f) "" || String.eqb (f_Resource f) (ae_Resource entry)) &&
  (String.eqb (f_ResourceID f) "" || String.eqb (f_ResourceID f) (ae_ResourceID entry)) &&
  (match f_StartTime f with Some t => t <=? ae_Timestamp entry | None => true end) &&
  (match f_EndTime f with Some t => ae_Timestamp entry <=? t | None => true end).

Lemma describes_selected f entry u id o n ip ua :
  describes f entry = true → f_UserID f = "" ∨ pg_uuid (f_UserID f) = Some u →
  selected f u (mkRow id (if String.eqb (ae_UserID entry) "" then None else pg_uuid (ae_UserID entry))
    (action_text (ae_Action entry)) (ae_Resource entry) (Some (ae_ResourceID entry)) o n ip ua
    (pg_time (ae_Timestamp entry))) = true.
Proof.
  unfold describes, selected; simpl. intros Hd Hu.
  rewrite !andb_true_iff, !orb_true_iff, !String.eqb_eq in *. destruct Hd as (((((Hd0 & Hd1) & Hd2) & Hd3) & Hd4) & Hd5).
  split_and!.
  - destruct Hd0 as [Hf|Hf]; [by left|]. destruct Hu as [|Hu]; [by left|].
    destruct (String.eqb_spec (ae_UserID entry) "") as [He|He]; [left; congruence|]. right.
    rewrite <-Hf, Hu. apply String.eqb_refl.
  - naive_solver.
  - naive_solver.
  - naive_solver.
  - destruct (f_StartTime f); [|done]. to_prop. apply Z.leb_le. by apply pg_time_mono.
  - destruct (f_EndTime f); [|done]. to_prop. apply Z.leb_le. by apply pg_time_mono.
Qed.

(** The audit trail round-trips.  After a call of [Log] that reports success, on a table
    written by any earlier calls, every query whose filter describes the entry and whose limit
    does not cut the table returns it: with its identifier, action, resource and resource id,
    user agent, the canonical form of its user, and its time at the precision of the column.
    The metadata of the entry are not among what is stored. *)
Theorem audit_log_query_roundtrip (table table' : list AuditRow) (id : string) (refused : option error)
    (entry : AuditEntry) (f : AuditFilter) (u : string) :
  logged table → Log id refused table entry = (table', None) →
  describes f entry = true → f_UserID f = "" ∨ pg_uuid (f_UserID f) = Some u →
  Z.of_nat (length table') ≤ query_limit f →
  ∃ es e, Query None None table' f = Ok es ∧ e ∈ es ∧
    q_ID e = id ∧ q_Action e = action_text (ae_Action entry) ∧
    q_Resource e = ae_Resource entry ∧ q_ResourceID e = ae_ResourceID entry ∧
    q_UserID e = (if String.eqb (ae_UserID entry) "" then "" else default "" (pg_uuid (ae_UserID entry))) ∧
    q_UserAgent e = ae_UserAgent entry ∧ q_Timestamp e = pg_time (ae_Timestamp entry) ∧ q_Metadata e = None.
Proof.
  intros Hlog Hl Hd Hu Hlim. unfold Query. rewrite (build_query_select f u table' Hu).
  pose proof (logged_scannable _ Hlog) as Hs. apply Log_row in Hl as (o & n & ->).
  set (r := mkRow id _ _ _ _ _ _ _ _ _) in *.
  assert (Hs' : Forall (λ r, is_Some (row_resource_id r)) (table ++ [r])) by (apply Forall_app; by repeat constructor).
  set (sel := filter (λ r, selected f u r = true) (table ++ [r])).
  assert (Hin : r ∈ pg_desc sel).
  { rewrite pg_desc_perm. apply list_elem_of_filter. split; [by apply describes_selected|].
    apply elem_of_app. right. by left. }
  rewrite take_ge by (rewrite pg_desc_perm; unfold sel; rewrite length_filter; lia).
  destruct (scan_all_ok (pg_desc sel)) as (es & He & Hf).
  { rewrite pg_desc_perm. apply Forall_forall. intros x [_ Hx]%list_elem_of_filter. exact (proj1 (Forall_forall _ _) Hs' x Hx). }
  destruct (Forall2_elem_of_l _ _ _ _ Hf Hin) as (e & He' & Hse). exists es, e.
  injection Hse as <-. split_and!; try done; simpl.
  - by destruct (String.eqb (ae_UserID entry) "").
  - unfold nullString. by destruct (String.eqb_spec (ae_UserAgent entry) "") as [->|].
Qed.

End roundtrip.

(** ** The clean-up loop *)

Section cleanup_facts.
Context `{AuditPgLaws} (cutoff : Z).

Local Notation is_old := (λ r, old cutoff r = true).
Local Notation is_recent := (λ r, old cutoff r = false).

(** Identifiers are a primary key, also for the rows still to come. *)
Definition unique_ids (table : list AuditRow) (arrivals : nat → list AuditRow) (i : nat) : Prop :=
  ∀ k, NoDup (row_id <$> table ++ concat (arrivals <$> seq i k)).

Lemma unique_now table arrivals i : unique_ids table arrivals i → NoDup (row_id <$> table ++ arrivals i).
Proof. intros Hu. specialize (Hu 1%nat). simpl in Hu. by rewrite app_nil_r in Hu. Qed.

Lemma unique_next table table' arrivals i :
  sublist table' (table ++ arrivals i) → unique_ids table arrivals i → unique_ids table' arrivals (S i).
Proof.
  intros Hsub Hu k. specialize (Hu (S k)). simpl in Hu. eapply sublist_NoDup; [exact Hu|].
  apply fmap_sublist. rewrite app_assoc. by apply sublist_app.
Qed.

Lemma same_id l r r' : NoDup (row_id <$> l) → r ∈ l → r' ∈ l → row_id r = row_id r' → r = r'.
Proof.
  induction l as [|x l IH]; [by intros _ ?%elem_of_nil|].
  rewrite fmap_cons, NoDup_cons. intros [Hx Hn] Hr Hr' Heq. rewrite list_elem_of_fmap in Hx.
  apply elem_of_cons in Hr as [->|Hr], Hr' as [->|Hr']; naive_solver.
Qed.

Section batch.
Context (table : list AuditRow) (Hid : NoDup (row_id <$> table)).
Let picked := pg_pick batchSize (filter is_old table).

Lemma picked_old r : r ∈ picked → r ∈ table ∧ is_old r.
Proof.
  intros Hr. assert (r ∈ filter is_old table) as Hf by (by eapply sublist_in; [apply pg_pick_sub|]).
  by apply list_elem_of_filter in Hf as [? ?].
Qed.

Lemma picked_id r : r ∈ table → row_id r ∈ map row_id picked ↔ r ∈ picked.
Proof.
  intros Hr. rewrite list_elem_of_fmap. split; [|eauto]. intros (r' & Heq & Hr').
  by rewrite (same_id table r r' Hid Hr (proj1 (picked_old r' Hr')) Heq).
Qed.

Lemma deleted_picked : filter (λ r, row_id r ∈ map row_id picked) table ≡ₚ picked.
Proof.
  assert (Hn : NoDup table) by (by eapply NoDup_fmap_1).
  apply NoDup_Permutation.
  - by apply NoDup_filter.
  - eapply sublist_NoDup; [|apply pg_pick_sub]. by apply NoDup_filter.
  - intros r. rewrite list_elem_of_filter. split.
    + intros [Hi Hr]. by apply picked_id.
    + intros Hr. destruct (picked_old r Hr) as [Hr' _]. split; [by apply picked_id|done].
Qed.

(** A statement removes as many old rows as its batch allows, and no recent one. *)
Lemma delete_batch_spec :
  let '(table', n) := delete_batch cutoff table in
  n = (batchSize `min` length (filter is_old table))%nat ∧
  filter is_recent table' = filter is_recent table ∧
  (length (filter is_old table') + n = length (filter is_old table))%nat ∧
  sublist table' table.
Proof.
  unfold delete_batch. fold picked.
  assert (Hlen : length (filter (λ r, row_id r ∈ map row_id picked) table) = length picked) by (by rewrite deleted_picked).
  split_and!.
  - rewrite Hlen. apply pg_pick_length.
  - rewrite list_filter_filter. apply filter_iff_in. intros r Hr. split; [naive_solver|]. intros Hrec.
    split; [done|]. intros Hp%picked_id; [|done]. apply picked_old in Hp as [_ Ho]. simpl in *. congruence.
  - pose proof (Permutation_length
      (filter_app_complement (λ r, row_id r ∈ map row_id picked) (filter is_old table))) as Hsplit.
    assert (filter (λ r, row_id r ∈ map row_id picked) (filter is_old table) =
            filter (λ r, row_id r ∈ map row_id picked) table) as Hin.
    { rewrite list_filter_filter. apply filter_iff_in. intros r Hr. split; [naive_solver|].
      intros Hp. split; [done|]. apply picked_id in Hp; [|done]. by apply picked_old. }
    assert (filter (λ r, ¬ row_id r ∈ map row_id picked) (filter is_old table) =
            filter is_old (filter (λ r, row_id r ∉ map row_id picked) table)) as Hout.
    { rewrite !list_filter_filter. apply list_filter_iff. naive_solver. }
    rewrite length_app, Hin, Hout in Hsplit. lia.
  - apply sublist_filter.
Qed.
End batch.

(** The number of statements for [m] old rows: full batches, a rest, and the one that finds
    nothing. *)
Definition rounds (m : nat) : nat := S ((m + 999) / 1000).

Lemma rounds_step m : m ≠ 0%nat → rounds m = S (rounds (m - batchSize `min` m)).
Proof.
  intros Hm. unfold rounds, batchSize. f_equal. destruct (decide (m ≤ 1000)%nat).
  - replace (m - 1000 `min` m)%nat with 0%nat by lia. 
    rewrite (Nat.div_small (0 + 999)) by lia. symmetry. apply (Nat.div_unique _ _ _ (m - 1)); lia.
  - replace (m + 999)%nat with ((m - 1000 + 999) + 1 * 1000)%nat by lia. rewrite Nat.div_add by lia.
    replace (m - 1000 `min` m)%nat with (m - 1000)%nat by lia. lia.
Qed.

Lemma cleanup_loop_spec arrivals :
  (∀ j, Forall is_recent (arrivals j)) →
  ∀ m table fuel i total,
    length (filter is_old table) = m → unique_ids table arrivals i → (rounds m ≤ fuel)%nat →
    cleanup_loop fuel i arrivals (λ _, None) cutoff table total =
    Some (filter is_recent table ++ concat (arrivals <$> seq i (rounds m)), Ok (total + Z.of_nat m)).
Proof.
  intros Harr. induction m as [m IH] using lt_wf_ind. intros table fuel i total Hm Hu Hfuel.
  destruct fuel as [|fuel]; [unfold rounds in Hfuel; lia|]. cbn [cleanup_loop].
  pose proof (delete_batch_spec (table ++ arrivals i) (unique_now _ _ _ Hu)) as Hb.
  destruct (delete_batch cutoff (table ++ arrivals i)) as [table' n] eqn:Hdel.
  destruct Hb as (Hn & Hrec & Hold & Hsub).
  assert (Hnew : filter is_old (arrivals i) = []).
  { apply filter_none. eapply Forall_impl; [apply Harr|]. intros r Hr. simpl in *. congruence. }
  rewrite filter_app, Hnew, app_nil_r in Hn, Hold. rewrite filter_app, (filter_all _ (arrivals i)) in Hrec by apply Harr.
  destruct (Nat.eqb_spec n 0) as [Hz|Hz].
  - assert (m = 0%nat) as -> by (unfold batchSize in *; lia). rewrite Z.add_0_r. do 2 f_equal.
    change (rounds 0) with 1%nat. simpl. rewrite app_nil_r, <-Hrec. symmetry. apply filter_all.
    apply Forall_forall. intros r Hr. destruct (old cutoff r) eqn:Ho; [|done].
    assert (r ∈ filter is_old table') as Hin by (by apply list_elem_of_filter).
    destruct (filter is_old table'); [by apply elem_of_nil in Hin | simpl in Hold; lia].
  - assert (m ≠ 0%nat) as Hm0 by (unfold batchSize in *; lia).
    rewrite (IH (m - n)%nat); [|unfold batchSize in *; lia|lia| |].
    + rewrite Hrec, (rounds_step m Hm0). rewrite Hm in Hn. rewrite <-Hn. do 2 f_equal; [|f_equal; lia].
      by rewrite <-app_assoc.
    + by eapply unique_next.
    + rewrite (rounds_step m Hm0) in Hfuel. rewrite Hm in Hn. rewrite <-Hn in Hfuel. lia.
Qed.

(** Only expired rows are ever deleted, also when a statement fails and the job stops there. *)
Lemma cleanup_keeps_recent arrivals fails :
  ∀ fuel i table total table' res r,
    unique_ids table arrivals i → cleanup_loop fuel i arrivals fails cutoff table total = Some (table', res) →
    r ∈ table → is_recent r → r ∈ table'.
Proof.
  induction fuel as [|fuel IH]; intros i table total table' res r Hu; [done|]. cbn [cleanup_loop].
  intros Hl Hr Hrec. destruct (fails i); [injection Hl as <- _; apply elem_of_app; by left|].
  pose proof (delete_batch_spec (table ++ arrivals i) (unique_now _ _ _ Hu)) as Hb.
  destruct (delete_batch cutoff (table ++ arrivals i)) as [t n]. destruct Hb as (_ & Hkeep & _ & Hsub).
  assert (Ht : r ∈ t).
  { assert (r ∈ filter is_recent t) as Hf; [|by apply list_elem_of_filter in Hf as [_ ?]].
    rewrite Hkeep. apply list_elem_of_filter. split; [done|]. apply elem_of_app. by left. }
  destruct (n =? 0)%nat; [by injection Hl as <- _|].
  eapply (IH (S i) t); [by eapply unique_next|exact Hl|done|done].
Qed.

(** Days of twenty-four hours, as far as the zone keeps its offset: the cutoff is off by no more
    than the offsets differ. *)
Lemma cutoff_near (zone : Zone) (lo hi now n : Z) :
  (∀ u, lo ≤ offset_at zone u ≤ hi) → - DaySec ≤ lo → hi ≤ DaySec →
  0 ≤ now < 2 ^ 62 → 0 ≤ n ≤ 10 ^ 12 →
  Z.abs (cutoff_of zone now n - (now - n * Day)) ≤ (hi - lo) * SecondNs.
Proof.
  intros Hz Hlo Hhi Hnow Hn. unfold cutoff_of, AddDate. change Day with (DaySec * SecondNs). unfold SecondNs, DaySec in *.
  pose proof (Z.div_mod now 1000000000 ltac:(lia)) as Hdm. pose proof (Z.mod_pos_bound now 1000000000 ltac:(lia)).
  set (sec := now / 1000000000) in *. pose proof (Hz sec) as Hoff.
  assert (0 ≤ sec < 2 ^ 33) by lia.
  rewrite (wrap64_id (sec + _)) by (unfold in_int64, min_int64, max_int64; lia).
  rewrite (wrap64_id (_ + - n * _)) by (unfold in_int64, min_int64, max_int64; lia).
  set (wall := sec + offset_at zone sec + - n * (24 * 60 * 60)).
  assert (∃ o, lo ≤ o ≤ hi ∧ from_wall zone wall = wall - o) as (o & Ho & ->); [|unfold wall; lia].
  assert (∀ o, lo ≤ o ≤ hi → wrap64 (wall - o) = wall - o) as Hwrap.
  { intros o Ho. apply wrap64_id. unfold wall, in_int64, min_int64, max_int64. lia. }
  pose proof (Hz wall) as Hw. unfold offset_at in Hw. unfold from_wall. destruct (zone wall) as [[off start] stop]. cbn [fst] in Hw.
  destruct (off =? 0) eqn:E; [exists off; to_prop; split; lia|].
  destruct (_ || _); [|by exists off; rewrite Hwrap]. pose proof (Hz (wrap64 (wall - off))) as Hu.
  exists (offset_at zone (wrap64 (wall - off))). by rewrite (Hwrap _ Hu).
Qed.

(** C33: the clean-up job terminates and removes exactly what is older than its cutoff.  When
    its payload decodes and the server executes every statement, the loop stops after one
    statement per thousand expired rows plus one, whatever recent rows other programs add
    meanwhile; it reports success, and the table then holds the recent rows and the added
    ones, in their order.  A retention that is missing, zero or negative means ninety days.
    The cutoff is the same time of day that many calendar days ago: for up to 10^12 days, in a
    zone whose offsets stay within a day, it differs from that many times twenty-four hours
    by no more than the zone's offsets differ, so not at all in a zone with one offset.
    (Beyond, the seconds wrap around: [huge_retention_deletes_recent].) *)
Theorem cleanup_exact (job : Worker.Job) (payload : AuditCleanupPayload) (zone : Zone) (now : Z) (table : list AuditRow)
    (arrivals : nat → list AuditRow) (fuel : nat) :
  Unmarshal cleanup_fields (mkCleanup 0) (Worker.Payload job) = Some payload →
  cutoff = cutoff_of zone now (retentionDays payload) →
  (∀ j, Forall is_recent (arrivals j)) → unique_ids table arrivals 0 →
  (rounds (length (filter is_old table)) ≤ fuel)%nat →
  Handle fuel arrivals (λ _, None) zone now table job =
  Some (filter is_recent table ++ concat (arrivals <$> seq 0 (rounds (length (filter is_old table)))), None) ∧
  ∀ lo hi, (∀ u, lo ≤ offset_at zone u ≤ hi) → - DaySec ≤ lo → hi ≤ DaySec → 0 ≤ now < 2 ^ 62 →
    retentionDays payload ≤ 10 ^ 12 →
    Z.abs (cutoff - (now - retentionDays payload * Day)) ≤ (hi - lo) * SecondNs.
Proof.
  intros Hp Hc Harr Hu Hfuel. split.
  - unfold Handle. rewrite Hp, <-Hc.
    by rewrite (cleanup_loop_spec arrivals Harr (length (filter is_old table)) table fuel 0 0 eq_refl Hu Hfuel).
  - intros lo hi Hz Hlo Hhi Hnow Hn. rewrite Hc. apply cutoff_near; [done..|]. split; [|done].
    unfold retentionDays. destruct (Z.leb_spec (RetentionDays payload) 0); lia.
Qed.

End cleanup_facts.

(** ** A server, to instantiate the laws *)

Module MemPg.

#[export] Instance newer_dec r1 r2 : Decision (newer r1 r2).
Proof. unfold newer. apply _. Defined.

#[export] Instance mem_AuditPg : AuditPg := {
  pg_uuid s := if (String.length s =? 36)%nat then Some s else None;
  pg_inet := Some;
  pg_jsonb := Some;
  pg_time z := z / 1000 * 1000;
  pg_desc := merge_sort newer;
  pg_pick := take
}.

#[export] Instance mem_AuditPgLaws : AuditPgLaws.
Proof.
  split; simpl.
  - intros s t. destruct (String.length s =? 36)%nat eqn:Hs; [|done]. intros [= <-]. by rewrite Hs.
  - intros z. rewrite Z.div_mul by lia. done.
  - intros z z' Hz. pose proof (Z.div_le_mono z z' 1000 ltac:(lia) Hz). nia.
  - intros l. apply merge_sort_Permutation.
  - intros l. apply StronglySorted_merge_sort; [intros x y z; unfold newer; lia | intros x y; unfold newer; lia].
  - intros n l. apply sublist_take.
  - intros n l. apply length_take.
Qed.

Definition alice_id : string := "00000000-0000-0000-0000-00000000000a".
Definition entry1 : AuditEntry :=
  mkAuditEntry alice_id ActionUpdate "user" "42" None (Some (AnyMap [("name", AnyString "x")])) None "10.0.0.1" "curl" 7000123.
Definition entry2 : AuditEntry := mkAuditEntry "" ActionLogin "session" "" None None None "" "" 5000000.
Definition table1 : list AuditRow := (Log "id1" None [] entry1).1.
Definition table2 : list AuditRow := (Log "id2" None table1 entry2).1.
Definition of_alice : AuditFilter := mkAuditFilter alice_id "" "user" "" (Some 7000000) None 0 "ignored".
Definition everything : AuditFilter := mkAuditFilter "" "" "" "" None None 0 "".

End MemPg.
Import MemPg.

Example query_text_ex :
  query_text (build_query of_alice) =
  "SELECT id, user_id, action, resource, resource_id, old_value, new_value, ip_address, user_agent, created_at FROM audit_logs WHERE 1=1 AND user_id = $1 AND resource = $2 AND created_at >= $3 ORDER BY created_at DESC LIMIT $4".
Proof. vm_compute. reflexivity. Qed.

Lemma audit_query_exact_witness :
  Query None None table2 of_alice =
  scan_all (take 50 (pg_desc (filter (λ r, selected of_alice alice_id r = true) table2))) ∧
  map q_ID (match Query None None table2 everything with Ok es => es | Err _ => [] end) = ["id1"; "id2"].
Proof.
  split; [|vm_compute; reflexivity].
  apply (audit_query_exact of_alice alice_id table2). right. reflexivity.
Defined.

Lemma audit_log_query_roundtrip_witness :
  ∃ es e, Query None None table1 of_alice = Ok es ∧ e ∈ es ∧ q_ID e = "id1" ∧ q_Timestamp e = 7000000 ∧ q_Metadata e = None.
Proof.
  destruct (audit_log_query_roundtrip [] table1 "id1" None entry1 of_alice alice_id)
    as (es & e & He & Hin & Hid & _ & _ & _ & _ & _ & Ht & Hm);
    [constructor | vm_compute; reflexivity | vm_compute; reflexivity | by right | vm_compute; discriminate |].
  exists es, e. by rewrite Hid, Ht, Hm.
Defined.

(** Universal time, and central Europe around the end of daylight saving in October 2025. *)
Definition utc_zone : Zone := λ _, (0, - 2 ^ 63, 2 ^ 63 - 1).
Definition berlin : Zone := λ sec,
  if sec <? 1761440400 then (7200, 1743296400, 1761440400) else (3600, 1761440400, 1774746000).

(** Across the change of the clocks thirty days are an hour longer than thirty times
    twenty-four hours: noon on 15 November goes back to noon on 16 October. *)
Example berlin_cutoff :
  cutoff_of berlin (1763204400 * SecondNs) 30 = 1760608800 * SecondNs ∧
  1763204400 * SecondNs - 30 * Day = 1760608800 * SecondNs + 3600 * SecondNs.
Proof. vm_compute. done. Qed.

Lemma cleanup_exact_witness :
  let job := Worker.mkJob "j" "audit.cleanup" (encode (JObj [("retention_days", JNum "1")])) 0 3 0 in
  let now := 6000000 + Day in
  Handle 2 (λ _, []) (λ _, None) utc_zone now table2 job = Some (table1, None) ∧ table2 ≠ table1 ∧
  cutoff_of utc_zone now 1 = 6000000.
Proof.
  intros job now. split; [|split; [vm_compute; discriminate|vm_compute; reflexivity]].
  destruct (cleanup_exact (cutoff_of utc_zone now 1) job (mkCleanup 1) utc_zone now table2 (λ _, []) 2) as [Hc _];
    [vm_compute; reflexivity | reflexivity | by intros _ | | vm_compute; lia | rewrite Hc; vm_compute; reflexivity].
  intros k. assert (concat (((λ _, []) : nat → list AuditRow) <$> seq 0 k) = []) as ->.
  { induction (seq 0 k) as [|x l IH]; simpl; [done | exact IH]. }
  rewrite app_nil_r. apply (bool_decide_unpack (NoDup (row_id <$> table2))). vm_compute. exact I.
Defined.

(** A retention beyond the range of the clock wraps around: with 213503982334601 days the cutoff
    lies seven hours in the future, and a row written this second is deleted. *)
Example huge_retention_deletes_recent :
  let job := Worker.mkJob "j" "audit.cleanup" (encode (JObj [("retention_days", JNum "213503982334601")])) 0 3 0 in
  let now := 1760000000 * SecondNs in
  let row := mkRow "id" None "LOGIN" "session" None None None None None now in
  cutoff_of utc_zone now 213503982334601 = now + 25216 * SecondNs ∧
  Handle 2 (λ _, []) (λ _, None) utc_zone now [row] job = Some ([], None).
Proof. vm_compute. done. Qed.

(** A result set that breaks off is reported as complete: the loop stops when [rows.Next] is
    false and never asks [rows.Err], so a lost connection shortens the answer without an error. *)
Theorem query_truncated_silently :
  is_ok (Query None (Some 1%nat) table2 everything) = true ∧
  map q_ID (match Query None (Some 1%nat) table2 everything with Ok es => es | Err _ => [] end) = ["id1"] ∧
  map q_ID (match Query None None table2 everything with Ok es => es | Err _ => [] end) = ["id1"; "id2"].
Proof. vm_compute. done. Qed.

End AuditStore.
