(* ===== verification/Email.v ===== *)
(** * E-mail

    Models [internal/adapter/email] (the SMTP sender and the no-op sender), the port
    [internal/port/email.go] and the e-mail job of [internal/worker/handlers/email_handler.go].
    The exchange with the mail server is a transcript of the client's commands; what the server
    and the network answer is a function of the transcript so far.  The refusal of [net/smtp] to
    send a line with a line break is part of the model. *)
From S2P Require Import Prelude GoStr AppErr Config Port Json JsonDecode Worker.
Import AppErr GoStr Config JsonDecode.

Module Email.

(** ** The port *)

Record EmailMessage := mkEmailMessage {
  To : list string;
  CC : list string;
  BCC : list string;
  Subject : string;
  Body : string;
  IsHTML : bool
}.

(** [Send] returns the new state of the sender's world and the error. *)
Class EmailSender (S : Type) := { email_Send : S → EmailMessage → S * option error }.

(** ** The message *)

Record SMTPConfig := mkSMTPConfig {
  Host : string;
  Port_ : Z;
  Username : string;
  Password : string;
  From : string
}.

Definition defaultSMTPTimeout : Z := 30 * Second.

Definition CR : ascii := ascii_of_nat 13.
Definition LF : ascii := ascii_of_nat 10.
Definition CRLF : string := String CR (String LF "").

(** [strings.Join(l, ", ")] *)
Fixpoint join_comma (l : list string) : string :=
  match l with
  | [] => ""
  | [x] => x
  | x :: l' => x +:+ ", " +:+ join_comma l'
  end.

(** The lines written before the empty line. *)
Definition header_lines (cfg : SMTPConfig) (msg : EmailMessage) : list string :=
  ["From: " +:+ From cfg; "To: " +:+ join_comma (To msg)] ++
  (match CC msg with [] => [] | _ => ["Cc: " +:+ join_comma (CC msg)] end) ++
  ["Subject: " +:+ Subject msg] ++
  (if IsHTML msg
   then ["MIME-Version: 1.0"; "Content-Type: text/html; charset=" +:+ dquote +:+ "UTF-8" +:+ dquote]
   else ["Content-Type: text/plain; charset=" +:+ dquote +:+ "UTF-8" +:+ dquote]).

Definition write_lines (l : list string) (rest : string) : string := foldr (λ x s, x +:+ CRLF +:+ s) rest l.

Definition build_message (cfg : SMTPConfig) (msg : EmailMessage) : string :=
  write_lines (header_lines cfg msg) (CRLF +:+ Body msg).

Definition recipients (msg : EmailMessage) : list string := To msg ++ CC msg ++ BCC msg.

(** ** The exchange *)

Inductive cmd :=
| Dial (addr : string)
| SetDeadline (t : Z)
| NewClient
| Hello (name : string)
| StartTLS (serverName : string)
| AuthPlain (username password host : string)
| Mail (from : string)
| Rcpt (to : string)
| Data
| WriteBody (body : string)
| CloseData
| CloseConn
| Quit
| CloseClient.

(** The outside: the answer to the last command of a transcript, and the extensions the server
    advertises after it. *)
Record Peer := mkPeer {
  answer : list cmd → option error;
  advertises : list cmd → string → bool;
  ctx_end : list cmd → option error      (* ctx.Err() at the end of the exchange *)
}.

(** [validateLine] of net/smtp, applied to addresses before anything is sent. *)
Definition validateLine (line : string) : option error :=
  if contains_byte CR line || contains_byte LF line
  then Some (PlainError "smtp: A line must not contain CR or LF") else None.

(** A computation that extends the transcript and may fail. *)
Definition Smtp (A : Type) : Type := list cmd → list cmd * result error A.
Definition smtp_ret {A} (a : A) : Smtp A := λ tr, (tr, Ok a).
Definition smtp_bind {A B} (m : Smtp A) (k : A → Smtp B) : Smtp B := λ tr,
  match m tr with
  | (tr', Ok a) => k a tr'
  | (tr', Err e) => (tr', Err e)
  end.
Notation "'do!' x '<-' m ';' k" := (smtp_bind m (λ x, k)) (at level 100, x name, m at level 99, k at level 200).

Section smtp.
Context (peer : Peer).

(** One command: its error is wrapped with the given text. *)
Definition send_cmd (c : cmd) (before after : string) : Smtp unit := λ tr,
  let tr' := tr ++ [c] in
  match answer peer tr' with
  | Some err => (tr', Err (FmtError before err after))
  | None => (tr', Ok tt)
  end.

(** The same for a command whose argument must be a single line. *)
Definition send_line (line : string) (c : cmd) (before after : string) : Smtp unit := λ tr,
  match validateLine line with
  | Some err => (tr, Err (FmtError before err after))
  | None => send_cmd c before after tr
  end.

Definition has_extension (name : string) : Smtp bool := λ tr, (tr, Ok (advertises peer tr name)).

Definition localName : string := "localhost".

Fixpoint rcpt_all (to : list string) : Smtp unit :=
  match to with
  | [] => smtp_ret tt
  | rcpt :: to' =>
      do! _ <- send_line rcpt (Rcpt rcpt) ("rcpt to " +:+ quote rcpt +:+ ": ") "";
      rcpt_all to'
  end.

(** A failed write closes the data writer before it returns. *)
Definition write_body (body : string) : Smtp unit := λ tr,
  match send_cmd (WriteBody body) "write body: " "" tr with
  | (tr', Err e) => (tr' ++ [CloseData], Err e)
  | r => r
  end.

Definition surface_ctx : Smtp unit := λ tr,
  match ctx_end peer tr with Some err => (tr, Err err) | None => (tr, Ok tt) end.

(** The dialogue once the client exists, up to the deferred [Quit]. *)
Definition dialogue (host : string) (auth : option (string * string)) (from : string) (to : list string)
    (body : string) : Smtp unit :=
  do! _ <- send_cmd (Hello localName) "hello: " "";
  do! tls <- has_extension "STARTTLS";
  do! _ <- (if tls then send_cmd (StartTLS host) "starttls: " "" else smtp_ret tt);
  do! aok <- has_extension "AUTH";
  do! _ <- (match auth with
            | Some (u, p) => if (aok : bool) then send_cmd (AuthPlain u p host) "auth: " "" else smtp_ret tt
            | None => smtp_ret tt
            end);
  do! _ <- send_line from (Mail from) "mail from: " "";
  do! _ <- rcpt_all to;
  do! _ <- send_cmd Data "data: " "";
  do! _ <- write_body body;
  do! _ <- send_cmd CloseData "close data: " "";
  surface_ctx.

(** The deferred function: quit, and close when that fails. *)
Definition quit (tr : list cmd) : list cmd :=
  let tr' := tr ++ [Quit] in
  match answer peer tr' with Some _ => tr' ++ [CloseClient] | None => tr' end.

Definition sendMailContext (now : Z) (deadline : option Z) (host addr : string) (auth : option (string * string))
    (from : string) (to : list string) (body : string) : list cmd * option error :=
  let d := default (now + defaultSMTPTimeout) deadline in
  match send_cmd (Dial addr) "dial: " "" [] with
  | (tr, Err e) => (tr, Some e)
  | (tr, Ok _) =>
      let tr := tr ++ [SetDeadline d] in
      match send_cmd NewClient "smtp client: " "" tr with
      | (tr, Err e) => (tr ++ [CloseConn], Some e)
      | (tr, Ok _) =>
          match dialogue host auth from to body tr with
          | (tr, Err e) => (quit tr, Some e)
          | (tr, Ok _) => (quit tr, None)
          end
      end
  end.

(** [deadline] is the context's. *)
Definition Send (cfg : SMTPConfig) (now : Z) (deadline : option Z) (msg : EmailMessage) : list cmd * option error :=
  match To msg with
  | [] => ([], Some (PlainError "email recipient is required"))
  | _ =>
      let addr := Host cfg +:+ ":" +:+ pretty (Port_ cfg) in
      let auth := if String.eqb (Username cfg) "" then None else Some (Username cfg, Password cfg) in
      match sendMailContext now deadline (Host cfg) addr auth (From cfg) (recipients msg) (build_message cfg msg) with
      | (tr, Some err) => (tr, Some (FmtError "failed to send email via SMTP: " err ""))
      | (tr, None) => (tr, None)
      end
  end.

Definition Close : option error := None.
End smtp.

(** ** The no-op sender: the message is logged *)

Definition NoOp_Send (log : list EmailMessage) (msg : EmailMessage) : list EmailMessage * option error :=
  (log ++ [msg], None).
Definition NoOp_Close : option error := None.

#[export] Instance NoOpSender : EmailSender (list EmailMessage) := { email_Send := NoOp_Send }.

(** ** The e-mail job *)

Record EmailPayload := mkEmailPayload { p_To : string; p_Subject : string; p_Body : string; p_HTML : bool }.

Definition email_fields : list (string * setter EmailPayload) :=
  [("to", string_field (λ p s, mkEmailPayload s (p_Subject p) (p_Body p) (p_HTML p)));
   ("subject", string_field (λ p s, mkEmailPayload (p_To p) s (p_Body p) (p_HTML p)));
   ("body", string_field (λ p s, mkEmailPayload (p_To p) (p_Subject p) s (p_HTML p)));
   ("html", bool_field (λ p b, mkEmailPayload (p_To p) (p_Subject p) (p_Body p) b))].

Definition JobType : string := Worker.JobTypeEmailSend.

Definition Handle {S} `{EmailSender S} (s : S) (job : Worker.Job) : S * option error :=
  match Unmarshal email_fields (mkEmailPayload "" "" "" false) (Worker.Payload job) with
  | None => (s, Some (FmtError "failed to unmarshal email payload: " (PlainError "invalid JSON") ""))
  | Some p =>
      if String.eqb (p_To p) "" then (s, Some (PlainError "email recipient is required"))
      else if String.eqb (p_Subject p) "" then (s, Some (PlainError "email subject is required"))
      else match email_Send s (mkEmailMessage [p_To p] [] [] (p_Subject p) (p_Body p) (p_HTML p)) with
           | (s', Some err) => (s', Some (FmtError "failed to send email: " err ""))
           | (s', None) => (s', None)
           end
  end.

(** ** Reading a message back

    A reader takes the lines up to the first empty one as headers and the rest as the body. *)

Fixpoint cut_crlf (s : string) : option (string * string) :=
  match s with
  | String c ((String d s'') as s') =>
      if Ascii.eqb c CR && Ascii.eqb d LF then Some ("", s'')
      else match cut_crlf s' with Some (x, y) => Some (String c x, y) | None => None end
  | _ => None
  end.

Fixpoint read_headers (n : nat) (s : string) : option (list string * string) :=
  match n, cut_crlf s with
  | S n', Some (l, rest) =>
      if String.eqb l "" then Some ([], rest)
      else match read_headers n' rest with Some (ls, b) => Some (l :: ls, b) | None => None end
  | _, _ => None
  end.

(** Every line takes two bytes, so the length is enough fuel. *)
Definition parse_message (s : string) : option (list string * string) := read_headers (String.length s) s.

Lemma cut_crlf_line l t : contains_byte CR l = false → cut_crlf (l +:+ CRLF +:+ t) = Some (l, t).
Proof.
  induction l as [|c l IH]; intros Hl; [done|]. simpl in Hl. to_prop.
  change (String c l +:+ CRLF +:+ t) with (String c (l +:+ CRLF +:+ t)). specialize (IH H0).
  destruct (l +:+ CRLF +:+ t) as [|d s'] eqn:Hs; [by destruct l|]. cbn [cut_crlf] in *. rewrite H. simpl. by rewrite IH.
Qed.

Definition header_ok (l : string) : Prop := l ≠ "" ∧ contains_byte CR l = false.

Lemma write_lines_cons l ls rest : write_lines (l :: ls) rest = l +:+ CRLF +:+ write_lines ls rest.
Proof. done. Qed.

Lemma read_write ls body n :
  Forall header_ok ls → (length ls < n)%nat → read_headers n (write_lines ls (CRLF +:+ body)) = Some (ls, body).
Proof.
  intros Hls. revert n. induction Hls as [|l ls [Hne Hl] _ IH]; intros [|n] Hn; simpl in Hn; try lia; [done|].
  rewrite write_lines_cons. cbn [read_headers]. rewrite cut_crlf_line by done.
  rewrite (proj2 (String.eqb_neq l "")) by done.
  by rewrite IH by lia.
Qed.

Lemma write_lines_length ls rest : (length ls + String.length rest ≤ String.length (write_lines ls rest))%nat.
Proof.
  induction ls as [|l ls IH]; [done|]. rewrite write_lines_cons, !length_append.
  change (String.length CRLF) with 2%nat. simpl. lia.
Qed.

Lemma parse_write ls body : Forall header_ok ls → parse_message (write_lines ls (CRLF +:+ body)) = Some (ls, body).
Proof.
  intros Hls. apply read_write; [done|]. pose proof (write_lines_length ls (CRLF +:+ body)) as Hlen.
  rewrite (length_append CRLF) in Hlen. change (String.length CRLF) with 2%nat in Hlen. lia.
Qed.

Definition single_line (s : string) : bool := negb (contains_byte CR s || contains_byte LF s).

Lemma single_line_cr s : single_line s = true → contains_byte CR s = false.
Proof. unfold single_line. intros. by to_prop. Qed.

Lemma join_comma_cr l : forallb single_line l = true → contains_byte CR (join_comma l) = false.
Proof.
  induction l as [|x [|y l] IH]; intros Hl; [done|simpl in Hl; to_prop; by apply single_line_cr|].
  change (forallb single_line (x :: y :: l)) with (single_line x && forallb single_line (y :: l)) in Hl. to_prop.
  change (join_comma (x :: y :: l)) with (x +:+ ", " +:+ join_comma (y :: l)).
  rewrite !contains_byte_append, IH, single_line_cr by done. done.
Qed.

Lemma header_line_ok name v : contains_byte CR name = false → name ≠ "" → contains_byte CR v = false → header_ok (name +:+ v).
Proof. intros Hn Hne Hv. split; [by destruct name|]. by rewrite contains_byte_append, Hn, Hv. Qed.

Lemma header_lines_ok cfg msg :
  single_line (From cfg) = true → forallb single_line (To msg ++ CC msg) = true → single_line (Subject msg) = true →
  Forall header_ok (header_lines cfg msg).
Proof.
  intros Hf Hr Hs. rewrite forallb_app in Hr. to_prop. unfold header_lines. repeat apply Forall_app_2.
  - constructor; [|constructor; [|constructor]]; (apply header_line_ok; [done|done|]);
      [by apply single_line_cr | by apply join_comma_cr].
  - destruct (CC msg) as [|c cc]; [constructor|]. constructor; [|constructor].
    apply header_line_ok; [done|done|]. by apply join_comma_cr.
  - constructor; [|constructor]. apply header_line_ok; [done|done|]. by apply single_line_cr.
  - destruct (IsHTML msg); repeat constructor; by vm_compute.
Qed.

(** ** What a successful exchange has sent *)

(** The commands of the mail transaction. *)
Definition is_mail (c : cmd) : bool :=
  match c with Mail _ | Rcpt _ | Data | WriteBody _ | CloseData => true | _ => false end.
Definition mails (tr : list cmd) : list cmd := filter (λ c, is_mail c = true) tr.

Section exchange.
Context (peer : Peer).

Lemma bind_ok {A B} (m : Smtp A) (k : A → Smtp B) tr tr' b :
  smtp_bind m k tr = (tr', Ok b) → ∃ a tr1, m tr = (tr1, Ok a) ∧ k a tr1 = (tr', Ok b).
Proof. unfold smtp_bind. destruct (m tr) as [tr1 [a|e]]; [eauto | done]. Qed.

Lemma send_cmd_ok c b a tr tr' x : send_cmd peer c b a tr = (tr', Ok x) → tr' = tr ++ [c].
Proof. unfold send_cmd. destruct (answer peer (tr ++ [c])); [done|]. by intros [= <-]. Qed.

Lemma send_line_ok l c b a tr tr' x :
  send_line peer l c b a tr = (tr', Ok x) → single_line l = true ∧ tr' = tr ++ [c].
Proof.
  unfold send_line, validateLine, single_line. destruct (_ || _) eqn:Hl; [done|]. intros Hs%send_cmd_ok. done.
Qed.

Lemma mails_app tr tr' : mails (tr ++ tr') = mails tr ++ mails tr'.
Proof. apply filter_app. Qed.

Lemma rcpt_all_ok to tr tr' x :
  rcpt_all peer to tr = (tr', Ok x) → forallb single_line to = true ∧ tr' = tr ++ map Rcpt to.
Proof.
  revert tr. induction to as [|r to IH]; intros tr.
  - intros [= <- _]. by rewrite app_nil_r.
  - cbn [rcpt_all]. intros (? & tr1 & [Hr ->]%send_line_ok & [Ht ->]%IH)%bind_ok. simpl. rewrite Hr, Ht.
    by rewrite <-app_assoc.
Qed.

Lemma mails_rcpts to : mails (map Rcpt to) = map Rcpt to.
Proof. apply filter_all. apply Forall_map, Forall_true. done. Qed.

Lemma write_body_ok body tr tr' x : write_body peer body tr = (tr', Ok x) → tr' = tr ++ [WriteBody body].
Proof.
  unfold write_body. destruct (send_cmd peer (WriteBody body) _ _ _) as [tb [u|e]] eqn:Hw; [|done].
  apply send_cmd_ok in Hw. by intros [= <-].
Qed.

Lemma dialogue_ok host auth from to body tr tr' x :
  dialogue peer host auth from to body tr = (tr', Ok x) →
  single_line from = true ∧ forallb single_line to = true ∧ prefix tr tr' ∧
  mails tr' = mails tr ++ [Mail from] ++ map Rcpt to ++ [Data; WriteBody body; CloseData].
Proof.
  unfold dialogue.
  intros ([] & t1 & ->%send_cmd_ok & (tls & t2 & [= <- <-] & ([] & t3 & Htls & (aok & t4 & [= <- <-] &
    ([] & t5 & Hauth & ([] & t6 & [Hfrom ->]%send_line_ok & ([] & t7 & [Hto ->]%rcpt_all_ok &
    ([] & t8 & ->%send_cmd_ok & ([] & t9 & Hbody & ([] & t10 & ->%send_cmd_ok & Hctx)
    %bind_ok)%bind_ok)%bind_ok)%bind_ok)%bind_ok)%bind_ok)%bind_ok)%bind_ok)%bind_ok)%bind_ok.
  assert (∃ e1, t3 = tr ++ [Hello localName] ++ e1 ∧ mails e1 = []) as (e1 & -> & He1).
  { destruct (advertises peer _ _); [apply send_cmd_ok in Htls as ->; exists [StartTLS host]|injection Htls as <-; exists []];
      by rewrite <-?app_assoc, ?app_nil_r. }
  assert (∃ e2, t5 = (tr ++ [Hello localName] ++ e1) ++ e2 ∧ mails e2 = []) as (e2 & -> & He2).
  { destruct auth as [[u p]|]; [destruct (advertises peer _ "AUTH")|];
      [apply send_cmd_ok in Hauth as ->; by exists [AuthPlain u p host]|injection Hauth as <-; exists []; by rewrite app_nil_r..]. }
  apply write_body_ok in Hbody as ->.
  unfold surface_ctx in Hctx. destruct (ctx_end peer _); [done|]. injection Hctx as <-.
  split_and!; [done|done| |].
  - rewrite <-!app_assoc. by eexists.
  - change (mails e1) with (mails (Hello localName :: e1)) in He1.
    rewrite !mails_app, He1, He2, mails_rcpts. simpl. by rewrite <-!app_assoc.
Qed.

Lemma mails_quit tr : mails (quit peer tr) = mails tr.
Proof. unfold quit. by destruct (answer peer _); rewrite !mails_app, ?app_nil_r. Qed.
End exchange.

(** C34: what a successful [Send] has done.  The server was reached under a deadline (the context's,
    else thirty seconds from now), and the one mail transaction of the exchange is: the
    configured sender, every recipient of To, Cc and Bcc in that order, and the message; none
    of the addresses holds a line break.  If the subject holds none either, a reader of the
    message finds exactly the headers the sender wrote and the body unchanged; the message
    does not depend on the Bcc addresses. *)
Theorem smtp_send_exact (peer : Peer) (cfg : SMTPConfig) (now : Z) (deadline : option Z) (msg : EmailMessage)
    (tr : list cmd) :
  Send peer cfg now deadline msg = (tr, None) →
  take 2 tr = [Dial (Host cfg +:+ ":" +:+ pretty (Port_ cfg)); SetDeadline (default (now + defaultSMTPTimeout) deadline)] ∧
  mails tr = [Mail (From cfg)] ++ map Rcpt (To msg ++ CC msg ++ BCC msg) ++
             [Data; WriteBody (build_message cfg msg); CloseData] ∧
  forallb single_line (From cfg :: To msg ++ CC msg ++ BCC msg) = true ∧
  (single_line (Subject msg) = true → parse_message (build_message cfg msg) = Some (header_lines cfg msg, Body msg)) ∧
  ∀ bcc, build_message cfg (mkEmailMessage (To msg) (CC msg) bcc (Subject msg) (Body msg) (IsHTML msg)) = build_message cfg msg.
Proof.
  unfold Send. destruct (To msg) as [|t0 to] eqn:Hto; [done|]. rewrite <-Hto. clear Hto t0 to.
  unfold sendMailContext. destruct (send_cmd peer (Dial _) _ _ _) as [t1 [?|?]] eqn:H1; [|done].
  apply send_cmd_ok in H1 as ->. destruct (send_cmd peer NewClient _ _ _) as [t2 [?|?]] eqn:H2; [|done].
  apply send_cmd_ok in H2 as ->. destruct (dialogue _ _ _ _ _ _ _) as [t3 [?|?]] eqn:H3; [|done].
  apply dialogue_ok in H3 as (Hf & Hr & [t4 ->] & Hm). intros [= <-]. split_and!.
  - unfold quit. by case_match.
  - etrans; [apply mails_quit | exact Hm].
  - simpl. by rewrite Hf.
  - intros Hs. apply parse_write, header_lines_ok; [done| |done].
    unfold recipients in Hr. rewrite app_assoc, forallb_app in Hr. by to_prop.
  - intros bcc. by destruct msg.
Qed.

(** ** Concrete exchanges *)

(** A server that accepts everything and offers STARTTLS and AUTH. *)
Definition friendly : Peer := mkPeer (λ _, None) (λ _ _, true) (λ _, None).
Definition cfg0 : SMTPConfig := mkSMTPConfig "mail.example" 587 "u" "p" "noreply@example".
Definition msg0 : EmailMessage := mkEmailMessage ["a@x"] ["b@x"] ["c@x"] "Hi" "text" false.

Lemma smtp_send_exact_witness :
  mails (Send friendly cfg0 0 None msg0).1 =
    [Mail "noreply@example"; Rcpt "a@x"; Rcpt "b@x"; Rcpt "c@x"; Data; WriteBody (build_message cfg0 msg0); CloseData] ∧
  parse_message (build_message cfg0 msg0) = Some (header_lines cfg0 msg0, "text").
Proof.
  destruct (smtp_send_exact friendly cfg0 0 None msg0 (Send friendly cfg0 0 None msg0).1) as (_ & Hm & _ & Hp & _);
    [vm_compute; reflexivity|].
  split; [exact Hm | apply Hp; vm_compute; reflexivity].
Defined.

(** The subject is not checked: a line break in it starts a header of the caller's choice. *)
Theorem subject_header_injection :
  let msg := mkEmailMessage ["a@x"] [] [] ("Hi" +:+ CRLF +:+ "Reply-To: eve@y") "text" false in
  let tr := (Send friendly cfg0 0 None msg).1 in
  (Send friendly cfg0 0 None msg).2 = None ∧ existsb is_mail tr = true ∧
  match parse_message (build_message cfg0 msg) with
  | Some (ls, b) => ls = ["From: noreply@example"; "To: a@x"; "Subject: Hi"; "Reply-To: eve@y";
                          "Content-Type: text/plain; charset=" +:+ dquote +:+ "UTF-8" +:+ dquote] ∧ b = "text"
  | None => False
  end.
Proof. vm_compute. done. Qed.

(** ** The job *)

(** A job whose payload names a recipient and a subject sends exactly that message, once; any
    other job sends nothing and fails, so the worker retries it. *)
Lemma Handle_noop (log : list EmailMessage) (job : Worker.Job) :
  match Unmarshal email_fields (mkEmailPayload "" "" "" false) (Worker.Payload job) with
  | Some p => if negb (String.eqb (p_To p) "") && negb (String.eqb (p_Subject p) "")
              then Handle log job = (log ++ [mkEmailMessage [p_To p] [] [] (p_Subject p) (p_Body p) (p_HTML p)], None)
              else (Handle log job).1 = log ∧ is_Some (Handle log job).2
  | None => (Handle log job).1 = log ∧ is_Some (Handle log job).2
  end.
Proof.
  unfold Handle. destruct (Unmarshal _ _ _) as [p|]; [|by split; eauto].
  destruct (String.eqb (p_To p) ""); [by split; eauto|]. destruct (String.eqb (p_Subject p) ""); [by split; eauto|]. done.
Qed.

End Email.
