(* ===== verification/Health.v ===== *)
(** * Health checks

    Models [internal/module/health]: the dependency checkers ([checker.go]), the handlers
    ([handler.go]) with the goroutines that fill one result slot each, and the module's
    construction.  What a dependency answers under the shared deadline is an input. *)
From S2P Require Import Prelude AppErr Config Port DecisionCache Casbin.
Import AppErr Config.

Module Health.

(** ** Checkers *)

(** A [HealthChecker] at the moment of a request: its name and what [Check] returns. *)
Record HealthChecker := mkChecker { Name : string; Check : option error }.

Definition postgresChecker (ping : option error) : HealthChecker :=
  mkChecker "database" (match ping with Some _ => Some (PlainError "ping failed") | None => None end).

(** [noop]: the adapter is the no-op one. *)
Definition cacheChecker {C} `{Cache C} (noop : bool) (c : C) : HealthChecker :=
  mkChecker (if noop then "cache(noop)" else "cache")
    (if noop then None
     else match cache_Exists c "__healthz_probe__" with
          | Err _ => Some (PlainError "ping failed")
          | Ok _ => None
          end).

Definition queueChecker (noop : bool) (ping : option error) : HealthChecker :=
  mkChecker (if noop then "queue(noop)" else "queue")
    (if noop then None
     else match ping with Some _ => Some (PlainError "connection unavailable") | None => None end).

(** The probe goes through the authorizer, whose state it may change. *)
Definition authzChecker {S} `{Authorizer S} (noop : bool) (ctx : Context) (s : S) : S * HealthChecker :=
  if noop then (s, mkChecker "authz(noop)" None)
  else let '(s', r) := EnforceWithContext ctx s "__healthz__" "__probe__" "__ping__" in
       (s', mkChecker "authz" (match r with Err _ => Some (PlainError "enforce failed") | Ok _ => None end)).

(** ** Handlers *)

Record Handler := mkHandler { checkers : list HealthChecker; readinessTimeout : Z }.

Definition NewHandler (timeout : Z) (cs : list HealthChecker) : Handler :=
  mkHandler cs (if timeout <=? 0 then 2 * Second else timeout).

(** The status line with the JSON body, without the time. *)
Record HealthCheckResponse := mkHealthResponse { http_status : Z; Status : string; Checks : gmap string string }.

Definition LivenessCheck (h : Handler) : HealthCheckResponse := mkHealthResponse 200 "alive" ∅.

(** A slot of the results array: name and reason, both empty until its goroutine has run. *)
Definition slot : Type := string * string.

(** The goroutine of the [i]-th checker writes its slot. *)
Definition run_check (h : Handler) (results : list slot) (i : nat) : list slot :=
  match checkers h !! i with
  | None => results
  | Some chk =>
      <[i := (Name chk, match Check chk with Some err => ErrorText err | None => "" end)]> results
  end.

(** One turn of the loop over the results. *)
Definition add_result (st : gmap string string * bool) (r : slot) : gmap string string * bool :=
  if String.eqb r.2 "" then (<[r.1 := "ok"]> st.1, st.2) else (<[r.1 := r.2]> st.1, false).

(** [order] is the order in which the goroutines finish. *)
Definition ReadinessCheck (h : Handler) (order : list nat) : HealthCheckResponse :=
  let results := fold_left (run_check h) order (replicate (length (checkers h)) ("", "")) in
  let '(checks, healthy) := fold_left add_result results (∅, true) in
  if healthy then mkHealthResponse 200 "ready" checks else mkHealthResponse 503 "degraded" checks.

(** ** Readiness is exact *)

Definition slot_of (chk : HealthChecker) : slot :=
  (Name chk, match Check chk with Some err => ErrorText err | None => "" end).

(** What a checker says about itself: a failure has a reason. *)
Definition speaks (chk : HealthChecker) : Prop :=
  match Check chk with Some err => ErrorText err ≠ "" | None => True end.

Section readiness.
Context (h : Handler).

Lemma run_check_length results i : length (run_check h results i) = length results.
Proof. unfold run_check. destruct (checkers h !! i); [by rewrite length_insert | done]. Qed.

(** After some goroutines have run, their slots are filled and the others are not. *)
Lemma slots_after order results i :
  length results = length (checkers h) →
  fold_left (run_check h) order results !! i =
  if decide (i ∈ order) then slot_of <$> checkers h !! i else results !! i.
Proof.
  revert results. induction order as [|j order IH]; intros results Hlen; cbn [fold_left];
    [by rewrite decide_False by (by intros ?%elem_of_nil)|].
  rewrite IH by (by rewrite run_check_length).
  destruct (decide (i ∈ order)) as [Hi|Hi]; [by rewrite decide_True by (by right)|].
  unfold run_check. destruct (decide (i = j)) as [->|Hne].
  - rewrite decide_True by (by left). destruct (checkers h !! j) as [chk|] eqn:Hc; simpl.
    + apply list_lookup_insert_eq. apply lookup_lt_Some in Hc. lia.
    + apply lookup_ge_None. apply lookup_ge_None in Hc. lia.
  - rewrite decide_False by (intros [?|?]%elem_of_cons; done).
    destruct (checkers h !! j); [by rewrite list_lookup_insert_ne|done].
Qed.

(** Whatever the order, every slot ends up with its own checker's result. *)
Lemma slots_all order :
  order ≡ₚ seq 0 (length (checkers h)) →
  fold_left (run_check h) order (replicate (length (checkers h)) ("", "")) = slot_of <$> checkers h.
Proof.
  intros Hord. apply list_eq. intros i. rewrite slots_after by apply length_replicate.
  rewrite list_lookup_fmap. destruct (decide (i ∈ order)) as [Hi|Hi]; [done|].
  rewrite Hord, elem_of_seq in Hi. rewrite (lookup_ge_None_2 (checkers h)) by lia. simpl.
  apply lookup_ge_None_2. rewrite length_replicate. lia.
Qed.

Lemma add_results_healthy l m b :
  (fold_left add_result l (m, b)).2 = b && forallb (λ r : slot, String.eqb r.2 "") l.
Proof.
  revert m b. induction l as [|r l IH]; intros m b; simpl; [by rewrite andb_true_r|].
  unfold add_result at 2; simpl. destruct (String.eqb r.2 ""); rewrite IH; simpl; [done|by rewrite andb_false_r].
Qed.

Lemma add_results_lookup l m b k :
  (fold_left add_result l (m, b)).1 !! k =
  match last (filter (λ r : slot, r.1 = k) l) with
  | Some r => Some (if String.eqb r.2 "" then "ok" else r.2)
  | None => m !! k
  end.
Proof.
  revert m b. induction l as [|r l IH]; intros m b; simpl; [done|].
  set (v := if String.eqb r.2 "" then "ok" else r.2).
  assert (∃ b', add_result (m, b) r = (<[r.1 := v]> m, b')) as [b' ->].
  { unfold add_result, v; simpl. destruct (String.eqb r.2 ""); eauto. }
  rewrite IH. rewrite filter_cons. destruct (decide (r.1 = k)) as [<-|Hne].
  - rewrite last_cons. destruct (last _); [done|]. by rewrite lookup_insert_eq.
  - destruct (last _); [done|]. by rewrite lookup_insert_ne.
Qed.

(** C35: readiness is exact.  In whatever order the parallel checks finish, the endpoint answers 200
    "ready" when every checker passes and 503 "degraded" when one fails, and it lists each
    checker once under its name, with "ok" or its reason (the last one where names collide). *)
Theorem readiness_exact (order : list nat) :
  order ≡ₚ seq 0 (length (checkers h)) → Forall speaks (checkers h) →
  let r := ReadinessCheck h order in
  (http_status r = 200 ↔ ∀ chk, chk ∈ checkers h → Check chk = None) ∧
  (http_status r = 200 ∧ Status r = "ready" ∨ http_status r = 503 ∧ Status r = "degraded") ∧
  ∀ k, Checks r !! k =
    (λ chk, match Check chk with Some err => ErrorText err | None => "ok" end) <$>
      last (filter (λ chk, Name chk = k) (checkers h)).
Proof.
  intros Hord Hsp r. subst r. unfold ReadinessCheck. rewrite slots_all by done.
  pose proof (add_results_healthy (slot_of <$> checkers h) ∅ true) as Hh.
  pose proof (λ k, add_results_lookup (slot_of <$> checkers h) ∅ true k) as Hl.
  destruct (fold_left add_result (slot_of <$> checkers h) (∅, true)) as [checks healthy]; simpl in Hh, Hl.
  assert (Hall : healthy = true ↔ ∀ chk, chk ∈ checkers h → Check chk = None).
  { rewrite Hh, forallb_forall. split.
    - intros Hf chk Hin. rewrite Forall_forall in Hsp. specialize (Hsp chk Hin).
      specialize (Hf (slot_of chk) (proj1 (list_elem_of_In _ _) (list_elem_of_fmap_2 slot_of _ _ Hin))).
      unfold speaks, slot_of in *; simpl in *. destruct (Check chk) as [err|]; [|done].
      apply String.eqb_neq in Hsp. by rewrite Hsp in Hf.
    - intros Hn x Hx. apply list_elem_of_In, list_elem_of_fmap in Hx as (chk & -> & Hin). unfold slot_of; simpl.
      by rewrite (Hn chk Hin). }
  assert (Hk : ∀ k, checks !! k =
    (λ chk, match Check chk with Some err => ErrorText err | None => "ok" end) <$>
      last (filter (λ chk, Name chk = k) (checkers h))).
  { intros k. rewrite Hl, filter_fmap, fmap_last. simpl.
    destruct (last (filter _ (checkers h))) as [chk|] eqn:Hc; simpl; [|by rewrite lookup_empty]. f_equal.
    assert (speaks chk) as Hs.
    { rewrite Forall_forall in Hsp. apply Hsp. apply last_Some in Hc as [l Hc].
      assert (chk ∈ filter (λ chk, Name chk = k) (checkers h)) as Hin by (rewrite Hc; set_solver).
      by apply list_elem_of_filter in Hin as [_ ?]. }
    unfold speaks in Hs. destruct (Check chk) as [err|]; simpl; [|done]. apply String.eqb_neq in Hs. by rewrite Hs. }
  destruct healthy; simpl; split_and!; auto; rewrite <-Hall; done.
Qed.
End readiness.

(** The checkers of the application give a reason, and none that depends on the error of the
    dependency. *)
Lemma checkers_speak {C S} `{Cache C, Authorizer S} n1 n2 n3 ctx (c : C) (s : S) p q :
  Forall speaks [postgresChecker p; cacheChecker n1 c; queueChecker n2 q; (authzChecker n3 ctx s).2].
Proof.
  unfold postgresChecker, cacheChecker, queueChecker, authzChecker, speaks.
  repeat constructor; simpl; repeat case_match; try done; simplify_eq/=; done.
Qed.

Lemma readiness_exact_witness :
  let h := NewHandler 0 [postgresChecker None; queueChecker false (Some (PlainError "dial tcp 10.0.0.7:5672"));
                         queueChecker true None] in
  let r := ReadinessCheck h [2; 0; 1]%nat in
  http_status r = 503 ∧ Checks r !! "queue" = Some "connection unavailable" ∧ Checks r !! "database" = Some "ok".
Proof.
  intros h r. destruct (readiness_exact h [2; 0; 1]%nat) as (H200 & _ & Hk).
  - change (length (checkers h)) with 3%nat. simpl. by apply (Permutation_app_comm [2%nat] [0; 1]%nat).
  - repeat constructor; done.
  - split; [vm_compute; reflexivity|]. by rewrite !Hk.
Defined.

(** ** The authorization probe and the decision cache

    The comment of the checker says that the probe exercises the enforcer.  The first success
    is memoised by the adapter, so later probes are answered from its cache: an enforcer that
    fails on every request does not show in the readiness answer. *)

Import Casbin MemEnforcer.

(** An enforcer that can break: [None] answers every request with an error. *)
Definition flaky : Type := option memEnforcer.
Definition broken : error := PlainError "driver: bad connection".

#[export] Instance flaky_Enforcer : Enforcer flaky := {
  enf_Enforce e s o a := match e with Some m => enf_Enforce m s o a | None => Err broken end;
  enf_AddPolicy e r := (e, Err broken);
  enf_RemovePolicy e r := (e, Err broken);
  enf_AddGroupingPolicy e r := (e, Err broken);
  enf_RemoveGroupingPolicy e r := (e, Err broken);
  enf_GetRolesForUser e u := Err broken;
  enf_GetUsersForRole e r := Err broken;
  enf_HasRoleForUser e u r := Err broken;
  enf_GetPermissionsForUser e u := Err broken;
  enf_GetImplicitPermissionsForUser e u := Err broken;
  enf_LoadPolicy e := (e, Some broken);
  enf_SavePolicy e := Some broken
}.

Theorem authz_probe_cached :
  let a0 := NewAdapter (Some mem0 : flaky) 0 in
  let a1 := (authzChecker false Background a0).1 in
  let a2 := mkAdapter (None : flaky) (Casbin.cache a1) in
  Check (authzChecker false Background a0).2 = None ∧
  (Enforce a2 "alice" "users" "read").2 = Err broken ∧
  Check (authzChecker false Background a2).2 = None ∧
  Check (authzChecker false Background (NewAdapter (None : flaky) (-1))).2 = Some (PlainError "enforce failed").
Proof. vm_compute. done. Qed.

End Health.
