(* ===== verification/App.v ===== *)
(** * Application start-up and shutdown

    Models [internal/platform/app/app.go] ([New], [Start], [Shutdown]),
    [NewPostgresPool] of [internal/platform/database/postgres.go] and the two mains
    ([cmd/api/main.go], [cmd/worker/main.go]).  What the constructors of adapters find when
    they connect is an input ([World]); the model decides what is built, what is a
    fall-back, what is fatal, and in which order and time everything is closed again. *)
From S2P Require Import Prelude GoStr AppErr Config ConfigLoad Port Casbin Watcher Worker Server.
Import GoStr AppErr Config ConfigLoad Server.

Module App.

(** ** The connection pool (database/postgres.go) *)

(** The conversion [int32(n)] *)
Definition wrap32 (z : Z) : Z := (z + 2 ^ 31) `mod` 2 ^ 32 - 2 ^ 31.

Record poolConfig := mkPoolConfig {
  MaxConns : Z; MinConns : Z; MaxConnLifetime : Z; MaxConnIdleTime : Z; HealthCheckPeriod : Z
}.

Definition pool_config (cfg : list field) : poolConfig :=
  mkPoolConfig (wrap32 (get_int ["database"; "max_open_conns"] cfg)) (wrap32 (get_int ["database"; "max_idle_conns"] cfg))
    (wrap64 (get_int ["database"; "conn_max_lifetime"] cfg * Second)) (30 * Minute) (1 * Minute).

(** What the outside world answers to the constructors, as an error or nothing. *)
Record World := mkWorld {
  w_InitTracer : string → option error;
  w_pg_ParseConfig : string → option error;
  w_pg_NewWithConfig : poolConfig → option error;
  w_pg_Ping : option error;
  w_NewRedisCache : string → string → Z → option error;
  w_NewRabbitMQ : string → Z → option error;
  w_NewS3Storage : list field → option error;
  w_NewLocalStorage : string → option error;
  w_NewAdapter : string → option error;
  w_worker_Start : option error
}.

Definition NewPostgresPool (w : World) (cfg : list field) : option error :=
  match w_pg_ParseConfig w (DSN (get_database cfg)) with
  | Some err => Some (FmtError "failed to parse database config: " err "")
  | None =>
      match w_pg_NewWithConfig w (pool_config cfg) with
      | Some err => Some (FmtError "failed to create connection pool: " err "")
      | None => match w_pg_Ping w with
                | Some err => Some (FmtError "failed to ping database: " err "")
                | None => None
                end
      end
  end.

(** A configured pool size that an int32 holds is kept. *)
Lemma wrap32_id z : - 2 ^ 31 ≤ z < 2 ^ 31 → wrap32 z = z.
Proof. intros. unfold wrap32. rewrite Z.mod_small; lia. Qed.

(** ** The application *)

Inductive adapter := Real | NoOp.
#[export] Instance adapter_eq_dec : EqDecision adapter.
Proof. solve_decision. Defined.

(** [NilLocal]: the interface that holds the nil pointer of a failed [NewLocalStorage]. *)
Inductive storage := S3 | Local (basePath : string) | NilLocal.

(** What has to be closed. *)
Inductive resource :=
| RServer | RMetrics | RSSE | RAuthorizer | RRateLimit | RCache | RQueue | RStorage | RAuditor | REmail | RDB | RTracer.
#[export] Instance resource_eq_dec : EqDecision resource.
Proof. solve_decision. Defined.

Record App := mkApp {
  app_config : list field;
  app_Cache : adapter; app_Queue : adapter; app_Storage : storage; app_SSE : adapter; app_Auditor : adapter;
  app_Authorizer : adapter; app_Email : adapter;
  metricsServer : option string;
  tracerShutdown : bool;
  rateLimitCloser : option bool      (* the backend is Redis *)
}.

Inductive boot := Booted (a : App) | Failed (err : error) | Panicked.

Definition logLevel (cfg : list field) : string := if IsDevelopment (get_app cfg) then "debug" else "info".

(** *** The choices of [New] *)

Definition new_tracer (w : World) (cfg : list field) : bool :=
  get_bool ["observability"; "tracing"; "enabled"] cfg &&
  bool_decide (w_InitTracer w (get_string ["observability"; "tracing"; "endpoint"] cfg) = None).

Definition new_cache (w : World) (cfg : list field) : adapter :=
  if get_bool ["redis"; "enabled"] cfg then
    match w_NewRedisCache w (Addr (mkRedisConfig (get_string ["redis"; "host"] cfg) (get_int ["redis"; "port"] cfg)))
            (get_string ["redis"; "password"] cfg) (get_int ["redis"; "db"] cfg) with
    | Some _ => NoOp
    | None => Real
    end
  else NoOp.

Definition new_queue (w : World) (cfg : list field) : adapter :=
  if get_bool ["rabbitmq"; "enabled"] cfg then
    match w_NewRabbitMQ w (get_string ["rabbitmq"; "url"] cfg) (get_int ["rabbitmq"; "prefetch_count"] cfg) with
    | Some _ => NoOp
    | None => Real
    end
  else NoOp.

Definition new_storage (w : World) (cfg : list field) : result error storage :=
  let base := get_string ["storage"; "local"; "base_path"] cfg in
  if String.eqb (get_string ["storage"; "mode"] cfg) "s3" then
    match w_NewS3Storage w cfg with
    | None => Ok S3
    | Some _ => match w_NewLocalStorage w base with None => Ok (Local base) | Some _ => Ok NilLocal end
    end
  else match w_NewLocalStorage w base with None => Ok (Local base) | Some err => Err err end.

Definition new_authorizer (w : World) (cfg : list field) : result error adapter :=
  if get_bool ["authorization"; "enabled"] cfg then
    match w_NewAdapter w (DSN (get_database cfg)) with
    | Some err => Err (FmtError "authorization enabled but Casbin init failed: " err "")
    | None => Ok Real
    end
  else Ok NoOp.

Definition enabled (section : string) (cfg : list field) : adapter :=
  if get_bool [section; "enabled"] cfg then Real else NoOp.

Definition metrics_addr (cfg : list field) : option string :=
  if get_bool ["observability"; "metrics"; "enabled"] cfg
  then Some ("127.0.0.1:" +:+ pretty (get_int ["observability"; "metrics"; "port"] cfg)) else None.

(** [authorizer.Start]: neither adapter is given a watcher. *)
Definition authorizer_Start (a : adapter) : option error :=
  match a with
  | NoOp => None
  | Real => (Watcher.Start (W := unit) (Watcher.mkLife 0 None None false None true) None None).2
  end.

(** The resources built, in order, and the outcome. *)
Definition New `{CorsHandler} (w : World) (cfg : list field) : list resource * boot :=
  match Validate (get_jwt cfg) with
  | Some err => ([], Failed (FmtError "config validation failed: " err ""))
  | None =>
      let tracer := new_tracer w cfg in
      let opened := if tracer then [RTracer] else [] in
      match NewPostgresPool w cfg with
      | Some err => (opened, Failed err)
      | None =>
          let opened := opened ++ [RDB; RCache; RQueue] in
          match new_storage w cfg with
          | Err err => (opened, Failed err)
          | Ok st =>
              let opened := opened ++ [RStorage; RSSE; RAuditor] in
              match new_authorizer w cfg with
              | Err err => (opened, Failed err)
              | Ok az =>
                  let opened := opened ++ [RAuthorizer; REmail; RServer] in
                  if cors_panics (corsConfig cfg).1 then (opened, Panicked)
                  else
                    let opened := opened ++ (if metrics_addr cfg then [RMetrics] else []) in
                    let opened := opened ++ (if get_bool ["rate_limit"; "enabled"] cfg then [RRateLimit] else []) in
                    match authorizer_Start az with
                    | Some err => (opened, Failed (FmtError "authorizer start: " err ""))
                    | None =>
                        (opened, Booted (mkApp cfg (new_cache w cfg) (new_queue w cfg) st (enabled "sse" cfg)
                           (enabled "audit" cfg) az (enabled "email" cfg) (metrics_addr cfg) tracer
                           (if get_bool ["rate_limit"; "enabled"] cfg
                            then Some (get_bool ["redis"; "enabled"] cfg) else None)))
                    end
              end
          end
      end
  end.

(** *** What a booted application is *)

Section boot.
Context `{CorsHandler}.

Lemma validate_secure (j : JWTConfig) :
  Validate j = None ↔
  MinJWTSecretLen ≤ Z.of_nat (String.length (Secret j)) ∧ Secret j ≠ PlaceholderJWTSecret ∧ Issuer j ≠ "" ∧ Audience j ≠ "".
Proof.
  unfold Validate.
  destruct (String.eqb_spec (Secret j) "") as [Hs|]; [rewrite Hs; split; [done|intros (Hm & _); by vm_compute in Hm]|].
  destruct (String.eqb_spec (Secret j) PlaceholderJWTSecret) as [->|]; [naive_solver|].
  destruct (Z.ltb_spec (Z.of_nat (String.length (Secret j))) MinJWTSecretLen); [split; [done|lia]|].
  destruct (String.eqb_spec (Issuer j) ""); [naive_solver|].
  destruct (String.eqb_spec (Audience j) ""); naive_solver.
Qed.

(** C18: start-up is fail-closed where it matters and falls back only where it may.  Nothing
    is built on a configuration whose signing secret is missing, shorter than 32 bytes or
    the published placeholder, or without issuer or audience.  An application that comes up
    has a database; when authorization is enabled it enforces it (the permissive adapter is
    used exactly when authorization is disabled, never because Casbin failed); cache and
    queue are the real ones exactly when enabled and reachable.  It comes up exactly when
    the database answers, the local storage directory can be made (unless S3 is chosen),
    Casbin starts when enabled, and the CORS settings are accepted: no outage of Redis,
    RabbitMQ, S3 or the tracing collector stops it. *)
Theorem boot_fail_closed (w : World) (cfg : list field) :
  (Validate (get_jwt cfg) ≠ None → ∃ err, New w cfg = ([], Failed (FmtError "config validation failed: " err ""))) ∧
  ((∃ opened a, New w cfg = (opened, Booted a)) ↔
     Validate (get_jwt cfg) = None ∧ NewPostgresPool w cfg = None ∧
     (get_string ["storage"; "mode"] cfg ≠ "s3" →
        w_NewLocalStorage w (get_string ["storage"; "local"; "base_path"] cfg) = None) ∧
     (get_bool ["authorization"; "enabled"] cfg = true → w_NewAdapter w (DSN (get_database cfg)) = None) ∧
     cors_panics (corsConfig cfg).1 = false) ∧
  ∀ opened a, New w cfg = (opened, Booted a) →
    MinJWTSecretLen ≤ Z.of_nat (String.length (Secret (get_jwt cfg))) ∧
    Secret (get_jwt cfg) ≠ PlaceholderJWTSecret ∧
    RDB ∈ opened ∧
    app_Authorizer a = enabled "authorization" cfg ∧
    app_Cache a = new_cache w cfg ∧ app_Queue a = new_queue w cfg.
Proof.
  unfold New. split_and!.
  - intros Hv. destruct (Validate _); [eauto|done].
  - unfold new_storage, new_authorizer. destruct (Validate _) eqn:Hv; [naive_solver|].
    destruct (NewPostgresPool w cfg) eqn:Hp; [naive_solver|].
    destruct (String.eqb_spec (get_string ["storage"; "mode"] cfg) "s3") as [Hm|Hm];
      [destruct (w_NewS3Storage w cfg)|]; destruct (w_NewLocalStorage w _) eqn:Hl;
      destruct (get_bool ["authorization"; "enabled"] cfg) eqn:Ha;
      try destruct (w_NewAdapter w _) eqn:Hw; destruct (cors_panics _) eqn:Hc; simpl; naive_solver.
  - intros opened a. destruct (Validate _) eqn:Hv; [done|]. apply validate_secure in Hv as (Hlen & Hne & _).
    destruct (NewPostgresPool w cfg); [done|].
    destruct (new_storage w cfg) as [st|]; [|done].
    destruct (new_authorizer w cfg) as [az|] eqn:Haz; [|done].
    destruct (cors_panics _); [done|]. destruct (authorizer_Start az); [done|]. intros [= <- <-]. simpl.
    split_and!; try done; [set_solver|]. revert Haz. unfold new_authorizer, enabled. by repeat case_match; intros [= <-].
Qed.

End boot.

(** ** Shutdown *)

(** *** Phase budgets *)

(** The nearest integer with a 53-bit significand, ties to even: the rounding of float64. *)
Definition round53 (n : Z) : Z :=
  let d := Z.max 0 (Z.log2 n - 52) in
  let q := n / 2 ^ d in
  let r := n `mod` 2 ^ d in
  if (2 ^ d <? 2 * r) || ((2 ^ d =? 2 * r) && Z.odd q) then (q + 1) * 2 ^ d else q * 2 ^ d.

(** A float64 constant [m * 2^-e]. *)
Record fraction := mkFraction { percent : Z; mant : Z; expo : Z }.
Definition f40 := mkFraction 40 3602879701896397 53.   (* 0.40 *)
Definition f05 := mkFraction 5 3602879701896397 56.    (* 0.05 *)
Definition f10 := mkFraction 10 3602879701896397 55.   (* 0.10 *)
Definition f15 := mkFraction 15 5404319552844595 55.   (* 0.15 *)

Definition Millisecond : Z := 1000000.

(** [time.Duration(float64(totalBudget) * fraction)], at least something. *)
Definition phase_budget (totalBudget : Z) (f : fraction) : Z :=
  let budget := Z.shiftr (round53 (round53 totalBudget * mant f)) (expo f) in
  if budget <=? 0 then 100 * Millisecond else budget.

Definition defaultShutdownBudget : Z := 30 * Second.

Definition total_budget (deadline : option Z) (now : Z) : Z :=
  match deadline with
  | Some d => let remaining := d - now in if 0 <? remaining then remaining else defaultShutdownBudget
  | None => defaultShutdownBudget
  end.

(** *** The phases *)

(** How a resource closes: from a start time and the deadline of the context it is given
    (none when its [Close] takes no context), the time it returns and its error. *)
Definition closer : Type := resource → Z → option Z → Z * option error.

Record phase := mkPhase { ph_name : string; ph_fraction : fraction; ph_ctx : bool; ph_report : bool; ph_close : list resource }.

Definition when (b : bool) (r : resource) : list resource := if b then [r] else [].

(** A nil field is skipped; the fields [New] always sets are not nil.  The adapters phase
    drops the errors of its closers ([ph_report] false; the limiter's is only logged). *)
Definition phases (a : App) : list phase :=
  [ mkPhase "http_server" f40 true true [RServer];
    mkPhase "metrics" f05 true true (when (bool_decide (is_Some (metricsServer a))) RMetrics);
    mkPhase "sse" f05 false true [RSSE];
    mkPhase "authorizer" f10 false true [RAuthorizer];
    mkPhase "adapters" f15 false false
      (when (bool_decide (is_Some (rateLimitCloser a))) RRateLimit ++ [RCache; RQueue; RStorage; RAuditor; REmail]);
    mkPhase "database" f10 false false [RDB];
    mkPhase "tracer" f15 true true (when (tracerShutdown a) RTracer) ].

Record progress := mkProgress { clock : Z; closed : list resource; errors : list (string * error) }.

(** Close the resources of a phase one after the other, in this goroutine. *)
Fixpoint close_all (close : closer) (dl : option Z) (rs : list resource) (t : Z) : Z * option error :=
  match rs with
  | [] => (t, None)
  | r :: rs' =>
      let '(t', err) := close r t dl in
      let '(t'', err') := close_all close dl rs' t' in
      (t'', match err with Some e => Some e | None => err' end)
  end.

(** The deadline of [context.WithTimeout(ctx, budget)] *)
Definition phase_deadline (parent : option Z) (now budget : Z) : Z :=
  match parent with Some d => Z.min d (now + budget) | None => now + budget end.

Definition runPhase (close : closer) (parent : option Z) (totalBudget : Z) (s : progress) (p : phase) : progress :=
  let budget := phase_budget totalBudget (ph_fraction p) in
  let dl := phase_deadline parent (clock s) budget in
  let '(t, err) := close_all close (if ph_ctx p then Some dl else None) (ph_close p) (clock s) in
  mkProgress t (closed s ++ ph_close p)
    (errors s ++ match err with Some e => if ph_report p then [(ph_name p, e)] else [] | None => [] end).

(** It always returns nil. *)
Definition Shutdown (close : closer) (a : App) (deadline : option Z) (now : Z) : progress * option error :=
  let totalBudget := total_budget deadline now in
  (fold_left (runPhase close deadline totalBudget) (phases a) (mkProgress now [] []), None).

(** *** Every resource is closed, in order *)

Lemma runPhase_closed close parent total ps s :
  closed (fold_left (runPhase close parent total) ps s) = closed s ++ concat (map ph_close ps).
Proof.
  revert s. induction ps as [|p ps IH]; intros s; simpl; [by rewrite app_nil_r|].
  rewrite IH. unfold runPhase. destruct (close_all _ _ _ _) as [t err]. simpl. by rewrite <-app_assoc.
Qed.

Lemma Shutdown_closed close a deadline now :
  closed (Shutdown close a deadline now).1 =
  [RServer] ++ when (bool_decide (is_Some (metricsServer a))) RMetrics ++ [RSSE; RAuthorizer]
  ++ when (bool_decide (is_Some (rateLimitCloser a))) RRateLimit
  ++ [RCache; RQueue; RStorage; RAuditor; REmail; RDB] ++ when (tracerShutdown a) RTracer.
Proof.
  unfold Shutdown. cbn [fst]. rewrite runPhase_closed. simpl.
  rewrite app_nil_r, <-!app_assoc. simpl. by rewrite <-?app_assoc.
Qed.

(** C17: shutdown releases everything that start-up built, exactly once and in a safe order,
    whatever closers fail and however long they take.  The resources closed are a permutation of those
    [New] opened, without repetition; the HTTP server is first, the database is closed
    after every resource but the tracer, the tracer last; the result is always success. *)
Theorem shutdown_releases_all `{CorsHandler} (w : World) (cfg : list field) (opened : list resource) (a : App)
    (close : closer) (deadline : option Z) (now : Z) :
  New w cfg = (opened, Booted a) →
  let '(p, err) := Shutdown close a deadline now in
  err = None ∧ closed p ≡ₚ opened ∧ NoDup (closed p) ∧
  ∃ before, closed p = [RServer] ++ before ++ [RDB] ++ when (tracerShutdown a) RTracer ∧
    RDB ∉ before ∧ RTracer ∉ before.
Proof.
  intros Hnew. pose proof (Shutdown_closed close a deadline now) as Hc.
  destruct (Shutdown close a deadline now) as [p err] eqn:Hs. simpl in Hc. unfold Shutdown in Hs. injection Hs as _ <-.
  split; [done|]. rewrite Hc.
  assert (Hm : bool_decide (is_Some (metricsServer a)) = bool_decide (is_Some (metrics_addr cfg)) ∧
               bool_decide (is_Some (rateLimitCloser a)) = get_bool ["rate_limit"; "enabled"] cfg ∧
               opened = when (tracerShutdown a) RTracer ++ [RDB; RCache; RQueue; RStorage; RSSE; RAuditor; RAuthorizer; REmail;
                 RServer] ++ when (bool_decide (is_Some (metrics_addr cfg))) RMetrics
                 ++ when (get_bool ["rate_limit"; "enabled"] cfg) RRateLimit).
  { revert Hnew. unfold New. repeat (case_match; try done); intros; simplify_eq/=; split_and!; try done;
      by repeat case_match. }
  destruct Hm as (-> & -> & ->).
  generalize (bool_decide (is_Some (metrics_addr cfg))) as m. generalize (get_bool ["rate_limit"; "enabled"] cfg) as l.
  generalize (tracerShutdown a) as tr. clear. intros tr l m. split_and!.
  - destruct tr, l, m; simpl; solve_Permutation.
  - destruct tr, l, m; apply (bool_decide_unpack _); vm_compute; done.
  - exists (when m RMetrics ++ [RSSE; RAuthorizer] ++ when l RRateLimit ++ [RCache; RQueue; RStorage; RAuditor; REmail]).
    destruct tr, l, m; simpl; (split; [done|]; set_solver).
Qed.

(** *** Time *)

Lemma round53_bounds n : 0 ≤ n → (2 ^ 53 - 1) * n ≤ 2 ^ 53 * round53 n ≤ (2 ^ 53 + 1) * n.
Proof.
  intros Hn. unfold round53. set (d := Z.max 0 (Z.log2 n - 52)).
  assert (Hp : 0 < 2 ^ d) by (apply Z.pow_pos_nonneg; lia).
  pose proof (Z.div_mod n (2 ^ d) ltac:(lia)) as Hdm. pose proof (Z.mod_pos_bound n (2 ^ d) Hp) as Hmod.
  set (q := n / 2 ^ d) in *. set (r := n `mod` 2 ^ d) in *.
  assert (Hd : d = 0 ∨ 2 ^ 52 * 2 ^ d ≤ n).
  { destruct (Z.le_gt_cases (Z.log2 n) 52) as [|Hl]; [left; lia|right].
    rewrite <-Z.pow_add_r by lia. replace (52 + d) with (Z.log2 n) by lia.
    apply Z.log2_spec. destruct (Z.eq_dec n 0) as [->|]; [done|lia]. }
  destruct Hd as [Hd|Hd].
  - rewrite Hd in *. replace r with 0 by lia. change (2 ^ 0) with 1 in *. simpl. replace q with n by lia. lia.
  - destruct ((2 ^ d <? 2 * r) || ((2 ^ d =? 2 * r) && Z.odd q)) eqn:Hb.
    + assert (2 ^ d ≤ 2 * r) by (apply orb_true_iff in Hb as [?|[??]%andb_true_iff]; lia). lia.
    + assert (2 * r ≤ 2 ^ d) by (apply orb_false_iff in Hb as [? _]; lia). lia.
Qed.

Lemma round53_exact n : 0 ≤ n < 2 ^ 53 → round53 n = n.
Proof.
  intros Hn. unfold round53. replace (Z.max 0 (Z.log2 n - 52)) with 0.
  - change (2 ^ 0) with 1. rewrite Z.div_1_r, Z.mod_1_r. simpl. lia.
  - destruct (Z.eq_dec n 0) as [->|]; [done|].
    assert (Z.log2 n < 53) by (apply Z.log2_lt_pow2; lia). lia.
Qed.

Definition is_fraction (f : fraction) : Prop := f = f40 ∨ f = f05 ∨ f = f10 ∨ f = f15.

(** The budget of a phase is its percentage of the total, rounded down to the nanosecond or
    one less, and positive. *)
Lemma phase_budget_close total f :
  is_fraction f → 21 ≤ total ≤ 2 ^ 46 →
  percent f * total - 100 ≤ 100 * phase_budget total f ≤ percent f * total ∧ 0 < phase_budget total f.
Proof.
  intros Hf Ht. unfold phase_budget. rewrite (round53_exact total) by lia.
  pose proof (round53_bounds (total * mant f)) as Hr.
  set (r := round53 (total * mant f)) in *.
  assert (He : 0 < 2 ^ expo f ∧ 0 ≤ expo f) by (destruct Hf as [-> | [-> | [-> | ->]]]; simpl; lia).
  rewrite Z.shiftr_div_pow2 by lia.
  pose proof (Z.div_mod r (2 ^ expo f) ltac:(lia)) as Hdm.
  pose proof (Z.mod_pos_bound r (2 ^ expo f) ltac:(lia)) as Hmod.
  set (b := r / 2 ^ expo f) in *. set (m := r `mod` 2 ^ expo f) in *. clearbody r b m.
  destruct Hf as [-> | [-> | [-> | ->]]]; cbn [mant expo percent f40 f05 f10 f15] in *;
    specialize (Hr ltac:(lia)); (destruct (Z.leb_spec b 0); [exfalso|]); lia.
Qed.

(** A closer given a context returns by its deadline; the others take at most [c]. *)
Definition prompt (close : closer) (c : Z) : Prop :=
  ∀ r t dl, t ≤ (close r t dl).1 ∧ (close r t dl).1 ≤ match dl with Some d => Z.max t d | None => t + c end.

Section time.
Variables (close : closer) (c : Z).
Hypothesis Hprompt : prompt close c.

Lemma close_all_time dl rs t :
  t ≤ (close_all close dl rs t).1 ∧
  (close_all close dl rs t).1 ≤ match dl with Some d => Z.max t d | None => t + Z.of_nat (length rs) * c end.
Proof.
  revert t. induction rs as [|r rs IH]; intros t; simpl; [destruct dl; lia|].
  destruct (Hprompt r t dl) as [H1 H2]. destruct (close r t dl) as [t1 e1]. simpl in *.
  destruct (IH t1) as [H3 H4]. destruct (close_all close dl rs t1) as [t2 e2]. simpl in *. destruct dl; lia.
Qed.

Lemma runPhase_time parent total s p :
  is_fraction (ph_fraction p) → 21 ≤ total ≤ 2 ^ 46 →
  clock s ≤ clock (runPhase close parent total s p) ∧
  100 * clock (runPhase close parent total s p) ≤
    100 * clock s + if ph_ctx p then percent (ph_fraction p) * total else 100 * (Z.of_nat (length (ph_close p)) * c).
Proof.
  intros Hf Ht. destruct (phase_budget_close total _ Hf Ht) as [Hb Hpos]. unfold runPhase.
  set (dl := if ph_ctx p then _ else _). destruct (close_all_time dl (ph_close p) (clock s)) as [H1 H2].
  destruct (close_all close dl (ph_close p) (clock s)) as [t e]. simpl in *. split; [done|]. subst dl.
  unfold phase_deadline in H2. destruct (ph_ctx p); [destruct parent|]; lia.
Qed.

Lemma runPhases_time parent total ps s :
  Forall (λ p, is_fraction (ph_fraction p)) ps → 21 ≤ total ≤ 2 ^ 46 →
  clock s ≤ clock (fold_left (runPhase close parent total) ps s) ∧
  100 * clock (fold_left (runPhase close parent total) ps s) ≤
    100 * clock s + foldr Z.add 0 (map (λ p, if ph_ctx p then percent (ph_fraction p) * total
                                             else 100 * (Z.of_nat (length (ph_close p)) * c)) ps).
Proof.
  intros Hf Ht. revert s. induction Hf as [|p ps Hp Hps IH]; intros s; simpl; [lia|].
  destruct (runPhase_time parent total s p Hp Ht). destruct (IH (runPhase close parent total s p)). lia.
Qed.

End time.

(** C39: shutdown ends in time when the closers do.  Every phase gets its percentage of the
    time left (computed in float64; never more, at most a nanosecond less, never nothing),
    the seven budgets together fit into the total, and the three phases that are given a
    context (HTTP drain, metrics, tracer) cannot take more than 60% of it: the whole
    shutdown takes at most that plus what the nine closers without a context take. *)
Theorem shutdown_in_time (close : closer) (c : Z) (a : App) (deadline : option Z) (now : Z) :
  0 ≤ c → prompt close c → 21 ≤ total_budget deadline now ≤ 2 ^ 46 →
  let total := total_budget deadline now in
  foldr Z.add 0 (map (λ p, phase_budget total (ph_fraction p)) (phases a)) ≤ total ∧
  Forall (λ p, percent (ph_fraction p) * total - 100 ≤ 100 * phase_budget total (ph_fraction p)
               ∧ 0 < phase_budget total (ph_fraction p)) (phases a) ∧
  now ≤ clock (Shutdown close a deadline now).1 ∧
  100 * clock (Shutdown close a deadline now).1 ≤ 100 * now + 60 * total + 900 * c.
Proof.
  intros Hc Hp Ht. cbv zeta. set (total := total_budget deadline now) in *.
  assert (Hf : Forall (λ p, is_fraction (ph_fraction p)) (phases a)).
  { unfold phases, is_fraction. repeat (constructor; [simpl; tauto|]). constructor. }
  split_and!.
  - simpl. pose proof (phase_budget_close total f40 ltac:(unfold is_fraction; tauto) Ht) as [[_ H40] _].
    pose proof (phase_budget_close total f05 ltac:(unfold is_fraction; tauto) Ht) as [[_ H05] _].
    pose proof (phase_budget_close total f10 ltac:(unfold is_fraction; tauto) Ht) as [[_ H10] _].
    pose proof (phase_budget_close total f15 ltac:(unfold is_fraction; tauto) Ht) as [[_ H15] _].
    cbn [percent f40 f05 f10 f15] in H40, H05, H10, H15. lia.
  - eapply Forall_impl; [exact Hf|]. intros p Hpf. destruct (phase_budget_close total _ Hpf Ht). tauto.
  - apply (runPhases_time close c Hp deadline total (phases a) (mkProgress now [] []) Hf Ht).
  - destruct (runPhases_time close c Hp deadline total (phases a) (mkProgress now [] []) Hf Ht) as [_ H].
    unfold Shutdown. fold total. cbn [fst]. etrans; [exact H|].
    unfold phases. simpl. destruct (bool_decide (is_Some (rateLimitCloser a))); simpl; lia.
Qed.

(** The budget of a phase does not bound a closer without a context: the later phases wait
    for it. *)
Lemma hung_close_stalls (close : closer) (a : App) (deadline : option Z) (now D : Z) :
  (∀ r t dl, t ≤ (close r t dl).1) → (∀ t dl, t + D ≤ (close RCache t dl).1) →
  now + D ≤ clock (Shutdown close a deadline now).1.
Proof.
  intros Hmono Hd.
  assert (Hall : ∀ dl rs t, t ≤ (close_all close dl rs t).1 ∧ (RCache ∈ rs → t + D ≤ (close_all close dl rs t).1)).
  { intros dl rs. induction rs as [|r rs IH]; intros t; simpl; [split; [lia|by intros ?%elem_of_nil]|].
    assert (Hr : t ≤ (close r t dl).1 ∧ (RCache = r → t + D ≤ (close r t dl).1)) by (split; [done|by intros <-]).
    destruct (close r t dl) as [t1 e1]. destruct (IH t1) as [H3 H4].
    destruct (close_all close dl rs t1) as [t2 e2]. simpl in *. split; [lia|].
    intros [Heq|Hin]%elem_of_cons; [apply Hr in Heq|apply H4 in Hin]; lia. }
  assert (Hone : ∀ total s p, clock s ≤ clock (runPhase close deadline total s p) ∧
    (RCache ∈ ph_close p → clock s + D ≤ clock (runPhase close deadline total s p))).
  { intros total s p. unfold runPhase. set (dl := if ph_ctx p then _ else _).
    pose proof (Hall dl (ph_close p) (clock s)) as H. by destruct (close_all close dl (ph_close p) (clock s)). }
  assert (Hph : ∀ total ps s, clock s ≤ clock (fold_left (runPhase close deadline total) ps s) ∧
    (RCache ∈ concat (map ph_close ps) → clock s + D ≤ clock (fold_left (runPhase close deadline total) ps s))).
  { intros total ps. induction ps as [|p ps IH]; intros s; simpl; [split; [lia|by intros ?%elem_of_nil]|].
    destruct (IH (runPhase close deadline total s p)) as [H1 H2]. destruct (Hone total s p) as [H3 H4]. split; [lia|].
    intros [Hin|Hin]%elem_of_app; [apply H4 in Hin|apply H2 in Hin]; lia. }
  apply (Hph _ (phases a) (mkProgress now [] [])). simpl. set_solver.
Qed.

(** ** The mains *)

Definition config_path (getenv : string → string) : string :=
  if String.eqb (getenv "CONFIG_PATH") "" then "config/config.default.json" else getenv "CONFIG_PATH".

(** [log.Fatalf] with the message and the error, or a normal exit after a signal. *)
Inductive exit := Fatal (msg : string) (err : error) | Panic | Exited (p : progress).

(** [now] is the time of the interrupt; [listen] the error of the server, if it stopped
    before. *)
Definition api_main `{CorsHandler} (json_err : string → error) (ReadFile : string → result error string)
    (getenv : string → string) (w : World) (listen : option error) (close : closer) (now : Z) : exit :=
  match Load json_err ReadFile getenv (config_path getenv) with
  | Err err => Fatal "Failed to load configuration: " err
  | Ok cfg =>
      match (New w cfg).2 with
      | Failed err => Fatal "Failed to initialize application: " err
      | Panicked => Panic
      | Booted a =>
          match listen with
          | Some err => Fatal "Failed to start server: " err
          | None =>
              match Shutdown close a (Some (now + 30 * Second)) now with
              | (_, Some err) => Fatal "Failed to shutdown application: " err
              | (p, None) => Exited p
              end
          end
      end
  end.

(** [run] of the worker: the resources it opened and, by its deferred calls, closed, and
    its error. *)
Record worker_run := mkWorkerRun { wr_opened : list resource; wr_closed : list resource; wr_started : bool; wr_err : option error }.

Definition worker_config (cfg : list field) : Worker.WorkerConfig :=
  let queueName := get_string ["worker"; "queue_name"] cfg in
  let concurrency := get_int ["worker"; "concurrency"] cfg in
  Worker.mkWorkerConfig (if String.eqb queueName "" then "jobs" else queueName) (get_string ["worker"; "exchange"] cfg)
    (if concurrency <=? 0 then 2 else concurrency).

Definition run (json_err : string → error) (ReadFile : string → result error string) (getenv : string → string)
    (w : World) : worker_run :=
  match Load json_err ReadFile getenv (config_path getenv) with
  | Err err => mkWorkerRun [] [] false (Some (FmtError "failed to load configuration: " err ""))
  | Ok cfg =>
      if negb (get_bool ["rabbitmq"; "enabled"] cfg) then
        mkWorkerRun [] [] false (Some (PlainError
          "RabbitMQ must be enabled to run the worker. Set rabbitmq.enabled=true in config"))
      else
        match NewPostgresPool w cfg with
        | Some err => mkWorkerRun [] [] false (Some (FmtError "failed to connect to database: " err ""))
        | None =>
            match w_NewRabbitMQ w (get_string ["rabbitmq"; "url"] cfg) (get_int ["rabbitmq"; "prefetch_count"] cfg) with
            | Some err => mkWorkerRun [RDB] [RDB] false (Some (FmtError "failed to connect to RabbitMQ: " err ""))
            | None =>
                match w_worker_Start w with
                | Some err => mkWorkerRun [RDB; RQueue; REmail] [REmail; RQueue; RDB] false
                                (Some (FmtError "failed to start worker: " err ""))
                | None => mkWorkerRun [RDB; RQueue; REmail] [REmail; RQueue; RDB] true None
                end
            end
        end
  end.

(** The worker's own constructor changes nothing of the configuration the main hands it. *)
Lemma worker_config_kept cfg : Worker.New (worker_config cfg) = worker_config cfg.
Proof.
  unfold Worker.New, worker_config. simpl.
  destruct (String.eqb_spec (get_string ["worker"; "queue_name"] cfg) "") as [|Hq]; simpl.
  - destruct (Z.leb_spec (get_int ["worker"; "concurrency"] cfg) 0) as [|Hc]; simpl; [done|].
    by rewrite (proj2 (Z.leb_gt _ _) Hc).
  - apply String.eqb_neq in Hq. rewrite Hq.
    destruct (Z.leb_spec (get_int ["worker"; "concurrency"] cfg) 0) as [|Hc]; simpl; [done|].
    by rewrite (proj2 (Z.leb_gt _ _) Hc).
Qed.

(** The worker closes what it opened, in reverse order, on every path. *)
Lemma worker_releases json_err ReadFile getenv w :
  wr_closed (run json_err ReadFile getenv w) = rev (wr_opened (run json_err ReadFile getenv w)).
Proof. unfold run. by repeat case_match. Qed.

(** ** Concrete runs *)

Definition calm : World :=
  mkWorld (λ _, None) (λ _, None) (λ _, None) None (λ _ _ _, Some (PlainError "refused")) (λ _ _, None) (λ _, None)
    (λ _, None) (λ _, None) None.
Definition sample_config : list field :=
  applyEnvOverrides (λ k,
    if String.eqb k "JWT_SECRET" then "0123456789abcdef0123456789abcdef" else
    if String.eqb k "JWT_ISSUER" then "goscratch" else if String.eqb k "JWT_AUDIENCE" then "goscratch-api" else
    if String.eqb k "REDIS_ENABLED" then "true" else if String.eqb k "AUTHORIZATION_ENABLED" then "1" else
    if String.eqb k "METRICS_ENABLED" then "true" else if String.eqb k "METRICS_PORT" then "9090" else
    if String.eqb k "TRACING_ENABLED" then "true" else "") Config_fields.
Definition sample_app : App :=
  mkApp sample_config NoOp NoOp (Local "") NoOp NoOp Real NoOp (Some "127.0.0.1:9090") true None.
Definition sample_opened : list resource :=
  [RTracer; RDB; RCache; RQueue; RStorage; RSSE; RAuditor; RAuthorizer; REmail; RServer; RMetrics].

(** Closers that fail after a microsecond. *)
Definition slow (r : resource) (t : Z) (dl : option Z) : Z * option error :=
  (match dl with Some d => Z.max t d | None => t + 1000 end, Some (PlainError "close")).

Lemma shutdown_releases_all_witness :
  (Shutdown slow sample_app (Some 30000000000) 0).2 = None ∧
  closed (Shutdown slow sample_app (Some 30000000000) 0).1 ≡ₚ sample_opened.
Proof.
  pose proof (@shutdown_releases_all OpenCors calm sample_config sample_opened sample_app slow (Some 30000000000) 0) as H.
  destruct (Shutdown slow sample_app (Some 30000000000) 0) as [p err]. simpl in *.
  destruct H as (He & Hp & _); [vm_compute; reflexivity|]. split; [exact He | exact Hp].
Defined.

Lemma shutdown_in_time_witness :
  100 * clock (Shutdown slow sample_app (Some 30000000000) 0).1 ≤ 1800000900000.
Proof.
  pose proof (shutdown_in_time slow 1000 sample_app (Some 30000000000) 0) as H.
  apply H; [lia| |vm_compute; split; congruence].
  intros r t dl. unfold slow. simpl. destruct dl; lia.
Defined.

End App.
