(* ===== verification/SeedMain.v ===== *)
(** * The seeding command

    Models [main] of [scripts/seed/main.go] around the loops of [Seed]: the configuration, the
    connection, the seeding and the tables it prints at the end.  The progress messages of the
    loops are not kept. *)
From S2P Require Import Prelude GoStr AppErr Config ConfigLoad App Seed.
Import AppErr ConfigLoad.

Module SeedMain.

Definition config_path (getenv : string → string) : string :=
  if String.eqb (getenv "CONFIG_PATH") "" then "config/config.json" else getenv "CONFIG_PATH".

(** ** The printed tables *)

Fixpoint spaces (n : nat) : string := match n with O => "" | S n' => String " " (spaces n') end.

(** The verb [%-26s] and its like, on ASCII text: padded on the right, never cut. *)
Definition pad (n : nat) (s : string) : string := s +:+ spaces (n - String.length s).

Definition table_row (cells : list (nat * string)) : string :=
  foldr (λ c acc, "│ " +:+ pad c.1 c.2 +:+ " " +:+ acc) "│" cells.

Definition user_row (u : Seed.seedUser) : string :=
  table_row [(26%nat, Seed.su_Email u); (13%nat, Seed.su_Password u); (10%nat, Seed.su_Role u)].
Definition permission_row (p : string * string * string) : string :=
  table_row [(10%nat, p.1.1); (10%nat, p.1.2); (10%nat, p.2)].

Definition summary : list string :=
  [""; "🎉 Database seeding completed!"; ""; "📋 Seeded Users:";
   "┌────────────────────────────┬───────────────┬────────────┐";
   "│ Email                      │ Password      │ Role       │";
   "├────────────────────────────┼───────────────┼────────────┤"]
  ++ map user_row Seed.seedUsers ++
  ["└────────────────────────────┴───────────────┴────────────┘";
   ""; "📋 Seeded Permissions:";
   "┌────────────┬────────────┬────────────┐";
   "│ Role       │ Object     │ Action     │";
   "├────────────┼────────────┼────────────┤"]
  ++ map permission_row Seed.seedPermissions ++
  ["└────────────┴────────────┴────────────┘"].

(** ** The command *)

(** [log.Fatalf], or the end of [main] with what it printed and the pool closed. *)
Inductive exit := Fatal (msg : string) (err : error) | Done (printed : list string).

Definition main (json_err : string → error) (ReadFile : string → result error string) (getenv : string → string)
    (aw : App.World) (w : Seed.World) (d : Seed.db) : Seed.db * exit :=
  match Load json_err ReadFile getenv (config_path getenv) with
  | Err err => (d, Fatal "Failed to load configuration: " err)
  | Ok cfg =>
      match App.NewPostgresPool aw cfg with
      | Some err => (d, Fatal "Failed to connect to database: " err)
      | None => (Seed.seed w d, Done summary)
      end
  end.

(** ** What it does *)

(** The database only grows, whatever fails; a run that ends normally over statements that
    all succeed leaves every user and permission of the tables in place, and running the
    command again changes nothing; a run that ends in a fatal error touched nothing. *)
Theorem seed_command (json_err : string → error) ReadFile getenv (aw : App.World) (w : Seed.World) (d : Seed.db) :
  Seed.healthy w → Seed.ids_set d →
  let run := main json_err ReadFile getenv aw w in
  Seed.extends d (run d).1 ∧ run (run d).1 = ((run d).1, (run d).2) ∧
  match (run d).2 with
  | Fatal _ _ => (run d).1 = d
  | Done _ => Forall (λ u, Seed.user_done u (run d).1) Seed.seedUsers ∧
              Forall (λ p, Seed.permission_done p (run d).1) Seed.seedPermissions
  end.
Proof.
  intros Hw Hd. cbv zeta. unfold main.
  destruct (Load json_err ReadFile getenv (config_path getenv)) as [cfg|e]; [|by split_and!; try reflexivity].
  destruct (App.NewPostgresPool aw cfg) as [e|]; [by split_and!; try reflexivity|]. cbn [fst snd].
  destruct (Seed.seed_idempotent w Hw d w Hd) as (He & Hu & Hp & Hi & _).
  rewrite Hi. by split_and!.
Qed.

Definition sound_world : Seed.World :=
  Seed.mkWorld (λ e, "id-" +:+ e) (λ p, Some p) (λ _, false) (λ _, false) (λ _, false) (λ _, false).

Lemma seed_command_witness :
  Seed.extends (Seed.mkDb [] [])
    (main (λ _, PlainError "bad") (λ _, Ok "{}") (λ _, "") App.calm sound_world (Seed.mkDb [] [])).1.
Proof.
  apply (seed_command (λ _, PlainError "bad") (λ _, Ok "{}") (λ _, "") App.calm sound_world (Seed.mkDb [] [])).
  - split_and!; done.
  - constructor.
Defined.

(** With the files of the repository and an empty environment the API finds its
    configuration and the seeding command does not: the defaults of the two are different
    files, and only [config/config.default.json] is kept in the repository. *)
Lemma seed_default_path json_err ReadFile getenv aw w d e :
  getenv "CONFIG_PATH" = "" → ReadFile "config/config.json" = Err e →
  main json_err ReadFile getenv aw w d =
    (d, Fatal "Failed to load configuration: " (FmtError "failed to read config file: " e "")) ∧
  App.config_path getenv = "config/config.default.json".
Proof. intros Hg Hf. unfold main, config_path, App.config_path, Load. rewrite Hg. cbn [String.eqb]. by rewrite Hf. Qed.

(** Every line of a printed table is as wide as the others: no cell overflows its column. *)
Example summary_aligned :
  remove_dups (map (λ u, String.length (user_row u)) Seed.seedUsers) = [67%nat] ∧
  remove_dups (map (λ p, String.length (permission_row p)) Seed.seedPermissions) = [48%nat].
Proof. vm_compute. auto. Qed.

(** The passwords are those of the table: none of the accounts has the documented one. *)
Example no_documented_password :
  forallb (λ u, negb (String.eqb (Seed.su_Password u) "password123")) Seed.seedUsers = true ∧
  length Seed.seedUsers = 29%nat ∧ length Seed.seedPermissions = 18%nat.
Proof. vm_compute. auto. Qed.

End SeedMain.
