(* ===== verification/StreamShutdown.v ===== *)
(** * Event streams at shutdown

    The shutdown phases of [App] over the streams of [SseStreams]: the HTTP server is told to
    drain in the first phase, the broker is closed in the third.  The server's
    [ShutdownWithContext] returns when no connection is open, or at its deadline. *)
From S2P Require Import Prelude AppErr Config Port Sse SseStreams App.
Import AppErr Config SseStreams.

Module StreamShutdown.

Definition DeadlineExceeded : error := PlainError "context deadline exceeded".

(** [server.Shutdown(ctx)] ([platform/http/server.go]), when [evs] is what happens to the
    streams from the call to the deadline: a running stream is an open connection. *)
Definition server_Shutdown (s : Sys) (evs : list event) (t : Z) (dl : option Z) : Z * option error :=
  match run s evs with
  | Some s' => if decide (writers s' = ∅) then (t, None) else (default t dl, Some DeadlineExceeded)
  | None => (t, None)
  end.

(** An open stream whose client asks for none of the events that come before the deadline
    holds the server's phase up to the end of its budget: it is released by the broker's
    Close only, which comes two phases later.  With the budget of [cmd/api] the phase takes
    its full twelve seconds and fails. *)
Theorem idle_stream_holds_shutdown (close : App.closer) (a : App.App) (s : Sys) (spec : Spec) (id : string) (st : stream)
    (evs : list event) (now : Z) :
  rel s spec → live spec !! id = Some st → open st = true → queue st = [] → wanted (topics st) evs = [] →
  NoDup (omap conn_id evs) → (∀ i, i ∈ omap conn_id evs → live spec !! i = None) →
  EClose ∉ evs →
  (∀ t dl, close App.RServer t dl = server_Shutdown s evs t dl) →
  let p := App.runPhase close (Some (now + 30 * Second)) (App.total_budget (Some (now + 30 * Second)) now)
             (App.mkProgress now [] []) (App.mkPhase "http_server" App.f40 true true [App.RServer]) in
  head (App.phases a) = Some (App.mkPhase "http_server" App.f40 true true [App.RServer]) ∧
  App.clock p = now + 12 * Second ∧ App.errors p = [("http_server", DeadlineExceeded)].
Proof.
  intros Hr Hst Ho Hq Hw Hnd Hf Hc Hclose. split; [done|].
  destruct (rel_run s spec evs Hr Hnd Hf) as (s' & Hs & Hr').
  assert (Hlive : live (spec_run spec evs) !! id = Some st).
  { apply idle_stream_stays; try done. apply Forall_forall. intros e He. split; [|intros ->; done].
    intros Hid. enough (live spec !! id = None) by congruence. apply Hf, list_elem_of_omap. by exists e. }
  assert (Hrun : ∀ t dl, close App.RServer t dl = (default t dl, Some DeadlineExceeded)).
  { intros t dl. rewrite Hclose. unfold server_Shutdown. rewrite Hs. rewrite decide_False; [done|]. intros He.
    destruct (rel_some s' _ id st Hr' Hlive) as (w & Hwr & _). by rewrite He in Hwr. }
  assert (Hb : App.total_budget (Some (now + 30 * Second)) now = 30 * Second).
  { unfold App.total_budget. replace (now + 30 * Second - now) with (30 * Second) by lia. reflexivity. }
  rewrite Hb. unfold App.runPhase. cbn [App.ph_ctx App.ph_close App.close_all App.clock]. rewrite Hrun. cbn.
  split; [|done]. replace (App.phase_budget _ App.f40) with (12 * Second) by (vm_compute; reflexivity). unfold Second. lia.
Qed.

Definition subscribed : list event := [ESubscribe (as_user "u") "news" "c1"].

Definition draining (evs : list event) : App.closer := λ r t dl,
  match r with
  | App.RServer => match run (init 2) subscribed with Some s => server_Shutdown s evs t dl | None => (t, None) end
  | _ => (t, None)
  end.

Definition plain_app : App.App :=
  App.mkApp [] App.NoOp App.NoOp App.S3 App.Real App.NoOp App.NoOp App.NoOp None false None.

Lemma idle_stream_holds_shutdown_witness :
  App.clock (App.runPhase (draining [EBroadcast (Some ("m", "1", "jobs")); EWrite "c1" false]) (Some (0 + 30 * Second))
    (App.total_budget (Some (0 + 30 * Second)) 0) (App.mkProgress 0 [] []) (App.mkPhase "http_server" App.f40 true true [App.RServer])) = 0 + 12 * Second.
Proof.
  destruct (init_run 2 subscribed) as (s & Hs & Hr); [repeat constructor; set_solver|].
  apply (idle_stream_holds_shutdown (draining [EBroadcast (Some ("m", "1", "jobs")); EWrite "c1" false]) plain_app s _ "c1" (mkStream {["news"]} [] true [])
    [EBroadcast (Some ("m", "1", "jobs")); EWrite "c1" false] 0 Hr); try done.
  - constructor.
  - by intros i ?%elem_of_nil.
  - set_solver.
  - intros t dl. unfold draining. by rewrite Hs.
Defined.

End StreamShutdown.
