(* ===== verification/User.v ===== *)
(** * Users

    Models [internal/module/user]: the generated queries ([repository/sqlc/user.sql.go]) on
    a table of rows, the repository ([repository/user_repository.go]), the use case
    ([usecase/user_usecase.go]), its audit decorator ([usecase/audit_decorator.go]) and the
    handlers ([handler/user_handler.go]).  PostgreSQL is a parameter as far as its pattern
    matching and its failures go; the statements themselves are translated from their SQL
    text.  Sessions are revoked through the narrow interface [AuthRevoker]. *)
From stdpp Require Import sorting.
From S2P Require Import Prelude AppErr Config Port Json Pagination Database Validator Cache Auth Middleware.
Import AppErr Config Pagination Database Validator Auth.

Module User.

(** ** Types *)

(** [sqlc.User] without its key: nullable columns are options. *)
Record Row := mkRow {
  Email : string;
  PasswordHash : string;
  Name : string;
  IsActive : option bool;
  CreatedAt : option Z;
  UpdatedAt : option Z
}.

#[export] Instance Row_eq_dec : EqDecision Row.
Proof. solve_decision. Defined.

(** [types.Opt] values that are not set are [None]. *)
Record UserFilter := mkUserFilter {
  f_Cursor : string;
  f_Limit : Z;
  f_Direction : string;
  f_Search : option string;
  f_Email : option string;
  f_IsActive : option bool;
  f_SortBy : string;
  f_SortOrder : string
}.

Definition NormalizeFilter (f : UserFilter) : UserFilter :=
  let l := if f_Limit f <=? 0 then DefaultLimit else f_Limit f in
  let l := if l >? MaxLimit then MaxLimit else l in
  mkUserFilter (f_Cursor f) l (f_Direction f) (f_Search f) (f_Email f) (f_IsActive f)
    (if String.eqb (f_SortBy f) "" then "created_at" else f_SortBy f)
    (if String.eqb (f_SortOrder f) "" then "desc" else f_SortOrder f).

Record UserResponse := mkUserResponse {
  u_ID : string;
  u_Email : string;
  u_Name : string;
  u_IsActive : bool;
  u_CreatedAt : string;
  u_UpdatedAt : string
}.

Record ListUsersRequest := mkListUsersRequest {
  l_Cursor : string;
  l_Limit : Z;
  l_Search : option string;
  l_Email : option string;
  l_IsActive : option bool
}.

(** The outcome of a query: [pgx.ErrNoRows] is told apart from every other failure. *)
Inductive dbError := ErrNoRows | DbError (err : error).

(** What the environment gives one request: the clock, the identifier [uuidv7()] draws, the
    failure of the [n]-th statement (which then has no effect) and the answers to the
    transaction commands. *)
Record Env (U : Type) := mkEnv {
  e_now : Z;
  e_newID : U;
  e_fault : nat → option error;
  e_tx : TxAnswers
}.
Arguments mkEnv {U}.
Arguments e_now {U}.
Arguments e_newID {U}.
Arguments e_fault {U}.
Arguments e_tx {U}.

(** The environment of the statements after the first. *)
Definition later {U} (e : Env U) : Env U := mkEnv (e_now e) (e_newID e) (λ n, e_fault e (S n)) (e_tx e).

(** [text ILIKE pattern] *)
Class Postgres := { ilike : string → string → bool }.

(** The port of the auth module that the use case declares. *)
Class AuthRevoker (R : Type) := { revoke_all : R → string → R * option error }.

#[export] Instance auth_revoker {C} `{Cache C} `{Crypto} : AuthRevoker C := {
  revoke_all := RevokeAllForUser
}.

(** The users table, by primary key. *)
Notation Table U := (gmap U Row).

Section queries.
Context {U : Type} `{Uuid U} `{Postgres}.

(** ** sqlc queries *)

Definition uniqueViolation (constraint : string) : error :=
  PgError "23505" ("duplicate key value violates unique constraint " +:+ quote constraint).

(** A row other than [id] holds the address. *)
Definition email_taken (t : Table U) (id : option U) (email : string) : bool :=
  existsb (λ kr : U * Row, negb (bool_decide (Some kr.1 = id)) && String.eqb (Email kr.2) email) (map_to_list t).

Definition exec (fault : option error) (t : Table U) (f : Table U → Table U) : Table U * option error :=
  match fault with Some e => (t, Some e) | None => (f t, None) end.

Definition set_active (b : bool) (now : Z) (r : Row) : Row :=
  mkRow (Email r) (PasswordHash r) (Name r) (Some b) (CreatedAt r) (Some now).

Definition ActivateUser (fault : option error) (now : Z) (t : Table U) (id : U) : Table U * option error :=
  exec fault t (alter (set_active true now) id).

Definition DeactivateUser (fault : option error) (now : Z) (t : Table U) (id : U) : Table U * option error :=
  exec fault t (alter (set_active false now) id).

Definition DeleteUser (fault : option error) (now : Z) (t : Table U) (id : U) : Table U * option error :=
  exec fault t (alter (set_active false now) id).

Definition CountUsers (fault : option error) (t : Table U) (isActive : option bool) : result error Z :=
  match fault with
  | Some e => Err e
  | None => Ok (Z.of_nat (length (filter
      (λ kr : U * Row, isActive = None ∨ (is_Some (IsActive kr.2) ∧ IsActive kr.2 = isActive)) (map_to_list t))))
  end.

Definition CreateUser (fault : option error) (now : Z) (newID : U) (t : Table U) (email passwordHash name : string)
    : Table U * result dbError (U * Row) :=
  match fault with
  | Some e => (t, Err (DbError e))
  | None =>
      if bool_decide (is_Some (t !! newID)) then (t, Err (DbError (uniqueViolation "users_pkey")))
      else if email_taken t None email then (t, Err (DbError (uniqueViolation "users_email_key")))
      else let r := mkRow email passwordHash name (Some true) (Some now) (Some now) in
           (<[newID := r]> t, Ok (newID, r))
  end.

Definition GetUserByEmail (fault : option error) (t : Table U) (email : string) : result dbError (U * Row) :=
  match fault with
  | Some e => Err (DbError e)
  | None =>
      match List.find (λ kr : U * Row, String.eqb (Email kr.2) email && bool_decide (IsActive kr.2 = Some true))
              (map_to_list t) with
      | Some kr => Ok kr
      | None => Err ErrNoRows
      end
  end.

Definition GetUserByID (fault : option error) (t : Table U) (id : U) : result dbError (U * Row) :=
  match fault with
  | Some e => Err (DbError e)
  | None => match t !! id with Some r => Ok (id, r) | None => Err ErrNoRows end
  end.

(** The common WHERE clauses of the two listings; a comparison with NULL is not true. *)
Definition listed (search emailFilter : option string) (isActive : option bool) (r : Row) : bool :=
  match search with
  | None => true
  | Some s => ilike (Name r) ("%" +:+ s +:+ "%") || ilike (Email r) ("%" +:+ s +:+ "%")
  end &&
  match emailFilter with None => true | Some e => String.eqb (Email r) e end &&
  match isActive with None => true | Some b => bool_decide (IsActive r = Some b) end.

Definition id_le (x y : U * Row) : Prop := ¬ uuid_lt y.1 x.1.

(** ORDER BY id ASC *)
Definition by_id (t : Table U) : list (U * Row) := merge_sort id_le (map_to_list t).

Definition ListUsers (fault : option error) (t : Table U) (limit : Z) (cursor : option U)
    (search emailFilter : option string) (isActive : option bool) : result error (list (U * Row)) :=
  match fault with
  | Some e => Err e
  | None => Ok (take (Z.to_nat limit) (filter (λ kr,
      match cursor with None => true | Some c => bool_decide (uuid_lt c kr.1) end &&
      listed search emailFilter isActive kr.2 = true) (by_id t)))
  end.

Definition ListUsersPrev (fault : option error) (t : Table U) (limit : Z) (cursor : option U)
    (search emailFilter : option string) (isActive : option bool) : result error (list (U * Row)) :=
  match fault with
  | Some e => Err e
  | None => Ok (take (Z.to_nat limit) (filter (λ kr,
      match cursor with None => true | Some c => bool_decide (uuid_lt kr.1 c) end &&
      listed search emailFilter isActive kr.2 = true) (reverse (by_id t))))
  end.

Definition UpdatePassword (fault : option error) (now : Z) (t : Table U) (id : U) (passwordHash : string)
    : Table U * option error :=
  exec fault t (alter (λ r, if bool_decide (IsActive r = Some true)
                            then mkRow (Email r) passwordHash (Name r) (IsActive r) (CreatedAt r) (Some now)
                            else r) id).

(** COALESCE(NULLIF(v, ''), old) *)
Definition coalesce (v old : string) : string := if String.eqb v "" then old else v.

Definition UpdateUser (fault : option error) (now : Z) (t : Table U) (id : U) (name email : string)
    : Table U * result dbError (U * Row) :=
  match fault with
  | Some e => (t, Err (DbError e))
  | None =>
      match t !! id with
      | None => (t, Err ErrNoRows)
      | Some r =>
          let r' := mkRow (coalesce email (Email r)) (PasswordHash r) (coalesce name (Name r)) (IsActive r)
                      (CreatedAt r) (Some now) in
          if email_taken t (Some id) (Email r') then (t, Err (DbError (uniqueViolation "users_email_key")))
          else (<[id := r']> t, Ok (id, r'))
      end
  end.

Definition UserExistsByEmail (fault : option error) (t : Table U) (email : string) : result error bool :=
  match fault with
  | Some e => Err e
  | None => Ok (existsb (λ kr : U * Row, String.eqb (Email kr.2) email && bool_decide (IsActive kr.2 = Some true))
                  (map_to_list t))
  end.

(** ** Repository *)

(** The zero [time.Time]: 1 January of year 1. *)
Definition zeroTime : Z := - 62135596800 * Second.

Definition sqlcUserToDomain (kr : U * Row) : User U :=
  let r := kr.2 in
  mkUser (PgtypeToUUID (Some kr.1)) (Email r) (PasswordHash r) (Name r)
    (match IsActive r with Some b => b | None => false end)
    (match CreatedAt r with Some x => x | None => zeroTime end)
    (match UpdatedAt r with Some x => x | None => zeroTime end).

Definition notFound (id : string) : error := NotFoundf ("user " +:+ id +:+ " not found").
Definition emailExists (email : string) : error := Conflictf ("user with email " +:+ email +:+ " already exists").

Definition Repository_GetByID (fault : option error) (t : Table U) (id : string) : result error (User U) :=
  match uuid_Parse id with
  | None => Err (notFound id)
  | Some uid =>
      match GetUserByID fault t uid with
      | Err ErrNoRows => Err (notFound id)
      | Err (DbError err) => Err (FmtError "failed to get user: " err "")
      | Ok user => Ok (sqlcUserToDomain user)
      end
  end.

Definition Repository_GetByEmail (fault : option error) (t : Table U) (email : string) : result error (User U) :=
  match GetUserByEmail fault t email with
  | Err ErrNoRows => Err (NotFoundf ("user with email " +:+ email +:+ " not found"))
  | Err (DbError err) => Err (FmtError "failed to get user: " err "")
  | Ok user => Ok (sqlcUserToDomain user)
  end.

(** [filter.X.Set && filter.X.Val != ""] *)
Definition textParam (o : option string) : option string :=
  match o with Some v => if String.eqb v "" then None else Some v | None => None end.

Definition Repository_List (fault : option error) (t : Table U) (filter : UserFilter) : result error (list (User U)) :=
  let filter := NormalizeFilter filter in
  let limit := f_Limit filter + 1 in
  let isBackward := String.eqb (f_Direction filter) "prev" in
  let cursorUUID := NullableUUID (f_Cursor filter) in
  let q := (if isBackward then ListUsersPrev else ListUsers) fault t limit cursorUUID
             (textParam (f_Search filter)) (textParam (f_Email filter)) (f_IsActive filter) in
  match q with
  | Err err => Err (FmtError "failed to list users: " err "")
  | Ok users => Ok (map sqlcUserToDomain (if isBackward then reverse users else users))
  end.

Definition Repository_Create (fault : option error) (now : Z) (newID : U) (t : Table U) (email passwordHash name : string)
    : Table U * result error (User U) :=
  match CreateUser fault now newID t email passwordHash name with
  | (t', Ok user) => (t', Ok (sqlcUserToDomain user))
  | (t', Err ErrNoRows) => (t', Err (FmtError "failed to create user: " (PlainError "no rows in result set") ""))
  | (t', Err (DbError err)) =>
      if IsDuplicateKeyError (Some err) then (t', Err (emailExists email))
      else (t', Err (FmtError "failed to create user: " err ""))
  end.

Definition Repository_Update (fault : option error) (now : Z) (t : Table U) (id name email : string)
    : Table U * result error (User U) :=
  match uuid_Parse id with
  | None => (t, Err (notFound id))
  | Some uid =>
      match UpdateUser fault now t uid name email with
      | (t', Ok user) => (t', Ok (sqlcUserToDomain user))
      | (t', Err ErrNoRows) => (t', Err (notFound id))
      | (t', Err (DbError err)) =>
          if IsDuplicateKeyError (Some err) then (t', Err (emailExists email))
          else (t', Err (FmtError "failed to update user: " err ""))
      end
  end.

(** The four methods that run one UPDATE and return only an error. *)
Definition exec_by_id (op : Table U → U → Table U * option error) (what : string) (t : Table U) (id : string)
    : Table U * option error :=
  match uuid_Parse id with
  | None => (t, Some (notFound id))
  | Some uid =>
      match op t uid with
      | (t', Some err) => (t', Some (FmtError ("failed to " +:+ what +:+ ": ") err ""))
      | (t', None) => (t', None)
      end
  end.

Definition Repository_UpdatePassword (fault : option error) (now : Z) (t : Table U) (id passwordHash : string) :=
  exec_by_id (λ t uid, UpdatePassword fault now t uid passwordHash) "update password" t id.
Definition Repository_Delete (fault : option error) (now : Z) (t : Table U) (id : string) :=
  exec_by_id (DeleteUser fault now) "delete user" t id.
Definition Repository_Activate (fault : option error) (now : Z) (t : Table U) (id : string) :=
  exec_by_id (ActivateUser fault now) "activate user" t id.
Definition Repository_Deactivate (fault : option error) (now : Z) (t : Table U) (id : string) :=
  exec_by_id (DeactivateUser fault now) "deactivate user" t id.

Definition Repository_ExistsByEmail (fault : option error) (t : Table U) (email : string) : result error bool :=
  match UserExistsByEmail fault t email with
  | Err err => Err (FmtError "failed to check email existence: " err "")
  | Ok exists_ => Ok exists_
  end.

Definition Repository_Count (fault : option error) (t : Table U) (isActive : option bool) : result error Z :=
  match CountUsers fault t isActive with
  | Err err => Err (FmtError "failed to count users: " err "")
  | Ok count => Ok count
  end.

End queries.

(** ** Use case *)

Section usecase.
Context {U R : Type} `{Uuid U} `{Postgres} `{Crypto} `{AuthRevoker R}.
(** [Time.Format(time.RFC3339)] in the server's time zone. *)
Variable Format : Z → string.

(** The users table and the session store behind [authRevoker], which may be nil. *)
Record State := mkState { users : Table U; revoker : option R }.

Definition toUserResponse (user : User U) : UserResponse :=
  mkUserResponse (uuid_String (user_ID user)) (user_Email user) (user_Name user) (user_IsActive user)
    (Format (user_CreatedAt user)) (Format (user_UpdatedAt user)).

Definition GetByID (e : Env U) (s : State) (id : string) : result error UserResponse :=
  match Repository_GetByID (e_fault e 0) (users s) id with
  | Err err => Err err
  | Ok user => Ok (toUserResponse user)
  end.

(** [None] is a panic of the page constructor. *)
Definition List_ (e : Env U) (s : State) (req : ListUsersRequest) : option (result error (CursorPage UserResponse)) :=
  let limit := NormalizeLimit (l_Limit req) in
  let decoded := if String.eqb (l_Cursor req) "" then Ok None else DecodeCursor (l_Cursor req) in
  match decoded with
  | Err _ => Some (Err (BadRequestf "invalid cursor"))
  | Ok cursor =>
      let cursorID := match cursor with Some c => LastID c | None => "" end in
      let direction := match cursor with Some c => Direction c | None => "" end in
      let hasCursor := match cursor with Some _ => true | None => false end in
      let filter := mkUserFilter cursorID limit direction (l_Search req) (l_Email req) (l_IsActive req) "" "" in
      match Repository_List (e_fault e 0) (users s) filter with
      | Err err => Some (Err err)
      | Ok us =>
          match NewBidirectionalCursorPage (map toUserResponse us) limit direction hasCursor
                  (λ u, Some (mkCursor (u_ID u) None "")) with
          | None => None
          | Some page => Some (Ok page)
          end
      end
  end.

(** The function [Create] runs in a transaction, in its two statements. *)
Definition create_check (fault : option error) (t : Table U) (email : string) : option error :=
  match Repository_ExistsByEmail fault t email with
  | Err err => Some err
  | Ok true => Some (emailExists email)
  | Ok false => None
  end.

Definition create_tx (e : Env U) (email passwordHash name : string) (t : Table U)
    : Table U * option (User U) * fnOutcome :=
  match create_check (e_fault e 0) t email with
  | Some err => (t, None, Returned (Some err))
  | None =>
      match Repository_Create (e_fault e 1) (e_now e) (e_newID e) t email passwordHash name with
      | (t', Err err) => (t', None, Returned (Some err))
      | (t', Ok user) => (t', Some user, Returned None)
      end
  end.

Definition Create (e : Env U) (s : State) (email password name : string) : State * result error UserResponse :=
  match bcrypt_hash password with
  | Err _ => (s, Err (Internalf "failed to hash password"))
  | Ok passwordHash =>
      match WithTx (e_tx e) (users s) (create_tx e email passwordHash name) with
      | (t', _, Returned (Some err)) => (mkState t' (revoker s), Err err)
      | (t', Some (Some user), Returned None) => (mkState t' (revoker s), Ok (toUserResponse user))
      | (t', _, _) => (mkState t' (revoker s), Err ErrInternal)   (* not reached: see [create_total] *)
      end
  end.

Definition Update (e : Env U) (s : State) (id name email : string) : State * result error UserResponse :=
  match Repository_Update (e_fault e 0) (e_now e) (users s) id name email with
  | (t', Err err) => (mkState t' (revoker s), Err err)
  | (t', Ok user) => (mkState t' (revoker s), Ok (toUserResponse user))
  end.

Definition ChangePassword (e : Env U) (s : State) (id currentPassword newPassword : string) : State * option error :=
  match Repository_GetByID (e_fault e 0) (users s) id with
  | Err err => (s, Some err)
  | Ok user =>
      if negb (bcrypt_matches (user_PasswordHash user) currentPassword)
      then (s, Some (WithMessage ErrUnauthorized "Current password is incorrect"))
      else match bcrypt_hash newPassword with
      | Err _ => (s, Some (Internalf "failed to hash password"))
      | Ok passwordHash =>
          match Repository_UpdatePassword (e_fault e 1) (e_now e) (users s) id passwordHash with
          | (t', Some err) => (mkState t' (revoker s), Some err)
          | (t', None) =>
              match revoker s with
              | None => (mkState t' None, None)
              | Some rv =>
                  match revoke_all rv id with
                  | (rv', Some err) =>
                      (mkState t' (Some rv'),
                       Some (FmtError "password updated but refresh token revocation failed: " err ""))
                  | (rv', None) => (mkState t' (Some rv'), None)
                  end
              end
          end
      end
  end.

Definition Delete (e : Env U) (s : State) (id : string) : State * option error :=
  let '(t', err) := Repository_Delete (e_fault e 0) (e_now e) (users s) id in (mkState t' (revoker s), err).

Definition Activate (e : Env U) (s : State) (id : string) : State * option error :=
  match Repository_GetByID (e_fault e 0) (users s) id with
  | Err err => (s, Some err)
  | Ok user =>
      if user_IsActive user then (s, None)
      else let '(t', err) := Repository_Activate (e_fault e 1) (e_now e) (users s) id in (mkState t' (revoker s), err)
  end.

Definition Deactivate (e : Env U) (s : State) (id : string) : State * option error :=
  match Repository_GetByID (e_fault e 0) (users s) id with
  | Err err => (s, Some err)
  | Ok user =>
      if negb (user_IsActive user) then (s, None)
      else let '(t', err) := Repository_Deactivate (e_fault e 1) (e_now e) (users s) id in (mkState t' (revoker s), err)
  end.

End usecase.

(** ** Audit decorator *)

Section audited.
Context {U R L : Type} `{Uuid U} `{Postgres} `{Crypto} `{AuthRevoker R} `{Auditor L}.
Variable Format : Z → string.

Definition with_values (e : AuditEntry) (old new : option any) : AuditEntry :=
  mkAuditEntry (ae_UserID e) (ae_Action e) (ae_Resource e) (ae_ResourceID e) old new (ae_Metadata e)
    (ae_IPAddress e) (ae_UserAgent e) (ae_Timestamp e).

Definition profile (u : UserResponse) : any :=
  AnyMap [("email", AnyString (u_Email u)); ("name", AnyString (u_Name u))].
Definition active_value (b : bool) : any := AnyMap [("is_active", AnyBool b)].

Definition log (l : L) (e : AuditEntry) : L := (auditor_Log l e).1.

Definition Audited_Create (ctx : Context) (e : Env U) (sl : State (U := U) (R := R) * L) (email password name : string)
    : (State (U := U) (R := R) * L) * result error UserResponse :=
  match Create Format e sl.1 email password name with
  | (s', Err err) => ((s', sl.2), Err err)
  | (s', Ok resp) =>
      let entry := with_values (NewAuditEntry ctx (e_now e) ActionCreate "user" (u_ID resp)) None (Some (profile resp)) in
      ((s', log sl.2 entry), Ok resp)
  end.

Definition Audited_Update (ctx : Context) (e : Env U) (sl : State (U := U) (R := R) * L) (id name email : string)
    : (State (U := U) (R := R) * L) * result error UserResponse :=
  match GetByID Format e sl.1 id with
  | Err err => (sl, Err err)
  | Ok oldUser =>
      match Update Format (later e) sl.1 id name email with
      | (s', Err err) => ((s', sl.2), Err err)
      | (s', Ok resp) =>
          let entry := with_values (NewAuditEntry ctx (e_now e) ActionUpdate "user" (u_ID resp))
                         (Some (profile oldUser)) (Some (profile resp)) in
          ((s', log sl.2 entry), Ok resp)
      end
  end.

Definition Audited_ChangePassword (ctx : Context) (e : Env U) (sl : State (U := U) (R := R) * L)
    (id currentPassword newPassword : string) : (State (U := U) (R := R) * L) * option error :=
  match ChangePassword e sl.1 id currentPassword newPassword with
  | (s', Some err) => ((s', sl.2), Some err)
  | (s', None) =>
      let entry := with_metadata (NewAuditEntry ctx (e_now e) ActionUpdate "user" id)
                     [("field", AnyString "password")] in
      ((s', log sl.2 entry), None)
  end.

Definition Audited_Delete (ctx : Context) (e : Env U) (sl : State (U := U) (R := R) * L) (id : string)
    : (State (U := U) (R := R) * L) * option error :=
  match GetByID Format e sl.1 id with
  | Err err => (sl, Some err)
  | Ok oldUser =>
      match Delete (later e) sl.1 id with
      | (s', Some err) => ((s', sl.2), Some err)
      | (s', None) =>
          let entry := with_values (NewAuditEntry ctx (e_now e) ActionDelete "user" id) (Some (profile oldUser)) None in
          ((s', log sl.2 entry), None)
      end
  end.

Definition Audited_Activate (ctx : Context) (e : Env U) (sl : State (U := U) (R := R) * L) (id : string)
    : (State (U := U) (R := R) * L) * option error :=
  match GetByID Format e sl.1 id with
  | Err err => (sl, Some err)
  | Ok oldUser =>
      match Activate (later e) sl.1 id with
      | (s', Some err) => ((s', sl.2), Some err)
      | (s', None) =>
          if negb (u_IsActive oldUser) then
            let entry := with_values (NewAuditEntry ctx (e_now e) ActionUpdate "user" id)
                           (Some (active_value false)) (Some (active_value true)) in
            ((s', log sl.2 entry), None)
          else ((s', sl.2), None)
      end
  end.

Definition Audited_Deactivate (ctx : Context) (e : Env U) (sl : State (U := U) (R := R) * L) (id : string)
    : (State (U := U) (R := R) * L) * option error :=
  match GetByID Format e sl.1 id with
  | Err err => (sl, Some err)
  | Ok oldUser =>
      match Deactivate (later e) sl.1 id with
      | (s', Some err) => ((s', sl.2), Some err)
      | (s', None) =>
          if u_IsActive oldUser then
            let entry := with_values (NewAuditEntry ctx (e_now e) ActionUpdate "user" id)
                           (Some (active_value true)) (Some (active_value false)) in
            ((s', log sl.2 entry), None)
          else ((s', sl.2), None)
      end
  end.

End audited.

(** ** Handlers *)

(** The [data] (and [meta]) members of the responses. *)
Inductive UserData :=
| DUser (u : UserResponse)
| DPage (items : list UserResponse) (meta : PaginationMeta).

Section handlers.
Context {U R L : Type} `{Uuid U} `{Postgres} `{Crypto} `{AuthRevoker R} `{Auditor L}.
Variable Format : Z → string.
Notation St := (State (U := U) (R := R) * L)%type.

(** [bound] is the outcome of [ValidateAndBind] or [ValidateQuery]; path parameters are
    arguments; [r] is the request the middleware passed on. *)
Definition answer (r : result error UserResponse) : Response UserData :=
  match r with Err err => Resp.Fail err | Ok u => Resp.Success (DUser u) end.

Definition h_GetByID (e : Env U) (sl : St) (id : string) : Response UserData := answer (GetByID Format e sl.1 id).

Definition h_List (e : Env U) (sl : St) (bound : result error ListUsersRequest) : option (Response UserData) :=
  match bound with
  | Err err => Some (HandleValidationError err)
  | Ok req =>
      match List_ Format e sl.1 req with
      | None => None
      | Some (Err err) => Some (Resp.Fail err)
      | Some (Ok page) => Some (Resp.Success (DPage (GetItems page) (GetMeta page)))
      end
  end.

Definition h_Create (ctx : Context) (e : Env U) (sl : St) (bound : result error (string * string * string))
    : St * Response UserData :=
  match bound with
  | Err err => (sl, HandleValidationError err)
  | Ok (email, password, name) =>
      match Audited_Create Format ctx e sl email password name with
      | (sl', Err err) => (sl', Resp.Fail err)
      | (sl', Ok u) => (sl', Resp.Created (DUser u))
      end
  end.

Definition h_Update (ctx : Context) (e : Env U) (sl : St) (id : string) (bound : result error (string * string))
    : St * Response UserData :=
  match bound with
  | Err err => (sl, HandleValidationError err)
  | Ok (name, email) => let '(sl', r) := Audited_Update Format ctx e sl id name email in (sl', answer r)
  end.

Definition reply (r : St * option error) (ok : Response UserData) : St * Response UserData :=
  match r with (sl', Some err) => (sl', Resp.Fail err) | (sl', None) => (sl', ok) end.

Definition h_ChangePassword (ctx : Context) (e : Env U) (sl : St) (r : Middleware.Request)
    (bound : result error (string * string)) : St * Response UserData :=
  let userID := Middleware.GetUserID r in
  if String.eqb userID "" then (sl, Resp.Unauthorized "")
  else match bound with
       | Err err => (sl, HandleValidationError err)
       | Ok (current, new) =>
           reply (Audited_ChangePassword ctx e sl userID current new) (Resp.Message "Password changed successfully")
       end.

Definition h_Delete (ctx : Context) (e : Env U) (sl : St) (id : string) : St * Response UserData :=
  reply (Audited_Delete Format ctx e sl id) Resp.NoContent.

Definition h_GetMe (e : Env U) (sl : St) (r : Middleware.Request) : Response UserData :=
  let userID := Middleware.GetUserID r in
  if String.eqb userID "" then Resp.Unauthorized "" else answer (GetByID Format e sl.1 userID).

Definition h_Activate (ctx : Context) (e : Env U) (sl : St) (id : string) : St * Response UserData :=
  reply (Audited_Activate Format ctx e sl id) (Resp.Message "User activated successfully").

Definition h_Deactivate (ctx : Context) (e : Env U) (sl : St) (id : string) : St * Response UserData :=
  reply (Audited_Deactivate Format ctx e sl id) (Resp.Message "User deactivated successfully").

End handlers.

End User.
