(* ===== verification/UserList.v ===== *)
(** * Listing users

    Properties of the paginated listing of [internal/module/user]: following the cursors of
    [List] through the whole chain (use case, repository, SQL, page constructor, JSON and
    base64 of the cursors). *)
From stdpp Require Import sorting.
From S2P Require Import Prelude AppErr Config Port Json Pagination Database User.
Import AppErr Config Json Pagination Database User.

Module UserList.

Definition id_lt {U} `{Uuid U} (x y : U * Row) : Prop := uuid_lt x.1 y.1.

(** ** The table in the order of its keys *)

Section sorted.
Context {U : Type} `{Uuid U}.

#[local] Instance id_le_total : base.Total (id_le (U := U)).
Proof.
  intros [a r] [b r']; unfold id_le; simpl. destruct (uuid_lt_total a b) as [?|[->|?]].
  - left. intros ?. by apply (irreflexivity uuid_lt a); trans b.
  - left. apply irreflexivity, _.
  - right. intros ?. by apply (irreflexivity uuid_lt a); trans b.
Qed.

#[local] Instance id_le_trans : Transitive (id_le (U := U)).
Proof.
  intros [a ra] [b rb] [c rc]; unfold id_le; simpl. intros Hab Hbc Hca.
  destruct (uuid_lt_total b c) as [Hlt|[->|?]]; [|done..]. apply Hab. by trans c.
Qed.

Lemma by_id_elem (t : Table U) u r : (u, r) ∈ by_id t ↔ t !! u = Some r.
Proof. unfold by_id. rewrite (merge_sort_Permutation id_le). apply (elem_of_map_to_list (M := gmap U)). Qed.

Lemma by_id_sorted (t : Table U) : StronglySorted id_lt (by_id t).
Proof.
  pose proof (StronglySorted_merge_sort id_le (map_to_list t)) as Hs. fold (by_id t) in Hs.
  assert (NoDup (by_id t).*1) as Hn.
  { unfold by_id. rewrite (merge_sort_Permutation id_le). apply (NoDup_fst_map_to_list (M := gmap U)). }
  induction Hs as [|x l Hl IH Hx]; [constructor|]. rewrite fmap_cons, NoDup_cons in Hn. destruct Hn as [Hni Hn].
  constructor; [by apply IH|]. apply Forall_forall. intros y Hy. rewrite Forall_forall in Hx.
  specialize (Hx y Hy). unfold id_le, id_lt in *. destruct (uuid_lt_total x.1 y.1) as [?|[Heq|?]]; [done| |done].
  exfalso. apply Hni. rewrite Heq. by apply list_elem_of_fmap_2.
Qed.

Lemma sorted_filter (P : U * Row → Prop) `{!∀ x, Decision (P x)} l :
  StronglySorted id_lt l → StronglySorted id_lt (filter P l).
Proof.
  induction 1 as [|x l Hl IH Hx]; [constructor|]. rewrite filter_cons. case_decide; [|done].
  constructor; [done|]. rewrite Forall_forall in *. intros y Hy. apply list_elem_of_filter in Hy as [_ Hy]. auto.
Qed.

(** In an ascending list the elements beyond one of its members are the ones after it. *)
Lemma filter_above l1 x l2 :
  StronglySorted id_lt (l1 ++ x :: l2) →
  filter (λ y : U * Row, bool_decide (uuid_lt x.1 y.1) = true) (l1 ++ x :: l2) = l2.
Proof.
  intros Hs. rewrite StronglySorted_app in Hs. destruct Hs as (H1 & _ & Hs%StronglySorted_cons).
  destruct Hs as [Hx _]. rewrite filter_app, filter_none.
  2: { apply Forall_forall. intros y Hy. rewrite bool_decide_eq_true. intros Hlt.
       specialize (H1 y x Hy ltac:(left)). unfold id_lt in H1.
       apply (irreflexivity uuid_lt (y.1)). by trans (x.1). }
  rewrite filter_cons_False by (rewrite bool_decide_eq_true; apply irreflexivity, _).
  simpl. apply filter_all. eapply Forall_impl; [exact Hx|]. intros y Hy. by rewrite bool_decide_eq_true.
Qed.

Lemma filter_below l1 x l2 :
  StronglySorted id_lt (l1 ++ x :: l2) →
  filter (λ y : U * Row, bool_decide (uuid_lt y.1 x.1) = true) (l1 ++ x :: l2) = l1.
Proof.
  intros Hs. rewrite StronglySorted_app in Hs. destruct Hs as (H1 & _ & Hs%StronglySorted_cons).
  destruct Hs as [Hx _]. rewrite filter_app, filter_all.
  2: { apply Forall_forall. intros y Hy. rewrite bool_decide_eq_true. apply H1; [done|left]. }
  rewrite filter_none, app_nil_r; [done|]. constructor.
  - rewrite bool_decide_eq_true. apply irreflexivity, _.
  - eapply Forall_impl; [exact Hx|]. intros y Hy. rewrite bool_decide_eq_true. intros Hlt.
    unfold id_lt in Hy. apply (irreflexivity uuid_lt (x.1)). by trans (y.1).
Qed.

End sorted.

(** ** One page *)

Section listing.
Context {U R : Type} `{Uuid U} `{Postgres}.
Context (Format : Z → string) (e : Env U) (s : State (U := U) (R := R)).
Context (limit : Z) (search email : option string) (active : option bool).
Hypothesis no_fault : e_fault e 0 = None.

Definition req (cursor : string) : ListUsersRequest := mkListUsersRequest cursor limit search email active.
Definition n : nat := Z.to_nat (NormalizeLimit limit).

(** The rows the filters select, in ascending order of their keys. *)
Definition selected : list (U * Row) :=
  filter (λ kr, listed (textParam search) (textParam email) active kr.2 = true) (by_id (users s)).

Definition respond (kr : U * Row) : UserResponse := toUserResponse Format (sqlcUserToDomain kr).
Definition cur (dir : string) (x : U * Row) : string := Encode (Some (mkCursor (uuid_String x.1) None dir)).

Lemma n_pos : (1 ≤ n)%nat.
Proof using. unfold n. pose proof (NormalizeLimit_range limit). lia. Qed.

Lemma selected_sorted : StronglySorted id_lt selected.
Proof using. apply sorted_filter, by_id_sorted. Qed.

Lemma filter_andb (f g : U * Row → bool) (l : list (U * Row)) :
  filter (λ x, f x && g x = true) l = filter (λ x, f x = true) (filter (λ x, g x = true) l).
Proof using.
  induction l as [|x l IH]; [done|]. rewrite !filter_cons.
  destruct (g x) eqn:Hg, (f x) eqn:Hf; simpl; rewrite ?Hf; simpl; rewrite ?filter_cons, ?Hf, ?IH; done.
Qed.

Lemma uuid_valid (u : U) : valid_utf8 (uuid_String u) = true.
Proof using.
  assert (∀ t, (∀ c, contains_byte c t = true → bval c <? 128 = true) → valid_from 0 t = true) as Hall.
  { induction t as [|c t IH]; [done|]. intros Ht. rewrite valid_ascii.
    - apply IH. intros c' Hc'. apply Ht. simpl. by rewrite Hc', orb_true_r.
    - apply Ht. simpl. by rewrite Ascii.eqb_refl. }
  apply Hall. intros c [d [Hd ->%Ascii.eqb_eq]]%uuid_chars%existsb_exists.
  simpl in Hd. repeat destruct Hd as [<-|Hd]; done.
Qed.

Lemma decode_cur dir x : valid_utf8 dir = true →
  String.eqb (cur dir x) "" = false ∧ DecodeCursor (cur dir x) = Ok (Some (mkCursor (uuid_String x.1) None dir)).
Proof using.
  intros Hd. destruct (encode_ok (mkCursor (uuid_String x.1) None dir)) as [Hne Hdec].
  - unfold cursor_ok. cbn [LastID LastValue Direction]. rewrite uuid_valid, Hd.
    by rewrite (proj2 (String.eqb_neq _ _)) by apply uuid_nonempty.
  - split; [by apply String.eqb_neq | done].
Qed.

Lemma nullable_id (u : U) : NullableUUID (uuid_String u) = Some u.
Proof using.
  unfold NullableUUID. rewrite (proj2 (String.eqb_neq _ _)) by apply uuid_nonempty. by rewrite uuid_parse_string.
Qed.

(** The cursors of a page are the ones of its first and last rows. *)
Lemma point_respond dir (x : option (U * Row)) :
  point (λ u, Some (mkCursor (u_ID u) None "")) dir (respond <$> x) = cur dir <$> x.
Proof using. by destruct x. Qed.

Lemma head_respond l : head (respond <$> l) = respond <$> head l.
Proof using. by destruct l. Qed.

Lemma normalized : f_Limit (NormalizeFilter (mkUserFilter "" (NormalizeLimit limit) "" None None None "" ""))
  = NormalizeLimit limit.
Proof using.
  pose proof (NormalizeLimit_range limit). unfold NormalizeFilter, MaxLimit, DefaultLimit in *. cbn [f_Limit].
  repeat case_match; to_prop; lia.
Qed.

(** The page a forward request returns when the rows after its cursor are [l]. *)
Definition fwd_page (l : list (U * Row)) (hasCursor : bool) : CursorPage UserResponse :=
  let more := (n <? length l)%nat in
  mkPage (respond <$> take n l)
    (mkMeta (if more then cur "next" <$> last (take n l) else None)
            (if hasCursor then cur "prev" <$> head (take n l) else None) more hasCursor None).

Lemma new_page_fwd l hasCursor dir : String.eqb dir "prev" = false →
  NewBidirectionalCursorPage (respond <$> take (n + 1) l) (NormalizeLimit limit) dir hasCursor
    (λ u, Some (mkCursor (u_ID u) None "")) = Some (fwd_page l hasCursor).
Proof using.
  intros Hd. pose proof (NormalizeLimit_range limit) as Hr.
  unfold NewBidirectionalCursorPage, fwd_page. rewrite Hd, length_fmap, length_take.
  assert (Z.of_nat (Nat.min (n + 1) (length l)) >? NormalizeLimit limit = (n <? length l)%nat) as ->.
  { unfold n. rewrite Z.gtb_ltb. apply eq_bool_prop_intro. rewrite !Is_true_true, Z.ltb_lt, Nat.ltb_lt. lia. }
  destruct (Nat.ltb_spec n (length l)) as [Hm|Hm]; cbn [negb].
  - unfold slice_to. rewrite (proj2 (Z.ltb_ge _ _)) by lia.
    change (Z.to_nat (NormalizeLimit limit)) with n.
    rewrite <-fmap_take, take_take, Nat.min_l by lia.
    by rewrite fmap_last, head_respond, !point_respond.
  - rewrite !(take_ge l) by lia. by rewrite head_respond, point_respond.
Qed.

(** The page a backward request returns when the rows before its cursor are [l]. *)
Definition bwd_page (l : list (U * Row)) : CursorPage UserResponse :=
  let extra := (n <? length l)%nat in
  let items := drop (length l - n) l in
  mkPage (respond <$> items)
    (mkMeta (cur "next" <$> last items) (if extra then cur "prev" <$> head items else None) true extra None).

Lemma new_page_bwd l :
  NewBidirectionalCursorPage (respond <$> drop (length l - (n + 1)) l) (NormalizeLimit limit) "prev" true
    (λ u, Some (mkCursor (u_ID u) None "")) = Some (bwd_page l).
Proof using.
  pose proof (NormalizeLimit_range limit) as Hr. pose proof n_pos.
  unfold NewBidirectionalCursorPage, bwd_page. rewrite length_fmap, length_drop.
  assert (Z.of_nat (length l - (length l - (n + 1))) >? NormalizeLimit limit = (n <? length l)%nat) as ->.
  { unfold n. rewrite Z.gtb_ltb. apply eq_bool_prop_intro. rewrite !Is_true_true, Z.ltb_lt, Nat.ltb_lt. lia. }
  change (String.eqb "prev" "prev") with true.
  destruct (Nat.ltb_spec n (length l)) as [Hm|Hm]; cbn [negb].
  - case_decide as Hnil.
    { apply (f_equal length) in Hnil. rewrite length_fmap, length_drop in Hnil. simpl in Hnil. lia. }
    rewrite <-fmap_drop, drop_drop. replace (length l - (n + 1) + 1)%nat with (length l - n)%nat by lia.
    by rewrite fmap_last, head_respond, !point_respond.
  - replace (length l - (n + 1))%nat with 0%nat by lia. replace (length l - n)%nat with 0%nat by lia.
    rewrite !drop_0. by rewrite fmap_last, point_respond.
Qed.

(** ** The three kinds of requests *)

Lemma limit_norm c dir :
  Z.to_nat (f_Limit (NormalizeFilter (mkUserFilter c (NormalizeLimit limit) dir search email active "" "")) + 1)
  = (n + 1)%nat.
Proof using.
  pose proof (NormalizeLimit_range limit) as Hr. unfold n.
  change (f_Limit _) with (f_Limit (NormalizeFilter (mkUserFilter "" (NormalizeLimit limit) "" None None None "" ""))).
  rewrite normalized. lia.
Qed.

Lemma responses l : map (toUserResponse Format) (map sqlcUserToDomain l) = respond <$> l.
Proof using. induction l as [|x l IH]; [done|]. simpl. by rewrite IH. Qed.

Lemma list_first : List_ Format e s (req "") = Some (Ok (fwd_page selected false)).
Proof using no_fault.
  unfold List_, req. cbn -[Repository_List NewBidirectionalCursorPage]. unfold Repository_List. rewrite no_fault.
  cbn [f_Direction f_Cursor f_Search f_Email f_IsActive NormalizeFilter].
  change (String.eqb "" "prev") with false. cbv iota. unfold ListUsers.
  cbn [NullableUUID String.eqb]. rewrite limit_norm.
  cbn [andb]. fold selected. by rewrite responses, new_page_fwd.
Qed.

Lemma list_next l1 x l2 : selected = l1 ++ x :: l2 →
  List_ Format e s (req (cur "next" x)) = Some (Ok (fwd_page l2 true)).
Proof using no_fault.
  intros Hsel. destruct (decode_cur "next" x) as [Hne Hdec]; [done|].
  unfold List_, req. cbn [l_Cursor l_Limit l_Search l_Email l_IsActive]. rewrite Hne, Hdec.
  cbn [LastID Direction]. unfold Repository_List. rewrite no_fault.
  cbn [f_Direction f_Cursor f_Search f_Email f_IsActive NormalizeFilter].
  change (String.eqb "next" "prev") with false. cbv iota. unfold ListUsers.
  rewrite nullable_id, limit_norm, filter_andb. fold selected. rewrite Hsel, filter_above by (rewrite <-Hsel; apply selected_sorted).
  by rewrite responses, new_page_fwd.
Qed.

Lemma list_prev l1 x l2 : selected = l1 ++ x :: l2 →
  List_ Format e s (req (cur "prev" x)) = Some (Ok (bwd_page l1)).
Proof using no_fault.
  intros Hsel. destruct (decode_cur "prev" x) as [Hne Hdec]; [done|].
  unfold List_, req. cbn [l_Cursor l_Limit l_Search l_Email l_IsActive]. rewrite Hne, Hdec.
  cbn [LastID Direction]. unfold Repository_List. rewrite no_fault.
  cbn [f_Direction f_Cursor f_Search f_Email f_IsActive NormalizeFilter].
  change (String.eqb "prev" "prev") with true. cbv iota. unfold ListUsersPrev.
  rewrite nullable_id, limit_norm, filter_andb, !filter_reverse. fold selected.
  rewrite Hsel, filter_below by (rewrite <-Hsel; apply selected_sorted).
  rewrite take_reverse, reverse_involutive.
  by rewrite responses, new_page_bwd.
Qed.

(** ** Following the cursors *)

(** The rows of the pages reached through the next cursors, and whether the last page was
    reached. *)
Fixpoint walk (fuel : nat) (cursor : string) : list UserResponse * bool :=
  match fuel with
  | O => ([], false)
  | S fuel' =>
      match List_ Format e s (req cursor) with
      | Some (Ok page) =>
          match NextCursor (Meta page) with
          | Some c => let '(rest, done) := walk fuel' c in (Items page ++ rest, done)
          | None => (Items page, true)
          end
      | _ => ([], false)
      end
  end.

Lemma last_take_split (l : list (U * Row)) :
  (n < length l)%nat → ∃ k x, last (take n l) = Some x ∧ take n l = k ++ [x] ∧ l = k ++ x :: drop n l.
Proof using.
  intros Hl. pose proof n_pos. destruct (last (take n l)) as [x|] eqn:Hx.
  - apply last_Some in Hx as [k Hk]. exists k, x. split_and!; [done|done|].
    rewrite <-(take_drop n l) at 1. by rewrite Hk, <-app_assoc.
  - apply last_None in Hx. apply (f_equal length) in Hx. rewrite length_take in Hx. simpl in Hx. lia.
Qed.

Lemma walk_page fuel cursor l b :
  List_ Format e s (req cursor) = Some (Ok (fwd_page l b)) →
  (∀ k x, l = k ++ x :: drop n l → (n < length l)%nat →
     walk fuel (cur "next" x) = (respond <$> drop n l, true)) →
  walk (S fuel) cursor = (respond <$> l, true).
Proof using.
  intros Hlist Hnext. cbn [walk]. rewrite Hlist. cbn [fwd_page Meta Items NextCursor].
  destruct (Nat.ltb_spec n (length l)) as [Hm|Hm].
  - destruct (last_take_split l Hm) as (k & x & -> & _ & Hl). cbn [fmap option_fmap option_map].
    rewrite (Hnext k x Hl Hm), <-fmap_app, take_drop. done.
  - by rewrite take_ge by lia.
Qed.

Lemma walk_from l1 x l2 fuel :
  selected = l1 ++ x :: l2 → (length l2 < fuel)%nat → walk fuel (cur "next" x) = (respond <$> l2, true).
Proof using no_fault.
  revert l1 x l2. induction fuel as [|fuel IH]; intros l1 x l2 Hsel Hf; [lia|].
  eapply walk_page; [by eapply list_next|]. intros k y Hk Hm.
  apply (IH (l1 ++ x :: k) y (drop n l2)).
  - rewrite Hsel, Hk at 1. by rewrite <-app_assoc.
  - rewrite length_drop. pose proof n_pos. lia.
Qed.

Lemma selected_len : (length selected ≤ size (users s))%nat.
Proof using.
  unfold selected, by_id. etrans; [apply length_filter|].
  rewrite (merge_sort_Permutation id_le). apply Nat.eq_le_incl, (length_map_to_list (M := gmap U)).
Qed.

Lemma repo_list_len fault f rows : Repository_List fault (users s) f = Ok rows →
  Z.of_nat (length rows) ≤ f_Limit (NormalizeFilter f) + 1.
Proof using.
  assert (0 ≤ f_Limit (NormalizeFilter f)) as Hf.
  { unfold NormalizeFilter, DefaultLimit, MaxLimit. cbn [f_Limit]. repeat case_match; to_prop; lia. }
  unfold Repository_List. set (g := NormalizeFilter f) in *. clearbody g. cbv zeta.
  unfold ListUsers, ListUsersPrev. destruct (String.eqb (f_Direction g) "prev"), fault; try done;
    intros [= <-]; rewrite length_map, ?length_reverse, length_take; lia.
Qed.

Lemma new_page_len {T} (data : list T) lim dir b fn page : 0 ≤ lim → Z.of_nat (length data) ≤ lim + 1 →
  NewBidirectionalCursorPage data lim dir b fn = Some page → Z.of_nat (length (Items page)) ≤ lim.
Proof using.
  intros Hlim Hd. unfold NewBidirectionalCursorPage, slice_to.
  destruct (Z.of_nat (length data) >? lim) eqn:Hx; rewrite Z.gtb_ltb in Hx; to_prop;
    destruct (String.eqb dir "prev"); cbn [negb]; repeat case_match; intros; simplify_eq/=;
    rewrite ?length_drop, ?length_take; lia.
Qed.

Lemma page_len cursor page : List_ Format e s (req cursor) = Some (Ok page) → (length (Items page) ≤ n)%nat.
Proof using.
  unfold List_, req. cbn [l_Cursor l_Limit l_Search l_Email l_IsActive]. intros Hl.
  pose proof (NormalizeLimit_range limit) as Hr.
  destruct (if String.eqb cursor "" then _ else _) as [c|]; [|done].
  destruct (Repository_List _ _ _) as [us|] eqn:Hrep; [|done].
  apply repo_list_len in Hrep. change (f_Limit (NormalizeFilter _)) with
    (f_Limit (NormalizeFilter (mkUserFilter "" (NormalizeLimit limit) "" None None None "" ""))) in Hrep.
  rewrite normalized in Hrep.
  destruct (NewBidirectionalCursorPage _ _ _ _ _) as [p|] eqn:Hp; [|done]. simplify_eq.
  eapply new_page_len in Hp; [unfold n; lia|lia|]. by rewrite length_map.
Qed.

(** The cursors a client reaches by following next cursors. *)
Inductive forward_cursor : string → Prop :=
| forward_first : forward_cursor ""
| forward_next c p c' :
    forward_cursor c → List_ Format e s (req c) = Some (Ok p) → NextCursor (Meta p) = Some c' →
    forward_cursor c'.

Lemma next_cursor_split l b c : NextCursor (Meta (fwd_page l b)) = Some c →
  ∃ k x y l', c = cur "next" x ∧ take n l = k ++ [x] ∧ l = k ++ x :: y :: l' ∧ drop n l = y :: l'.
Proof using.
  cbn [fwd_page Meta NextCursor]. destruct (Nat.ltb_spec n (length l)) as [Hm|]; [|done].
  destruct (last_take_split l Hm) as (k & x & -> & Hk & Hl). intros [= <-].
  destruct (drop n l) as [|y l'] eqn:Hd; [|naive_solver].
  apply (f_equal length) in Hd. rewrite length_drop in Hd. simpl in Hd. lia.
Qed.

Lemma forward_inv c : forward_cursor c →
  ∃ l1 l2 b, selected = l1 ++ l2 ∧ List_ Format e s (req c) = Some (Ok (fwd_page l2 b)).
Proof using no_fault.
  induction 1 as [|c p c' _ (l1 & l2 & b & Hsel & Hp) Hp' Hc].
  - exists [], selected, false. split; [done|]. apply list_first.
  - rewrite Hp in Hp'. injection Hp' as <-. apply next_cursor_split in Hc as (k & x & y & l' & -> & _ & Hl & _).
    exists (l1 ++ k ++ [x]), (y :: l'), true. split; [by rewrite Hsel, Hl, <-!app_assoc|].
    apply (list_next (l1 ++ k)). by rewrite Hsel, Hl, <-app_assoc.
Qed.

Lemma prev_page l1 l2 b c :
  selected = l1 ++ l2 → NextCursor (Meta (fwd_page l2 b)) = Some c →
  ∃ p' back q, List_ Format e s (req c) = Some (Ok p') ∧ Items p' ≠ [] ∧ PrevCursor (Meta p') = Some back ∧
    List_ Format e s (req back) = Some (Ok q) ∧ Items q = Items (fwd_page l2 b) ∧ NextCursor (Meta q) = Some c.
Proof using no_fault.
  intros Hsel Hc. pose proof n_pos. apply next_cursor_split in Hc as (k & x & y & l' & -> & Hk & Hl & _).
  destruct n as [|n'] eqn:Hn; [lia|]. rewrite <-Hn in *.
  exists (fwd_page (y :: l') true), (cur "prev" y), (bwd_page (l1 ++ k ++ [x])).
  assert (length (k ++ [x]) = n) as Hlen.
  { pose proof (f_equal length Hl) as Hl'. pose proof (f_equal length Hk) as Hk'.
    rewrite length_take in Hk'. rewrite length_app in Hl', Hk' |- *. simpl in *. lia. }
  assert (drop (length (l1 ++ k ++ [x]) - n) (l1 ++ k ++ [x]) = k ++ [x]) as Hdrop.
  { rewrite length_app, Hlen, Nat.add_sub. apply drop_app_length. }
  split_and!.
  - apply (list_next (l1 ++ k)). by rewrite Hsel, Hl, <-app_assoc.
  - cbn [fwd_page Items]. rewrite Hn. done.
  - cbn [fwd_page Meta PrevCursor]. by rewrite Hn.
  - apply (list_prev _ _ l'). rewrite Hsel, Hl, <-!app_assoc. done.
  - cbn [bwd_page fwd_page Items]. by rewrite Hdrop, Hk.
  - cbn [bwd_page Meta NextCursor]. by rewrite Hdrop, last_snoc.
Qed.

End listing.


(** C12: going back undoes going forward: from any page reached through next cursors that has
    a further page, the page at its next cursor is not empty and carries a previous cursor,
    and the request with that cursor returns the same users in the same order, again with
    the next cursor one came from. *)
Theorem prev_undoes_next {U R : Type} `{Uuid U} `{Postgres} (Format : Z → string) (e : Env U)
    (s : State (U := U) (R := R)) (limit : Z) (search email : option string) (active : option bool)
    (c c' : string) (p : CursorPage UserResponse) :
  e_fault e 0 = None →
  forward_cursor Format e s limit search email active c →
  List_ Format e s (req limit search email active c) = Some (Ok p) →
  NextCursor (Meta p) = Some c' →
  ∃ p' back q, List_ Format e s (req limit search email active c') = Some (Ok p') ∧ Items p' ≠ [] ∧
    PrevCursor (Meta p') = Some back ∧
    List_ Format e s (req limit search email active back) = Some (Ok q) ∧
    Items q = Items p ∧ NextCursor (Meta q) = Some c'.
Proof.
  intros Hf Hc Hp Hn. destruct (forward_inv _ _ _ _ _ _ _ Hf _ Hc) as (l1 & l2 & b & Hsel & Hp').
  rewrite Hp in Hp'. injection Hp' as ->. by eapply prev_page.
Qed.

(** ** A concrete table *)

Module Sample.
#[local] Existing Instance BoolUuid.
Definition pg : Postgres := {| ilike _ _ := true |}.
#[local] Existing Instance pg.

Definition row (mail : string) (b : bool) : Row := mkRow mail "h" "N" (Some b) (Some 0) None.
Definition table : Table bool := <[true := row "b@x.io" true]> {[false := row "a@x.io" false]}.
Definition st : State (U := bool) (R := unit) := mkState table None.
Definition env : Env bool := mkEnv 0 false (λ _, None) (mkTxAnswers None None None false).
Definition fmt (z : Z) : string := pretty z.

Definition page1 : CursorPage UserResponse :=
  match List_ fmt env st (req 1 None None None "") with
  | Some (Ok p) => p
  | _ => mkPage [] (mkMeta None None false false None)
  end.
Definition cursor1 : string := default "" (NextCursor (Meta page1)).
End Sample.

Section witnesses.
Import Sample.
#[local] Existing Instances BoolUuid Sample.pg.


Lemma prev_undoes_next_witness :
  NextCursor (Meta page1) = Some cursor1 ∧ length (Items page1) = 1%nat ∧
  ∃ p' back q, List_ fmt env st (req 1 None None None cursor1) = Some (Ok p') ∧ Items p' ≠ [] ∧
    PrevCursor (Meta p') = Some back ∧ List_ fmt env st (req 1 None None None back) = Some (Ok q) ∧
    Items q = Items page1 ∧ NextCursor (Meta q) = Some cursor1.
Proof.
  split; [vm_compute; reflexivity|]. split; [vm_compute; reflexivity|].
  apply (prev_undoes_next fmt env st 1 None None None "" cursor1 page1);
    [reflexivity | constructor | vm_compute; reflexivity | vm_compute; reflexivity].
Defined.
End witnesses.

End UserList.
