(* ===== verification/UserProps.v ===== *)
(** * Properties of the user module

    Creation, password changes with the revocation of sessions, deactivation, and the audit
    trail of status changes, for the definitions of [User] together with the sessions of
    [Auth].  The requests of a theorem run one after the other. *)
From S2P Require Import Prelude AppErr Base64 Config Port Database Cache Auth User.
Import AppErr Config Database CacheAdapter Auth User.

Module UserProps.

(** ** The table *)

Section table.
Context {U : Type} `{Uuid U}.

Definition emails_unique (t : Table U) : Prop :=
  ∀ u1 u2 r1 r2, t !! u1 = Some r1 → t !! u2 = Some r2 → Email r1 = Email r2 → u1 = u2.

Lemma email_taken_spec (t : Table U) id email :
  email_taken t id email = true ↔ ∃ u r, t !! u = Some r ∧ Some u ≠ id ∧ Email r = email.
Proof.
  unfold email_taken. rewrite existsb_exists. split.
  - intros ([u r] & Hin & Hb). to_prop. exists u, r. split_and!; [|done|done].
    apply (elem_of_map_to_list (M := gmap U)). by apply list_elem_of_In.
  - intros (u & r & Hu & Hid & He). exists (u, r). split.
    + apply list_elem_of_In. by apply (elem_of_map_to_list (M := gmap U)).
    + simpl. rewrite bool_decide_eq_false_2 by done. by apply String.eqb_eq.
Qed.

Lemma alter_unique (f : Row → Row) (t : Table U) u :
  (∀ r, Email (f r) = Email r) → emails_unique t → emails_unique (alter f u t).
Proof.
  intros Hf Ht u1 u2 r1 r2 H1 H2 He.
  assert (∀ v r, alter f u t !! v = Some r → ∃ r0, t !! v = Some r0 ∧ Email r0 = Email r) as Hback.
  { intros v r. destruct (decide (u = v)) as [->|Hne].
    - rewrite lookup_alter_eq. destruct (t !! v) as [r0|]; [|done]. intros [= <-]. eauto.
    - rewrite lookup_alter_ne by done. eauto. }
  destruct (Hback _ _ H1) as (? & ? & ?), (Hback _ _ H2) as (? & ? & ?). eapply Ht; eauto; congruence.
Qed.

Lemma insert_unique (t : Table U) u r :
  email_taken t (Some u) (Email r) = false → emails_unique t → emails_unique (<[u := r]> t).
Proof.
  intros Hfree Ht u1 u2 r1 r2 H1 H2 He.
  assert (∀ v rv, v ≠ u → t !! v = Some rv → Email rv ≠ Email r) as Hne.
  { intros v rv Hv Hl Heq. apply not_true_iff_false in Hfree. apply Hfree, email_taken_spec. naive_solver. }
  rewrite lookup_insert in H1, H2. repeat case_decide; simplify_eq/=; try done.
  - by destruct (Hne u1 r1).
  - by destruct (Hne u2 r2).
  - by eapply Ht.
Qed.

Lemma taken_weaken (t : Table U) u email :
  t !! u = None → email_taken t None email = false → email_taken t (Some u) email = false.
Proof.
  rewrite <-!not_true_iff_false, !email_taken_spec. naive_solver.
Qed.

End table.

(** ** Creation *)

(** The repository as the auth module sees it. *)
Definition auth_repo {U} `{Uuid U} (t : Table U) : UserRepo U :=
  mkUserRepo (Repository_GetByEmail None t) (Repository_GetByID None t).

Section creation.
Context {U R : Type} `{Uuid U} `{Crypto} `{AuthRevoker R}.
Context (Format : Z → string).
Notation St := (State (U := U) (R := R)).

Lemma find_email (t : Table U) u r :
  emails_unique t → t !! u = Some r → IsActive r = Some true →
  Repository_GetByEmail None t (Email r) = Ok (sqlcUserToDomain (u, r)).
Proof.
  intros Ht Hu Ha. unfold Repository_GetByEmail, GetUserByEmail.
  destruct (List.find _ _) as [[u' r']|] eqn:Hf.
  - apply find_some in Hf as [Hin Hb]. to_prop. simpl in *.
    apply list_elem_of_In, (elem_of_map_to_list (M := gmap U)) in Hin.
    assert (u' = u) as -> by (eapply Ht; eauto). by simplify_eq.
  - exfalso. eapply find_none in Hf; [|apply list_elem_of_In, (elem_of_map_to_list (M := gmap U)), Hu].
    simpl in Hf. rewrite String.eqb_refl, Ha, bool_decide_eq_true_2 in Hf; done.
Qed.

Lemma no_email (t : Table U) email :
  (∀ u r, t !! u = Some r → Email r = email → IsActive r ≠ Some true) →
  ∃ err, Repository_GetByEmail None t email = Err err.
Proof.
  intros Hno. unfold Repository_GetByEmail, GetUserByEmail. destruct (List.find _ _) as [[u r]|] eqn:Hf; [|eauto].
  exfalso. apply find_some in Hf as [Hin Hb]. to_prop. simpl in *.
  apply list_elem_of_In, (elem_of_map_to_list (M := gmap U)) in Hin. by eapply Hno.
Qed.

Lemma get_by_id (t : Table U) u r : t !! u = Some r →
  Repository_GetByID None t (uuid_String u) = Ok (sqlcUserToDomain (u, r)).
Proof. intros Hu. unfold Repository_GetByID, GetUserByID. by rewrite uuid_parse_string, Hu. Qed.

Lemma exists_taken (t : Table U) email : email_taken t None email = false →
  UserExistsByEmail None t email = Ok false.
Proof.
  intros Hn. unfold UserExistsByEmail. f_equal. apply not_true_iff_false. rewrite existsb_exists.
  intros ([u r] & Hin & Hb). to_prop. simpl in *. apply not_true_iff_false in Hn. apply Hn, email_taken_spec.
  exists u, r. split_and!; [|done|done]. apply (elem_of_map_to_list (M := gmap U)). by apply list_elem_of_In.
Qed.

(** C38: creating an account works and is durable: when no statement fails, the drawn
    identifier is fresh and nobody holds the address, the account is stored active with the
    hash of the password, the other accounts are untouched, the account is found again under
    the identifier in the answer and by its address (so its owner can log in), and creating
    the same address again is a conflict that changes nothing. *)
Theorem create_roundtrip (e : Env U) (s : St) (email password name hash : string) :
  emails_unique (users s) → bcrypt_hash password = Ok hash →
  (∀ k, e_fault e k = None) → e_tx e = mkTxAnswers None None None false →
  users s !! e_newID e = None → email_taken (users s) None email = false →
  ∃ s' resp r, Create Format e s email password name = (s', Ok resp) ∧
    users s' = <[e_newID e := r]> (users s) ∧ revoker s' = revoker s ∧
    (Email r, PasswordHash r, Name r, IsActive r) = (email, hash, name, Some true) ∧
    u_ID resp = uuid_String (e_newID e) ∧ GetByID Format e s' (u_ID resp) = Ok resp ∧
    repo_GetByEmail (auth_repo (users s')) email = Ok (sqlcUserToDomain (e_newID e, r)) ∧
    (∀ pw' name' e', (∀ k, e_fault e' k = None) → begin_err (e_tx e') = None → is_ok (bcrypt_hash pw') = true →
       ∃ err, Create Format e' s' email pw' name' = (s', Err err) ∧ public_part err = public_part (emailExists email)).
Proof.
  intros Huniq Hh Hf Htx Hid Hfree.
  set (r := mkRow email hash name (Some true) (Some (e_now e)) (Some (e_now e))).
  set (t' := <[e_newID e := r]> (users s)).
  assert (emails_unique t') as Huniq' by (apply insert_unique; [by apply taken_weaken | done]).
  assert (t' !! e_newID e = Some r) as Hl by apply lookup_insert_eq.
  exists (mkState t' (revoker s)), (toUserResponse Format (sqlcUserToDomain (e_newID e, r))), r.
  split_and!; try done.
  - unfold Create. rewrite Hh, Htx. unfold WithTx. cbn [begin_err commit_err].
    unfold create_tx, create_check, Repository_ExistsByEmail. rewrite !Hf, exists_taken by done.
    unfold Repository_Create, CreateUser.
    by rewrite bool_decide_eq_false_2, Hfree by (rewrite Hid; by intros []).
  - unfold GetByID. rewrite Hf. cbn [users u_ID toUserResponse user_ID sqlcUserToDomain PgtypeToUUID fst].
    by rewrite (get_by_id t' _ r Hl).
  - apply (find_email t' _ r); done.
  - intros pw' name' e' Hf' Hb Hok. cbn [users]. unfold Create.
    destruct (bcrypt_hash pw') as [hash'|]; [|done].
    assert (create_tx e' email hash' name' t' = (t', None, Returned (Some (emailExists email)))) as Htx'.
    { unfold create_tx, create_check, Repository_ExistsByEmail, UserExistsByEmail. rewrite Hf'.
      destruct (existsb _ _); [done|]. unfold Repository_Create, CreateUser. rewrite Hf'.
      case_bool_decide; [done|]. rewrite (proj2 (email_taken_spec t' None email)); [done|].
      exists (e_newID e), r. done. }
    destruct (WithTx _ _ _) as [[t2 a] out] eqn:Hw. cbn [users] in Hw.
    destruct (WithTx_public _ _ _ _ _ _ _ _ _ Hb Htx' Hw) as (-> & -> & err & -> & Hp).
    cbn [revoker]. eauto.
Qed.

End creation.

(** ** Passwords and sessions *)

Section sessions.
Context {U C : Type} `{Uuid U} `{CacheSafety C} `{Crypto}.
Context (jwtCfg : JWTConfig).
Notation St := (State (U := U) (R := C)).

Lemma auth_repo_by_id (t : Table U) v usr :
  repo_GetByID (auth_repo t) v = Ok usr → uuid_Parse v = Some (user_ID usr).
Proof.
  cbn [auth_repo repo_GetByID]. unfold Repository_GetByID, GetUserByID.
  destruct (uuid_Parse v) as [u|]; [|done]. destruct (t !! u); [|done]. by intros [= <-].
Qed.

(** What [ChangePassword] leaves in the table. *)
Definition with_password (hash : string) (now : Z) (r : Row) : Row :=
  if bool_decide (IsActive r = Some true)
  then mkRow (Email r) hash (Name r) (IsActive r) (CreatedAt r) (Some now) else r.

Lemma change_password_inv (e : Env U) (s s' : St) u cur new out :
  ChangePassword e s (uuid_String u) cur new = (s', out) →
  (s' = s ∧ is_Some out) ∨
  ∃ r hash, users s !! u = Some r ∧ bcrypt_matches (PasswordHash r) cur = true ∧ bcrypt_hash new = Ok hash ∧
    users s' = alter (with_password hash (e_now e)) u (users s) ∧
    match revoker s with
    | None => revoker s' = None ∧ out = None
    | Some c => revoker s' = Some (RevokeAllForUser c (uuid_String u)).1 ∧
        out = (λ err, FmtError "password updated but refresh token revocation failed: " err "") <$>
                (RevokeAllForUser c (uuid_String u)).2
    end.
Proof.
  unfold ChangePassword, Repository_GetByID, GetUserByID. rewrite uuid_parse_string.
  destruct (e_fault e 0) as [err|]; [by intros [= <- <-]; left; eauto|].
  destruct (users s !! u) as [r|] eqn:Hu; [|by intros [= <- <-]; left; eauto].
  cbn [sqlcUserToDomain user_PasswordHash snd]. destruct (bcrypt_matches _ _) eqn:Hm; cbn [negb];
    [|by intros [= <- <-]; left; eauto].
  destruct (bcrypt_hash new) as [hash|] eqn:Hh; [|by intros [= <- <-]; left; eauto].
  unfold Repository_UpdatePassword, exec_by_id, UpdatePassword, exec. rewrite uuid_parse_string.
  destruct (e_fault e 1) as [err|]; [by intros [= <- <-]; left; destruct s; eauto|].
  intros Hs. right. exists r, hash. cbn [revoke_all auth_revoker] in Hs.
  destruct (revoker s) as [c|]; [destruct (RevokeAllForUser c _) as [c' [err|]]|]; injection Hs as <- <-;
    split_and!; done.
Qed.

(** A session request, or keys expiring, while the table is anything. *)
Definition any_step (who : User U → Prop) (c c' : C) : Prop := ∃ t, session_step (auth_repo t) jwtCfg who c c'.

Lemma any_steps_canonical who c c' : rtc (any_step who) c c' → canonical (U := U) c → canonical (U := U) c'.
Proof. induction 1 as [|???[t Ht]]; eauto using step_canonical. Qed.

Lemma any_steps_no_index u c c' :
  rtc (any_step (λ usr, user_ID usr ≠ u)) c c' → canonical (U := U) c → no_index u c →
  canonical (U := U) c' ∧ no_index u c'.
Proof.
  induction 1 as [|???[t Ht] _ IH]; [done|]. intros Hc Hn.
  apply IH; [by eapply step_canonical | by eapply (step_no_index _ _ (auth_repo_by_id t))].
Qed.

(** C14: a password change, with the auth module as the revoker and a cache that only session
    requests have filled.  When it reports success the current password was right, and every
    session of the user is over - whatever requests follow, one after the other, and however the
    table changes, short of a new login of that user, no refresh token yields an access token
    for them.  When the account is active its row has the hash of the new password now; an
    inactive account keeps its old hash, since the statement matches active rows only and its
    count is not looked at.  No other account changes.  A change that reports a failure left the
    table as it was, except for the failure to revoke, which says so. *)
Theorem change_password_revokes (e : Env U) (s s' : St) (c0 c : C) (u : U) (cur new : string) (out : option error) :
  live c0 = ∅ → rtc (any_step (λ _, True)) c0 c →
  revoker s = Some c → ChangePassword e s (uuid_String u) cur new = (s', out) →
  match out with
  | Some err => users s' = users s ∨ ∃ cause, err = FmtError "password updated but refresh token revocation failed: " cause ""
  | None => ∃ c' r hash,
      revoker s' = Some c' ∧ users s !! u = Some r ∧ bcrypt_matches (PasswordHash r) cur = true ∧
      bcrypt_hash new = Ok hash ∧
      (∃ r', users s' !! u = Some r' ∧
         PasswordHash r' = (if bool_decide (IsActive r = Some true) then hash else PasswordHash r)) ∧
      users s' = alter (with_password hash (e_now e)) u (users s) ∧
      ∀ c'' t o token resp,
        rtc (any_step (λ usr, user_ID usr ≠ u)) c' c'' →
        (Refresh (auth_repo t) jwtCfg c'' o token).2 = Ok resp →
        ∃ usr, user_ID usr ≠ u ∧
          generateAccessToken jwtCfg (now o) (uuid_String (user_ID usr)) (user_Email usr) (user_Name usr)
            = Ok (r_AccessToken resp)
  end.
Proof.
  intros Hempty Hreach Hrev Hcp. pose proof (change_password_inv _ _ _ _ _ _ _ Hcp) as Hinv. rewrite Hrev in Hinv.
  destruct (RevokeAllForUser c (uuid_String u)) as [c' [err|]] eqn:Hr;
    destruct Hinv as [[-> [? ->]]|(r & hash & Hu & Hm & Hh & Ht & Hc' & ->)]; cbn; try (by left); try (by right; eauto).
  exists c', r, hash. split_and!; [done..| |done|].
  { exists (with_password hash (e_now e) r). rewrite Ht, lookup_alter_eq, Hu. split; [done|]. unfold with_password. by case_bool_decide. }
  intros c'' t o token resp Hlater Hok.
  assert (canonical (U := U) c) as Hc.
  { eapply any_steps_canonical; [exact Hreach|]. intros k v. by rewrite Hempty, lookup_empty. }
  pose proof (revoke_canonical _ _ _ _ Hr Hc) as Hcan. pose proof (revoke_no_index _ _ _ Hr) as Hno.
  destruct (any_steps_no_index u c' c'' Hlater Hcan Hno) as [Hc2 Hn2].
  destruct (refresh_ok_inv _ _ _ _ _ _ Hok) as (uid & idx & usr & Hl & Hi & Hg & Ha).
  exists usr. split; [|done]. by eapply (no_index_refresh _ (auth_repo_by_id t)).
Qed.

End sessions.

(** ** Deactivation *)

Section deactivation.
Context {U C : Type} `{Uuid U} `{CacheRetention C} `{Crypto}.
Context (jwtCfg : JWTConfig).
Notation St := (State (U := U) (R := C)).

Lemma deactivate_row (e : Env U) (s s' : St) u r :
  users s !! u = Some r → IsActive r = Some true → Deactivate e s (uuid_String u) = (s', None) →
  users s' = alter (set_active false (e_now e)) u (users s).
Proof.
  intros Hu Ha. unfold Deactivate, Repository_GetByID, GetUserByID. rewrite uuid_parse_string.
  destruct (e_fault e 0) as [|]; [done|]. rewrite Hu. cbn [sqlcUserToDomain user_IsActive snd]. rewrite Ha. cbn [negb].
  unfold Repository_Deactivate, exec_by_id, DeactivateUser, exec. rewrite uuid_parse_string.
  destruct (e_fault e 1) as [|]; [done|]. by intros [= <-].
Qed.

(** Deactivating an account refuses its next login but does not end its sessions: the
    address no longer logs in with any password, while a refresh token issued before still
    yields a new access token and a new refresh token ([Refresh] reads the account without
    looking at its status). *)
Theorem deactivation_keeps_sessions (e : Env U) (s s' : St) (u : U) (r : Row) (c : C) (token bytes at' : string) (o : Oracle) :
  emails_unique (users s) → users s !! u = Some r → IsActive r = Some true →
  Deactivate e s (uuid_String u) = (s', None) →
  usable c (uuid_String u) token → rand_Read o = Ok bytes →
  generateAccessToken jwtCfg (now o) (uuid_String u) (Email r) (Name r) = Ok at' →
  (∀ c' o' pw, Login (auth_repo (users s')) jwtCfg c' o' (Email r) pw = (c', Err invalidCredentials)) ∧
  ∃ c2, Refresh (auth_repo (users s')) jwtCfg c o token =
    (c2, Ok (mkRefreshResponse at' (Base64.encode bytes) (wrap64 (AccessTokenTTL jwtCfg * 60)) "Bearer")).
Proof.
  intros Huniq Hu Ha Hd Huse Hb Hat. pose proof (deactivate_row _ _ _ _ _ Hu Ha Hd) as Ht.
  assert (users s' !! u = Some (set_active false (e_now e) r)) as Hl by (by rewrite Ht, lookup_alter_eq, Hu).
  assert (emails_unique (users s')) as Huniq' by (rewrite Ht; by apply alter_unique).
  split.
  - intros c' o' pw. unfold Login. cbn [auth_repo repo_GetByEmail].
    destruct (no_email (users s') (Email r)) as [err ->]; [|done].
    intros v rv Hv Hev. assert (v = u) as -> by (eapply Huniq'; eauto). by simplify_eq/=.
  - destruct (refresh_usable (auth_repo (users s')) jwtCfg c o token (uuid_String u)
      (sqlcUserToDomain (u, set_active false (e_now e) r)) at' bytes) as (c2 & Hr & _);
      [done | by apply get_by_id | done | done |]. eauto.
Qed.

End deactivation.

(** ** Audit trail *)

(** An auditor that keeps its entries. *)
#[export] Instance list_auditor : Auditor (list AuditEntry) := {| auditor_Log l x := (l ++ [x], None) |}.

Section audit.
Context {U R : Type} `{Uuid U} `{Crypto} `{AuthRevoker R}.
Context (Format : Z → string).
Notation St := (State (U := U) (R := R)).

Definition active (t : Table U) (u : U) : option bool := user_IsActive ∘ sqlcUserToDomain ∘ pair u <$> t !! u.

Definition status_entry (ctx : Context) (now : Z) (id : string) (b : bool) : AuditEntry :=
  with_values (NewAuditEntry ctx now ActionUpdate "user" id) (Some (active_value (negb b))) (Some (active_value b)).

(** The audit trail of status changes is exact: activating (or deactivating) an account
    through the audited use case appends one entry, with the old and the new status, exactly
    when the call changed the status of the account in the table; a call that fails, or that
    finds the account in the requested status, logs nothing and changes nothing. *)
Theorem status_changes_audited (ctx : Context) (e : Env U) (s s' : St) (l l' : list AuditEntry) (u : U) (b : bool)
    (out : option error) :
  (if b then Audited_Activate Format ctx e (s, l) (uuid_String u)
   else Audited_Deactivate Format ctx e (s, l) (uuid_String u)) = ((s', l'), out) →
  (users s' = users s ∧ l' = l ∧ (out = None → active (users s) u = Some b)) ∨
  (out = None ∧ active (users s) u = Some (negb b) ∧ active (users s') u = Some b ∧
   (∀ v, v ≠ u → users s' !! v = users s !! v) ∧ l' = l ++ [status_entry ctx (e_now e) (uuid_String u) b]).
Proof.
  unfold Audited_Activate, Audited_Deactivate, GetByID, Activate, Deactivate, Repository_Activate,
    Repository_Deactivate, Repository_GetByID, GetUserByID, exec_by_id, ActivateUser, DeactivateUser, exec, active.
  rewrite uuid_parse_string. cbn [fst snd later e_fault e_now].
  destruct b, (e_fault e 0) as [|], (users s !! u) as [r|] eqn:Hu; try by (intros [= <- <- <-]; left).
  all: destruct (e_fault e 1) as [|]; cbn [u_IsActive toUserResponse]; try by (intros [= <- <- <-]; left).
  all: destruct (user_IsActive (sqlcUserToDomain (u, r))) eqn:Hact; cbn [negb];
    destruct (e_fault e 2) as [|]; intros [= <- <- <-];
    first [ left; split_and!; [done..|]; intros ?; simpl in *; congruence
          | right; split_and!;
            [done | simpl in *; congruence | cbn [users]; by rewrite lookup_alter_eq, Hu
            | intros v Hv; cbn [users]; by rewrite lookup_alter_ne | done] ].
Qed.

End audit.

(** ** A concrete account *)

Module Data.
Import Auth.Sample.
#[local] Existing Instances BoolUuid Auth.Sample.crypto.

Definition row : Row := mkRow "alice@x.io" "pw1" "Alice" (Some true) (Some 0) (Some 0).
Definition table : Table bool := {[ true := row ]}.
Definition noTx : TxAnswers := mkTxAnswers None None None false.
Definition env : Env bool := mkEnv 5 false (λ _, None) noTx.
(** A login of the account before the requests of the witnesses. *)
Definition sessions : store := (Login (C := store) (auth_repo table) cfg empty (ora "r1") "alice@x.io" "pw1").1.
Definition st : State (U := bool) (R := store) := mkState table (Some sessions).
Definition fmt (z : Z) : string := pretty z.
Definition alice_id : string := uuid_String true.

Lemma table_unique : emails_unique table.
Proof.
  intros u1 u2 r1 r2. unfold table.
  intros [<- _]%(lookup_singleton_Some (M := gmap bool)) [<- _]%(lookup_singleton_Some (M := gmap bool)). done.
Qed.
End Data.

Section witnesses.
Import Data Auth.Sample.
#[local] Existing Instances BoolUuid Auth.Sample.crypto.

Lemma create_roundtrip_witness :
  ∃ s' resp, Create (R := store) fmt env st "bob@x.io" "secret12" "Bob" = (s', Ok resp) ∧ GetByID fmt env s' (u_ID resp) = Ok resp.
Proof.
  destruct (create_roundtrip (R := store) fmt env st "bob@x.io" "secret12" "Bob" "secret12" table_unique)
    as (s' & resp & r & Hc & _ & _ & _ & _ & Hg & _);
    [vm_compute; reflexivity | intros k; reflexivity | reflexivity | vm_compute; reflexivity | vm_compute; reflexivity |].
  exists s', resp. split; [exact Hc | exact Hg].
Defined.

Lemma change_password_revokes_witness :
  ∃ s' c', ChangePassword (R := store) env st alice_id "pw1" "newpass1" = (s', None) ∧ revoker s' = Some c' ∧
    ∀ t o token resp, (Refresh (C := store) (auth_repo t) cfg c' o token).2 = Ok resp → ∃ usr : User bool, user_ID usr ≠ true.
Proof.
  assert ((ChangePassword (R := store) env st alice_id "pw1" "newpass1").2 = None) as Hnone by (vm_compute; reflexivity).
  destruct (ChangePassword (R := store) env st alice_id "pw1" "newpass1") as [s' out] eqn:Hcp.
  simpl in Hnone. subst out.
  destruct (change_password_revokes (C := store) cfg env st s' empty sessions true "pw1" "newpass1" None)
    as (c' & r & hash & Hrev & _ & _ & _ & _ & _ & Hover);
    [reflexivity | | reflexivity | exact Hcp |].
  - eapply rtc_l; [|apply rtc_refl]. exists table.
    apply (step_call (C := store) (@auth_repo bool BoolUuid table) cfg _ empty (CLogin (ora "r1") "alice@x.io" "pw1")). done.
  - exists s', c'. split; [reflexivity|]. split; [exact Hrev|]. intros t o token resp Hok.
    destruct (Hover c' t o token resp (rtc_refl _ _) Hok) as (usr & Hne & _). by exists usr.
Defined.

Lemma deactivation_keeps_sessions_witness :
  ∃ s' c2 resp, Deactivate (R := store) env st alice_id = (s', None) ∧
    Refresh (C := store) (auth_repo (users s')) cfg sessions (ora "r2") (Base64.encode "r1") = (c2, Ok resp).
Proof.
  assert ((Deactivate (R := store) env st alice_id).2 = None) as Hnone by (vm_compute; reflexivity).
  destruct (Deactivate (R := store) env st alice_id) as [s' out] eqn:Hd.
  simpl in Hnone. subst out.
  destruct (deactivation_keeps_sessions (C := store) cfg env st s' true row sessions (Base64.encode "r1") "r2"
    "hs256:secret:00000000-0000-0000-0000-000000000001" (ora "r2") table_unique) as [_ [c2 Hr]];
    [vm_compute; reflexivity | reflexivity | exact Hd | split; vm_compute; eauto | reflexivity | vm_compute; reflexivity |].
  exists s', c2. eexists. split; [reflexivity | exact Hr].
Defined.

Lemma status_changes_audited_witness :
  ∃ s' l', Audited_Deactivate (R := store) fmt Background env (st, []) alice_id = ((s', l'), None) ∧
    l' = [status_entry Background 5 alice_id false].
Proof.
  assert ((Audited_Deactivate (R := store) fmt Background env (st, []) alice_id).2 = None) as Hnone by (vm_compute; reflexivity).
  destruct (Audited_Deactivate (R := store) fmt Background env (st, []) alice_id) as [[s' l'] out] eqn:Hd.
  simpl in Hnone. subst out.
  exists s', l'. split; [reflexivity|].
  destruct (status_changes_audited (R := store) fmt Background env st s' [] l' true false None Hd) as [(_ & _ & Hx)|(_ & _ & _ & _ & Hl)].
  - exfalso. specialize (Hx eq_refl). vm_compute in Hx. congruence.
  - exact Hl.
Defined.
End witnesses.

End UserProps.
