(* ===== verification/Wiring.v ===== *)
(** * Who is connected to whom

    Models the constructors of the modules ([NewModule] in [internal/module/*/module.go]), of
    their use cases, decorators and handlers, and the part of [internal/platform/app/app.go]
    that calls them.  What is built is a graph of objects; two references to one object are
    the same name, so that sharing is visible.  The behaviour of the objects is modelled in
    the files of their components. *)
From S2P Require Import Prelude Config.
Import Config.

Module Wiring.

(** ** The objects [New] already has when it builds the modules *)

Record Base := mkBase {
  pool : nat; cacheAdapter : nat; queueAdapter : nat; storageAdapter : nat; sseBroker : nat; auditor : nat; authorizer : nat
}.
#[export] Instance Base_eq_dec : EqDecision Base.
Proof. solve_decision. Defined.

(** ** Use cases, decorators, handlers *)

Inductive repo := NewRepository (pool : nat).
Inductive transactor := NewTransactor (pool : nat).
Inductive publisher := NewPublisher (queue : nat) (queueName exchange : string).

Inductive useCase :=
| AuthUseCase (userRepo : repo) (cache : nat) (jwtSecret : string)
| UserUseCase (userRepo : repo) (tx : transactor) (cache : nat) (authRevoker : useCase)
| RoleUseCase (authorizer : nat)
| StorageUseCase (storage : nat)
| JobUseCase (p : publisher)
| AuditedUseCase (inner : useCase) (auditor : nat).

Inductive checker := PostgresChecker (pool : nat) | CacheChecker (cache : nat) | QueueChecker (queue : nat) | AuthzChecker (authorizer : nat).

(** A handler holds its use case, the broker or the health checks. *)
Inductive handler := UseCaseHandler (uc : useCase) | SseHandler (broker : nat) | HealthHandler (timeout : Z) (checks : list checker) | NoHandler.

(** What a module keeps: its handler, the authorizer of its permission guards, the secret of
    its token guard, and the cache of its rate limit. *)
Record module := mkModule {
  m_handler : handler; m_authorizer : option nat; m_jwtSecret : option string; m_cache : option nat; m_revoker : option useCase
}.

Definition Revoker (m : module) : option useCase := m_revoker m.

(** *** The constructors of the use cases and their decorators *)

Definition auth_NewUseCase (userRepo : repo) (cache : nat) (jwtSecret : string) : useCase := AuthUseCase userRepo cache jwtSecret.
Definition user_NewUseCase (userRepo : repo) (tx : transactor) (cache : nat) (authRevoker : useCase) : useCase :=
  UserUseCase userRepo tx cache authRevoker.
Definition role_NewUseCase (authorizer : nat) : useCase := RoleUseCase authorizer.
Definition auth_NewAuditedUseCase (inner : useCase) (auditor : nat) : useCase := AuditedUseCase inner auditor.
Definition user_NewAuditedUseCase (inner : useCase) (auditor : nat) : useCase := AuditedUseCase inner auditor.

(** *** The constructors of the modules *)

Definition docs_NewModule : module := mkModule NoHandler None None None None.

Definition health_NewModule (readinessTimeout : Z) (checkers : list checker) : module :=
  mkModule (HealthHandler (if readinessTimeout <=? 0 then 2 * Second else readinessTimeout) checkers) None None None None.

Definition auth_NewModule (userRepo : repo) (cache auditor : nat) (jwtSecret : string) : module :=
  let uc := auth_NewUseCase userRepo cache jwtSecret in
  let audited := auth_NewAuditedUseCase uc auditor in
  mkModule (UseCaseHandler audited) None (Some jwtSecret) (Some cache) (Some uc).

Definition user_NewModule (pool : nat) (tx : transactor) (auditor authorizer cache : nat) (jwtSecret : string) (authRevoker : useCase) : module :=
  let uc := user_NewUseCase (NewRepository pool) tx cache authRevoker in
  let audited := user_NewAuditedUseCase uc auditor in
  mkModule (UseCaseHandler audited) (Some authorizer) (Some jwtSecret) None None.

Definition role_NewModule (authorizer : nat) (jwtSecret : string) : module :=
  mkModule (UseCaseHandler (role_NewUseCase authorizer)) (Some authorizer) (Some jwtSecret) None None.

(** A nil auditor leaves the use case bare. *)
Definition with_auditor (uc : useCase) (auditor : option nat) : useCase :=
  match auditor with Some l => AuditedUseCase uc l | None => uc end.

Definition storage_NewModule (storage : nat) (auditor : option nat) (jwtSecret : string) : module :=
  mkModule (UseCaseHandler (with_auditor (StorageUseCase storage) auditor)) None (Some jwtSecret) None None.

Definition sse_NewModule (broker authorizer : nat) (jwtSecret : string) : module :=
  mkModule (SseHandler broker) (Some authorizer) (Some jwtSecret) None None.

Definition job_NewModule (p : publisher) (auditor : option nat) (authorizer : nat) (jwtSecret : string) : module :=
  mkModule (UseCaseHandler (with_auditor (JobUseCase p) auditor)) (Some authorizer) (Some jwtSecret) None None.

(** ** app.go *)

Record Modules := mkModules {
  docsModule : module; healthModule : module; userModule : module; authModule : module;
  roleModule : module; storageModule : module; sseModule : module; jobModule : module
}.

(** The modules, as [New] builds them from the adapters and the configuration; [None] if the
    auth module had no revoker to hand on. *)
Definition build (b : Base) (secret queueName exchange : string) (readinessTimeout : Z) : option Modules :=
  let p := NewPublisher (queueAdapter b) queueName exchange in
  let tx := NewTransactor (pool b) in
  let healthCheckers := [PostgresChecker (pool b); CacheChecker (cacheAdapter b); QueueChecker (queueAdapter b); AuthzChecker (authorizer b)] in
  let sharedUserRepo := NewRepository (pool b) in
  let authModule := auth_NewModule sharedUserRepo (cacheAdapter b) (auditor b) secret in
  match Revoker authModule with
  | None => None
  | Some revoker =>
      Some (mkModules docs_NewModule (health_NewModule readinessTimeout healthCheckers)
        (user_NewModule (pool b) tx (auditor b) (authorizer b) (cacheAdapter b) secret revoker)
        authModule
        (role_NewModule (authorizer b) secret)
        (storage_NewModule (storageAdapter b) (Some (auditor b)) secret)
        (sse_NewModule (sseBroker b) (authorizer b) secret)
        (job_NewModule p (Some (auditor b)) (authorizer b) secret))
  end.

(** ** What the graph says *)

(** The auditors an operation of a handler passes. *)
Fixpoint auditors (uc : useCase) : list nat :=
  match uc with AuditedUseCase inner l => l :: auditors inner | _ => [] end.
Definition handler_auditors (h : handler) : list nat := match h with UseCaseHandler uc => auditors uc | _ => [] end.

Fixpoint bare (uc : useCase) : useCase := match uc with AuditedUseCase inner _ => bare inner | _ => uc end.

Definition all_modules (ms : Modules) : list module :=
  [docsModule ms; healthModule ms; userModule ms; authModule ms; roleModule ms; storageModule ms; sseModule ms; jobModule ms].

(** The modules always get built; every token guard has the configured secret and every
    permission guard the one authorizer; user and auth module work on the same users; the
    revoker a password change calls is the use case, over the same cache, that the login and
    refresh handlers run; users, sessions, files and jobs are audited, and to one log - while
    nothing that the role and SSE handlers do reaches the auditor. *)
Theorem wiring (b : Base) secret queueName exchange timeout :
  ∃ ms, build b secret queueName exchange timeout = Some ms ∧
    Forall (λ m, m_jwtSecret m = None ∨ m_jwtSecret m = Some secret) (all_modules ms) ∧
    Forall (λ m, m_authorizer m = None ∨ m_authorizer m = Some (authorizer b)) (all_modules ms) ∧
    (∃ a u r tx, m_handler (authModule ms) = UseCaseHandler a ∧ m_handler (userModule ms) = UseCaseHandler u ∧
       bare u = UserUseCase r tx (cacheAdapter b) (bare a) ∧ bare a = AuthUseCase r (cacheAdapter b) secret) ∧
    Forall (λ m, handler_auditors (m_handler m) = [auditor b]) [userModule ms; authModule ms; storageModule ms; jobModule ms] ∧
    Forall (λ m, handler_auditors (m_handler m) = []) [roleModule ms; sseModule ms].
Proof.
  eexists. split; [reflexivity|]. unfold all_modules. cbn [docsModule healthModule userModule authModule roleModule storageModule sseModule jobModule].
  split; [|split; [|split; [|split]]];
    try (repeat apply Forall_cons_2; try apply Forall_nil_2; solve [done | by left | by right]).
  by do 4 eexists.
Qed.

End Wiring.
