(* ===== verification/AuditedModules.v ===== *)
(** * The audited modules

    Models the constructors and decorators of the storage and job modules
    ([internal/module/storage/module.go], [internal/module/job/module.go] and the
    [audit_decorator.go] of each): the use-case interface as a record of operations, the
    decorator that wraps any implementation of it, and the module that is built with or
    without an auditor.  Sessions of calls relate the two. *)
From S2P Require Import Prelude GoStr AppErr Config Port Storage S3 Worker UserProps.
Import GoStr AppErr Config.

Module AuditedModules.

(** ** Decorated operations in general *)

Section decorator.
Context {S L Call Reply : Type} `{Auditor L}.

(** An operation, and the entry its decorator writes for a call and its reply. *)
Variable op : S → Call → S * Reply.
Variable entry : Call → Reply → option AuditEntry.

Definition write (l : L) (e : option AuditEntry) : L := match e with Some e => (auditor_Log l e).1 | None => l end.

Definition decorated (sl : S * L) (c : Call) : (S * L) * Reply :=
  let '(s', r) := op sl.1 c in ((s', write sl.2 (entry c r)), r).
End decorator.

Fixpoint session {T Call Reply} (op : T → Call → T * Reply) (t : T) (calls : list Call) : T * list Reply :=
  match calls with
  | [] => (t, [])
  | c :: calls' => let '(t1, r) := op t c in let '(t2, rs) := session op t1 calls' in (t2, r :: rs)
  end.

(** A session through a decorator is the session without it, and the log is what the calls
    and their replies say, in their order: every failure of the auditor is ignored. *)
Lemma decorated_session {S L Call Reply} `{Auditor L} (op : S → Call → S * Reply) entry s (l : L) calls :
  let '(s', rs) := session op s calls in
  session (decorated op entry) (s, l) calls =
    ((s', fold_left write (zip_with entry calls rs) l), rs).
Proof.
  revert s l. induction calls as [|c calls IH]; intros s l; [done|]. cbn [session]. unfold decorated at 1. simpl.
  destruct (op s c) as [s1 r]. specialize (IH s1 (write l (entry c r))).
  destruct (session op s1 calls) as [s2 rs]. by rewrite IH.
Qed.

(** The same operation on a state that carries a log it does not use. *)
Lemma undecorated_session {S L Call Reply} (op : S → Call → S * Reply) s (l : L) calls :
  let '(s', rs) := session op s calls in
  session (λ sl c, let '(s', r) := op sl.1 c in ((s', sl.2), r)) (s, l) calls = ((s', l), rs).
Proof.
  revert s. induction calls as [|c calls IH]; intros s; [done|]. cbn [session]. simpl.
  destruct (op s c) as [s1 r]. specialize (IH s1). destruct (session op s1 calls) as [s2 rs]. by rewrite IH.
Qed.

(** ** The storage module *)

(** [usecase.UseCase] of the storage module over a state [T].  An upload is given by the
    file, the error of its first read, the header's size and name, the directory and the
    UUID drawn. *)
Record FileUseCase (T : Type) := mkFileUseCase {
  f_Upload : Context → Z → T → string → option error → Z → string → string → string → T * result error Storage.UploadResponse;
  f_Download : T → string → result error (string * string);
  f_Delete : Context → Z → T → string → T * option error;
  f_GetURL : T → string → Z → result error (string * string);
  f_List : T → string → result error (list Storage.FileInfo)
}.
Arguments mkFileUseCase {T}. Arguments f_Upload {T}. Arguments f_Download {T}. Arguments f_Delete {T}.
Arguments f_GetURL {T}. Arguments f_List {T}.

(** [usecase.NewUseCase(storage, nil)] *)
Definition storage_NewUseCase {S} `{Storage.Storage S} (DetectContentType : string → string) : FileUseCase S :=
  let uc := Storage.NewUseCase None in
  mkFileUseCase (λ _ _, Storage.Upload DetectContentType uc) Storage.Download (λ _ _, Storage.Delete)
    Storage.GetURL Storage.List.

(** [usecase.NewAuditedUseCase(inner, auditor)] *)
Definition storage_NewAuditedUseCase {T L} `{Auditor L} (inner : FileUseCase T) : FileUseCase (T * L) :=
  mkFileUseCase
    (λ ctx now tl file peekErr size filename directory newUUID,
       match f_Upload inner ctx now tl.1 file peekErr size filename directory newUUID with
       | (t', Err err) => ((t', tl.2), Err err)
       | (t', Ok resp) =>
           let e := NewAuditEntry ctx now ActionCreate "file" (Storage.up_Path resp) in
           let e := mkAuditEntry (ae_UserID e) (ae_Action e) (ae_Resource e) (ae_ResourceID e) None
                      (Some (AnyMap [("size", AnyInt (Storage.up_Size resp)); ("original_filename", AnyString filename)]))
                      None (ae_IPAddress e) (ae_UserAgent e) (ae_Timestamp e) in
           ((t', (auditor_Log tl.2 e).1), Ok resp)
       end)
    (λ tl, f_Download inner tl.1)
    (λ ctx now tl path,
       match f_Delete inner ctx now tl.1 path with
       | (t', Some err) => ((t', tl.2), Some err)
       | (t', None) => ((t', (auditor_Log tl.2 (NewAuditEntry ctx now ActionDelete "file" path)).1), None)
       end)
    (λ tl, f_GetURL inner tl.1)
    (λ tl, f_List inner tl.1).

(** The inner use case seen on the same state, when there is no auditor. *)
Definition storage_bare {T L} (inner : FileUseCase T) : FileUseCase (T * L) :=
  mkFileUseCase
    (λ ctx now tl file peekErr size filename directory newUUID,
       let '(t', r) := f_Upload inner ctx now tl.1 file peekErr size filename directory newUUID in ((t', tl.2), r))
    (λ tl, f_Download inner tl.1)
    (λ ctx now tl path, let '(t', r) := f_Delete inner ctx now tl.1 path in ((t', tl.2), r))
    (λ tl, f_GetURL inner tl.1)
    (λ tl, f_List inner tl.1).

(** [NewModule(storage, auditor, _)]: [auditor] says whether it is not nil. *)
Definition storage_NewModule {S L} `{Storage.Storage S} `{Auditor L} (DetectContentType : string → string) (auditor : bool)
    : FileUseCase (S * L) :=
  let uc := storage_NewUseCase DetectContentType in
  if auditor then storage_NewAuditedUseCase uc else storage_bare uc.

(** A call of the module with the request it comes from, and its reply. *)
Inductive file_call :=
| CUpload (ctx : Context) (now : Z) (file : string) (peekErr : option error) (size : Z) (filename directory newUUID : string)
| CDownload (path : string)
| CDelete (ctx : Context) (now : Z) (path : string)
| CGetURL (path : string) (expires : Z)
| CList (prefix : string).

Inductive file_reply :=
| RUpload (r : result error Storage.UploadResponse)
| RDownload (r : result error (string * string))
| RDelete (r : option error)
| RGetURL (r : result error (string * string))
| RList (r : result error (list Storage.FileInfo)).

Definition file_op {T} (uc : FileUseCase T) (t : T) (c : file_call) : T * file_reply :=
  match c with
  | CUpload ctx now file peekErr size filename directory newUUID =>
      let '(t', r) := f_Upload uc ctx now t file peekErr size filename directory newUUID in (t', RUpload r)
  | CDownload path => (t, RDownload (f_Download uc t path))
  | CDelete ctx now path => let '(t', r) := f_Delete uc ctx now t path in (t', RDelete r)
  | CGetURL path expires => (t, RGetURL (f_GetURL uc t path expires))
  | CList prefix => (t, RList (f_List uc t prefix))
  end.

(** What the audit log has to say of a call: the successful changes and nothing else. *)
Definition file_entry (c : file_call) (r : file_reply) : option AuditEntry :=
  match c, r with
  | CUpload ctx now _ _ _ filename _ _, RUpload (Ok resp) =>
      Some (mkAuditEntry (ac_UserID (ExtractAuditContext ctx)) ActionCreate "file" (Storage.up_Path resp) None
        (Some (AnyMap [("size", AnyInt (Storage.up_Size resp)); ("original_filename", AnyString filename)])) None
        (ac_IPAddress (ExtractAuditContext ctx)) (ac_UserAgent (ExtractAuditContext ctx)) now)
  | CDelete ctx now path, RDelete None => Some (NewAuditEntry ctx now ActionDelete "file" path)
  | _, _ => None
  end.

Lemma session_ext {T Call Reply} (op1 op2 : T → Call → T * Reply) t calls :
  (∀ t c, op1 t c = op2 t c) → session op1 t calls = session op2 t calls.
Proof.
  intros He. revert t. induction calls as [|c calls IH]; intros t; [done|]. cbn [session]. rewrite He.
  destruct (op2 t c) as [t1 r]. by rewrite IH.
Qed.

Lemma file_op_audited {T L} `{Auditor L} (uc : FileUseCase T) (tl : T * L) c :
  file_op (storage_NewAuditedUseCase uc) tl c = decorated (file_op uc) file_entry tl c.
Proof. destruct tl as [t l], c; unfold decorated; simpl; repeat case_match; simplify_eq; done. Qed.

Lemma file_op_bare {T L} (uc : FileUseCase T) (tl : T * L) c :
  file_op (storage_bare uc) tl c = let '(t', r) := file_op uc tl.1 c in ((t', tl.2), r).
Proof. destruct tl as [t l], c; simpl; repeat case_match; simplify_eq; done. Qed.

(** Whether or not the storage module is built with an auditor, a session of its calls
    changes the storage and answers like the plain use case; with one, the log receives
    exactly the entries of the successful uploads and deletions, in the order of the calls,
    whatever the auditor answers; without one it is not touched. *)
Theorem storage_module_audit {S L} `{Storage.Storage S} `{Auditor L} DetectContentType (auditor : bool) (s : S) (l : L) calls :
  let '(s', rs) := session (file_op (storage_NewUseCase DetectContentType)) s calls in
  session (file_op (storage_NewModule DetectContentType auditor)) (s, l) calls =
    ((s', if auditor then fold_left write (zip_with file_entry calls rs) l else l), rs).
Proof.
  destruct auditor; simpl storage_NewModule.
  - rewrite (session_ext (file_op (storage_NewAuditedUseCase _)) (decorated (file_op (storage_NewUseCase DetectContentType)) file_entry))
      by apply file_op_audited. apply decorated_session.
  - rewrite (session_ext (file_op (storage_bare _)) (λ sl c, let '(s', r) := file_op (storage_NewUseCase DetectContentType) sl.1 c in ((s', sl.2), r)))
      by apply file_op_bare. apply undecorated_session.
Qed.

(** ** The job module *)

(** [usecase.UseCase] of the job module; a dispatch draws two UUIDs. *)
Record JobUseCase (T : Type) := mkJobUseCase {
  j_Dispatch : Context → T → string → string → Z → string → result error string → Z → T * result error Worker.JobResponse;
  j_ListJobTypes : list (string * string)
}.
Arguments mkJobUseCase {T}. Arguments j_Dispatch {T}. Arguments j_ListJobTypes {T}.

Definition job_NewUseCase {Q} `{Worker.Queue Q} `{Worker.JobCodec} (publisher : Worker.Publisher) : JobUseCase Q :=
  mkJobUseCase (λ _, Worker.Dispatch publisher) Worker.ListJobTypes.

Definition job_NewAuditedUseCase {T L} `{Auditor L} (inner : JobUseCase T) : JobUseCase (T * L) :=
  mkJobUseCase
    (λ ctx tl jobID respID now jobType payload maxRetry,
       match j_Dispatch inner ctx tl.1 jobID respID now jobType payload maxRetry with
       | (t', Err err) => ((t', tl.2), Err err)
       | (t', Ok resp) =>
           let e := NewAuditEntry ctx now ActionCreate "job" (Worker.resp_ID resp) in
           let e := mkAuditEntry (ae_UserID e) (ae_Action e) (ae_Resource e) (ae_ResourceID e) None None
                      (Some [("job_type", AnyString jobType); ("max_retry", AnyInt maxRetry)])
                      (ae_IPAddress e) (ae_UserAgent e) (ae_Timestamp e) in
           ((t', (auditor_Log tl.2 e).1), Ok resp)
       end)
    (j_ListJobTypes inner).

Definition job_bare {T L} (inner : JobUseCase T) : JobUseCase (T * L) :=
  mkJobUseCase
    (λ ctx tl jobID respID now jobType payload maxRetry,
       let '(t', r) := j_Dispatch inner ctx tl.1 jobID respID now jobType payload maxRetry in ((t', tl.2), r))
    (j_ListJobTypes inner).

Definition job_NewModule {Q L} `{Worker.Queue Q} `{Worker.JobCodec} `{Auditor L} (publisher : Worker.Publisher) (auditor : bool)
    : JobUseCase (Q * L) :=
  let uc := job_NewUseCase publisher in
  if auditor then job_NewAuditedUseCase uc else job_bare uc.

Record dispatch_call := mkDispatchCall {
  dc_ctx : Context; dc_jobID : string; dc_respID : string; dc_now : Z; dc_type : string;
  dc_payload : result error string; dc_maxRetry : Z
}.

Definition job_op {T} (uc : JobUseCase T) (t : T) (c : dispatch_call) : T * result error Worker.JobResponse :=
  j_Dispatch uc (dc_ctx c) t (dc_jobID c) (dc_respID c) (dc_now c) (dc_type c) (dc_payload c) (dc_maxRetry c).

Definition job_entry (c : dispatch_call) (r : result error Worker.JobResponse) : option AuditEntry :=
  match r with
  | Err _ => None
  | Ok resp =>
      Some (mkAuditEntry (ac_UserID (ExtractAuditContext (dc_ctx c))) ActionCreate "job" (Worker.resp_ID resp) None None
        (Some [("job_type", AnyString (dc_type c)); ("max_retry", AnyInt (dc_maxRetry c))])
        (ac_IPAddress (ExtractAuditContext (dc_ctx c))) (ac_UserAgent (ExtractAuditContext (dc_ctx c))) (dc_now c))
  end.

(** The same for dispatched jobs: the log holds one entry per accepted job and none for a
    refused one, under the id of the response. *)
Theorem job_module_audit {Q L} `{Worker.Queue Q} `{Worker.JobCodec} `{Auditor L} publisher (auditor : bool) (q : Q) (l : L) calls :
  let '(q', rs) := session (job_op (job_NewUseCase publisher)) q calls in
  session (job_op (job_NewModule publisher auditor)) (q, l) calls =
    ((q', if auditor then fold_left write (zip_with job_entry calls rs) l else l), rs).
Proof.
  destruct auditor; simpl job_NewModule.
  - rewrite (session_ext (job_op (job_NewAuditedUseCase _)) (decorated (job_op (job_NewUseCase publisher)) job_entry)).
    + apply decorated_session.
    + intros [t l'] c. unfold decorated, job_op. simpl. by repeat case_match; simplify_eq.
  - rewrite (session_ext (job_op (job_bare _)) (λ ql c, let '(q', r) := job_op (job_NewUseCase publisher) ql.1 c in ((q', ql.2), r)));
      [apply undecorated_session | done].
Qed.

Import UserProps.

(** With the audit log a list, it grows by one entry per accepted job. *)
Lemma accepted_jobs_logged {Q} `{Worker.Queue Q} `{Worker.JobCodec} publisher (q : Q) (l : list AuditEntry) calls :
  let '(ql, rs) := session (job_op (job_NewModule publisher true)) (q, l) calls in
  length ql.2 = (length l + length (omap (λ r : result error Worker.JobResponse, match r with Ok x => Some x | Err _ => None end) rs))%nat.
Proof.
  pose proof (job_module_audit publisher true q l calls) as Hs.
  destruct (session (job_op (job_NewUseCase publisher)) q calls) as [q' rs] eqn:Hplain. rewrite Hs. simpl. clear Hs.
  revert q l rs Hplain. induction calls as [|c calls IH]; intros q l rs Hp; cbn [session] in Hp; [simplify_eq; simpl; lia|].
  destruct (job_op (job_NewUseCase publisher) q c) as [q1 r].
  destruct (session (job_op (job_NewUseCase publisher)) q1 calls) as [q2 rs'] eqn:Hrest. simplify_eq.
  cbn [zip_with fold_left omap list_omap]. rewrite (IH _ _ _ Hrest). destruct r; simpl; rewrite ?length_app; simpl; lia.
Qed.

End AuditedModules.
