(* ===== verification/Requests.v ===== *)
(** * Request bodies

    The request types of [internal/module/*/dto] whose fields are strings, with their JSON names
    and [validate] tags, and the path of a body to its handler: [json.Unmarshal], the sanitizer,
    the rule engine ([internal/platform/validator]).  The engine is the library's; what the code
    relies on is that [required] means not empty. *)
From S2P Require Import Prelude GoStr AppErr Json JsonDecode Validator AuthHttp Role User.
Import GoStr AppErr Json JsonDecode Validator.

Module Requests.

(** ** The types *)

Record Field := mkField { f_Go : string; f_json : string; f_validate : string }.

Definition LoginRequest := [mkField "Email" "email" "required,email"; mkField "Password" "password" "required"].
Definition RefreshRequest := [mkField "RefreshToken" "refresh_token" "required"].
Definition LogoutRequest := [mkField "RefreshToken" "refresh_token" "required"].

Definition CreateUserRequest :=
  [mkField "Email" "email" "required,email,min=1"; mkField "Password" "password" "required,min=8";
   mkField "Name" "name" "required,min=2,max=100"].
Definition UpdateUserRequest := [mkField "Name" "name" "omitempty,min=2,max=100"; mkField "Email" "email" "omitempty,email"].
Definition ChangePasswordRequest :=
  [mkField "CurrentPassword" "current_password" "required,min=1"; mkField "NewPassword" "new_password" "required,min=8"].

Definition AssignRoleRequest := [mkField "UserID" "user_id" "required,uuid"; mkField "Role" "role" "required"].
Definition RemoveRoleRequest := [mkField "UserID" "user_id" "required,uuid"; mkField "Role" "role" "required"].
Definition AddPermissionRequest :=
  [mkField "Role" "role" "required"; mkField "Object" "object" "required"; mkField "Action" "action" "required"].
Definition RemovePermissionRequest :=
  [mkField "Role" "role" "required"; mkField "Object" "object" "required"; mkField "Action" "action" "required"].
Definition AddUserPermissionRequest := [mkField "Object" "object" "required"; mkField "Action" "action" "required"].
Definition RemoveUserPermissionRequest := [mkField "Object" "object" "required"; mkField "Action" "action" "required"].

Definition request_types : list (list Field) :=
  [LoginRequest; RefreshRequest; LogoutRequest; CreateUserRequest; UpdateUserRequest; ChangePasswordRequest;
   AssignRoleRequest; RemoveRoleRequest; AddPermissionRequest; RemovePermissionRequest; AddUserPermissionRequest;
   RemoveUserPermissionRequest].

(** ** The rule engine *)

(** [validator.Struct] on the named, tagged values of a struct. *)
Class RuleEngine := { failures : list (string * string * string) → list FieldError }.

Definition rules_of (tag : string) : list string := Split "," tag.

Class RuleLaws `{RuleEngine} := {
  required_nonempty fs name tag v :
    failures fs = [] → (name, tag, v) ∈ fs → "required" ∈ rules_of tag → v ≠ ""
}.

Section bind.
Context `{RuleEngine}.
Variable Sanitize : string → string.

(** The setters of the struct's fields, on the list of their values. *)
Definition decode_fields (d : list Field) : list (string * setter (list string)) :=
  imap (λ i f, (f_json f, string_field (λ l s, <[i := s]> l))) d.
Definition zero (d : list Field) : list string := replicate (length d) "".

Definition struct_value (d : list Field) (vals : list string) : rvalue :=
  RPtr (Some (RStruct (zip_with (λ f v, mkRField (f_Go f) true (RString v)) d vals))).

Definition struct_rules (d : list Field) (v : rvalue) : list FieldError :=
  failures (zip_with (λ f w, (tagName (f_json f), f_validate f, w)) d (texts v)).

(** [ValidateAndBind(c, &req)] on a JSON body: the values of the fields, or the error. *)
Definition bind (d : list Field) (body : string) : result error (list string) :=
  match ValidateAndBind Sanitize (struct_rules d) (struct_value d <$> Unmarshal (decode_fields d) (zero d) body) with
  | (v, None) => Ok (texts v)
  | (_, Some e) => Err e
  end.

(** The handlers' views of the values. *)
Definition one (r : result error (list string)) : result error string :=
  match r with Err e => Err e | Ok l => Ok (default "" (l !! 0%nat)) end.
Definition two (r : result error (list string)) : result error (string * string) :=
  match r with Err e => Err e | Ok l => Ok (default "" (l !! 0%nat), default "" (l !! 1%nat)) end.
Definition three (r : result error (list string)) : result error (string * string * string) :=
  match r with Err e => Err e | Ok l => Ok (default "" (l !! 0%nat), default "" (l !! 1%nat), default "" (l !! 2%nat)) end.

(** *** What a bound request is *)

Lemma texts_struct d vals : length vals = length d → texts (struct_value d vals) = vals.
Proof.
  unfold struct_value. revert vals. induction d as [|f d IH]; intros [|v vals] Hl; try done.
  cbn. f_equal. injection Hl as Hl. specialize (IH vals Hl). exact IH.
Qed.

Lemma decoded_length d body vals : Unmarshal (decode_fields d) (zero d) body = Some vals → length vals = length d.
Proof.
  unfold Unmarshal, decode_struct. destruct (parse body) as [[| | | | |m]|]; try done.
  { intros [= <-]. apply length_replicate. }
  assert (∀ st, length st.1 = length d → length (fold_left (set_member (decode_fields d)) m st).1 = length d) as Hf.
  { induction m as [|kv m IH]; intros st Hst; [done|]. cbn [fold_left]. apply IH. unfold set_member.
    destruct (List.find _ (decode_fields d)) as [f|] eqn:Hfind; [|done]. apply List.find_some in Hfind as [Hin _].
    apply list_elem_of_In, elem_of_lookup_imap in Hin as (i & fd & -> & _). cbn [snd]. unfold string_field.
    destruct kv.2; try done. cbn [fst]. by rewrite length_insert. }
  specialize (Hf (zero d, false) (length_replicate _ _)). destruct (fold_left _ m _) as [x []]; [done|]. intros [= <-]. exact Hf.
Qed.

(** The values a handler gets are the sanitized ones of the body, one for each field, and the
    rule engine found nothing wrong with them. *)
Lemma bind_accepts d body vals : bind d body = Ok vals →
  ∃ raw, Unmarshal (decode_fields d) (zero d) body = Some raw ∧ vals = Sanitize <$> raw ∧ length vals = length d ∧
    failures (zip_with (λ f w, (tagName (f_json f), f_validate f, w)) d vals) = [].
Proof.
  unfold bind. destruct (Unmarshal _ _ body) as [raw|] eqn:Hu; [|done]. cbn [fmap option_fmap option_map ValidateAndBind].
  set (v' := SanitizeStruct Sanitize (struct_value d raw)).
  assert (Ht : texts v' = Sanitize <$> raw).
  { rewrite <-(texts_struct d raw) at 1 by (by eapply decoded_length). apply (texts_sanitizeValue Sanitize (struct_value d raw)). }
  destruct (Validate _ _) as [e|] eqn:Hval; [done|]. apply Validate_None in Hval. intros Hb.
  assert (vals = texts v') as -> by congruence.
  exists raw. split_and!; [done|exact Ht|rewrite Ht, length_fmap; by eapply decoded_length|exact Hval].
Qed.

Lemma bound_required `{!RuleLaws} d body vals i f v : bind d body = Ok vals → d !! i = Some f → vals !! i = Some v →
  "required" ∈ rules_of (f_validate f) → v ≠ "".
Proof.
  intros (raw & _ & _ & _ & Hfail)%bind_accepts Hd Hv Hr. eapply required_nonempty; [exact Hfail| |exact Hr].
  apply list_elem_of_lookup. exists i. apply lookup_zip_with_Some. by exists f, v.
Qed.

Lemma bind_error_status d body e : bind d body = Err e → status (@HandleValidationError unit e) = 400.
Proof.
  unfold bind. destruct (Unmarshal _ _ body) as [raw|]; cbn [fmap option_fmap option_map ValidateAndBind].
  - destruct (Validate _ _) as [e'|] eqn:Hv; [|done]. intros [= <-]. revert Hv. unfold Validate. case_match; [|done]. by intros [= <-].
  - by intros [= <-].
Qed.

(** Two bodies whose fields the policy makes alike are the same request: a password that
    differs only in what the policy strips or escapes is accepted in place of the other. *)
Lemma bind_conflates d body body' raw raw' :
  Unmarshal (decode_fields d) (zero d) body = Some raw → Unmarshal (decode_fields d) (zero d) body' = Some raw' →
  Sanitize <$> raw = Sanitize <$> raw' → bind d body = bind d body'.
Proof.
  intros H1 H2 Heq. unfold bind. rewrite H1, H2. cbn [fmap option_fmap option_map ValidateAndBind].
  assert (SanitizeStruct Sanitize (struct_value d raw) = SanitizeStruct Sanitize (struct_value d raw')) as ->; [|done].
  apply decoded_length in H1, H2. clear -H1 H2 Heq. unfold struct_value. cbn [SanitizeStruct sanitizeValue]. do 3 f_equal.
  revert raw raw' H1 H2 Heq. induction d as [|f d IH]; intros [|v raw] [|v' raw'] H1 H2 Heq; try done.
  cbn. injection Heq as Hv Heq. f_equal; [by rewrite Hv|]. injection H1 as H1. injection H2 as H2. by apply IH.
Qed.

(** *** What a client sends is what is bound *)

Definition names_distinct (d : list Field) : bool :=
  bool_decide (NoDup (map (λ f, fold_name (f_json f)) d)) && forallb (λ f, valid_utf8 (f_json f)) d.

Lemma find_field d i f : names_distinct d = true → d !! i = Some f →
  List.find (λ x : string * setter (list string), field_is x.1 (f_json f)) (decode_fields d) = Some (f_json f, string_field (λ l s, <[i := s]> l)).
Proof.
  unfold names_distinct. intros [Hnd _]%andb_true_iff Hi. apply bool_decide_eq_true in Hnd. unfold decode_fields.
  assert (Hgen : ∀ k, List.find (λ x : string * setter (list string), field_is x.1 (f_json f))
    (imap (λ i f, (f_json f, string_field (λ l s, <[(k + i)%nat := s]> l))) d) = Some (f_json f, string_field (λ l s, <[(k + i)%nat := s]> l))).
  { revert i Hi. induction d as [|g d IH]; intros i Hi k; [done|]. cbn [map] in Hnd. apply NoDup_cons in Hnd as [Hg Hnd].
    rewrite imap_cons. cbn [List.find fst]. destruct i as [|i].
    - injection Hi as ->. unfold field_is at 1. rewrite String.eqb_refl. done.
    - cbn in Hi. destruct (field_is (f_json g) (f_json f)) eqn:He.
      + exfalso. apply Hg. unfold field_is in He. apply String.eqb_eq in He. rewrite <-He.
        apply list_elem_of_In, in_map_iff. exists f. split; [done|]. apply list_elem_of_In. by eapply list_elem_of_lookup_2.
      + replace (k + S i)%nat with (S k + i)%nat by lia. rewrite <-(IH Hnd i Hi (S k)). f_equal.
        apply imap_ext. intros j x _. unfold compose. by replace (k + S j)%nat with (S k + j)%nat by lia. }
  exact (Hgen 0%nat).
Qed.

Lemma decode_sent d vals : names_distinct d = true → length vals = length d → Forall (λ v, valid_utf8 v = true) vals →
  Unmarshal (decode_fields d) (zero d) (encode (JObj (zip_with (λ f v, (f_json f, JStr v)) d vals))) = Some vals.
Proof.
  intros Hd Hl Hv. pose proof Hd as [_ Hn]%andb_true_iff. rewrite Unmarshal_encode.
  2:{ cbn [wf]. apply andb_true_iff. split; [done|]. clear Hd. revert vals Hl Hv. induction d as [|f d IH]; intros [|v vals] Hl Hv; try done.
      cbn [zip_with forallb fst snd wf] in *. apply andb_true_iff in Hn as [Hf Hn]. apply Forall_cons in Hv as [Hv Hvs]. injection Hl as Hl.
      rewrite Hf, Hv. by apply IH. }
  unfold decode_struct.
  assert (Hgen : ∀ k, (k ≤ length d)%nat →
    fold_left (set_member (decode_fields d)) (take k (zip_with (λ f v, (f_json f, JStr v)) d vals)) (zero d, false) =
      (take k vals ++ drop k (zero d), false)).
  { induction k as [|k IH]; intros Hk; [by rewrite !take_0, drop_0|].
    destruct (lookup_lt_is_Some_2 d k ltac:(lia)) as [f Hf]. destruct (lookup_lt_is_Some_2 vals k ltac:(lia)) as [v Hvk].
    assert (Hz : zip_with (λ f v, (f_json f, JStr v)) d vals !! k = Some (f_json f, JStr v)) by (rewrite lookup_zip_with, Hf, Hvk; done).
    rewrite (take_S_r _ _ _ Hz), fold_left_app, IH by lia. cbn [fold_left]. unfold set_member. cbn [fst snd].
    rewrite (find_field d k f Hd Hf). cbn [snd string_field]. f_equal.
    assert (Hlt : length (take k vals) = k) by (rewrite length_take; lia).
    rewrite insert_app_r_alt by lia. rewrite Hlt, Nat.sub_diag, (take_S_r _ _ _ Hvk), <-app_assoc. f_equal.
    unfold zero. rewrite !drop_replicate. destruct (length d - k)%nat as [|n] eqn:E; [lia|].
    replace (length d - S k)%nat with n by lia. done. }
  specialize (Hgen (length d) (le_n _)). rewrite take_ge in Hgen by (rewrite length_zip_with; lia). rewrite Hgen.
  rewrite take_ge by lia. rewrite drop_ge by (unfold zero; by rewrite length_replicate). by rewrite app_nil_r.
Qed.

Lemma request_types_distinct : Forall (λ d, names_distinct d = true) request_types.
Proof. repeat (apply Forall_cons; split; [vm_compute; reflexivity|]). by apply Forall_nil. Qed.

End bind.

(** C11: the path of a request body.  For every string request of the API: when binding succeeds,
    the handler gets one value for each field, the sanitized ones of the decoded body, no
    required one is empty, and the rule engine found nothing wrong; when it fails the answer is
    400.  And nothing else is asked of a client: a body that carries values the policy leaves
    alone and the rules accept is bound to exactly those values. *)
Theorem request_binding `{RuleLaws} (Sanitize : string → string) (d : list Field) (body : string) (vals : list string) :
  d ∈ request_types →
  (match bind Sanitize d body with
   | Ok got =>
       length got = length d ∧ failures (zip_with (λ f w, (tagName (f_json f), f_validate f, w)) d got) = [] ∧
       (∃ raw, Unmarshal (decode_fields d) (zero d) body = Some raw ∧ got = Sanitize <$> raw) ∧
       ∀ i f v, d !! i = Some f → got !! i = Some v → "required" ∈ rules_of (f_validate f) → v ≠ ""
   | Err e => status (@HandleValidationError unit e) = 400
   end) ∧
  (length vals = length d → Forall (λ v, valid_utf8 v = true ∧ Sanitize v = v) vals →
   failures (zip_with (λ f w, (tagName (f_json f), f_validate f, w)) d vals) = [] →
   bind Sanitize d (encode (JObj (zip_with (λ f v, (f_json f, JStr v)) d vals))) = Ok vals).
Proof.
  intros Hd. split.
  - destruct (bind Sanitize d body) as [got|e] eqn:Hb; [|by eapply bind_error_status].
    destruct (bind_accepts Sanitize d body got Hb) as (raw & Hu & Hg & Hl & Hf). split_and!; [done|done|eauto|].
    intros i f v. by apply (bound_required Sanitize d body got i f v Hb).
  - intros Hl Hv Hf. pose proof request_types_distinct as Hall. rewrite Forall_forall in Hall. specialize (Hall d Hd).
    unfold bind. rewrite decode_sent; [|done|done|by eapply Forall_impl; [exact Hv|intros v [? _]]].
    cbn [fmap option_fmap option_map ValidateAndBind].
    assert (Ht : texts (SanitizeStruct Sanitize (struct_value d vals)) = vals).
    { transitivity (Sanitize <$> texts (struct_value d vals)); [apply (texts_sanitizeValue Sanitize (struct_value d vals))|].
      rewrite texts_struct by done. clear -Hv. induction Hv as [|v l [_ Hv] _ IH]; [done|]. cbn. by rewrite Hv, IH. }
    rewrite (proj2 (Validate_None _ _)); [by rewrite Ht|]. unfold struct_rules. by rewrite Ht.
Qed.

(** ** Handlers on bodies *)

(** A role is assigned only from a body with a user and a role; anything else changes
    nothing and is answered 400. *)
Theorem assign_role_body `{RuleLaws} {S : Type} `{Port.Authorizer S} (Sanitize : string → string) (s : S) (body : string) :
  match bind Sanitize AssignRoleRequest body with
  | Err _ => (Role.h_AssignRole s (two (bind Sanitize AssignRoleRequest body))).1 = s ∧
             status (Role.h_AssignRole s (two (bind Sanitize AssignRoleRequest body))).2 = 400
  | Ok vals => ∃ u r, vals = [u; r] ∧ u ≠ "" ∧ r ≠ "" ∧
      Role.h_AssignRole s (two (bind Sanitize AssignRoleRequest body)) =
        Role.reply (Role.AssignRole s u r) "Role assigned successfully"
  end.
Proof.
  destruct (request_binding Sanitize AssignRoleRequest body [] ltac:(set_solver)) as [Hb _].
  destruct (bind Sanitize AssignRoleRequest body) as [vals|e].
  - destruct Hb as (Hl & _ & _ & Hreq). destruct vals as [|u [|r [|]]]; try done. exists u, r. split_and!; [done| | |done].
    + eapply (Hreq 0%nat); [reflexivity..|]. refine (bool_decide_unpack _ _). vm_compute. exact I.
    + eapply (Hreq 1%nat); [reflexivity..|]. refine (bool_decide_unpack _ _). vm_compute. exact I.
  - cbn. split; [done|]. revert Hb. unfold HandleValidationError. by destruct (IsValidationError e).
Qed.

(** ** A concrete engine *)

(** The rule [required] alone. *)
#[local] Instance required_only : RuleEngine := {
  failures fs :=
    omap (λ f, if String.eqb f.2 "" && existsb (String.eqb "required") (rules_of f.1.2)
               then Some (mkFieldError f.1.1 "required" "") else None) fs
}.
#[local] Instance required_laws : RuleLaws.
Proof.
  constructor. intros fs name tag v Hf Hin Hr ->. assert (mkFieldError name "required" "" ∈ @failures required_only fs) as He.
  { apply list_elem_of_omap. exists (name, tag, ""). split; [done|]. cbn [fst snd].
    assert (existsb (String.eqb "required") (rules_of tag) = true) as ->; [|done].
    apply existsb_exists. exists "required". split; [by apply list_elem_of_In|done]. }
  rewrite Hf in He. by apply elem_of_nil in He.
Qed.

(** A policy that strips one tag. *)
Definition strip_b (s : string) : string := if String.eqb s "secret<b>" then "secret" else s.

Lemma request_binding_witness :
  @bind required_only strip_b LoginRequest (encode (JObj [("email", JStr "a@x.io"); ("password", JStr "secret")])) = Ok ["a@x.io"; "secret"].
Proof.
  apply (proj2 (@request_binding required_only required_laws strip_b LoginRequest "" ["a@x.io"; "secret"] (list_elem_of_here _ _))).
  - reflexivity.
  - repeat constructor; reflexivity.
  - vm_compute. reflexivity.
Defined.

Lemma assign_role_body_example :
  @bind required_only id AssignRoleRequest "{}" =
    Err (ValidationError (map_to_list (<["role" := "role is required"]> (<["user_id" := "user_id is required"]> (∅ : gmap string string))))).
Proof. vm_compute. reflexivity. Qed.

(** Another password than the stored one, the same request. *)
Example passwords_conflated :
  @bind required_only strip_b LoginRequest (encode (JObj [("email", JStr "a@x.io"); ("password", JStr "secret<b>")])) =
  @bind required_only strip_b LoginRequest (encode (JObj [("email", JStr "a@x.io"); ("password", JStr "secret")])).
Proof. vm_compute. reflexivity. Qed.

End Requests.
