(* ===== verification/RabbitMQ.v ===== *)
(** * The RabbitMQ queue adapter

    Models [internal/adapter/queue/rabbitmq.go]: the cached publisher channel, consumers
    with their bounded reconnect, health probe and shutdown.  The broker and its client
    library are third party: connections and channels are identities in a world that records
    which are open, what was declared and what was published; whether an operation succeeds
    is an input.  Closing a connection closes its channels, operations on a closed channel
    or connection fail, and both may be lost at any time. *)
From S2P Require Import Prelude AppErr Config Port.
Import AppErr Config.

Module RabbitMQ.

(** ** Options *)

Record Options := mkOptions {
  PrefetchCount : Z;
  MaxReconnectTries : Z;
  ReconnectBaseDelay : Z;
  ReconnectMaxDelay : Z
}.

Definition defaultPrefetchCount : Z := 10.
Definition defaultMaxReconnectTries : Z := 5.
Definition defaultReconnectBaseDelay : Z := Second.
Definition defaultReconnectMaxDelay : Z := 30 * Second.

Definition withDefaults (o : Options) : Options :=
  mkOptions (if PrefetchCount o <=? 0 then defaultPrefetchCount else PrefetchCount o)
    (if MaxReconnectTries o <=? 0 then defaultMaxReconnectTries else MaxReconnectTries o)
    (if ReconnectBaseDelay o <=? 0 then defaultReconnectBaseDelay else ReconnectBaseDelay o)
    (if ReconnectMaxDelay o <=? 0 then defaultReconnectMaxDelay else ReconnectMaxDelay o).

Definition nextBackoff (current ceiling : Z) : Z :=
  let next := wrap64 (current * 2) in
  if next >? ceiling then ceiling else next.

(** ** The broker *)

Record Message := mkMessage { m_Exchange : string; m_Key : string; m_ContentType : string; m_Body : string }.

Record World := mkWorld {
  conns : gset nat;                       (* open connections *)
  chans : gmap nat nat;                   (* open channels, with their connection *)
  fresh : nat;
  sent : list Message;
  queues : gset (string * bool);              (* name, durable *)
  exchanges : gset (string * string * bool);  (* name, kind, durable *)
  bindings : gset (string * string * string)
}.

Definition set_open (w : World) (cs : gset nat) (chs : gmap nat nat) (n : nat) : World :=
  mkWorld cs chs n (sent w) (queues w) (exchanges w) (bindings w).

Definition ErrClosed : error := PlainError "Exception (504) Reason: channel/connection is not open".

(** [dial(url)]; the argument is the failure, if any. *)
Definition w_dial (fault : option error) (w : World) : World * result error nat :=
  match fault with
  | Some e => (w, Err e)
  | None => (set_open w ({[fresh w]} ∪ conns w) (chans w) (S (fresh w)), Ok (fresh w))
  end.

(** [conn.Channel()] *)
Definition w_channel (fault : option error) (w : World) (c : nat) : World * result error nat :=
  if bool_decide (c ∈ conns w) then
    match fault with
    | Some e => (w, Err e)
    | None => (set_open w (conns w) (<[fresh w := c]> (chans w)) (S (fresh w)), Ok (fresh w))
    end
  else (w, Err ErrClosed).

Definition w_close_chan (w : World) (ch : nat) : World := set_open w (conns w) (delete ch (chans w)) (fresh w).
Definition w_close_conn (w : World) (c : nat) : World :=
  set_open w (conns w ∖ {[c]}) (filter (λ kv, kv.2 ≠ c) (chans w)) (fresh w).

(** An operation on a channel: refused when it is closed. *)
Definition on_chan (fault : option error) (w : World) (ch : nat) (effect : World → World) : World * option error :=
  match chans w !! ch with
  | None => (w, Some ErrClosed)
  | Some _ => match fault with Some e => (w, Some e) | None => (effect w, None) end
  end.

(** ** The adapter *)

Record RabbitMQ := mkRabbitMQ {
  opts : Options;
  conn : option nat;
  pubCh : option nat;
  closed : bool
}.

Notation St := (RabbitMQ * World)%type.

Definition newRabbitMQ (o : Options) (dialFault chanFault : option error) (w : World)
    : World * result error RabbitMQ :=
  match w_dial dialFault w with
  | (w1, Err err) => (w1, Err (FmtError "failed to connect to rabbitmq: " err ""))
  | (w1, Ok c) =>
      match w_channel chanFault w1 c with
      | (w2, Err err) => (w_close_conn w2 c, Err (FmtError "failed to open publisher channel: " err ""))
      | (w2, Ok ch) => (w2, Ok (mkRabbitMQ (withDefaults o) (Some c) (Some ch) false))
      end
  end.

(** The exported constructors dial with the client library: the answers are its own. *)
Definition NewRabbitMQWithOptions (o : Options) (dialFault chanFault : option error) (w : World) : World * result error RabbitMQ :=
  newRabbitMQ o dialFault chanFault w.
Definition NewRabbitMQ (dialFault chanFault : option error) (w : World) : World * result error RabbitMQ :=
  NewRabbitMQWithOptions (mkOptions 0 0 0 0) dialFault chanFault w.

Definition withPubChannel (qw : St) (fn : World → nat → World * option error) : St * option error :=
  let '(q, w) := qw in
  if closed q then (qw, Some (PlainError "rabbitmq: adapter closed"))
  else match pubCh q with
       | None => (qw, Some ErrClosed)   (* a nil channel: not reached, the constructors set it *)
       | Some ch => let '(w', err) := fn w ch in ((q, w'), err)
       end.

Definition add_sent (m : Message) (w : World) : World :=
  mkWorld (conns w) (chans w) (fresh w) (sent w ++ [m]) (queues w) (exchanges w) (bindings w).

Definition Publish (fault : option error) (qw : St) (exchange routingKey body : string) : St * option error :=
  withPubChannel qw (λ w ch,
    on_chan fault w ch (add_sent (mkMessage exchange routingKey "application/octet-stream" body))).

(** [body] is the outcome of [json.Marshal]. *)
Definition PublishJSON (fault : option error) (qw : St) (exchange routingKey : string) (body : result error string)
    : St * option error :=
  match body with
  | Err err => (qw, Some (FmtError "failed to marshal message: " err ""))
  | Ok body => withPubChannel qw (λ w ch,
      on_chan fault w ch (add_sent (mkMessage exchange routingKey "application/json" body)))
  end.

Definition wrap_err (text : string) (r : World * option error) : World * option error :=
  match r with (w, Some err) => (w, Some (FmtError text err "")) | (w, None) => (w, None) end.

Definition DeclareQueue (ctx : Context) (fault : option error) (qw : St) (name : string) (durable : bool) : St * option error :=
  match ctx_err ctx with
  | Some err => (qw, Some err)
  | None => withPubChannel qw (λ w ch, wrap_err "failed to declare queue: " (on_chan fault w ch (λ w,
      mkWorld (conns w) (chans w) (fresh w) (sent w) ({[(name, durable)]} ∪ queues w) (exchanges w) (bindings w))))
  end.

Definition DeclareExchange (fault : option error) (qw : St) (name kind : string) (durable : bool) : St * option error :=
  withPubChannel qw (λ w ch, wrap_err "failed to declare exchange: " (on_chan fault w ch (λ w,
    mkWorld (conns w) (chans w) (fresh w) (sent w) (queues w) ({[(name, kind, durable)]} ∪ exchanges w) (bindings w)))).

Definition BindQueue (fault : option error) (qw : St) (queueName exchange routingKey : string) : St * option error :=
  withPubChannel qw (λ w ch, wrap_err "failed to bind queue: " (on_chan fault w ch (λ w,
    mkWorld (conns w) (chans w) (fresh w) (sent w) (queues w) (exchanges w)
      ({[(queueName, exchange, routingKey)]} ∪ bindings w)))).

(** ** Consumers *)

(** The failures of the three calls that open a consumer. *)
Record OpenAnswers := mkOpenAnswers { a_channel : option error; a_qos : option error; a_consume : option error }.

Definition openConsumer (a : OpenAnswers) (qw : St) : St * result error nat :=
  let '(q, w) := qw in
  match conn q with
  | Some c =>
      if negb (bool_decide (c ∈ conns w)) then (qw, Err (PlainError "rabbitmq: connection closed"))
      else match w_channel (a_channel a) w c with
      | (w1, Err err) => ((q, w1), Err (FmtError "failed to open consumer channel: " err ""))
      | (w1, Ok ch) =>
          match on_chan (a_qos a) w1 ch id with
          | (w2, Some err) => ((q, w_close_chan w2 ch), Err (FmtError "failed to set qos: " err ""))
          | (w2, None) =>
              match on_chan (a_consume a) w2 ch id with
              | (w3, Some err) => ((q, w_close_chan w3 ch), Err (FmtError "failed to register consumer: " err ""))
              | (w3, None) => ((q, w3), Ok ch)
              end
          end
      end
  | None => (qw, Err (PlainError "rabbitmq: connection closed"))
  end.

(** [Consume]: the consumer goroutine runs on the channel returned. *)
Definition Consume (a : OpenAnswers) (qw : St) : St * result error nat := openConsumer a qw.

(** [redial] works without the lock until it swaps: it dials, opens a publisher channel on
    the new connection, and closes that again when the channel fails. *)
Definition redial_channel (chanFault : option error) (w : World) (c : nat) : World * result error nat :=
  match w_channel chanFault w c with
  | (w', Err err) => (w_close_conn w' c, Err err)
  | (w', Ok ch) => (w', Ok ch)
  end.

(** The part under the lock: the previous channel and connection are closed, the new ones
    take their place. *)
Definition redial_swap (c ch : nat) (qw : St) : St :=
  let '(q, w) := qw in
  let w1 := match pubCh q with Some old => w_close_chan w old | None => w end in
  let w2 := match conn q with Some old => w_close_conn w1 old | None => w1 end in
  (mkRabbitMQ (opts q) (Some c) (Some ch) (closed q), w2).

Definition redial (dialFault chanFault : option error) (qw : St) : St * option error :=
  let '(q, w) := qw in
  match w_dial dialFault w with
  | (w1, Err err) => ((q, w1), Some err)
  | (w1, Ok c) =>
      match redial_channel chanFault w1 c with
      | (w2, Err err) => ((q, w2), Some err)
      | (w2, Ok ch) => (redial_swap c ch (q, w2), None)
      end
  end.

(** One attempt of the reconnect loop: whether the context was done before the timer fired,
    and the failures of its calls. *)
Record Attempt := mkAttempt {
  t_done : option error;
  t_dial : option error;
  t_pub : option error;
  t_open : OpenAnswers
}.

Definition is_closed (qw : St) : bool :=
  match conn qw.1 with Some c => negb (bool_decide (c ∈ conns qw.2)) | None => true end.

(** The loop, with the delays it waited for. *)
Fixpoint reconnect_loop (tries : nat) (ans : list Attempt) (delay : Z) (qw : St)
    : St * list Z * option (result error nat) :=
  match tries with
  | O => (qw, [], Some (Err (PlainError
           ("rabbitmq: reconnect exhausted after " +:+ pretty (MaxReconnectTries (opts qw.1)) +:+ " attempts"))))
  | S tries' =>
      match ans with
      | [] => (qw, [delay], None)      (* still waiting *)
      | a :: ans' =>
          match t_done a with
          | Some err => (qw, [delay], Some (Err err))
          | None =>
              let '(qw1, err) := if is_closed qw then redial (t_dial a) (t_pub a) qw else (qw, None) in
              let delay' := nextBackoff delay (ReconnectMaxDelay (opts qw.1)) in
              match err with
              | Some _ => let '(qw2, ds, r) := reconnect_loop tries' ans' delay' qw1 in (qw2, delay :: ds, r)
              | None =>
                  match openConsumer (t_open a) qw1 with
                  | (qw2, Ok ch) => (qw2, [delay], Some (Ok ch))
                  | (qw2, Err _) => let '(qw3, ds, r) := reconnect_loop tries' ans' delay' qw2 in (qw3, delay :: ds, r)
                  end
              end
          end
      end
  end.

Definition reconnectConsumer (ans : list Attempt) (qw : St) : St * list Z * option (result error nat) :=
  reconnect_loop (Z.to_nat (MaxReconnectTries (opts qw.1))) ans (ReconnectBaseDelay (opts qw.1)) qw.

(** What the consumer goroutine sees: the context's end, the channel's end (by notification
    or by the deliveries ending) or a message. *)
Inductive event := EvDone | EvClosed | EvDeliveriesClosed | EvDelivery (body : string).
Inductive ack := Ack (body : string) | NackRequeue (body : string).

(** [None] while the loop still waits for an event. *)
Fixpoint drainDeliveries {H} (handler : H → string → H * option error) (h : H) (evs : list event)
    : H * list ack * option bool :=
  match evs with
  | [] => (h, [], None)
  | EvDone :: _ => (h, [], Some true)
  | EvClosed :: _ | EvDeliveriesClosed :: _ => (h, [], Some false)
  | EvDelivery body :: evs' =>
      let '(h1, err) := handler h body in
      let '(h2, acks, r) := drainDeliveries handler h1 evs' in
      (h2, (match err with Some _ => NackRequeue body | None => Ack body end) :: acks, r)
  end.

Inductive consumer := Running (ch : nat) | Reconnecting | Halted.

(** The consumer goroutine over a list of rounds: the events of one channel, then the answers
    to the reconnect attempts. *)
Fixpoint runConsumer {H} (handler : H → string → H * option error) (h : H) (ch : nat)
    (rounds : list (list event * list Attempt)) (qw : St) : St * H * list ack * consumer :=
  match rounds with
  | [] => (qw, h, [], Running ch)
  | (evs, ans) :: rounds' =>
      match drainDeliveries handler h evs with
      | (h1, acks, None) => (qw, h1, acks, Running ch)
      | (h1, acks, Some stopped) =>
          let qw1 := (qw.1, w_close_chan qw.2 ch) in
          if stopped then (qw1, h1, acks, Halted)
          else match reconnectConsumer ans qw1 with
               | (qw2, _, Some (Ok ch')) =>
                   let '(qw3, h2, acks', r) := runConsumer handler h1 ch' rounds' qw2 in
                   (qw3, h2, acks ++ acks', r)
               | (qw2, _, Some (Err _)) => (qw2, h1, acks, Halted)
               | (qw2, _, None) => (qw2, h1, acks, Reconnecting)
               end
      end
  end.

(** ** Probe and shutdown *)

(** The answer of [QueueDeclarePassive]: [Some (code, err)]. *)
Definition NotFound : Z := 404.

Definition Ping (ctx : Context) (chanFault : option error) (probe : option (Z * error)) (qw : St) : St * option error :=
  let '(q, w) := qw in
  match ctx_err ctx with
  | Some err => (qw, Some err)
  | None =>
      if closed q then (qw, Some (PlainError "queue: closed"))
      else match conn q with
      | None => (qw, Some (PlainError "queue: not connected"))
      | Some c =>
          if negb (bool_decide (c ∈ conns w)) then (qw, Some (PlainError "queue: connection closed"))
          else match w_channel chanFault w c with
          | (w1, Err err) => ((q, w1), Some (FmtError "queue ping: open channel: " err ""))
          | (w1, Ok ch) =>
              let w2 := w_close_chan w1 ch in
              match probe with
              | None => ((q, w2), None)
              | Some (code, err) =>
                  if code =? NotFound then ((q, w2), None)
                  else ((q, w2), Some (FmtError "queue ping: " err ""))
              end
          end
      end
  end.

(** The errors of the two [Close] calls of the library are inputs. *)
Definition Close (chErr connErr : option error) (qw : St) : St * option error :=
  let '(q, w) := qw in
  if closed q then (qw, None)
  else
    let q' := mkRabbitMQ (opts q) (conn q) (pubCh q) true in
    let '(w1, firstErr) := match pubCh q with Some ch => (w_close_chan w ch, chErr) | None => (w, None) end in
    match conn q with
    | Some c => ((q', w_close_conn w1 c), match firstErr with Some e => Some e | None => connErr end)
    | None => ((q', w1), firstErr)
    end.

(** ** Connections and channels are not leaked *)

(** The redials under way: the connection each has dialled, and the publisher channel once it
    is open. *)
Notation Redials := (gmap nat (option nat)).

(** An open connection is the adapter's or that of a redial under way, and channels live on
    open connections. *)
Definition owned (fl : Redials) (qw : St) : Prop :=
  (∀ c, c ∈ conns qw.2 → (conn qw.1 = Some c ∨ is_Some (fl !! c)) ∧ (c < fresh qw.2)%nat) ∧
  (∀ ch c, chans qw.2 !! ch = Some c → c ∈ conns qw.2 ∧ (ch < fresh qw.2)%nat).

Lemma owned_close_chan fl q w ch : owned fl (q, w) → owned fl (q, w_close_chan w ch).
Proof. intros [Hc Hh]. split; [done|]. simpl. intros ch' c [_ Hl]%lookup_delete_Some. eauto. Qed.

Lemma owned_close_conn fl q w c : owned fl (q, w) → owned fl (q, w_close_conn w c).
Proof.
  intros [Hc Hh]. split; simpl.
  - intros c' [Hin _]%elem_of_difference. by apply Hc.
  - intros ch c' [Hl Hne]%map_lookup_filter_Some. simpl in Hne. apply Hh in Hl as [? ?]. set_solver.
Qed.

Lemma owned_channel fault fl q w c w' r : owned fl (q, w) → w_channel fault w c = (w', r) → owned fl (q, w').
Proof.
  intros [Hc Hh]. unfold w_channel. case_bool_decide as Hin; [|by intros [= <- _]].
  destruct fault; intros [= <- _]; [done|]. split; simpl in *.
  - intros c' Hc'. destruct (Hc c' Hc'). split; [done|lia].
  - intros ch c' [[<- <-]|[_ Hl]]%lookup_insert_Some; [split; [done|lia]|].
    destruct (Hh _ _ Hl). split; [done|lia].
Qed.

Lemma on_chan_owned fault fl q w ch f w' e :
  (∀ w0, owned fl (q, w0) → owned fl (q, f w0)) → owned fl (q, w) → on_chan fault w ch f = (w', e) → owned fl (q, w').
Proof. unfold on_chan. intros Hf Hw. repeat case_match; intros; simplify_eq; auto. Qed.

Lemma with_pub_owned fl qw fn :
  (∀ q w ch, owned fl (q, w) → owned fl (q, (fn w ch).1)) → owned fl qw → owned fl (withPubChannel qw fn).1.
Proof.
  intros Hfn Hw. destruct qw as [q w]. unfold withPubChannel. repeat case_match; simplify_eq/=; try done.
  match goal with H : fn w ?n = _ |- _ => specialize (Hfn q w n Hw); by rewrite H in Hfn end.
Qed.

(** The declarations and publications only touch what the broker stores. *)
Lemma pub_op_owned fault fl q w ch f : (∀ w0, conns (f w0) = conns w0 ∧ chans (f w0) = chans w0 ∧ fresh (f w0) = fresh w0) →
  owned fl (q, w) → owned fl (q, (on_chan fault w ch f).1).
Proof.
  intros Hf Hw. destruct (on_chan fault w ch f) as [w' e] eqn:Ho. eapply on_chan_owned; [|exact Hw|exact Ho].
  intros w0 [Hc Hh]. destruct (Hf w0) as (E1 & E2 & E3). split; simpl in *; rewrite ?E1, ?E2, ?E3; done.
Qed.

Lemma wrap_err_world t r : (wrap_err t r).1 = r.1.
Proof. by destruct r as [? []]. Qed.

(** A consumer that could not be opened leaves no channel behind. *)
Lemma open_failed a fl q w qw' err : owned fl (q, w) → openConsumer a (q, w) = (qw', Err err) →
  qw'.1 = q ∧ conns qw'.2 = conns w ∧ chans qw'.2 = chans w.
Proof.
  intros [_ Hh]. unfold openConsumer, w_channel, on_chan. destruct (conn q) as [c|]; [|by intros [= <- _]].
  case_bool_decide as Hin; simpl; [|by intros [= <- _]].
  assert (chans w !! fresh w = None) as Hnone.
  { destruct (chans w !! fresh w) as [c'|] eqn:Hl; [|done]. apply Hh in Hl as [_ Hlt]. simpl in Hlt. lia. }
  destruct (a_channel a); [by intros [= <- _]|]. simpl. rewrite lookup_insert_eq.
  destruct (a_qos a); simpl; [intros [= <- _]; simpl; by rewrite delete_insert_id|].
  rewrite lookup_insert_eq. destruct (a_consume a); simpl; [intros [= <- _]; simpl; by rewrite delete_insert_id|done].
Qed.

(** A consumer that was opened runs on the adapter's open connection. *)
Lemma open_ok a qw qw' ch : openConsumer a qw = (qw', Ok ch) →
  ∃ c, qw'.1 = qw.1 ∧ conn qw'.1 = Some c ∧ c ∈ conns qw'.2 ∧ chans qw'.2 !! ch = Some c.
Proof.
  destruct qw as [q w]. unfold openConsumer, w_channel, on_chan. destruct (conn q) as [c|] eqn:Hc; [|done].
  case_bool_decide as Hin; simpl; [|done]. destruct (a_channel a); [done|]. simpl. rewrite lookup_insert_eq.
  destruct (a_qos a); simpl; [done|]. rewrite lookup_insert_eq. destruct (a_consume a); simpl; [done|].
  intros [= <- <-]. exists c. simpl. by rewrite lookup_insert_eq.
Qed.

(** *** The redial, step by step *)

Lemma dial_owned d fl q w w' r : owned fl (q, w) → w_dial d w = (w', r) →
  owned (match r with Ok c => <[c := None]> fl | Err _ => fl end) (q, w').
Proof.
  unfold w_dial. destruct d as [e|]; intros [Hc Hh] [= <- <-]; [done|]. split; simpl in *.
  - intros c [->%elem_of_singleton|Hin]%elem_of_union; [split; [right; rewrite lookup_insert_eq; eauto|lia]|].
    destruct (Hc c Hin) as [Ho ?]. split; [|lia]. destruct Ho; [by left|right].
    rewrite lookup_insert. case_decide; eauto.
  - intros ch c Hl. destruct (Hh ch c Hl). split; [set_solver|lia].
Qed.

Lemma redial_channel_owned p fl q w c w' r : owned fl (q, w) → redial_channel p w c = (w', r) →
  owned (match r with Ok ch => <[c := Some ch]> fl | Err _ => delete c fl end) (q, w').
Proof.
  unfold redial_channel. intros Ho. destruct (w_channel p w c) as [w1 [ch|e]] eqn:H1; intros [= <- <-];
    pose proof (owned_channel _ _ _ _ _ _ _ Ho H1) as [Hc Hh].
  - split; [|done]. intros c' Hin. destruct (Hc c' Hin) as [Ho' ?]. split; [|done]. destruct Ho'; [by left|right].
    rewrite lookup_insert. case_decide; eauto.
  - split; simpl in *.
    + intros c' [Hin Hne]%elem_of_difference. destruct (Hc c' Hin) as [Ho' ?]. split; [|done]. destruct Ho'; [by left|right].
      rewrite lookup_delete_ne; [done|]. set_solver.
    + intros ch c' [Hl Hne]%map_lookup_filter_Some. simpl in Hne. destruct (Hh _ _ Hl). split; [set_solver|done].
Qed.

Lemma redial_swap_owned fl q w c ch : owned fl (q, w) → owned (delete c fl) (redial_swap c ch (q, w)).
Proof.
  intros Ho. unfold redial_swap.
  set (w1 := match pubCh q with Some old => w_close_chan w old | None => w end).
  assert (owned fl (q, w1)) as Ho1 by (unfold w1; destruct (pubCh q); [by apply owned_close_chan|done]).
  assert (∀ w2, owned fl (q, w2) → (∀ c', c' ∈ conns w2 → conn q ≠ Some c') →
    owned (delete c fl) (mkRabbitMQ (opts q) (Some c) (Some ch) (closed q), w2)) as Hgen.
  { intros w2 [Hc Hh] Hold. split; [|done]. simpl in *. intros c' Hin. destruct (Hc c' Hin) as [Ho' ?]. split; [|done].
    destruct (decide (c' = c)) as [->|Hne]; [by left|right]. rewrite lookup_delete_ne by done.
    destruct Ho' as [Heq|?]; [by destruct (Hold c' Hin)|done]. }
  destruct (conn q) as [old|] eqn:Hq.
  - apply Hgen; [by apply owned_close_conn|]. simpl. set_solver.
  - by apply Hgen.
Qed.

Lemma close_owned e1 e2 fl qw : owned fl qw → owned fl (Close e1 e2 qw).1.
Proof.
  destruct qw as [q w]. intros Ho. unfold Close. destruct (closed q); [done|].
  assert (∀ w', owned fl (q, w') → owned fl (mkRabbitMQ (opts q) (conn q) (pubCh q) true, w')) as Hq by done.
  destruct (pubCh q) as [ch|], (conn q) as [c|] eqn:Hc; cbn [fst]; rewrite ?Hc in Hq; apply Hq;
    repeat first [apply owned_close_conn | apply owned_close_chan | done].
Qed.

(** Closing while no redial is under way leaves nothing open. *)
Lemma close_empty e1 e2 qw : closed qw.1 = false → owned ∅ qw →
  let qw' := (Close e1 e2 qw).1 in closed qw'.1 = true ∧ conns qw'.2 = ∅ ∧ chans qw'.2 = ∅.
Proof.
  intros Hcl Ho. pose proof (close_owned e1 e2 ∅ qw Ho) as [Hc Hh].
  assert (closed (Close e1 e2 qw).1.1 = true ∧ ∀ c, conn (Close e1 e2 qw).1.1 = Some c → c ∉ conns (Close e1 e2 qw).1.2) as [H1 H2].
  { destruct qw as [q w]. unfold Close. simpl in Hcl. rewrite Hcl. destruct (pubCh q), (conn q) as [c|]; simpl; (split; [done|]);
      intros c' [= <-]; set_solver. }
  assert (conns (Close e1 e2 qw).1.2 = ∅) as E1.
  { apply set_eq. intros c. split; [|set_solver]. intros Hin. exfalso. destruct (Hc c Hin) as [[Heq|[x Hx]] _]; [by apply (H2 c)|].
    by rewrite lookup_empty in Hx. }
  split_and!; [done|done|]. apply map_eq. intros ch. rewrite lookup_empty. apply eq_None_not_Some. intros [c Hl].
  apply Hh in Hl as [Hin _]. rewrite E1 in Hin. set_solver.
Qed.

(** *** Steps

    What is one step: a call that holds the lock; a channel opened on a connection that was
    read earlier (a consumer's or the probe's, which take no lock); a channel or a connection
    that is closed, by its user or by the broker. *)
Inductive base_step : St → St → Prop :=
| step_publish f qw x k b : base_step qw (Publish f qw x k b).1
| step_publish_json f qw x k b : base_step qw (PublishJSON f qw x k b).1
| step_declare_queue ctx f qw n d : base_step qw (DeclareQueue ctx f qw n d).1
| step_declare_exchange f qw n k d : base_step qw (DeclareExchange f qw n k d).1
| step_bind f qw n x k : base_step qw (BindQueue f qw n x k).1
| step_open_channel f q w c : base_step (q, w) (q, (w_channel f w c).1)
| step_close e1 e2 qw : base_step qw (Close e1 e2 qw).1
| step_lose_channel q w ch : base_step (q, w) (q, w_close_chan w ch)
| step_lose_connection q w c : base_step (q, w) (q, w_close_conn w c).

(** Any number of consumers may redial at once, each in its three steps. *)
Inductive step : St * Redials → St * Redials → Prop :=
| step_base x y fl : base_step x y → step (x, fl) (y, fl)
| step_dial d q w fl w' r : w_dial d w = (w', r) →
    step ((q, w), fl) ((q, w'), match r with Ok c => <[c := None]> fl | Err _ => fl end)
| step_redial_channel p q w fl c w' r : fl !! c = Some None → redial_channel p w c = (w', r) →
    step ((q, w), fl) ((q, w'), match r with Ok ch => <[c := Some ch]> fl | Err _ => delete c fl end)
| step_swap qw fl c ch : fl !! c = Some (Some ch) → step (qw, fl) (redial_swap c ch qw, delete c fl).

Lemma base_step_owned fl x y : base_step x y → owned fl x → owned fl y.
Proof.
  destruct 1; intros Hw.
  - apply with_pub_owned; [|done]. intros. by apply pub_op_owned.
  - unfold PublishJSON. destruct b; [|done]. apply with_pub_owned; [|done]. intros. by apply pub_op_owned.
  - unfold DeclareQueue. destruct (ctx_err ctx); [done|]. apply with_pub_owned; [|done]. intros.
    rewrite wrap_err_world. by apply pub_op_owned.
  - apply with_pub_owned; [|done]. intros. rewrite wrap_err_world. by apply pub_op_owned.
  - apply with_pub_owned; [|done]. intros. rewrite wrap_err_world. by apply pub_op_owned.
  - destruct (w_channel f w c) as [w' r] eqn:Hch. by eapply owned_channel.
  - by apply close_owned.
  - by apply owned_close_chan.
  - by apply owned_close_conn.
Qed.

Lemma step_owned x y : step x y → owned x.2 x.1 → owned y.2 y.1.
Proof.
  destruct 1; simpl; intros Hw.
  - by eapply base_step_owned.
  - by eapply dial_owned.
  - by eapply redial_channel_owned.
  - destruct qw. by apply redial_swap_owned.
Qed.

(** The methods that are not one step are sequences of them. *)
Lemma base_steps x y fl : rtc base_step x y → rtc step (x, fl) (y, fl).
Proof. induction 1; [apply rtc_refl|]. eapply rtc_l; [by apply step_base|done]. Qed.

Lemma open_steps a qw : rtc base_step qw (openConsumer a qw).1.
Proof.
  destruct qw as [q w]. unfold openConsumer. destruct (conn q) as [c|]; [|apply rtc_refl].
  destruct (negb _); [apply rtc_refl|]. pose proof (step_open_channel (a_channel a) q w c) as H1.
  destruct (w_channel (a_channel a) w c) as [w1 [ch|e1]]; [|by apply rtc_once].
  unfold on_chan. repeat case_match; simplify_eq/=; (eapply rtc_l; [exact H1|]);
    first [apply rtc_refl | apply rtc_once, step_lose_channel].
Qed.

Lemma ping_steps ctx f probe qw : rtc base_step qw (Ping ctx f probe qw).1.
Proof.
  destruct qw as [q w]. unfold Ping. destruct (ctx_err ctx); [apply rtc_refl|]. destruct (closed q); [apply rtc_refl|].
  destruct (conn q) as [c|]; [|apply rtc_refl]. destruct (negb _); [apply rtc_refl|].
  pose proof (step_open_channel f q w c) as H1. destruct (w_channel f w c) as [w1 [ch|e1]]; [|by apply rtc_once].
  eapply rtc_l; [exact H1|]. pose proof (step_lose_channel q w1 ch).
  destruct probe as [[code err]|]; [|by apply rtc_once]. destruct (code =? NotFound); by apply rtc_once.
Qed.

Lemma redial_steps d p q w fl : (∀ c, is_Some (fl !! c) → (c < fresh w)%nat) →
  rtc step ((q, w), fl) ((redial d p (q, w)).1, fl).
Proof.
  intros Hfl. unfold redial. destruct (w_dial d w) as [w1 [c|e]] eqn:Hd;
    pose proof (step_dial d q w fl w1 _ Hd) as H1; cbv beta iota in H1; [|by apply rtc_once].
  assert (fl !! c = None) as Hc.
  { unfold w_dial in Hd. destruct d; [done|]. injection Hd as _ <-. apply eq_None_not_Some. intros Hs. specialize (Hfl _ Hs). lia. }
  eapply rtc_l; [exact H1|].
  destruct (redial_channel p w1 c) as [w2 [ch|e]] eqn:Hch;
    pose proof (step_redial_channel p q w1 (<[c := None]> fl) c w2 _ (lookup_insert_eq _ _ _) Hch) as H2; cbv beta iota in H2.
  - rewrite insert_insert_eq in H2. eapply rtc_l; [exact H2|].
    pose proof (step_swap (q, w2) (<[c := Some ch]> fl) c ch (lookup_insert_eq _ _ _)) as H3.
    rewrite delete_insert_id in H3 by done. by apply rtc_once.
  - rewrite delete_insert_id in H2 by done. by apply rtc_once.
Qed.

(** Shut down: nothing is open, and the adapter knows. *)
Definition shut (qw : St) : Prop := closed qw.1 = true ∧ conns qw.2 = ∅ ∧ chans qw.2 = ∅.

Lemma shut_pub qw fn : shut qw → (withPubChannel qw fn).1 = qw.
Proof. destruct qw as [q w]. intros [Hcl _]. unfold withPubChannel. simpl in Hcl. by rewrite Hcl. Qed.

Lemma step_shut x y : base_step x y → shut x → shut y.
Proof.
  destruct 1; intros Hs; unfold Publish, DeclareExchange, BindQueue; try (by rewrite shut_pub); try done.
  - unfold PublishJSON. destruct b; [by rewrite shut_pub|done].
  - unfold DeclareQueue. destruct (ctx_err ctx); [done|by rewrite shut_pub].
  - destruct Hs as (H1 & H2 & H3). simpl in *. unfold w_channel. rewrite bool_decide_eq_false_2 by set_solver. done.
  - destruct qw as [q w], Hs as (H1 & H2 & H3). unfold Close. simpl in *. by rewrite H1.
  - destruct Hs as (H1 & H2 & H3). simpl in *. split_and!; simpl; [done|done|]. by rewrite H3, delete_empty.
  - destruct Hs as (H1 & H2 & H3). simpl in *. split_and!; simpl; [done|set_solver|]. by rewrite H3, map_filter_empty.
Qed.

(** The world before the adapter exists: nothing of it is open. *)
Definition quiet (w : World) : Prop := conns w = ∅ ∧ chans w = ∅.

Lemma new_owned o d p w w' q : quiet w → newRabbitMQ o d p w = (w', Ok q) → owned ∅ (q, w') ∧ closed q = false.
Proof.
  intros [E1 E2]. unfold newRabbitMQ, w_dial, w_channel. destruct d; [done|]. simpl.
  rewrite bool_decide_eq_true_2 by set_solver. destruct p; [done|]. intros [= <- <-]. split; [|done].
  split; simpl; rewrite ?E1, ?E2.
  - intros c Hin. assert (c = fresh w) as -> by set_solver. split; [by left|lia].
  - intros ch c [<- <-]%lookup_singleton_Some. split; [set_solver|lia].
Qed.

(** C28: the adapter does not leak.  Start with nothing open.  In any interleaving of its calls, of the single steps of
    consumers' reconnects, any number of them at once, and of losses of channels and
    connections, every open connection is the adapter's current one or that of a redial still
    under way, and every open channel is on an open connection; so whenever no redial is under
    way at most one connection is open, the current one.  A failed constructor leaves nothing
    open; and once closed, with no redial under way then or later, no connection and no
    channel is ever open again and every publication is refused. *)
Theorem connections_owned (o : Options) (d p : option error) (w w' : World) (r : result error RabbitMQ) :
  quiet w → newRabbitMQ o d p w = (w', r) →
  match r with
  | Err _ => quiet w'
  | Ok q =>
      ∀ q1 w1 fl, rtc step ((q, w'), ∅) ((q1, w1), fl) →
        (∀ c, c ∈ conns w1 → conn q1 = Some c ∨ is_Some (fl !! c)) ∧
        (∀ ch c, chans w1 !! ch = Some c → c ∈ conns w1) ∧
        (fl = ∅ → (∀ c, c ∈ conns w1 → conn q1 = Some c) ∧
           (closed q1 = false → ∀ e1 e2 q2 w2, rtc base_step (Close e1 e2 (q1, w1)).1 (q2, w2) →
              conns w2 = ∅ ∧ chans w2 = ∅ ∧
              ∀ f x k b, Publish f (q2, w2) x k b = ((q2, w2), Some (PlainError "rabbitmq: adapter closed"))))
  end.
Proof.
  intros Hq Hnew. destruct r as [q|err].
  - intros q1 w1 fl Hsteps. destruct (new_owned _ _ _ _ _ _ Hq Hnew) as [Hown _].
    assert (owned fl (q1, w1)) as Ho.
    { change (owned ((q1, w1), fl).2 ((q1, w1), fl).1). change (owned ((q, w'), ∅ : Redials).2 ((q, w'), ∅ : Redials).1) in Hown.
      clear Hnew. induction Hsteps; eauto using step_owned. }
    split_and!.
    + intros c Hc. by apply Ho.
    + intros ch c Hc. destruct Ho as [_ Hh]. by apply Hh in Hc as [Hc _].
    + intros ->. split.
      { intros c Hc. destruct Ho as [Ho _]. destruct (Ho c Hc) as [[?|[x Hx]] _]; [done|by rewrite lookup_empty in Hx]. }
      intros Hcl e1 e2 q2 w2 Hafter. destruct (close_empty e1 e2 (q1, w1) Hcl Ho) as (S1 & S2 & S3).
      assert (shut (Close e1 e2 (q1, w1)).1) as Hshut by done.
      assert (shut (q2, w2)) as (H1 & H2 & H3)
        by (clear S1 S2 S3 Hnew Hsteps; induction Hafter; eauto using step_shut).
      split_and!; [done|done|]. intros f x k b. unfold Publish, withPubChannel. simpl in H1. by rewrite H1.
  - destruct Hq as [E1 E2]. revert Hnew. unfold newRabbitMQ, w_dial, w_channel. destruct d; [by intros [= <- _]|].
    simpl. rewrite bool_decide_eq_true_2 by set_solver. destruct p; [|done]. intros [= <- _]. split; simpl.
    + rewrite E1. set_solver.
    + by rewrite E2, map_filter_empty.
Qed.

(** ** Reconnecting is bounded *)

Lemma nextBackoff_range d m ceiling :
  0 < d ≤ m → 0 < ceiling ≤ m → m < 2 ^ 62 → 0 < nextBackoff d ceiling ≤ m.
Proof.
  intros Hd Hc Hm. unfold nextBackoff. rewrite wrap64_id by (unfold in_int64, min_int64, max_int64; lia).
  case_match; rewrite Z.gtb_ltb in *; to_prop; lia.
Qed.

Lemma redial_opts d p qw : opts (redial d p qw).1.1 = opts qw.1.
Proof. destruct qw as [q w]. unfold redial, redial_channel, redial_swap, w_dial, w_channel. repeat case_match; simplify_eq/=; done. Qed.

Lemma open_opts a qw : (openConsumer a qw).1.1 = qw.1.
Proof. destruct qw as [q w]. unfold openConsumer. repeat case_match; simplify_eq/=; done. Qed.

(** What a run of the loop guarantees, whatever the answers are. *)
Definition bounded_run (m : Z) (tries : nat) (ans : list Attempt) (out : St * list Z * option (result error nat)) : Prop :=
  let '(qw', ds, r) := out in
  (length ds ≤ tries)%nat ∧ Forall (λ d, 0 < d ≤ m) ds ∧
  ((tries ≤ length ans)%nat → is_Some r) ∧
  (∀ ch, r = Some (Ok ch) → ∃ c, conn qw'.1 = Some c ∧ c ∈ conns qw'.2 ∧ chans qw'.2 !! ch = Some c).

Lemma bounded_more m tries a ans d qw ds r : 0 < d ≤ m →
  bounded_run m tries ans (qw, ds, r) → bounded_run m (S tries) (a :: ans) (qw, d :: ds, r).
Proof.
  intros Hd (H1 & H2 & H3 & H4). split_and!; [simpl; lia | by constructor | simpl; intros; apply H3; lia | done].
Qed.

Lemma reconnect_loop_bounded m tries ans d qw :
  0 < d ≤ m → 0 < ReconnectMaxDelay (opts qw.1) ≤ m → m < 2 ^ 62 →
  bounded_run m tries ans (reconnect_loop tries ans d qw).
Proof.
  intros Hd Hc Hm. revert ans d qw Hd Hc. induction tries as [|tries IH]; intros ans d qw Hd Hc.
  { cbn [reconnect_loop]. split_and!; [done|constructor|eauto|done]. }
  cbn [reconnect_loop]. destruct ans as [|a ans].
  { split_and!; [simpl; lia|by constructor|simpl; lia|done]. }
  destruct (t_done a) as [err|]; [split_and!; [simpl; lia|by constructor|eauto|done]|].
  assert (opts (if is_closed qw then redial (t_dial a) (t_pub a) qw else (qw, None)).1.1 = opts qw.1) as Ho
    by (destruct (is_closed qw); [apply redial_opts|done]).
  pose proof (nextBackoff_range d m (ReconnectMaxDelay (opts qw.1)) Hd Hc Hm) as Hnext.
  destruct (if is_closed qw then _ else _) as [qw1 [err|]]; simpl in Ho.
  - specialize (IH ans _ qw1 Hnext ltac:(by rewrite Ho)).
    destruct (reconnect_loop _ _ _ _) as [[qw2 ds] r]. by apply bounded_more.
  - pose proof (open_opts (t_open a) qw1) as Ho2.
    destruct (openConsumer (t_open a) qw1) as [qw2 [ch|err]] eqn:Hopen; simpl in Ho2.
    + split_and!; [simpl; lia|by constructor|eauto|]. intros ch' [= <-].
      destruct (open_ok _ _ _ _ Hopen) as (c & _ & ? & ? & ?). eauto.
    + specialize (IH ans _ qw2 Hnext ltac:(by rewrite Ho2, Ho)).
      destruct (reconnect_loop _ _ _ _) as [[qw3 ds] r]. by apply bounded_more.
Qed.

(** C29: a consumer's reconnect ends: it waits at most [MaxReconnectTries] times, never for
    longer than the larger of the base delay and the maximal delay (as long as doubling them
    does not exceed an int64), and once that many attempts were answered it has either
    returned an error or a consumer channel, and then the channel is open on the adapter's
    current, open connection. *)
Theorem reconnect_bounded (o : Options) (q : RabbitMQ) (w : World) (ans : list Attempt) :
  opts q = withDefaults o →
  ReconnectBaseDelay o < 2 ^ 62 → ReconnectMaxDelay o < 2 ^ 62 →
  let m := Z.max (ReconnectBaseDelay (opts q)) (ReconnectMaxDelay (opts q)) in
  bounded_run m (Z.to_nat (MaxReconnectTries (opts q))) ans (reconnectConsumer ans (q, w)).
Proof.
  intros Ho Hb Hmax m. unfold reconnectConsumer.
  assert (0 < ReconnectBaseDelay (opts q) < 2 ^ 62 ∧ 0 < ReconnectMaxDelay (opts q) < 2 ^ 62) as [H1 H2].
  { rewrite Ho. unfold withDefaults, defaultReconnectBaseDelay, defaultReconnectMaxDelay, Second. simpl.
    repeat case_match; to_prop; lia. }
  apply reconnect_loop_bounded; unfold m; simpl; lia.
Qed.

(** ** A lost publisher channel *)

(** The cached publisher channel is gone. *)
Definition pub_dead (qw : St) : Prop :=
  ∀ ch, pubCh qw.1 = Some ch → chans qw.2 !! ch = None ∧ (ch < fresh qw.2)%nat.

Lemma dead_pub_op qw fn :
  pub_dead qw → (∀ w ch, chans w !! ch = None → ∃ e, fn w ch = (w, Some e)) →
  (withPubChannel qw fn).1 = qw ∧ is_Some (withPubChannel qw fn).2.
Proof.
  destruct qw as [q w]. intros Hd Hfn. unfold withPubChannel. destruct (closed q); [by eauto|].
  destruct (pubCh q) as [ch|] eqn:Hp; [|by eauto]. destruct (Hd ch Hp) as [Hn _]. destruct (Hfn w ch Hn) as [e ->]. by eauto.
Qed.

Lemma dead_on_chan fault eff w ch : chans w !! ch = None → ∃ e, on_chan fault w ch eff = (w, Some e).
Proof. intros Hn. unfold on_chan. rewrite Hn. eauto. Qed.

Lemma dead_wrap t w (r : World * option error) : (∃ e, r = (w, Some e)) → ∃ e, wrap_err t r = (w, Some e).
Proof. intros [e ->]. simpl. eauto. Qed.

(** Opening or closing other channels and losing connections does not bring it back. *)
Lemma dead_mono q w w' : pub_dead (q, w) → (fresh w ≤ fresh w')%nat →
  (∀ ch, (ch < fresh w)%nat → chans w !! ch = None → chans w' !! ch = None) → pub_dead (q, w').
Proof. intros Hd Hf Hc ch Hp. destruct (Hd ch Hp) as [Hn Hl]. simpl in *. split; [auto|lia]. Qed.

Lemma dead_open_channel f q w c : pub_dead (q, w) → pub_dead (q, (w_channel f w c).1) ∧ sent (w_channel f w c).1 = sent w.
Proof.
  intros Hd. unfold w_channel. repeat case_match; simplify_eq/=; split; try done;
    apply (dead_mono q w); simpl; try done; try lia; intros ch Hl Hn; rewrite ?lookup_insert_ne by lia; done.
Qed.

Lemma dead_close e1 e2 q w : pub_dead (q, w) → pub_dead (Close e1 e2 (q, w)).1 ∧ sent (Close e1 e2 (q, w)).1.2 = sent w.
Proof.
  intros Hd. unfold Close. destruct (closed q); [done|].
  assert (Hd' : pub_dead (mkRabbitMQ (opts q) (conn q) (pubCh q) true, w)) by exact Hd.
  destruct (pubCh q) as [ch0|] eqn:Hp, (conn q) as [c|]; (split; [|done]); try done;
    (eapply dead_mono; [exact Hd'|simpl; lia|]); simpl; intros ch Hl Hn;
    rewrite ?map_lookup_filter, ?lookup_delete, ?Hn; repeat case_decide; done.
Qed.

Lemma step_dead x y : base_step x y → pub_dead x → pub_dead y ∧ sent y.2 = sent x.2.
Proof.
  assert (Hpub : ∀ qw fn, pub_dead qw → (∀ w ch, chans w !! ch = None → ∃ e, fn w ch = (w, Some e)) →
    pub_dead (withPubChannel qw fn).1 ∧ sent (withPubChannel qw fn).1.2 = sent qw.2).
  { intros qw fn Hd Hfn. destruct (dead_pub_op qw fn Hd Hfn) as [-> _]. done. }
  destruct 1; intros Hd; try done.
  - apply Hpub; [done|]. eauto using dead_on_chan.
  - unfold PublishJSON. destruct b; [|done]. apply Hpub; [done|]. eauto using dead_on_chan.
  - unfold DeclareQueue. destruct (ctx_err ctx); [done|]. apply Hpub; [done|]. eauto using dead_on_chan, dead_wrap.
  - apply Hpub; [done|]. eauto using dead_on_chan, dead_wrap.
  - apply Hpub; [done|]. eauto using dead_on_chan, dead_wrap.
  - by apply dead_open_channel.
  - destruct qw. by apply dead_close.
  - split; [|done]. eapply dead_mono; [exact Hd|simpl; lia|]. simpl. intros ch' _ Hn. rewrite lookup_delete, Hn. by case_decide.
  - split; [|done]. eapply dead_mono; [exact Hd|simpl; lia|]. simpl. intros ch' _ Hn. by rewrite map_lookup_filter, Hn.
Qed.

(** A process that only publishes never recovers: once the publisher channel is lost, with
    the connection or without it, nothing but a consumer's reconnect opens another one, so
    every later publication fails and nothing more reaches the broker. *)
Theorem publisher_outage_permanent (qw qw' : St) (f : option error) (x k b : string) :
  pub_dead qw → rtc base_step qw qw' →
  is_Some (Publish f qw' x k b).2 ∧ (Publish f qw' x k b).1 = qw' ∧ sent qw'.2 = sent qw.2.
Proof.
  intros Hd Hs. assert (pub_dead qw' ∧ sent qw'.2 = sent qw.2) as [Hd' Hsent].
  { induction Hs as [|u v t Huv _ IH]; [done|]. destruct (step_dead u v Huv Hd) as [Hv E]. rewrite <-E. by apply IH. }
  destruct (dead_pub_op qw' (λ w ch, on_chan f w ch (add_sent (mkMessage x k "application/octet-stream" b))) Hd') as [H1 H2];
    [eauto using dead_on_chan|]. done.
Qed.

(** ** The consumer goroutine *)

(** The deliveries before the first event that ends the loop. *)
Fixpoint delivered (evs : list event) : list string :=
  match evs with EvDelivery body :: evs' => body :: delivered evs' | _ => [] end.

Fixpoint verdicts {H} (handler : H → string → H * option error) (h : H) (bodies : list string) : list ack :=
  match bodies with
  | [] => []
  | body :: bodies' =>
      (if decide ((handler h body).2 = None) then Ack body else NackRequeue body) ::
      verdicts handler (handler h body).1 bodies'
  end.

(** Every delivery is handled once, in order, and acknowledged exactly when its handler
    returned no error; the others go back to the queue. *)
Lemma drain_exact {H} (handler : H → string → H * option error) h evs :
  (drainDeliveries handler h evs).1.2 = verdicts handler h (delivered evs).
Proof.
  revert h. induction evs as [|[| | |body] evs IH]; intros h; try done. cbn [drainDeliveries delivered verdicts].
  destruct (handler h body) as [h1 err]. specialize (IH h1). destruct (drainDeliveries handler h1 evs) as [[h2 acks] r].
  simpl in *. rewrite IH. by destruct err.
Qed.

(** One consumer alone: its reconnect and its loop are sequences of the steps above. *)
Lemma reconnect_steps tries ans delay qw : rtc step (qw, ∅) ((reconnect_loop tries ans delay qw).1.1, ∅).
Proof.
  revert ans delay qw. induction tries as [|tries IH]; intros ans delay qw; [apply rtc_refl|]. cbn [reconnect_loop].
  destruct ans as [|a ans]; [apply rtc_refl|]. destruct (t_done a); [apply rtc_refl|].
  assert (rtc step (qw, ∅) ((if is_closed qw then redial (t_dial a) (t_pub a) qw else (qw, None)).1, ∅)) as H1.
  { destruct (is_closed qw), qw as [q w]; [|apply rtc_refl]. apply redial_steps. intros c [x Hx]. by rewrite lookup_empty in Hx. }
  destruct (if is_closed qw then _ else _) as [qw1 [err|]]; simpl in H1; (etrans; [exact H1|]).
  - specialize (IH ans (nextBackoff delay (ReconnectMaxDelay (opts qw.1))) qw1).
    by destruct (reconnect_loop _ _ _ _) as [[qw2 ds] r].
  - pose proof (base_steps _ _ ∅ (open_steps (t_open a) qw1)) as H2.
    destruct (openConsumer _ _) as [qw2 [ch|err]]; (etrans; [exact H2|]); [apply rtc_refl|].
    specialize (IH ans (nextBackoff delay (ReconnectMaxDelay (opts qw.1))) qw2).
    by destruct (reconnect_loop _ _ _ _) as [[qw3 ds] r].
Qed.

Lemma run_steps {H} (handler : H → string → H * option error) h ch rounds qw :
  rtc step (qw, ∅) ((runConsumer handler h ch rounds qw).1.1.1, ∅).
Proof.
  revert h ch qw. induction rounds as [|[evs ans] rounds IH]; intros h ch [q w]; [apply rtc_refl|].
  cbn [runConsumer]. destruct (drainDeliveries handler h evs) as [[h1 acks] [stopped|]]; [|apply rtc_refl].
  eapply rtc_l; [apply step_base, step_lose_channel|]. cbn [fst snd].
  destruct stopped; [apply rtc_refl|]. etrans; [apply (reconnect_steps (Z.to_nat (MaxReconnectTries (opts q))) ans (ReconnectBaseDelay (opts q)))|].
  change (reconnect_loop _ _ _ _) with (reconnectConsumer ans (q, w_close_chan w ch)).
  destruct (reconnectConsumer ans _) as [[qw2 ds] [[ch'|err]|]]; try apply rtc_refl.
  specialize (IH h1 ch' qw2). by destruct (runConsumer handler h1 ch' rounds qw2) as [[[qw3 h2] acks'] r].
Qed.

(** ** A concrete run *)

Definition w0 : World := mkWorld ∅ ∅ 0 [] ∅ ∅ ∅.
Definition o0 : Options := mkOptions 0 0 0 0.
Definition started : World * result error RabbitMQ := newRabbitMQ o0 None None w0.
Definition q1 : RabbitMQ := mkRabbitMQ (withDefaults o0) (Some 0%nat) (Some 1%nat) false.
Definition ok : Attempt := mkAttempt None None None (mkOpenAnswers None None None).

(** After [Close], a consumer that reconnects dials again and installs the new connection:
    it stays open, since a further [Close] does nothing. *)
Example reconnect_after_close_leaks :
  let closed_st := (Close None None (q1, started.1)).1 in
  let '(qw, _, r) := reconnectConsumer [ok] closed_st in
  conns closed_st.2 = ∅ ∧ is_Some r ∧ size (conns qw.2) = 1%nat ∧ (Close None None qw).1 = qw.
Proof. vm_compute. split_and!; eauto. Qed.

(** Two consumers that redial at once have two connections open until the second swap, which
    closes the first one's. *)
Example concurrent_redials :
  let w1 := w_close_conn started.1 0 in
  let '(w2, a) := w_dial None w1 in let '(w3, b) := w_dial None w2 in
  match a, b with
  | Ok a, Ok b =>
      let '(w4, ca) := redial_channel None w3 a in let '(w5, cb) := redial_channel None w4 b in
      match ca, cb with
      | Ok ca, Ok cb =>
          let st1 := redial_swap a ca (q1, w5) in let st2 := redial_swap b cb st1 in
          conns st1.2 = {[a; b]} ∧ conns st2.2 = {[b]} ∧ conn st2.1 = Some b ∧ chans st2.2 = {[cb := b]}
      | _, _ => False
      end
  | _, _ => False
  end.
Proof. vm_compute. done. Qed.

(** The connection is lost once: the constructor's publisher channel is dead from then on. *)
Example outage_after_lost_connection : pub_dead (q1, w_close_conn started.1 0).
Proof. intros ch [= <-]. vm_compute. split; [done|lia]. Qed.

Lemma connections_owned_witness :
  newRabbitMQ o0 None None w0 = (started.1, Ok q1) ∧
  conns (Close None None (q1, started.1)).1.2 = ∅ ∧ chans (Close None None (q1, started.1)).1.2 = ∅.
Proof.
  assert (newRabbitMQ o0 None None w0 = (started.1, Ok q1)) as Hnew by (vm_compute; reflexivity).
  split; [exact Hnew|].
  destruct (connections_owned o0 None None w0 started.1 (Ok q1) (conj eq_refl eq_refl) Hnew q1 started.1 ∅ (rtc_refl _ _))
    as (_ & _ & Hnone). destruct (Hnone eq_refl) as [_ Hclose].
  destruct (Close None None (q1, started.1)) as [[q2 w2] e] eqn:Hc.
  specialize (Hclose eq_refl None None q2 w2). rewrite Hc in Hclose.
  destruct (Hclose (rtc_refl _ _)) as (Hc0 & Hh0 & _). split; [exact Hc0|exact Hh0].
Defined.

Lemma reconnect_bounded_witness :
  opts q1 = withDefaults o0 ∧
  bounded_run (Z.max Second (30 * Second)) 5 [] (reconnectConsumer [] (q1, started.1)).
Proof.
  split; [reflexivity|]. apply (reconnect_bounded o0 q1 started.1 []); [reflexivity|vm_compute; reflexivity|vm_compute; reflexivity].
Defined.

End RabbitMQ.
