(* ===== verification/Delivery.v ===== *)
(** * Job delivery, end to end

    Composes [internal/module/job] (dispatch), [internal/worker] (publisher, message handler,
    retries) and the consumer loop of [internal/adapter/queue/rabbitmq.go] around the broker:
    the publications that are on their way to it, the queue's ready messages, the messages
    buffered on the consumers' channels, those handled but not yet acknowledged, and the retry
    timers.  The adapter publishes without confirms: a nil error says that the client library
    has written the message, not that the broker has it.  A run is any interleaving of
    dispatches, arrivals, publications lost with their connection, deliveries, handler outcomes,
    acknowledgements, lost consumer connections, timers and the worker's shutdown.  The broker
    is the only part without source: it takes a publication and appends it when it is routed,
    keeps an unacknowledged message, and puts it back when its channel goes away. *)
From S2P Require Import Prelude AppErr Worker RabbitMQ.
Import AppErr Worker.

Module Delivery.

(** ** worker.go: start and shutdown *)

(** [Start] returns nil whatever [DeclareQueue] answers; each of the [Concurrency] goroutines
    ends at once when [Consume] fails and waits for the context otherwise. *)
Record Started := mkStarted { warned : bool; waiting : nat; start_err : option error }.

Definition consume (answer : option error) (waits : nat) : nat :=
  match answer with Some _ => waits | None => S waits end.

Definition Start (cfg : WorkerConfig) (declare : option error) (answers : nat → option error) : Started :=
  mkStarted (if declare then true else false)
    (foldr (λ i n, consume (answers i) n) 0%nat (seq 0 (Z.to_nat (Concurrency cfg)))) None.

(** [Stats]: the handlers' types come in map order. *)
Definition Stats (cfg : WorkerConfig) (w : Worker) : string * Z * list string :=
  (QueueName cfg, Concurrency cfg, elements (handlers w)).

(** ** What becomes of a message *)

(** The ends the worker logs. *)
Inductive fate :=
| Completed | Exhausted | NoHandler | Malformed | EncodeFailed
| RetryCancelled | RetryPublishFailed.

#[export] Instance fate_eq_dec : EqDecision fate.
Proof. solve_decision. Defined.

(** How a publication is lost without a trace: no queue is bound where it is sent (it is not
    mandatory), or its connection goes away before the broker has taken it. *)
Inductive loss := Unroutable | Vanished.

#[export] Instance loss_eq_dec : EqDecision loss.
Proof. solve_decision. Defined.

Section delivery.
Context `{JobCodec}.

(** The id a message carries. *)
Definition id_of (m : string) : string := match DecodeJob m with Ok j => job_ID j | Err _ => "" end.
Definition carries (id m : string) : Prop := ∃ j, DecodeJob m = Ok j ∧ job_ID j = id.
#[export] Instance carries_dec id m : Decision (carries id m).
Proof.
  unfold carries. destruct (DecodeJob m) as [j|e]; [|right; by intros (j & ? & _)].
  destruct (decide (job_ID j = id)) as [Hi|Hi]; [left; eauto|right; intros (j' & [= <-] & Hj); done].
Defined.

(** The line [handleMessage] logs last, [None] when it schedules a retry. *)
Definition logged (w : Worker) (msg : string) (outcome : option error) : option fate :=
  match DecodeJob msg with
  | Err _ => Some Malformed
  | Ok job0 =>
      let job := IncrementAttempts job0 in
      if decide (job_Type job ∈ handlers w) then
        match outcome with
        | None => Some Completed
        | Some _ =>
            if CanRetry job then (match Encode job with Ok _ => None | Err _ => Some EncodeFailed end)
            else Some Exhausted
        end
      else Some NoHandler
  end.

(** ** The system *)

(** [wk]'s queue is the broker's.  [wire] holds the publications the client library has
    answered nil to and the broker has not taken yet.  A buffered message is marked while the
    broker holds it for that channel.  [accepted], [requeued] and [lost] are what the theorems
    count; the program keeps none of them. *)
Record Sys := mkSys {
  wk : Worker;
  declared : bool;
  wire : list (string * string * string);   (* exchange, routing key, body *)
  in_flight : list (bool * string);
  to_ack : list string;
  fates : list (string * fate);
  lost : list (string * loss);
  accepted : list string;
  requeued : list string
}.

(** The worker's configuration, the consumers' prefetch counts together, and the bindings an
    operator made on the broker (the program makes none). *)
Variable cfg : WorkerConfig.
Variable prefetch : nat.
Variable bound : string → string → bool.

Definition routes (s : Sys) (exchange key : string) : bool :=
  declared s && (if String.eqb exchange "" then String.eqb key (QueueName cfg) else bound exchange key).

Definition set_wk (s : Sys) (w : Worker) : Sys :=
  mkSys w (declared s) (wire s) (in_flight s) (to_ack s) (fates s) (lost s) (accepted s) (requeued s).
Definition enqueue (w : Worker) (m : string) : Worker :=
  mkWorker (handlers w) (queue w ++ [m]) (pending w) (cancelled w) (executed w).
Definition set_wire (s : Sys) (l : list (string * string * string)) : Sys :=
  mkSys (wk s) (declared s) l (in_flight s) (to_ack s) (fates s) (lost s) (accepted s) (requeued s).
Definition log_fate (s : Sys) (id : string) (f : fate) : Sys :=
  mkSys (wk s) (declared s) (wire s) (in_flight s) (to_ack s) (fates s ++ [(id, f)]) (lost s) (accepted s) (requeued s).
Definition lose (s : Sys) (id : string) (l : loss) : Sys :=
  mkSys (wk s) (declared s) (wire s) (in_flight s) (to_ack s) (fates s) (lost s ++ [(id, l)]) (accepted s) (requeued s).

(** [PublishWithContext] when it returns nil: the message is on its way. *)
Definition publish (s : Sys) (exchange key body : string) : Sys := set_wire s (wire s ++ [(exchange, key, body)]).

(** The adapter over the broker, with the fault of the next call. *)
#[local] Instance broker_queue : Queue (Sys * option error) := {
  queue_Publish q exchange key body :=
    match q.2 with Some e => (q, Some e) | None => ((publish q.1 exchange key body, None), None) end
}.

(** The broker takes a publication. *)
Definition arrive (s : Sys) (i : nat) : Sys :=
  match wire s !! i with
  | None => s
  | Some (exchange, key, body) =>
      let s' := set_wire s (delete i (wire s)) in
      if routes s exchange key then set_wk s' (enqueue (wk s) body) else lose s' (id_of body) Unroutable
  end.

(** The connection of a publication goes away before the broker has taken it. *)
Definition vanish (s : Sys) (i : nat) : Sys :=
  match wire s !! i with
  | None => s
  | Some x => lose (set_wire s (delete i (wire s))) (id_of x.2) Vanished
  end.

Definition api_dispatch (s : Sys) (jobID respID : string) (now : Z) (t : string) (payload : result error string)
    (maxRetry : Z) (fault : option error) : Sys :=
  match Dispatch (NewPublisher (QueueName cfg) (Exchange cfg)) (s, fault) jobID respID now t payload maxRetry with
  | (q, Ok _) =>
      mkSys (wk q.1) (declared q.1) (wire q.1) (in_flight q.1) (to_ack q.1) (fates q.1) (lost q.1) (accepted q.1 ++ [jobID]) (requeued q.1)
  | (q, Err _) => q.1
  end.

(** The handler the worker gives to [Consume]: it always returns nil. *)
Definition worker_handler (outcome : option error) (s : Sys) (body : string) : Sys * option error :=
  let s' := set_wk s (handleMessage (wk s) body outcome) in
  (match logged (wk s) body outcome with Some f => log_fate s' (id_of body) f | None => s' end, None).

Definition held (s : Sys) : nat := length (filter (λ x, Is_true x.1) (in_flight s)) + length (to_ack s).

Definition set_flight (s : Sys) (l : list (bool * string)) (a : list string) : Sys :=
  mkSys (wk s) (declared s) (wire s) l a (fates s) (lost s) (accepted s) (requeued s).

(** The broker gives the head of its queue to a consumer with room. *)
Definition deliver (s : Sys) : Sys :=
  match queue (wk s) with
  | [] => s
  | m :: q =>
      if (held s <? prefetch)%nat then
        set_flight (set_wk s (mkWorker (handlers (wk s)) q (pending (wk s)) (cancelled (wk s)) (executed (wk s))))
          (in_flight s ++ [(true, m)]) (to_ack s)
      else s
  end.

(** Put messages back at the head of the queue. *)
Definition requeue (s : Sys) (ms : list string) : Sys :=
  mkSys (mkWorker (handlers (wk s)) (ms ++ queue (wk s)) (pending (wk s)) (cancelled (wk s)) (executed (wk s)))
    (declared s) (wire s) (in_flight s) (to_ack s) (fates s) (lost s) (accepted s) (requeued s ++ ms).

(** A consumer's loop takes a buffered message and handles it; the answer for a message of a
    lost channel goes nowhere. *)
Definition consume_one (s : Sys) (i : nat) (outcome : option error) : Sys :=
  match in_flight s !! i with
  | None => s
  | Some (live, m) =>
      let s0 := set_flight s (delete i (in_flight s)) (to_ack s) in
      match RabbitMQ.drainDeliveries (worker_handler outcome) s0 [RabbitMQ.EvDelivery m] with
      | (s1, [RabbitMQ.Ack b], _) => if (live : bool) then set_flight s1 (in_flight s1) (to_ack s1 ++ [b]) else s1
      | (s1, [RabbitMQ.NackRequeue b], _) => if (live : bool) then requeue s1 [b] else s1
      | (s1, _, _) => s1
      end
  end.

Definition ack_sent (s : Sys) (i : nat) : Sys := set_flight s (in_flight s) (delete i (to_ack s)).

(** Every channel goes away: what the broker held comes back, and what was buffered may still
    be handled. *)
Definition connection_lost (s : Sys) : Sys :=
  requeue (set_flight s (map (λ x, (false, x.2)) (in_flight s)) [])
    ((filter (λ x, Is_true x.1) (in_flight s)).*2 ++ to_ack s).

(** A consumer's loop ends and forgets a message of a lost channel. *)
Definition drop_stale (s : Sys) (i : nat) : Sys :=
  match in_flight s !! i with
  | Some (false, _) => set_flight s (delete i (in_flight s)) (to_ack s)
  | _ => s
  end.

(** A retry goroutine wakes up; [publishOk] says whether its [Publish] returns nil. *)
Definition fire (s : Sys) (i : nat) (publishOk : bool) : Sys :=
  match pending (wk s) !! i with
  | None => s
  | Some (_, data) =>
      let s' := set_wk s (retryFire (wk s) i false) in
      if cancelled (wk s) then log_fate s' (id_of data) RetryCancelled
      else if publishOk then publish s' (Exchange cfg) (QueueName cfg) data
      else log_fate s' (id_of data) RetryPublishFailed
  end.

Inductive event :=
| EDispatch (jobID respID : string) (now : Z) (t : string) (payload : result error string) (maxRetry : Z) (fault : option error)
| EDeclare
| EArrive (i : nat)
| EVanish (i : nat)
| EDeliver
| EConsume (i : nat) (outcome : option error)
| EAck (i : nat)
| ELost
| EDrop (i : nat)
| EFire (i : nat) (publishOk : bool)
| EStop.

Definition step (s : Sys) (e : event) : Sys :=
  match e with
  | EDispatch jobID respID now t payload mr fault => api_dispatch s jobID respID now t payload mr fault
  | EDeclare => mkSys (wk s) true (wire s) (in_flight s) (to_ack s) (fates s) (lost s) (accepted s) (requeued s)
  | EArrive i => arrive s i
  | EVanish i => vanish s i
  | EDeliver => deliver s
  | EConsume i o => consume_one s i o
  | EAck i => ack_sent s i
  | ELost => connection_lost s
  | EDrop i => drop_stale s i
  | EFire i ok => fire s i ok
  | EStop => set_wk s (Shutdown (wk s))
  end.

Definition run (s : Sys) (evs : list event) : Sys := foldl step s evs.

(** Nothing accepted, nothing queued. *)
Definition init (hs : gset string) (decl : bool) : Sys := mkSys (mkWorker hs [] [] false []) decl [] [] [] [] [] [] [].

(** ** Invariants *)

(** A message the program wrote: it decodes, and can be written again for a retry. *)
Definition proper (m : string) : Prop :=
  ∃ j, DecodeJob m = Ok j ∧ (CanRetry (IncrementAttempts j) = true → is_ok (Encode (IncrementAttempts j)) = true).
Definition fine (m : string) : Prop := sane m ∧ proper m.

(** The messages of a state, and those that will be handled without a further fault. *)
Definition messages (s : Sys) : list string := queue (wk s) ++ (in_flight s).*2 ++ to_ack s ++ (pending (wk s)).*2 ++ (wire s).*2.
Definition live (s : Sys) : list string := (filter (λ x, Is_true x.1) (in_flight s)).*2.
Definition copies (s : Sys) : list string := queue (wk s) ++ live s ++ (pending (wk s)).*2 ++ (wire s).*2.

(** The jobs whose end is logged, and those whose publication was lost. *)
Definition ends (s : Sys) : list string := (fates s).*1 ++ (lost s).*1.

(** Every accepted job is on its way or came to an end. *)
Definition conserved (s : Sys) : Prop :=
  ∀ id, id ∈ accepted s → (∃ m, m ∈ copies s ∧ carries id m) ∨ id ∈ ends s.

Definition good (s : Sys) : Prop := Forall fine (messages s) ∧ (held s ≤ prefetch)%nat ∧ conserved s.

(** A dispatched job is one the codec keeps, with a limit in range. *)
Definition sane_event (e : event) : Prop :=
  match e with
  | EDispatch jobID _ now t (Ok data) mr _ => job_ok (mkJob jobID t data 0 mr now) ∧ mr ≤ max_int64
  | _ => True
  end.

Lemma carries_id id m : carries id m → id_of m = id.
Proof. intros (j & Hd & <-). unfold id_of. by rewrite Hd. Qed.

Lemma carries_encode j m : job_ok j → Encode j = Ok m → carries (job_ID j) m.
Proof. intros Hok (j' & Hd & _ & Hi & _)%decode_encode; [|done]. by exists j'. Qed.

Lemma fine_encode j m : job_ok j → Encode j = Ok m → 0 ≤ Attempts j < max_int64 → MaxRetry j ≤ max_int64 → fine m.
Proof.
  intros Hok He Ha Hm. split; [by eapply sane_encode|]. destruct (decode_encode j m Hok He) as (j' & Hd & _).
  exists j'. split; [done|]. by eapply encode_retry.
Qed.

(** How one state may follow another without losing a job. *)
Lemma conserved_step s s' :
  (∀ m id, m ∈ copies s → carries id m → (∃ m', m' ∈ copies s' ∧ carries id m') ∨ id ∈ ends s') →
  (∀ id, id ∈ ends s → id ∈ ends s') → (∀ id, id ∈ accepted s' → id ∈ accepted s) →
  conserved s → conserved s'.
Proof. intros Hc Hf Ha Hs id Hid. destruct (Hs id (Ha id Hid)) as [(m & Hm & Hcar)|Hid']; eauto. Qed.

Lemma elem_ends id s : id ∈ ends s ↔ id ∈ (fates s).*1 ∨ id ∈ (lost s).*1.
Proof. apply elem_of_app. Qed.

(** How many handlings a message may still cause. *)
Definition weight (m : string) : Z := match DecodeJob m with Ok j => budget j | Err _ => 1 end.

Lemma weight_pos m : 1 ≤ weight m.
Proof. unfold weight, budget. destruct (DecodeJob m); lia. Qed.

Lemma weight_encode j m : job_ok j → Encode j = Ok m → weight m = budget j.
Proof.
  intros Hok (j' & Hd & _ & _ & _ & Ha & Hm)%decode_encode; [|done]. unfold weight. rewrite Hd. unfold budget. by rewrite Ha, Hm.
Qed.

Lemma handle_cases w m o : fine m →
  ∃ ex l, handleMessage w m o = mkWorker (handlers w) (queue w) (pending w ++ l) (cancelled w) (executed w ++ ex) ∧
    ((∃ f, logged w m o = Some f) ∧ l = [] ∨
     logged w m o = None ∧ ∃ d data, l = [(d, data)] ∧ fine data ∧ (∀ id, carries id m → carries id data) ∧
       1 ≤ weight data < weight m ∧ ∀ id, msg_budget id data ≤ msg_budget id m).
Proof.
  intros [Hs _]. destruct w as [hs q p c ex]. unfold handleMessage, logged. cbn [handlers queue pending cancelled executed].
  destruct (DecodeJob m) as [j|] eqn:Hd; [|exists [], []; rewrite !app_nil_r; eauto].
  destruct (Hs j Hd) as (Hok%job_ok_increment & Ha & Hm). pose proof (increment_attempts j Ha) as Hinc.
  set (job := IncrementAttempts j) in *. assert (MaxRetry job = MaxRetry j) as Hmr by done.
  case_decide; [|exists [], []; rewrite !app_nil_r; eauto].
  destruct o as [e|]; [|exists [job], []; rewrite !app_nil_r; eauto].
  destruct (CanRetry job) eqn:Hcr; [|exists [job], []; rewrite !app_nil_r; eauto].
  unfold retryJob. destruct (Encode job) as [data|] eqn:He; [|exists [job], []; rewrite !app_nil_r; eauto].
  exists [job], [(retryDelay job, data)]. split; [done|]. right. split; [done|]. exists (retryDelay job), data.
  unfold CanRetry in Hcr. to_prop. split_and!; [done|eapply fine_encode; [exact Hok|exact He|lia..]| | | |].
  - intros id (j' & Hd' & <-). rewrite Hd in Hd'. injection Hd' as <-. exact (carries_encode job data Hok He).
  - apply weight_pos.
  - rewrite (weight_encode job data Hok He). unfold weight. rewrite Hd. unfold budget. lia.
  - intros id. rewrite (msg_budget_encode id job data Hok He). unfold msg_budget. rewrite Hd.
    change (job_ID job) with (job_ID j). unfold budget. destruct (String.eqb _ id); lia.
Qed.

Lemma consume_eq s i o (b : bool) m : in_flight s !! i = Some (b, m) →
  consume_one s i o = mkSys (handleMessage (wk s) m o) (declared s) (wire s) (delete i (in_flight s))
    (if b then to_ack s ++ [m] else to_ack s)
    (fates s ++ match logged (wk s) m o with Some f => [(id_of m, f)] | None => [] end) (lost s) (accepted s) (requeued s).
Proof.
  intros Hi. unfold consume_one. rewrite Hi. destruct s as [w d wr fl ta fa lo ac rq]. cbn [RabbitMQ.drainDeliveries].
  unfold worker_handler. cbn. destruct (logged w m o), b; by rewrite ?app_nil_r.
Qed.

Lemma in_delete {A} (l : list A) i x y : l !! i = Some x → y ∈ l → y = x ∨ y ∈ delete i l.
Proof.
  intros Hi Hy. rewrite (delete_take_drop l i). rewrite <-(take_drop_middle l i x Hi) in Hy.
  rewrite elem_of_app, elem_of_cons in Hy. rewrite elem_of_app. tauto.
Qed.

Lemma delete_subset {A} (l : list A) i x : x ∈ delete i l → x ∈ l.
Proof. intros Hx. eapply elem_of_submseteq; [exact Hx|]. apply sublist_submseteq, sublist_delete. Qed.

Lemma elem_live m s : m ∈ live s ↔ (true, m) ∈ in_flight s.
Proof.
  unfold live. rewrite list_elem_of_fmap. split.
  - intros ([[] m'] & -> & [Hb Hin]%list_elem_of_filter); done.
  - intros Hin. exists (true, m). split; [done|]. by apply list_elem_of_filter.
Qed.

Lemma elem_snd {A B} (l : list (A * B)) y : y ∈ l.*2 ↔ ∃ x, (x, y) ∈ l.
Proof.
  rewrite list_elem_of_fmap. split; [intros ([x y'] & -> & Hin); eauto|intros [x Hin]; by exists (x, y)].
Qed.

Lemma elem_messages m s : m ∈ messages s ↔
  m ∈ queue (wk s) ∨ (∃ b, (b, m) ∈ in_flight s) ∨ m ∈ to_ack s ∨ (∃ d, (d, m) ∈ pending (wk s)) ∨ ∃ x, (x, m) ∈ wire s.
Proof. unfold messages. by rewrite !elem_of_app, !elem_snd. Qed.

Lemma elem_copies m s : m ∈ copies s ↔
  m ∈ queue (wk s) ∨ (true, m) ∈ in_flight s ∨ (∃ d, (d, m) ∈ pending (wk s)) ∨ ∃ x, (x, m) ∈ wire s.
Proof. unfold copies. by rewrite !elem_of_app, elem_live, !elem_snd. Qed.

Lemma filter_delete (l : list (bool * string)) i (b : bool) (m : string) : l !! i = Some (b, m) →
  length (filter (λ x, Is_true x.1) l) = ((if b then 1 else 0) + length (filter (λ x, Is_true x.1) (delete i l)))%nat.
Proof.
  intros Hi. rewrite delete_take_drop. rewrite <-(take_drop_middle l i _ Hi) at 1.
  rewrite !filter_app, filter_cons, !length_app. cbn [fst]. destruct b; [rewrite decide_True by done|rewrite decide_False by (intros [])]; cbn [length]; lia.
Qed.

(** What a dispatch does. *)
Lemma dispatch_cases s jobID respID now t payload mr fault :
  api_dispatch s jobID respID now t payload mr fault = s ∨
  ∃ data m, payload = Ok data ∧ fault = None ∧ Encode (mkJob jobID t data 0 mr now) = Ok m ∧
    api_dispatch s jobID respID now t payload mr fault =
      mkSys (wk s) (declared s) (wire s ++ [(Exchange cfg, pub_queueName (NewPublisher (QueueName cfg) (Exchange cfg)), m)])
        (in_flight s) (to_ack s) (fates s) (lost s) (accepted s ++ [jobID]) (requeued s).
Proof.
  unfold api_dispatch, Dispatch. destruct (negb _); [by left|]. unfold PublishWithRetry, NewJobWithRetry, NewJob, PublishRaw.
  destruct payload as [data|e]; [|by left]. cbn [job_ID job_Type Payload Attempts CreatedAt].
  destruct (Encode _) as [m|e] eqn:He; [|by left]. destruct fault as [e|]; cbn; [by left|]. right. eauto 10.
Qed.

Lemma dispatch_good s jobID m x : good s → fine m → carries jobID m →
  good (mkSys (wk s) (declared s) (wire s ++ [(x, m)]) (in_flight s) (to_ack s) (fates s) (lost s) (accepted s ++ [jobID]) (requeued s)).
Proof.
  intros (Hs & Hh & Hc) Hm Hcar. split_and!; [|exact Hh|].
  - rewrite Forall_forall in *. intros m' Hin. rewrite elem_messages in Hin. cbn in Hin.
    destruct Hin as [Hin|[Hin|[Hin|[Hin|[y Hin]]]]]; try (apply Hs, elem_messages; tauto).
    apply elem_of_app in Hin as [Hin|[= -> ->]%list_elem_of_singleton]; [apply Hs, elem_messages; eauto 7|done].
  - intros id Hid. cbn in Hid. rewrite elem_of_app, list_elem_of_singleton in Hid. destruct Hid as [Hid| ->].
    + destruct (Hc id Hid) as [(m' & Hm' & Hcar')|He]; [left|by right]. exists m'. split; [|done].
      rewrite elem_copies in *. cbn. setoid_rewrite elem_of_app. naive_solver.
    + left. exists m. split; [|done]. rewrite elem_copies. cbn. right. right. right. exists x.
      rewrite elem_of_app, list_elem_of_singleton. by right.
Qed.

(** A publication leaves the wire, for the queue or for good. *)
Lemma unwire_good s i x m w' fs : good s → wire s !! i = Some (x, m) →
  handlers w' = handlers (wk s) → pending w' = pending (wk s) →
  (queue w' = queue (wk s) ++ [m] ∧ fs = lost s ∨ queue w' = queue (wk s) ∧ ∃ l, fs = lost s ++ [(id_of m, l)]) →
  good (mkSys w' (declared s) (delete i (wire s)) (in_flight s) (to_ack s) (fates s) fs (accepted s) (requeued s)).
Proof.
  intros (Hs & Hh & Hc) Hi _ Hp Hq. assert (m ∈ messages s) as Hm.
  { rewrite elem_messages. do 4 right. exists x. by eapply list_elem_of_lookup_2. }
  rewrite Forall_forall in Hs. split_and!; [|exact Hh|].
  - apply Forall_forall. intros m' Hin. apply Hs. rewrite elem_messages in *. cbn in Hin. rewrite Hp in Hin.
    destruct Hin as [Hin|[Hin|[Hin|[Hin|[y Hin%delete_subset]]]]]; [|tauto..|eauto 7].
    destruct Hq as [[Hq _]|[Hq _]]; rewrite Hq in Hin; [|tauto].
    apply elem_of_app in Hin as [Hin| ->%list_elem_of_singleton]; [tauto|exact Hm].
  - eapply (conserved_step s); [| |done|done].
    + intros m' id Hin Hcar. rewrite elem_copies in Hin. setoid_rewrite elem_copies. setoid_rewrite elem_ends. cbn. rewrite Hp.
      assert (∀ m0, m0 ∈ queue (wk s) → m0 ∈ queue w') as Hmono.
      { destruct Hq as [[-> _]|[-> _]]; [|done]. intros. rewrite elem_of_app. by left. }
      destruct Hin as [Hin|[Hin|[Hin|[y Hin]]]]; [left; exists m'; auto|left; exists m'; tauto|left; exists m'; tauto|].
      destruct (in_delete _ i _ _ Hi Hin) as [[= -> ->]|Hin']; [|left; exists m'; eauto 7].
      destruct Hq as [[-> _]|[_ [l ->]]].
      * left. exists m. rewrite elem_of_app, list_elem_of_singleton. tauto.
      * right. right. rewrite fmap_app, elem_of_app. right. rewrite (carries_id id m Hcar). by apply list_elem_of_singleton.
    + intros id. rewrite !elem_ends. cbn. destruct Hq as [[_ ->]|[_ [l ->]]]; [done|]. rewrite fmap_app, elem_of_app. tauto.
Qed.

Lemma arrive_good s i : good s → good (arrive s i).
Proof.
  intros Hg. unfold arrive. destruct (wire s !! i) as [[[x k] m]|] eqn:Hi; [|done]. destruct (routes s x k).
  - by apply (unwire_good s i (x, k) m); auto.
  - apply (unwire_good s i (x, k) m); eauto.
Qed.

Lemma vanish_good s i : good s → good (vanish s i).
Proof.
  intros Hg. unfold vanish. destruct (wire s !! i) as [[x m]|] eqn:Hi; [|done]. apply (unwire_good s i x m); eauto.
Qed.

Lemma deliver_good s : good s → good (deliver s).
Proof.
  intros (Hs & Hh & Hc). unfold deliver. destruct (queue (wk s)) as [|m q] eqn:Hq; [done|].
  destruct (Nat.ltb_spec (held s) prefetch) as [Hlt|]; [|done]. split_and!.
  - rewrite Forall_forall in *. intros m' Hin. apply Hs. rewrite elem_messages in *. cbn in Hin. rewrite Hq, elem_of_cons.
    destruct Hin as [Hin|[[b Hin]|Hin]]; [tauto| |tauto]. rewrite elem_of_app, list_elem_of_singleton in Hin.
    destruct Hin as [Hin|[= -> ->]]; eauto.
  - revert Hlt. unfold held. cbn [in_flight to_ack set_flight]. rewrite filter_app, filter_cons, decide_True, filter_nil, length_app by done. simpl. lia.
  - eapply (conserved_step s); [|done|done|done]. intros m' id Hin Hcar. left. exists m'. split; [|done].
    rewrite elem_copies in *. cbn. rewrite Hq, elem_of_cons in Hin. rewrite elem_of_app, list_elem_of_singleton.
    destruct Hin as [[->|Hin]|Hin]; tauto.
Qed.

Lemma consume_good s i o : good s → good (consume_one s i o).
Proof.
  intros (Hs & Hh & Hc). destruct (in_flight s !! i) as [[b m]|] eqn:Hi; [|unfold consume_one; by rewrite Hi].
  rewrite (consume_eq s i o b m Hi). rewrite Forall_forall in Hs.
  assert (fine m) as Hm by (apply Hs, elem_messages; right; left; exists b; by eapply list_elem_of_lookup_2).
  destruct (handle_cases (wk s) m o Hm) as (ex & l & -> & Hl). split_and!.
  - apply Forall_forall. intros m' Hin. rewrite elem_messages in Hin. cbn in Hin.
    destruct Hin as [Hin|[[b' Hin%delete_subset]|[Hin|[[d Hin]|Hin]]]];
      [apply Hs, elem_messages; tauto|apply Hs, elem_messages; eauto| | |apply Hs, elem_messages; tauto].
    + destruct b; [|apply Hs, elem_messages; tauto]. rewrite elem_of_app, list_elem_of_singleton in Hin.
      destruct Hin as [Hin| ->]; [apply Hs, elem_messages; tauto|done].
    + rewrite elem_of_app in Hin. destruct Hin as [Hin|Hin]; [apply Hs, elem_messages; eauto 7|].
      destruct Hl as [[_ ->]|(_ & d' & data & -> & Hd & _ & _)]; [by apply elem_of_nil in Hin|].
      apply list_elem_of_singleton in Hin as [= _ ->]. done.
  - unfold held in *. cbn. rewrite (filter_delete _ _ _ _ Hi) in Hh. destruct b; rewrite ?length_app; simpl in *; lia.
  - eapply (conserved_step s); [|intros id; rewrite !elem_ends; cbn; rewrite fmap_app, elem_of_app; tauto|done|done].
    intros m' id Hin Hcar. rewrite elem_copies in Hin. setoid_rewrite elem_copies. setoid_rewrite elem_ends. cbn.
    destruct Hin as [Hin|[Hin|[[d Hin]|Hin]]];
      [left; exists m'; tauto| |left; exists m'; split; [|done]; right; right; left; exists d; rewrite elem_of_app; tauto|left; exists m'; tauto].
    destruct (in_delete _ i _ _ Hi Hin) as [[= <- ->]|Hin']; [|left; exists m'; tauto].
    destruct Hl as [[[f ->] ->]|(-> & d & data & -> & _ & Hd & _)].
    + right. left. rewrite fmap_app, elem_of_app. right. rewrite (carries_id id m Hcar). cbn. by apply list_elem_of_singleton.
    + left. exists data. split; [|by apply Hd]. right. right. left. exists d. rewrite elem_of_app, list_elem_of_singleton. tauto.
Qed.

Lemma filter_stale (l : list (bool * string)) : filter (λ x, Is_true x.1) (map (λ x, (false, x.2)) l) = [].
Proof. induction l as [|x l IH]; [done|]. cbn [map]. rewrite filter_cons, decide_False by (intros []). done. Qed.

Lemma filter_shrinks (l : list (bool * string)) i :
  (length (filter (λ x, Is_true x.1) (delete i l)) ≤ length (filter (λ x, Is_true x.1) l))%nat.
Proof.
  destruct (l !! i) as [[b m]|] eqn:Hi; [rewrite (filter_delete _ _ _ _ Hi); lia|].
  rewrite delete_take_drop, take_ge, drop_ge, app_nil_r by (apply lookup_ge_None in Hi; lia). done.
Qed.

Lemma ack_good s i : good s → good (ack_sent s i).
Proof.
  intros (Hs & Hh & Hc). split_and!; [| |exact Hc].
  - rewrite Forall_forall in *. intros m Hin. apply Hs. rewrite elem_messages in *. cbn in Hin.
    destruct Hin as [Hin|[Hin|[Hin%delete_subset|Hin]]]; tauto.
  - unfold held in *. cbn. pose proof (sublist_length _ _ (sublist_delete (to_ack s) i)). lia.
Qed.

Lemma lost_good s : good s → good (connection_lost s).
Proof.
  intros (Hs & Hh & Hc). split_and!.
  - rewrite Forall_forall in *. intros m Hin. apply Hs. rewrite elem_messages in *. cbn in Hin.
    rewrite !elem_of_app in Hin. fold (live s) in Hin. rewrite elem_live in Hin.
    destruct Hin as [[[Hin|Hin]|Hin]|[[b Hin]|[Hin|[Hin|Hin]]]]; [eauto|tauto|tauto| |by apply elem_of_nil in Hin|tauto|tauto].
    apply list_elem_of_In, in_map_iff in Hin as ([b' m'] & [= <- <-] & Hin%list_elem_of_In). eauto.
  - unfold held. cbn. rewrite filter_stale. simpl. lia.
  - eapply (conserved_step s); [|done|done|done]. intros m id Hin Hcar. left. exists m. split; [|done].
    rewrite elem_copies in *. cbn. rewrite !elem_of_app. fold (live s). rewrite elem_live. tauto.
Qed.

Lemma drop_good s i : good s → good (drop_stale s i).
Proof.
  intros (Hs & Hh & Hc). unfold drop_stale. destruct (in_flight s !! i) as [[[] m]|] eqn:Hi; try done. split_and!.
  - rewrite Forall_forall in *. intros m' Hin. apply Hs. rewrite elem_messages in *. cbn in Hin.
    destruct Hin as [Hin|[[b Hin%delete_subset]|Hin]]; eauto.
  - unfold held in *. cbn. pose proof (filter_shrinks (in_flight s) i). lia.
  - eapply (conserved_step s); [|done|done|done]. intros m' id Hin Hcar. left. exists m'. split; [|done].
    rewrite elem_copies in *. cbn. destruct Hin as [Hin|[Hin|Hin]]; [tauto| |tauto].
    destruct (in_delete _ i _ _ Hi Hin) as [[=]|]; tauto.
Qed.

Lemma fire_wk s i data d : pending (wk s) !! i = Some (d, data) →
  retryFire (wk s) i false = mkWorker (handlers (wk s)) (queue (wk s)) (delete i (pending (wk s))) (cancelled (wk s)) (executed (wk s)).
Proof. intros Hi. unfold retryFire. rewrite Hi, delete_take_drop. by destruct (cancelled (wk s)). Qed.

Lemma fire_good s i ok : good s → good (fire s i ok).
Proof.
  intros (Hs & Hh & Hc). unfold fire. destruct (pending (wk s) !! i) as [[d data]|] eqn:Hi; [|done].
  rewrite (fire_wk s i data d Hi). set (w' := mkWorker _ _ _ _ _).
  assert (data ∈ messages s) as Hdata by (rewrite elem_messages; right; right; right; left; exists d; by eapply list_elem_of_lookup_2).
  assert (Hrest : ∀ wr fs, (wr = wire s ∧ id_of data ∈ fs.*1 ∨ ∃ x, wr = wire s ++ [(x, data)]) → (∀ id, id ∈ (fates s).*1 → id ∈ fs.*1) →
    good (mkSys w' (declared s) wr (in_flight s) (to_ack s) fs (lost s) (accepted s) (requeued s))).
  { intros wr fs Hw Hmono. rewrite Forall_forall in Hs. split_and!; [|exact Hh|].
    - apply Forall_forall. intros m Hin. apply Hs. rewrite elem_messages in *. cbn in Hin.
      destruct Hin as [Hin|[Hin|[Hin|[[d' Hin%delete_subset]|[y Hin]]]]]; [tauto..|eauto 7|].
      destruct Hw as [[-> _]|[x ->]]; [eauto 7|]. apply elem_of_app in Hin as [Hin|[= -> ->]%list_elem_of_singleton]; [eauto 7|exact Hdata].
    - eapply (conserved_step s); [| |done|done]; [|intros id; rewrite !elem_ends; cbn; naive_solver].
      intros m id Hin Hcar. rewrite elem_copies in Hin. setoid_rewrite elem_copies. setoid_rewrite elem_ends. cbn.
      destruct Hin as [Hin|[Hin|[[d' Hin]|[y Hin]]]]; [left; exists m; tauto|left; exists m; tauto| |].
      + destruct (in_delete _ i _ _ Hi Hin) as [[= -> ->]|Hin']; [|left; exists m; eauto 7].
        destruct Hw as [[_ Hf]|[x ->]]; [right; left; by rewrite <-(carries_id id data Hcar)|].
        left. exists data. split; [|done]. right. right. right. exists x. rewrite elem_of_app, list_elem_of_singleton. by right.
      + left. exists m. split; [|done]. right. right. right. exists y. destruct Hw as [[-> _]|[x ->]]; [done|]. rewrite elem_of_app. by left. }
  assert (Hlog : ∀ f, good (log_fate (set_wk s w') (id_of data) f)).
  { intros f. apply Hrest; [left; split; [done|]|]; rewrite fmap_app; [|intros; rewrite elem_of_app; by left].
    rewrite elem_of_app. right. by apply list_elem_of_singleton. }
  cbv zeta. destruct (cancelled (wk s)); [apply Hlog|]. destruct ok; [|apply Hlog]. apply Hrest; eauto.
Qed.

Lemma step_good s e : good s → sane_event e → good (step s e).
Proof.
  intros Hg He. destruct e as [jobID respID now t payload mr fault| |i|i| |i o|i| |i|i ok|]; cbn [step].
  - destruct (dispatch_cases s jobID respID now t payload mr fault) as [->|(data & m & -> & -> & Hm & ->)]; [done|].
    destruct He as [Hok Hmr]. apply dispatch_good; [done| |exact (carries_encode _ m Hok Hm)].
    eapply fine_encode; [exact Hok|exact Hm|cbn; unfold max_int64; lia|exact Hmr].
  - exact Hg.
  - by apply arrive_good.
  - by apply vanish_good.
  - by apply deliver_good.
  - by apply consume_good.
  - by apply ack_good.
  - by apply lost_good.
  - by apply drop_good.
  - by apply fire_good.
  - exact Hg.
Qed.

Lemma run_good s evs : good s → Forall sane_event evs → good (run s evs).
Proof.
  intros Hg Hev. revert s Hg. induction Hev as [|e evs He _ IH]; intros s Hg; [done|]. cbn. by apply IH, step_good.
Qed.

Lemma init_good hs d : good (init hs d).
Proof. split_and!; [by apply Forall_nil|unfold held; cbn; lia|]. intros id Hid. by apply elem_of_nil in Hid. Qed.

(** ** How often a job is executed *)

(** Only a lost connection puts messages back: the worker's handler never returns an error. *)
Lemma requeued_step s e : e ≠ ELost → requeued (step s e) = requeued s.
Proof.
  intros He. destruct e as [jobID respID now t payload mr fault| |i|i| |i o|i| |i|i ok|]; cbn [step]; try done.
  - by destruct (dispatch_cases s jobID respID now t payload mr fault) as [->|(data & m & _ & _ & _ & ->)].
  - unfold arrive. by repeat case_match.
  - unfold vanish. by repeat case_match.
  - unfold deliver. by repeat case_match.
  - destruct (in_flight s !! i) as [[b m]|] eqn:Hi; [by rewrite (consume_eq s i o b m Hi)|unfold consume_one; by rewrite Hi].
  - unfold drop_stale. by repeat case_match.
  - unfold fire. by repeat case_match.
Qed.

Section bound.
Variable id : string.
Variable B : Z.

Definition possible (s : Sys) : Z :=
  executions id (wk s) + potential id (wk s) + sum_budget id (in_flight s).*2 + sum_budget id (wire s).*2.

Definition brings (e : event) : Z :=
  match e with
  | EDispatch jobID _ _ _ _ mr _ => if String.eqb jobID id then Z.max 1 mr else 0
  | _ => 0
  end.
Definition total_brings (evs : list event) : Z := foldr (λ e acc, brings e + acc) 0 evs.

Definition small (s : Sys) : Prop := ∀ m, m ∈ messages s ∨ m ∈ requeued s → msg_budget id m ≤ B.

Lemma sum_delete {A} (l : list (A * string)) i x m : l !! i = Some (x, m) →
  sum_budget id l.*2 = msg_budget id m + sum_budget id (delete i l).*2.
Proof.
  intros Hi. rewrite delete_take_drop. rewrite <-(take_drop_middle l i _ Hi) at 1.
  rewrite !fmap_app, fmap_cons, !sum_budget_app, sum_budget_cons. cbn [snd]. lia.
Qed.

Lemma snd_stale (l : list (bool * string)) : (map (λ x, (false, x.2)) l).*2 = l.*2.
Proof. induction l as [|x l IH]; [done|]. cbn [map]. rewrite !fmap_cons, IH. done. Qed.

(** What a step from [s] to [s'] that brings in [b] has to respect. *)
Definition keeps (s s' : Sys) (b : Z) : Prop :=
  small s' ∧ possible s' + sum_budget id (requeued s) ≤ possible s + b + sum_budget id (requeued s').

Lemma dispatch_keeps s jobID respID now t payload mr fault :
  small s → sane_event (EDispatch jobID respID now t payload mr fault) →
  brings (EDispatch jobID respID now t payload mr fault) ≤ B →
  keeps s (step s (EDispatch jobID respID now t payload mr fault)) (brings (EDispatch jobID respID now t payload mr fault)).
Proof.
  intros Hsm He HB. unfold keeps. cbn [step brings] in *.
  destruct (dispatch_cases s jobID respID now t payload mr fault) as [->|(data & m & -> & -> & Hm & ->)].
  { split; [done|]. destruct (String.eqb jobID id); lia. }
  destruct He as [Hok Hmr]. pose proof (msg_budget_encode id _ _ Hok Hm) as Hb. unfold budget in Hb. cbn [job_ID MaxRetry Attempts] in Hb.
  rewrite Z.sub_0_r in Hb. split.
  - intros m' [Hin|Hin]; [|apply Hsm; by right]. rewrite elem_messages in Hin. cbn in Hin.
    destruct Hin as [Hin|[Hin|[Hin|[Hin|[y Hin]]]]]; try (apply Hsm; left; apply elem_messages; tauto).
    apply elem_of_app in Hin as [Hin|[= -> ->]%list_elem_of_singleton]; [apply Hsm; left; apply elem_messages; eauto 7|lia].
  - unfold possible, potential, executions. cbn [wk in_flight queue pending executed requeued wire].
    rewrite fmap_app, sum_budget_app, fmap_cons, fmap_nil, sum_budget_cons, sum_budget_nil. cbn [snd]. lia.
Qed.

(** A publication leaving the wire. *)
Lemma unwire_keeps s i x m w' lo : small s → wire s !! i = Some (x, m) →
  pending w' = pending (wk s) → executed w' = executed (wk s) → (queue w' = queue (wk s) ++ [m] ∨ queue w' = queue (wk s)) →
  keeps s (mkSys w' (declared s) (delete i (wire s)) (in_flight s) (to_ack s) (fates s) lo (accepted s) (requeued s)) 0.
Proof.
  intros Hsm Hi Hp He Hq. unfold keeps. split.
  - intros m' [Hin|Hin]; [|apply Hsm; by right]. apply Hsm. left. rewrite elem_messages in *. cbn in Hin. rewrite Hp in Hin.
    destruct Hin as [Hin|[Hin|[Hin|[Hin|[y Hin%delete_subset]]]]]; [|tauto..|eauto 7].
    destruct Hq as [Hq|Hq]; rewrite Hq in Hin; [|tauto].
    apply elem_of_app in Hin as [Hin| ->%list_elem_of_singleton]; [tauto|]. do 4 right. exists x. by eapply list_elem_of_lookup_2.
  - unfold possible, potential, executions. cbn [wk in_flight requeued wire]. rewrite Hp, He, (sum_delete _ _ _ _ Hi).
    pose proof (msg_budget_nonneg id m). destruct Hq as [-> | ->]; rewrite ?sum_budget_app, ?sum_budget_cons, ?sum_budget_nil; lia.
Qed.

Lemma deliver_keeps s : small s → keeps s (deliver s) 0.
Proof.
  intros Hsm. unfold keeps.
  unfold deliver. destruct (queue (wk s)) as [|m q] eqn:Hq; [split; [done|lia]|]. destruct (held s <? prefetch)%nat; [|split; [done|lia]].
  split.
  + intros m' [Hin|Hin]; [|apply Hsm; by right]. apply Hsm. left. rewrite elem_messages in *. cbn in Hin. rewrite Hq, elem_of_cons.
    destruct Hin as [Hin|[[b Hin]|Hin]]; [tauto| |tauto]. rewrite elem_of_app, list_elem_of_singleton in Hin.
    destruct Hin as [Hin|[= -> ->]]; eauto.
  + unfold possible, potential, executions. cbn [wk wire set_flight set_wk in_flight queue pending executed requeued]. rewrite Hq, fmap_app, sum_budget_app, fmap_cons, fmap_nil. cbn [snd].
    rewrite !sum_budget_cons, sum_budget_nil. lia.
Qed.

Lemma consume_keeps s i o : good s → small s → keeps s (consume_one s i o) 0.
Proof.
  intros Hg Hsm. pose proof Hg as (Hs & _ & _). rewrite Forall_forall in Hs. unfold keeps.
  destruct (in_flight s !! i) as [[b m]|] eqn:Hi; [|unfold consume_one; rewrite Hi; split; [done|lia]].
  rewrite (consume_eq s i o b m Hi). assert (m ∈ messages s) as Hin0.
  { apply elem_messages. right. left. exists b. by eapply list_elem_of_lookup_2. }
  pose proof (handle_spends id (wk s) m o (proj1 (Hs m Hin0))) as Hh. destruct (handle_cases (wk s) m o (Hs m Hin0)) as (ex & l & Heq & Hl). split.
  + intros m' [Hin|Hin]; [|apply Hsm; by right]. rewrite elem_messages in Hin. cbn in Hin. rewrite Heq in Hin. cbn in Hin.
    destruct Hin as [Hin|[[b' Hin%delete_subset]|[Hin|[[d Hin]|Hin]]]];
      [apply Hsm; left; apply elem_messages; tauto|apply Hsm; left; apply elem_messages; eauto| | |apply Hsm; left; apply elem_messages; tauto].
    * destruct b; [|apply Hsm; left; apply elem_messages; tauto]. rewrite elem_of_app, list_elem_of_singleton in Hin.
      destruct Hin as [Hin| ->]; apply Hsm; left; [apply elem_messages; tauto|done].
    * rewrite elem_of_app in Hin. destruct Hin as [Hin|Hin]; [apply Hsm; left; apply elem_messages; eauto 7|].
      destruct Hl as [[_ ->]|(_ & d' & data & -> & _ & _ & _ & Hle)]; [by apply elem_of_nil in Hin|].
      apply list_elem_of_singleton in Hin as [= _ ->]. specialize (Hle id). specialize (Hsm m (or_introl Hin0)). lia.
  + unfold possible in *. cbn [wk wire in_flight requeued]. rewrite (sum_delete _ _ _ _ Hi). lia.
Qed.

Lemma ack_keeps s i : small s → keeps s (ack_sent s i) 0.
Proof.
  intros Hsm. unfold keeps.
  split; [|unfold possible, potential, executions; cbn [wk wire ack_sent set_flight in_flight requeued]; lia]. intros m [Hin|Hin]; apply Hsm; [left|by right].
  rewrite elem_messages in *. cbn in Hin. destruct Hin as [Hin|[Hin|[Hin%delete_subset|Hin]]]; tauto.
Qed.

Lemma lost_keeps s : small s → keeps s (connection_lost s) 0.
Proof.
  intros Hsm. unfold keeps.
  assert (Hms : ∀ m, m ∈ (filter (λ x, Is_true x.1) (in_flight s)).*2 ++ to_ack s → m ∈ messages s).
  { intros m. rewrite elem_of_app. fold (live s). rewrite elem_live, elem_messages. intros [Hin|Hin]; eauto. }
  split.
  + intros m [Hin|Hin].
    * rewrite elem_messages in Hin. cbn in Hin. rewrite <-elem_snd, snd_stale, elem_snd in Hin.
      destruct Hin as [Hin|[[b Hin]|[Hin|[Hin|Hin]]]];
        [|apply Hsm; left; apply elem_messages; eauto|by apply elem_of_nil in Hin|apply Hsm; left; apply elem_messages; tauto..].
      apply elem_of_app in Hin as [Hin|Hin]; apply Hsm; left; [by apply Hms|apply elem_messages; tauto].
    * cbn in Hin. apply elem_of_app in Hin as [Hin|Hin]; apply Hsm; [by right|left; by apply Hms].
  + unfold possible, potential, executions. cbn [wk wire in_flight requeued connection_lost requeue set_flight queue pending executed].
    rewrite snd_stale. rewrite !(sum_budget_app id _ (queue (wk s))), !(sum_budget_app id (requeued s)). lia.
Qed.

Lemma drop_keeps s i : small s → keeps s (drop_stale s i) 0.
Proof.
  intros Hsm. unfold keeps.
  unfold drop_stale. destruct (in_flight s !! i) as [[[] m]|] eqn:Hi; try (split; [done|lia]). split.
  + intros m' [Hin|Hin]; apply Hsm; [left|by right]. rewrite elem_messages in *. cbn in Hin.
    destruct Hin as [Hin|[[b Hin%delete_subset]|Hin]]; eauto.
  + unfold possible. cbn [wk wire in_flight requeued set_flight]. rewrite (sum_delete _ _ _ _ Hi). pose proof (msg_budget_nonneg id m). lia.
Qed.

Lemma fire_keeps s i ok : small s → keeps s (fire s i ok) 0.
Proof.
  intros Hsm. unfold keeps.
  unfold fire. destruct (pending (wk s) !! i) as [[d data]|] eqn:Hi; [|split; [done|lia]].
  rewrite (fire_wk s i data d Hi). set (w' := mkWorker _ _ _ _ _). cbv zeta.
  assert (data ∈ messages s) as Hdata by (rewrite elem_messages; right; right; right; left; exists d; by eapply list_elem_of_lookup_2).
  assert (Hp : ∀ wr fs, wr = wire s ∨ (∃ x, wr = wire s ++ [(x, data)]) →
    keeps s (mkSys w' (declared s) wr (in_flight s) (to_ack s) fs (lost s) (accepted s) (requeued s)) 0).
  { intros wr fs Hw. split.
    - intros m [Hin|Hin]; [|apply Hsm; by right]. apply Hsm. left. rewrite elem_messages in *. cbn in Hin.
      destruct Hin as [Hin|[Hin|[Hin|[[d' Hin%delete_subset]|[y Hin]]]]]; [tauto..|eauto 7|].
      destruct Hw as [->|[x ->]]; [eauto 7|]. apply elem_of_app in Hin as [Hin|[= -> ->]%list_elem_of_singleton]; [eauto 7|exact Hdata].
    - unfold possible, potential, executions, w'. cbn [wk wire in_flight queue pending executed requeued]. rewrite (sum_delete _ _ _ _ Hi).
      pose proof (msg_budget_nonneg id data). destruct Hw as [->|[x ->]]; [lia|].
      rewrite fmap_app, sum_budget_app, fmap_cons, fmap_nil, sum_budget_cons, sum_budget_nil. cbn [snd]. lia. }
  destruct (cancelled (wk s)); [by apply Hp; left|]. destruct ok; apply Hp; eauto.
Qed.

(** One step keeps the account. *)
Lemma step_possible s e : good s → sane_event e → (brings e ≤ B) → small s → keeps s (step s e) (brings e).
Proof.
  intros Hg He HB Hsm. destruct e as [jobID respID now t payload mr fault| |i|i| |i o|i| |i|i ok|]; cbn [step brings] in *.
  - by apply dispatch_keeps.
  - unfold keeps. split; [exact Hsm|]. unfold possible, potential, executions. cbn [wk wire log_fate set_wk Shutdown queue pending executed in_flight requeued ack_sent set_flight]. lia.
  - unfold arrive. destruct (wire s !! i) as [[[x k] m]|] eqn:Hi; [|unfold keeps; split; [done|lia]].
    destruct (routes s x k); by apply (unwire_keeps s i (x, k) m); auto.
  - unfold vanish. destruct (wire s !! i) as [[x m]|] eqn:Hi; [|unfold keeps; split; [done|lia]].
    by apply (unwire_keeps s i x m); auto.
  - by apply deliver_keeps.
  - by apply consume_keeps.
  - by apply ack_keeps.
  - by apply lost_keeps.
  - by apply drop_keeps.
  - by apply fire_keeps.
  - unfold keeps. split; [exact Hsm|]. unfold possible, potential, executions. cbn [wk wire log_fate set_wk Shutdown queue pending executed in_flight requeued ack_sent set_flight]. lia.
Qed.

Lemma run_possible s evs : good s → Forall sane_event evs → Forall (λ e, brings e ≤ B) evs → small s →
  small (run s evs) ∧
  possible (run s evs) + sum_budget id (requeued s) ≤ possible s + total_brings evs + sum_budget id (requeued (run s evs)).
Proof.
  intros Hg Hev HB. revert s Hg. induction Hev as [|e evs He _ IH]; intros s Hg Hsm; [split; [done|cbn [run foldl total_brings foldr]; lia]|].
  apply Forall_cons in HB as [HBe HB]. change (run s (e :: evs)) with (run (step s e) evs).
  change (total_brings (e :: evs)) with (brings e + total_brings evs).
  destruct (step_possible s e Hg He HBe Hsm) as [Hsm' Hle]. destruct (IH HB _ (step_good s e Hg He) Hsm') as [H1 H2].
  split; [exact H1|lia].
Qed.

Lemma sum_budget_count ms : (∀ m, m ∈ ms → msg_budget id m ≤ B) → 0 ≤ B →
  sum_budget id ms ≤ B * Z.of_nat (length (filter (carries id) ms)).
Proof.
  intros Hms HB. induction ms as [|m ms IH]; [rewrite sum_budget_nil; lia|]. rewrite sum_budget_cons, filter_cons.
  assert (Hm : msg_budget id m ≤ if decide (carries id m) then B else 0).
  { case_decide as Hc; [apply Hms; by left|]. unfold msg_budget. destruct (DecodeJob m) as [j|] eqn:Hd; [|done].
    destruct (String.eqb_spec (job_ID j) id); [|done]. exfalso. apply Hc. by exists j. }
  specialize (IH ltac:(intros; apply Hms; by right)). case_decide; cbn [length]; lia.
Qed.
End bound.

(** ** No accepted job is lost silently *)

(** The ends of a job whose messages are not dropped on their way. *)
Definition settled (f : fate) : bool := match f with Completed | Exhausted | NoHandler => true | _ => false end.

(** Events that drop nothing: no publication is lost with its connection, the worker keeps
    running, and a retry's [Publish] returns nil. *)
Definition benign (e : event) : bool := match e with EStop | EFire _ false | EVanish _ => false | _ => true end.

(** The default exchange routes to the declared queue of the worker. *)
Definition reaches_worker : Prop := Exchange cfg = "" ∧ QueueName cfg ≠ "".

Definition undropped (s : Sys) : Prop :=
  declared s = true ∧ cancelled (wk s) = false ∧ lost s = [] ∧ Forall (λ x, settled x.2 = true) (fates s) ∧
  Forall (λ x, x.1 = (Exchange cfg, QueueName cfg)) (wire s).

Lemma logged_settled w m o f : fine m → logged w m o = Some f → settled f = true.
Proof.
  intros [_ (j & Hd & He)]. unfold logged. rewrite Hd. case_decide; [|by intros [= <-]].
  destruct o; [|by intros [= <-]]. destruct (CanRetry (IncrementAttempts j)); [|by intros [= <-]].
  specialize (He eq_refl). by destruct (Encode _).
Qed.

Lemma handle_cancelled w m o : cancelled (handleMessage w m o) = cancelled w.
Proof. unfold handleMessage, retryJob. by repeat case_match. Qed.

Lemma undropped_step s e : good s → reaches_worker → benign e = true → undropped s → undropped (step s e).
Proof.
  intros (Hg & _) [Hx Hq] He (Hd & Hc & Hl & Hf & Hw).
  assert (Hr : routes s (Exchange cfg) (QueueName cfg) = true).
  { unfold routes. rewrite Hd, Hx, String.eqb_refl. apply String.eqb_refl. }
  destruct e as [jobID respID now t payload mr fault| |i|i| |i o|i| |i|i [|]|]; cbn [step]; try done.
  - destruct (dispatch_cases s jobID respID now t payload mr fault) as [->|(data & m & _ & _ & _ & ->)]; [done|].
    cbn [pub_queueName NewPublisher]. rewrite (proj2 (String.eqb_neq _ _) Hq). split_and!; try done.
    apply Forall_app. split; [done|]. by apply Forall_singleton.
  - unfold arrive. destruct (wire s !! i) as [[[x k] m]|] eqn:Hi; [|done].
    pose proof (Forall_lookup_1 _ _ _ _ Hw Hi) as Hxk. injection Hxk as -> ->. rewrite Hr.
    split_and!; try done. by apply Forall_delete.
  - unfold deliver. by repeat case_match.
  - destruct (in_flight s !! i) as [[b m]|] eqn:Hi; [|unfold consume_one; by rewrite Hi].
    rewrite (consume_eq s i o b m Hi). split_and!; [done|by rewrite <-Hc; apply handle_cancelled|done| |done]. cbn [fates].
    apply Forall_app. split; [done|]. destruct (logged (wk s) m o) as [f|] eqn:Hlog; [|by apply Forall_nil].
    apply Forall_singleton. eapply logged_settled; [|exact Hlog]. rewrite Forall_forall in Hg. apply Hg, elem_messages.
    right. left. exists b. by eapply list_elem_of_lookup_2.
  - unfold drop_stale. by repeat case_match.
  - unfold fire. destruct (pending (wk s) !! i) as [[d data]|] eqn:Hi; [|done]. rewrite Hc, (fire_wk s i data d Hi).
    split_and!; try done. apply Forall_app. split; [done|]. by apply Forall_singleton.
Qed.

Lemma undropped_run s evs :
  good s → Forall sane_event evs → reaches_worker → Forall (λ e, benign e = true) evs → undropped s → undropped (run s evs).
Proof.
  intros Hg Hsane Hr Hev. revert s Hg Hsane. induction Hev as [|e evs He _ IH]; intros s Hg Hsane Hs; [done|].
  apply Forall_cons in Hsane as [Hse Hsane]. cbn. apply IH; [by apply step_good|done|by apply undropped_step].
Qed.

Lemma undropped_init hs : undropped (init hs true).
Proof. by split_and!; [..|apply Forall_nil|apply Forall_nil]. Qed.

(** C6: where an accepted job can be, for dispatched jobs the codec keeps.  In any interleaving
    of dispatches, publications taken or lost on their way, deliveries, handler outcomes,
    acknowledgements, lost connections, retry timers and shutdown, every job whose dispatch was
    answered 201 is on its way to the broker, in the queue, held unacknowledged for a consumer
    or waiting for its retry timer; or the worker has logged its end; or a publication of it
    was lost, because its connection went away before the broker took it or because no queue is
    bound where it was sent - the program publishes without confirms and records neither.  The
    broker never has more unacknowledged messages out than the prefetch counts.  When the queue
    is declared and the default exchange reaches it, no publication vanishes, the worker keeps
    running and its retries' publications are answered nil, then nothing is lost and the only
    ends are: completed, retries exhausted, no handler. *)
Theorem accepted_jobs_conserved (hs : gset string) (d : bool) (evs : list event) :
  Forall sane_event evs →
  let s := run (init hs d) evs in
  (∀ id, id ∈ accepted s →
     (∃ m, m ∈ copies s ∧ carries id m) ∨ (∃ f, (id, f) ∈ fates s) ∨ ∃ l, (id, l) ∈ lost s) ∧
  (held s ≤ prefetch)%nat ∧
  (d = true → reaches_worker → Forall (λ e, benign e = true) evs →
   lost s = [] ∧ ∀ id f, (id, f) ∈ fates s → settled f = true).
Proof.
  intros Hsane s. destruct (run_good (init hs d) evs (init_good hs d) Hsane) as (_ & Hh & Hc). split_and!; [|exact Hh|].
  - intros id Hid. destruct (Hc id Hid) as [Hm|Hf]; [by left|right]. apply elem_ends in Hf as [Hf|Hf]; [left|right];
      apply list_elem_of_fmap in Hf as ([id' f] & -> & Hf); by exists f.
  - intros -> Hr Hb. destruct (undropped_run (init hs true) evs (init_good hs true) Hsane Hr Hb (undropped_init hs))
      as (_ & _ & Hl & Hf & _). split; [exact Hl|]. intros id f Hin. rewrite Forall_forall in Hf. exact (Hf (id, f) Hin).
Qed.

(** ** Every job comes to an end *)

(** The moves of a working system: what the broker, the consumers and the timers do next, with
    any handler outcome. *)
Inductive moves (s : Sys) : Sys → Prop :=
| moves_arrive i : is_Some (wire s !! i) → moves s (step s (EArrive i))
| moves_deliver : queue (wk s) ≠ [] → (held s < prefetch)%nat → moves s (step s EDeliver)
| moves_consume i o : is_Some (in_flight s !! i) → moves s (step s (EConsume i o))
| moves_ack i : is_Some (to_ack s !! i) → moves s (step s (EAck i))
| moves_fire i : is_Some (pending (wk s) !! i) → moves s (step s (EFire i true)).

Definition measure (s : Sys) : Z :=
  foldr (λ m n, 5 * weight m + n) 0 (queue (wk s)) + foldr (λ x n, 5 * weight x.2 - 1 + n) 0 (in_flight s) +
  Z.of_nat (length (to_ack s)) + foldr (λ x n, 5 * weight x.2 + 2 + n) 0 (pending (wk s)) +
  foldr (λ x n, 5 * weight x.2 + 1 + n) 0 (wire s).

Lemma sum_app {A} (f : A → Z) l1 l2 :
  foldr (λ x n, f x + n) 0 (l1 ++ l2) = foldr (λ x n, f x + n) 0 l1 + foldr (λ x n, f x + n) 0 l2.
Proof. induction l1 as [|x l1 IH]; cbn [app foldr]; lia. Qed.

Lemma sum_remove {A} (f : A → Z) l i x : l !! i = Some x →
  foldr (λ x n, f x + n) 0 l = f x + foldr (λ x n, f x + n) 0 (delete i l).
Proof.
  intros Hi. rewrite delete_take_drop. rewrite <-(take_drop_middle l i x Hi) at 1. rewrite !sum_app. cbn [foldr]. lia.
Qed.

Lemma sum_nonneg {A} (f : A → Z) l : (∀ x, 0 ≤ f x) → 0 ≤ foldr (λ x n, f x + n) 0 l.
Proof. intros Hf. induction l as [|x l IH]; cbn [foldr]; [lia|]. specialize (Hf x). lia. Qed.

Lemma measure_nonneg s : 0 ≤ measure s.
Proof.
  unfold measure. pose proof (sum_nonneg (λ m, 5 * weight m) (queue (wk s)) ltac:(intros m; pose proof (weight_pos m); lia)).
  pose proof (sum_nonneg (λ x : bool * string, 5 * weight x.2 - 1) (in_flight s) ltac:(intros x; pose proof (weight_pos x.2); lia)).
  pose proof (sum_nonneg (λ x : Z * string, 5 * weight x.2 + 2) (pending (wk s)) ltac:(intros x; pose proof (weight_pos x.2); lia)).
  pose proof (sum_nonneg (λ x : string * string * string, 5 * weight x.2 + 1) (wire s) ltac:(intros x; pose proof (weight_pos x.2); lia)).
  cbv beta in *. lia.
Qed.

Lemma moves_event s s' : moves s s' → ∃ e, s' = step s e ∧ sane_event e ∧ benign e = true.
Proof. destruct 1; eexists; split_and!; try reflexivity; done. Qed.

Lemma moves_measure s s' : good s → moves s s' → measure s' < measure s.
Proof.
  intros (Hs & _). rewrite Forall_forall in Hs.
  destruct 1 as [i [[[x k] m] Hi]|Hq Hh|i o [[b m] Hi]|i [m Hi]|i [[d data] Hi]]; cbn [step]; unfold measure.
  - unfold arrive. rewrite Hi. pose proof (weight_pos m). rewrite (sum_remove (λ x : string * string * string, 5 * weight x.2 + 1) _ _ _ Hi).
    cbn [snd]. destruct (routes s x k); cbn [wk wire set_wk set_wire lose enqueue queue pending in_flight to_ack];
      rewrite ?(sum_app (λ m, 5 * weight m)); cbn [foldr]; lia.
  - unfold deliver. destruct (queue (wk s)) as [|m q] eqn:Hqe; [done|]. rewrite (proj2 (Nat.ltb_lt _ _) Hh).
    cbn [wk wire set_flight set_wk queue pending in_flight to_ack]. rewrite sum_app. cbn [foldr snd]. lia.
  - rewrite (consume_eq s i o b m Hi). assert (fine m) as Hm.
    { apply Hs, elem_messages. right. left. exists b. by eapply list_elem_of_lookup_2. }
    pose proof (weight_pos m). destruct (handle_cases (wk s) m o Hm) as (ex & l & -> & Hl).
    cbn [wk wire in_flight to_ack queue pending]. rewrite (sum_remove (λ x : bool * string, 5 * weight x.2 - 1) _ _ _ Hi). cbn [snd].
    rewrite (sum_app (λ x : Z * string, 5 * weight x.2 + 2)).
    assert (Z.of_nat (length (if b then to_ack s ++ [m] else to_ack s)) ≤ Z.of_nat (length (to_ack s)) + 1) by (destruct b; rewrite ?length_app; simpl; lia).
    destruct Hl as [[_ ->]|(_ & d & data & -> & _ & _ & Hw & _)]; cbn [foldr snd]; lia.
  - cbn [wk wire ack_sent set_flight in_flight to_ack]. pose proof (length_delete (to_ack s) i ltac:(eauto)).
    apply lookup_lt_Some in Hi. lia.
  - unfold fire. rewrite Hi, (fire_wk s i data d Hi). pose proof (weight_pos data).
    rewrite (sum_remove (λ x : Z * string, 5 * weight x.2 + 2) _ _ _ Hi). cbn [snd].
    destruct (cancelled (wk s)); cbn [wk wire set_wk set_wire publish log_fate in_flight to_ack queue pending];
      rewrite ?(sum_app (λ x : string * string * string, 5 * weight x.2 + 1)); cbn [foldr snd]; lia.
Qed.

(** Nothing is on its way. *)
Definition idle (s : Sys) : Prop :=
  queue (wk s) = [] ∧ in_flight s = [] ∧ to_ack s = [] ∧ pending (wk s) = [] ∧ wire s = [].

Lemma stuck_idle s : (0 < prefetch)%nat → (∀ s', ¬ moves s s') → idle s.
Proof.
  intros Hp Hno. assert (in_flight s = []) as Hf.
  { destruct (in_flight s) as [|x l] eqn:E; [done|]. exfalso. apply (Hno (step s (EConsume 0 None))). constructor. rewrite E. by eexists. }
  assert (to_ack s = []) as Ha.
  { destruct (to_ack s) as [|x l] eqn:E; [done|]. exfalso. apply (Hno (step s (EAck 0))). constructor. rewrite E. by eexists. }
  split_and!; [|done|done| |].
  - destruct (queue (wk s)) as [|x l] eqn:E; [done|]. exfalso. apply (Hno (step s EDeliver)). constructor; [by rewrite E|].
    unfold held. by rewrite Hf, Ha.
  - destruct (pending (wk s)) as [|x l] eqn:E; [done|]. exfalso. apply (Hno (step s (EFire 0 true))). constructor. rewrite E. by eexists.
  - destruct (wire s) as [|x l] eqn:E; [done|]. exfalso. apply (Hno (step s (EArrive 0))). constructor. rewrite E. by eexists.
Qed.

Lemma moves_run s s' : rtc moves s s' → ∃ evs, s' = run s evs ∧ Forall sane_event evs ∧ Forall (λ e, benign e = true) evs.
Proof.
  induction 1 as [s|s s1 s2 (e & -> & He & Hb)%moves_event _ (evs & -> & Hev & Hbs)]; [by exists []|].
  exists (e :: evs). split_and!; [done|by constructor|by constructor].
Qed.

Lemma moves_terminate s : good s → Acc (λ y x, moves x y) s.
Proof.
  remember (Z.to_nat (measure s)) as n eqn:Hn. revert s Hn. induction n as [n IH] using lt_wf_ind. intros s -> Hg.
  constructor. intros s' Hm. pose proof (moves_measure s s' Hg Hm). pose proof (measure_nonneg s'). apply (IH (Z.to_nat (measure s'))); [lia|done|].
  destruct (moves_event s s' Hm) as (e & -> & He & _). by apply step_good.
Qed.

Lemma moves_accepted s s' : rtc moves s s' → accepted s' = accepted s.
Proof.
  induction 1 as [|s s1 s2 Hm _ ->]; [done|]. destruct Hm as [i Hi|Hq Hh|i o [[b m] Hi]|i Hi|i Hi]; cbn [step]; [| | |done|].
  - unfold arrive. by repeat case_match.
  - unfold deliver. by repeat case_match.
  - by rewrite (consume_eq s i o b m Hi).
  - unfold fire. by repeat case_match.
Qed.

(** C7: accepted jobs come to an end.  Start from any state that a worker can reach on a
    declared queue its exchange reaches, without being stopped, without a publication that
    vanished with its connection or a retry whose publication failed.  However the broker, the
    consumers, the retry timers and the acknowledgements go on, in whatever order and with
    whatever handler outcomes, they cannot go on for ever; and when nothing more can happen,
    nothing is on its way, queued, buffered, unacknowledged or waiting, and every job accepted so
    far was completed, given up after its last retry, or had no handler. *)
Theorem accepted_jobs_settle (hs : gset string) (evs : list event) :
  (0 < prefetch)%nat → reaches_worker → Forall sane_event evs → Forall (λ e, benign e = true) evs →
  let s := run (init hs true) evs in
  Acc (λ y x, moves x y) s ∧
  ∀ s', rtc moves s s' → (∀ s'', ¬ moves s' s'') →
    idle s' ∧ ∀ id, id ∈ accepted s → ∃ f, (id, f) ∈ fates s' ∧ (f = Completed ∨ f = Exhausted ∨ f = NoHandler).
Proof.
  intros Hp Hr Hsane Hb s. pose proof (run_good (init hs true) evs (init_good hs true) Hsane) as Hg. fold s in Hg.
  split; [by apply moves_terminate|]. intros s' Hs' Hno. pose proof (stuck_idle s' Hp Hno) as Hidle. split; [done|].
  intros id Hid. rewrite <-(moves_accepted s s' Hs') in Hid. destruct (moves_run s s' Hs') as (evs' & -> & Hsane' & Hb').
  assert (undropped (run s evs')) as (_ & _ & Hl & Hd & _).
  { apply undropped_run; [done..|]. apply undropped_run; [apply init_good|done..|apply undropped_init]. }
  destruct (run_good s evs' Hg Hsane') as (_ & _ & Hc). destruct (Hc id Hid) as [(m & Hm & _)|Hf].
  - exfalso. rewrite elem_copies in Hm. destruct Hidle as (E1 & E2 & _ & E3 & E4). rewrite E1, E2, E3, E4 in Hm.
    destruct Hm as [Hm|[Hm|[[? Hm]|[? Hm]]]]; by apply elem_of_nil in Hm.
  - apply elem_ends in Hf as [Hf|Hf]; [|rewrite Hl in Hf; by apply elem_of_nil in Hf].
    apply list_elem_of_fmap in Hf as ([id' f] & -> & Hf). exists f. split; [done|].
    rewrite Forall_forall in Hd. specialize (Hd (id', f) Hf). destruct f; naive_solver.
Qed.

(** C8: execution is bounded even across lost connections.  Publish a job once, fresh, with
    retry limit [m]; let dispatches of other jobs, deliveries, handler outcomes,
    acknowledgements, lost connections, retry timers, failed publications and shutdown
    interleave in any way.  The handlers run for it at most [max 1 m] times, and at most as
    often again for every time the broker put one of its messages back because the connection
    was lost before the acknowledgement arrived.  Without a lost connection the bound is
    [max 1 m]. *)
Theorem executions_bounded (hs : gset string) (d : bool) (evs1 evs2 : list event) (id respID t data : string)
    (now m : Z) (fault : option error) :
  let s := run (init hs d) (evs1 ++ EDispatch id respID now t (Ok data) m fault :: evs2) in
  Forall sane_event (evs1 ++ EDispatch id respID now t (Ok data) m fault :: evs2) →
  (∀ id' r n t' p m' f, EDispatch id' r n t' p m' f ∈ evs1 ++ evs2 → id' ≠ id) →
  executions id (wk s) ≤ Z.max 1 m * (1 + Z.of_nat (length (filter (carries id) (requeued s)))) ∧
  ((ELost ∉ evs1 ++ evs2) → executions id (wk s) ≤ Z.max 1 m).
Proof.
  intros s Hsane Hother. set (e0 := EDispatch id respID now t (Ok data) m fault) in *.
  assert (Hz : ∀ e, e ∈ evs1 ++ evs2 → brings id e = 0).
  { intros e He. destruct e; cbn [brings]; try done. by rewrite (proj2 (String.eqb_neq _ _) (Hother _ _ _ _ _ _ _ He)). }
  assert (Hsum : ∀ evs, (∀ e, e ∈ evs → brings id e = 0) → total_brings id evs = 0).
  { induction evs as [|e evs IH]; intros He; [done|]. change (brings id e + total_brings id evs = 0).
    rewrite IH by (intros; apply He; by right). rewrite He by (by left). done. }
  assert (Htot : total_brings id (evs1 ++ e0 :: evs2) = Z.max 1 m).
  { assert (Happ : ∀ l1 l2, total_brings id (l1 ++ l2) = total_brings id l1 + total_brings id l2).
    { unfold total_brings. intros l1 l2. induction l1 as [|e l1 IH]; cbn [app foldr]; lia. }
    rewrite Happ. change (total_brings id (e0 :: evs2)) with (brings id e0 + total_brings id evs2).
    rewrite !Hsum by (intros; apply Hz, elem_of_app; tauto). unfold e0. cbn [brings]. rewrite String.eqb_refl. lia. }
  assert (HB : Forall (λ e, brings id e ≤ Z.max 1 m) (evs1 ++ e0 :: evs2)).
  { apply Forall_forall. intros e He. rewrite elem_of_app, elem_of_cons in He.
    destruct He as [He|[->|He]]; [rewrite Hz by (apply elem_of_app; tauto); lia| |rewrite Hz by (apply elem_of_app; tauto); lia].
    unfold e0. cbn [brings]. rewrite String.eqb_refl. done. }
  destruct (run_possible id (Z.max 1 m) (init hs d) _ (init_good hs d) Hsane HB) as [Hsm Hle].
  { intros m' [Hin|Hin]; by apply elem_of_nil in Hin. }
  fold s in Hsm, Hle. rewrite Htot in Hle. change (possible id (init hs d)) with 0 in Hle. change (sum_budget id (requeued (init hs d))) with 0 in Hle.
  unfold possible, potential in Hle. pose proof (sum_budget_nonneg id (queue (wk s))). pose proof (sum_budget_nonneg id (pending (wk s)).*2).
  pose proof (sum_budget_nonneg id (in_flight s).*2). pose proof (sum_budget_nonneg id (wire s).*2). split.
  - pose proof (sum_budget_count id (Z.max 1 m) (requeued s) (λ m' Hin, Hsm m' (or_intror Hin)) ltac:(lia)). lia.
  - intros Hno. assert (Hreq : requeued s = []); [|rewrite Hreq, sum_budget_nil in Hle; lia].
    unfold s. assert (Hgen : ∀ evs s0, ELost ∉ evs → requeued (run s0 evs) = requeued s0).
    { induction evs as [|e evs IH]; intros s0 Hl; [done|]. change (run s0 (e :: evs)) with (run (step s0 e) evs).
      rewrite IH by (intros Hin; apply Hl; by right). apply requeued_step. intros ->. apply Hl. by left. }
    rewrite Hgen; [done|]. intros [Hin|[[=]|Hin]%elem_of_cons]%elem_of_app; apply Hno, elem_of_app; tauto.
Qed.

End delivery.

(** ** The wait group at shutdown *)

Section shutdown.
Context `{JobCodec}.
Variable cfg : WorkerConfig.

(** What [w.wg] counts: the consumers blocked on the context and the retry goroutines. *)
Definition wg_count (st : Started) (s : Sys) : nat :=
  ((if cancelled (wk s) then 0 else waiting st) + length (pending (wk s)))%nat.

(** [Shutdown]: cancel, then [None] when the group is done and the context's error when the
    caller's deadline passes first, with the retry goroutines taking their way out. *)
Definition Shutdown (s : Sys) (woken : nat) : Sys * option error :=
  let s1 := Nat.iter woken (λ x, fire cfg x 0 true) (set_wk s (Worker.Shutdown (wk s))) in
  (s1, if (wg_count (mkStarted false 0 None) s1 =? 0)%nat then None else Some (ContextError "context deadline exceeded")).

Lemma shutdown_iter s n : cancelled (wk s) = true →
  let s' := Nat.iter n (λ x, fire cfg x 0 true) s in
  cancelled (wk s') = true ∧ pending (wk s') = drop n (pending (wk s)) ∧ queue (wk s') = queue (wk s) ∧ in_flight s' = in_flight s.
Proof.
  intros Hc. induction n as [|n IH]; [by rewrite drop_0|]. cbn [Nat.iter nat_rect]. fold (Nat.iter n (λ x, fire cfg x 0 true) s) in *.
  set (s' := Nat.iter n (λ x, fire cfg x 0 true) s) in *. destruct IH as (H1 & H2 & H3 & H4).
  change (Nat.iter (S n) (λ x, fire cfg x 0 true) s) with (fire cfg s' 0 true).
  unfold fire. rewrite H2, lookup_drop, Nat.add_0_r. destruct (pending (wk s) !! n) as [[d data]|] eqn:Hn.
  - rewrite H1. cbv zeta. cbn [log_fate set_wk wk in_flight]. unfold retryFire. rewrite H2, lookup_drop, Nat.add_0_r, Hn, H1.
    cbn [cancelled pending queue]. rewrite drop_drop, take_0. cbn [app]. split_and!; [done|f_equal; lia|done|done].
  - rewrite H1, H2. split_and!; [done| |done|done]. rewrite !drop_ge; [done| |]; apply lookup_ge_None in Hn; lia.
Qed.

(** Shutdown returns nil once every retry goroutine has woken up: the retries that were
    waiting are dropped, the queue is untouched, and a message whose handler is still running
    is not waited for. *)
Theorem shutdown_drops_retries (s : Sys) :
  let '(s', err) := Shutdown s (length (pending (wk s))) in
  err = None ∧ pending (wk s') = [] ∧ queue (wk s') = queue (wk s) ∧ in_flight s' = in_flight s.
Proof.
  unfold Shutdown. destruct (shutdown_iter (set_wk s (Worker.Shutdown (wk s))) (length (pending (wk s))) eq_refl) as (H1 & H2 & H3 & H4).
  unfold wg_count. rewrite H1, H2. cbn [set_wk wk Worker.Shutdown pending]. rewrite drop_all. split_and!; [done|done|exact H3|exact H4].
Qed.
End shutdown.

(** ** Concrete runs *)

Definition sample_cfg : WorkerConfig := Worker.New (mkWorkerConfig "jobs" "" 1).
Definition sample_dispatch : event := EDispatch "j1" "r1" 0 "email.send" (Ok "{}") 2 None.
Definition sample_run (evs : list event) : Sys :=
  @run sample_codec sample_cfg 10 (λ _ _, false) (init {["email.send"]} true) evs.

(** A connection lost between a failed handling and its acknowledgement: the job runs again
    from the start, besides its retry. *)
Definition lossy : list event :=
  [EArrive 0; EDeliver; EConsume 0 (Some ErrInternal); ELost; EFire 0 true; EArrive 0; EDeliver; EConsume 0 (Some ErrInternal);
   EDeliver; EConsume 0 (Some ErrInternal)].

Lemma executions_bounded_witness :
  let s := sample_run ([] ++ sample_dispatch :: lossy) in
  executions "j1" (wk s) ≤ 2 * (1 + Z.of_nat (length (filter (@carries sample_codec "j1") (requeued s)))) ∧
  executions "j1" (wk s) = 3.
Proof.
  split; [|vm_compute; reflexivity].
  refine (proj1 (@executions_bounded sample_codec sample_cfg 10 (λ _ _, false) {["email.send"]} true [] lossy "j1" "r1" "email.send" "{}" 0 2 None _ _)).
  - repeat (apply Forall_cons; split); try exact I; [|by apply Forall_nil]. split; [exact I|]. vm_compute. discriminate.
  - intros id' r n t' p m' f Hin. change (EDispatch id' r n t' p m' f ∈ lossy) in Hin. unfold lossy in Hin. rewrite !elem_of_cons in Hin.
    repeat (destruct Hin as [Hin|Hin]; [discriminate Hin|]). by apply elem_of_nil in Hin.
Defined.

Lemma accepted_jobs_conserved_witness :
  let s := sample_run [sample_dispatch; EArrive 0; EDeliver; EConsume 0 (Some ErrInternal); EAck 0] in
  "j1" ∈ accepted s ∧ (∃ m, m ∈ copies s ∧ @carries sample_codec "j1" m) ∧ fates s = [] ∧ lost s = [].
Proof.
  intros s. assert ("j1" ∈ accepted s) as Hin by (vm_compute; left). assert (fates s = []) as Hf by (vm_compute; reflexivity).
  assert (lost s = []) as Hl by (vm_compute; reflexivity). split; [exact Hin|]. split; [|by split].
  destruct (@accepted_jobs_conserved sample_codec sample_cfg 10 (λ _ _, false) {["email.send"]} true
    [sample_dispatch; EArrive 0; EDeliver; EConsume 0 (Some ErrInternal); EAck 0]) as (Hc & _).
  - repeat (apply Forall_cons; split); try exact I; [|by apply Forall_nil]. split; [exact I|]. vm_compute. discriminate.
  - destruct (Hc "j1" Hin) as [Hm|[[f Hbad]|[l Hbad]]]; [exact Hm| |]; exfalso.
    + change (("j1", f) ∈ fates s) in Hbad. rewrite Hf in Hbad. by apply elem_of_nil in Hbad.
    + change (("j1", l) ∈ lost s) in Hbad. rewrite Hl in Hbad. by apply elem_of_nil in Hbad.
Defined.

Lemma accepted_jobs_settle_witness :
  let s := sample_run [sample_dispatch; EArrive 0; EDeliver] in
  Acc (λ y x, @moves sample_codec sample_cfg 10 (λ _ _, false) x y) s ∧ accepted s = ["j1"].
Proof.
  split; [|vm_compute; reflexivity].
  refine (proj1 (@accepted_jobs_settle sample_codec sample_cfg 10 (λ _ _, false) {["email.send"]} [sample_dispatch; EArrive 0; EDeliver] _ _ _ _)).
  - apply Nat.lt_0_succ.
  - split; [reflexivity|discriminate].
  - repeat (apply Forall_cons; split); try exact I; [|by apply Forall_nil]. split; [exact I|]. vm_compute. discriminate.
  - by repeat constructor.
Defined.

(** A job accepted before any worker declared the queue, or sent to an exchange nobody bound,
    is gone although the client was answered 201. *)
Example dropped_before_declare :
  let s := @run sample_codec sample_cfg 10 (λ _ _, false) (init {["email.send"]} false) [sample_dispatch; EArrive 0; EDeclare; EDeliver] in
  accepted s = ["j1"] ∧ copies s = [] ∧ fates s = [] ∧ lost s = [("j1", Unroutable)].
Proof. vm_compute. done. Qed.

Example dropped_at_unbound_exchange :
  let s := @run sample_codec (mkWorkerConfig "jobs" "events" 1) 10 (λ _ _, false) (init {["email.send"]} true) [sample_dispatch; EArrive 0; EDeliver] in
  accepted s = ["j1"] ∧ copies s = [] ∧ fates s = [] ∧ lost s = [("j1", Unroutable)].
Proof. vm_compute. done. Qed.

(** The same when the connection goes away before the broker has taken the publication: no
    confirm is asked for, and nobody is told. *)
Example vanished_after_201 :
  let s := sample_run [sample_dispatch; EVanish 0; EDeliver] in
  accepted s = ["j1"] ∧ copies s = [] ∧ fates s = [] ∧ lost s = [("j1", Vanished)] ∧ executed (wk s) = [].
Proof. vm_compute. done. Qed.

(** A type the API accepts and the worker has no handler for is acknowledged and dropped. *)
Example unhandled_type :
  let s := @run sample_codec sample_cfg 10 (λ _ _, false) (init {["audit.cleanup"]} true) [sample_dispatch; EArrive 0; EDeliver; EConsume 0 None; EAck 0] in
  accepted s = ["j1"] ∧ copies s = [] ∧ fates s = [("j1", NoHandler)] ∧ executed (wk s) = [].
Proof. vm_compute. done. Qed.

(** A failed job that waits for its retry when the worker stops is gone. *)
Example retry_lost_at_shutdown :
  let s := sample_run [sample_dispatch; EArrive 0; EDeliver; EConsume 0 (Some ErrInternal); EAck 0; EStop; EFire 0 true] in
  accepted s = ["j1"] ∧ copies s = [] ∧ fates s = [("j1", RetryCancelled)].
Proof. vm_compute. done. Qed.

(** The handler of a delivery runs on after [Shutdown] has returned nil. *)
Example shutdown_leaves_handler :
  let s := sample_run [sample_dispatch; EArrive 0; EDeliver] in
  @Shutdown sample_codec sample_cfg s 0 = (set_wk s (Worker.Shutdown (wk s)), None) ∧ in_flight s = [(true, "first")].
Proof. vm_compute. done. Qed.

End Delivery.
