(* ===== verification/TestUtil.v ===== *)
(** * Integration-test helpers

    Models [internal/platform/testutil]: the containers with their migrations
    ([containers.go]) and the application wired for tests ([testapp.go]).  Docker, the migration
    library and the constructors answer from outside; the model is about what is left running
    on every path, how the test application differs from the real one, and what the tokens it
    issues are worth. *)
From S2P Require Import Prelude AppErr Config Port Auth Middleware Routes Server App.
Import AppErr Config Auth Middleware Routes.

Module TestUtil.

(** ** containers.go *)

(** [PanicSlice]: slicing past the end of a string. *)
Inductive done (A : Type) := Returned (r : result error A) | PanicSlice.
Arguments Returned {A} r.
Arguments PanicSlice {A}.

(** What the migration library answers: the source driver, the instance for a database URL,
    and [Up] ([None] for [migrate.ErrNoChange] as well). *)
Record Migrations := mkMigrations {
  mg_iofs : option error; mg_instance : string → option error; mg_Up : string → option error
}.

(** [connStr[len("postgres"):]] *)
Definition drop_scheme (connStr : string) : option string :=
  if (8 <=? String.length connStr)%nat
  then Some (String.substring 8 (String.length connStr - 8) connStr) else None.

Definition runMigrations (mg : Migrations) (connStr : string) : done unit :=
  match mg_iofs mg with
  | Some err => Returned (Err (FmtError "failed to create iofs driver: " err ""))
  | None =>
      match drop_scheme connStr with
      | None => PanicSlice
      | Some rest =>
          let pgx5ConnStr := "pgx5" +:+ rest in
          match mg_instance mg pgx5ConnStr with
          | Some err => Returned (Err (FmtError "failed to create migrate instance: " err ""))
          | None =>
              match mg_Up mg pgx5ConnStr with
              | Some err => Returned (Err (FmtError "failed to run migrations up: " err ""))
              | None => Returned (Ok tt)
              end
          end
      end
  end.

(** The containers running when the call is over. *)
Inductive container := Postgres | Redis.
#[export] Instance container_eq_dec : EqDecision container.
Proof. solve_decision. Defined.

(** The result is the connection string with the containers its clean-up terminates. *)
Definition StartPostgres (run : option error) (connString : result error string) (mg : Migrations)
    : list container * done (string * list container) :=
  match run with
  | Some err => ([], Returned (Err (FmtError "failed to start postgres container: " err "")))
  | None =>
      match connString with
      | Err err => ([], Returned (Err (FmtError "failed to get postgres connection string: " err "")))
      | Ok connStr =>
          match runMigrations mg connStr with
          | PanicSlice => ([Postgres], PanicSlice)
          | Returned (Err err) => ([], Returned (Err (FmtError "failed to run migrations: " err "")))
          | Returned (Ok _) => ([Postgres], Returned (Ok (connStr, [Postgres])))
          end
      end
  end.

Definition StartRedis (run : option error) (host port : result error string) : list container * result error (string * list container) :=
  match run with
  | Some err => ([], Err (FmtError "failed to start redis container: " err ""))
  | None =>
      match host with
      | Err err => ([], Err (FmtError "failed to get redis host: " err ""))
      | Ok h =>
          match port with
          | Err err => ([], Err (FmtError "failed to get redis port: " err ""))
          | Ok p => ([Redis], Ok (h +:+ ":" +:+ p, [Redis]))
          end
      end
  end.

(** A container runs on exactly when its caller was given the clean-up that ends it, for the
    connection strings of the [postgres] schemes. *)
Theorem containers_not_leaked run cs mg host port :
  (∀ s, cs = Ok s → has_prefix "postgres" s = true) →
  (match StartPostgres run cs mg with
   | (running, Returned (Ok (_, cleanup))) => running = cleanup
   | (running, Returned (Err _)) => running = []
   | (_, PanicSlice) => False
   end) ∧
  match StartRedis run host port with
  | (running, Ok (_, cleanup)) => running = cleanup
  | (running, Err _) => running = []
  end.
Proof.
  intros Hcs. split; [|unfold StartRedis; destruct run; [done|]; destruct host; [|done]; by destruct port].
  unfold StartPostgres. destruct run; [done|]. destruct cs as [s|]; [|done].
  assert (drop_scheme s ≠ None) as Hd.
  { destruct (has_prefix_spec "postgres" s) as [Hp _]. destruct (Hp (Hcs s eq_refl)) as [r ->]. unfold drop_scheme.
    rewrite length_append. done. }
  unfold runMigrations. destruct (mg_iofs mg); [done|]. destruct (drop_scheme s); [|done].
  destruct (mg_instance mg _); [done|]. by destruct (mg_Up mg _).
Qed.

(** The migrations run against the same database under the driver's scheme. *)
Lemma migration_url s : drop_scheme ("postgres" +:+ s) = Some s.
Proof.
  unfold drop_scheme. rewrite length_append. simpl (String.length "postgres").
  change ((8 <=? 8 + String.length s)%nat) with true. cbv iota. f_equal. simpl.
  rewrite Nat.sub_0_r. induction s as [|c s IH]; simpl; [done|]. by rewrite IH.
Qed.

(** ** testapp.go *)

Definition testJWTSecret : string := "integration-test-secret-key-minimum-length".
Definition TestJWTSecret : string := testJWTSecret.
Definition TestJWTConfig : JWTConfig := mkJWTConfig testJWTSecret 15 720 "goscratch" "goscratch-api".

(** It passes the validation a real start-up makes. *)
Lemma TestJWTConfig_valid : Validate TestJWTConfig = None.
Proof. reflexivity. Qed.

(** What the outside world answers. *)
Record TestWorld := mkTestWorld {
  tw_ParseConfig : string → option error;
  tw_NewWithConfig : string → Z → Z → option error;    (* with MaxConns and MinConns *)
  tw_Ping : option error;
  tw_NewRedisCache : string → option error;
  tw_NewLocalStorage : string → option error
}.

Inductive held := Pool | CacheConn.
#[export] Instance held_eq_dec : EqDecision held.
Proof. solve_decision. Defined.

Record TestApp := mkTestApp { ta_cache : App.adapter; ta_routes : list registration; ta_cleanup : list App.resource }.

Definition test_cache (w : TestWorld) (redisAddr : string) : App.adapter :=
  if String.eqb redisAddr "" then App.NoOp
  else match tw_NewRedisCache w redisAddr with Some _ => App.NoOp | None => App.Real end.

Definition test_routes : list registration :=
  RegisterModules
    [ health_RegisterRoutes; user_RegisterRoutes; auth_RegisterRoutes; role_RegisterRoutes;
      storage_RegisterRoutes; sse_RegisterRoutes; job_RegisterRoutes ].

(** What the returned clean-up closes, in order. *)
Definition cleanup : list App.resource :=
  [App.RServer; App.RCache; App.RQueue; App.RStorage; App.RSSE; App.RAuditor; App.RAuthorizer; App.RDB].

(** The connections opened, those closed before returning, and the outcome. *)
Definition NewTestApp (w : TestWorld) (pgConnStr redisAddr : string) : list held * list held * result error TestApp :=
  match tw_ParseConfig w pgConnStr with
  | Some err => ([], [], Err (FmtError "failed to parse pg config: " err ""))
  | None =>
      match tw_NewWithConfig w pgConnStr 5 1 with
      | Some err => ([], [], Err (FmtError "failed to create pg pool: " err ""))
      | None =>
          match tw_Ping w with
          | Some err => ([Pool], [Pool], Err (FmtError "failed to ping pg: " err ""))
          | None =>
              let c := test_cache w redisAddr in
              let opened := [Pool] ++ match c with App.Real => [CacheConn] | App.NoOp => [] end in
              match tw_NewLocalStorage w "/tmp/goscratch-test-storage" with
              | Some err => (opened, [Pool], Err (FmtError "failed to create local storage: " err ""))
              | None => (opened, [], Ok (mkTestApp c test_routes cleanup))
              end
          end
      end
  end.

Definition resource_of (h : held) : App.resource := match h with Pool => App.RDB | CacheConn => App.RCache end.

(** Everything a test application opened is closed by its clean-up, and a failed construction
    closes the pool; it leaves the Redis connection open when the storage directory cannot be
    made. *)
Theorem test_app_releases (w : TestWorld) (pg redis : string) :
  match NewTestApp w pg redis with
  | (opened, closed, Ok a) => closed = [] ∧ ∀ h, h ∈ opened → resource_of h ∈ ta_cleanup a
  | (opened, closed, Err _) =>
      (Pool ∈ opened → Pool ∈ closed) ∧
      (CacheConn ∈ opened ∧ CacheConn ∉ closed ↔
         test_cache w redis = App.Real ∧ tw_NewLocalStorage w "/tmp/goscratch-test-storage" ≠ None ∧
         tw_ParseConfig w pg = None ∧ tw_NewWithConfig w pg 5 1 = None ∧ tw_Ping w = None)
  end.
Proof.
  unfold NewTestApp. destruct (tw_ParseConfig w pg); [set_solver|]. destruct (tw_NewWithConfig w pg 5 1); [set_solver|].
  destruct (tw_Ping w); [set_solver|]. destruct (tw_NewLocalStorage w _).
  - destruct (test_cache w redis); set_solver.
  - split; [done|]. unfold cleanup. destruct (test_cache w redis); intros [] Hh; set_solver.
Qed.

(** The modules are registered as in the application, the documentation routes apart. *)
Lemma test_routes_as_app : app_routes = docs_RegisterRoutes ++ test_routes.
Proof. reflexivity. Qed.

(** *** Tokens *)

Definition GenerateAccessToken `{Crypto} (now : Z) (userID email name : string) : result error string :=
  jwt_SignedString
    (mkJwtClaims userID "" [] (Some (NumericDate (now + 15 * Minute))) (Some (NumericDate now)) (Some (NumericDate now))
       userID email name) testJWTSecret.

(** A token of [GenerateAccessToken] names no issuer and no audience, so the routes of the test
    application, like those of the real one, refuse it at any time. *)
Theorem test_token_refused `{Crypto} `{JwtVerifier} `{!JwtLaws} (now t : Z) (userID email name token : string) (r : Request) :
  GenerateAccessToken now userID email name = Ok token →
  text_claims (mkJwtClaims userID "" [] None None None userID email name) = true →
  bearer r token →
  ∃ msg, Auth t (DefaultAuthConfig TestJWTSecret) r = Respond (Resp.Unauthorized msg).
Proof.
  intros Hg Htext Hb. unfold Auth, parseToken. simpl. rewrite (bearer_extract _ _ Hb).
  pose proof (parse_signed t _ "goscratch" "goscratch-api" _ _ Hg Htext) as Hlaw. unfold TestJWTSecret.
  destruct (jwt_Parse t testJWTSecret "goscratch" "goscratch-api" token) as [raw|[|e]]; [|by eexists..].
  destruct Hlaw as (_ & Hv & _). unfold jwt_valid in Hv. cbn in Hv. discriminate Hv.
Qed.

End TestUtil.
